(* ===== verification/_CoqProject ===== *)
-Q . S2P
Prelude.v
GoStrings.v
GoText.v
SearchSelector.v
SearchLexer.v
SearchMonad.v
SearchParser.v
SearchParserFacts.v
SearchPaths.v
SearchPathEval.v
SearchEvaluator.v
UrlQuery.v
Json.v
FilterSchema.v
Filtering.v
NotifierEvent.v
NotifierWorker.v
Notifier.v
NotifierSystem.v
NotifierProviders.v
Conditions.v
NodeAllocationRequest.v
NodeAllocationController.v
MergeMaps.v
ReflectorStore.v
ScaleIn.v
ResourceSelection.v
NodeUpdateHandlers.v
NodeUpdates.v
NodeRollout.v
NodeStatus.v
NodeNames.v
NodeAllocation.v
Firmware.v
Unstructured.v
Handler.v
ProvisioningStatus.v
UpgradePlan.v
UpgradeGraph.v
SeedObjects.v
ProvisioningTask.v
UpgradeConfig.v
UpgradeRollout.v
UpgradeQuiet.v
UpgradeRolloutFacts.v
ProvisioningPolicy.v
NodeConfiguration.v
NodeAssignment.v
ProvisioningHardware.v
ProvisioningValidation.v
ProvisioningCluster.v
ProvisioningHardwareFacts.v
ProvisioningRequest.v
Upgrade.v
SeedSnapshot.v
SeedWorkloads.v
SeedRegistry.v
SeedMirrors.v
SeedInputs.v
SeedPreflight.v
SeedDetachment.v
SeedCleanup.v
SeedISO.v
SeedGeneration.v
SeedWorkloadFacts.v
SeedSnapshotFacts.v
SeedFrame.v
SeedOnce.v
SeedSpoke.v
ProvisioningFacts.v
ProvisioningSafety.v
ContractLaws.v
SeedEvidence.v
UpgradePause.v
UpgradeFacts.v
ProvisioningInstall.v
ProvisioningProperties.v
UpgradeProperties.v
SeedProperties.v
ProvisioningDeletion.v
