(* ===== verification/Prelude.v ===== *)
(** * The O-Cloud Manager: a verification library

    The O-Cloud Manager (o2ims) runs on a hub cluster.  Its servers (alarms,
    resources, clusters, provisioning, artifacts) answer the O-RAN O2 IMS API from
    PostgreSQL and notify subscribers of changes; its controllers provision
    and upgrade clusters, and its hardware manager allocates bare metal nodes for them.  This
    library models the logic that is the program's own: the filter language of the
    API, the middleware that applies it, the delivery of notifications, the
    allocation requests of the hardware manager, the requests that provision, upgrade
    and copy clusters, and the merge of configuration data.  All paths below are under src/internal/.

    ** How the parts interact

    A GET of a list goes through the [ResponseFilter] middleware.  It parses each
    [filter] parameter (search/), checks the attribute names against the OpenAPI
    schema, runs the server's handler on an interceptor, and on a 200 sends the
    objects of the list for which the selector evaluates to true; the path
    evaluator finds the attribute of a term in the decoded JSON.  A change in a
    server's database is given to the [Notifier] of the server, which dispatches it
    to one worker per subscription; each worker posts its queue in order to the
    consumer's callback and reports completions, on which the notifier moves the
    subscription's cursor and deletes notifications that everyone is past.  A
    ProvisioningRequest leads to a NodeAllocationRequest, which the hardware
    manager's reconciler drives with the status conditions: it selects hosts by their
    labels and their hardware data, allocates them group by group, and later rolls a
    new hardware profile out, the control plane first and each group within its
    maxUnavailable; each node goes through drain, reboot, and return to service.  The
    templates of a ProvisioningRequest are merged with its parameters by [DeepMergeMaps].
    The collectors of the servers watch the cluster through reflectors that write
    into a [ReflectorStore].

    ** Files

    - Prelude: outcomes of Go code (value, error, panic, out of fuel) and their
      monad, tactics, reachability, association lists.
    - GoStrings: strings as sequences of runes, the [Strconv] and [Unicode] interfaces
      with their laws, the dynamic values of [any], uuid.Parse.
    - SearchSelector (search/selector.go), SearchLexer (selector_lexer.go),
      SearchMonad and SearchParser (selector_parser.go), SearchParserFacts (its
      theorems), SearchPaths (paths_lexer.go, paths_parser.go): the language.  A
      lexer method is a function of the rest of the input, a parser method an
      element of the state monad over the lexer and the lookahead token.
    - SearchPathEval (path_evaluator.go), SearchEvaluator (selector_evaluator.go): one definition per method.
    - UrlQuery, Json, FilterSchema, Filtering: the middleware
      (service/common/api/middleware/filtering.go, schema_validator.go,
      schema_utils.go) and what it uses of net/url and encoding/json.
    - NotifierEvent, NotifierWorker, Notifier, NotifierSystem
      (service/common/notifier/event.go, notifier_worker.go, notifier.go): the
      handlers are functions on the state; [worker_step] interleaves one worker
      with its channels and its delivery goroutine, [sys_step] the event loop with
      all the workers and the database.
    - NotifierProviders: [Matches] and [Transform] of the three servers, as
      instances of the class [SubscriptionProvider] (and its law [TransformLaws])
      against which the notifier is proved; the witnesses of the notifier run on
      the alarms instance.
    - Conditions, NodeAllocationRequest, NodeAllocationController: status
      conditions, the FSM and the status updates (hardwaremanager/utils), the
      reconciler (hardwaremanager/controller/nodeallocationrequest_controller.go);
      ScaleIn: its scale-in annotation, node by node, and the deletion.
    - ResourceSelection (hardwaremanager/controller/resource_selection.go), NodeNames
      (hardwaremanager/utils/allocated_node.go), NodeAllocation (helpers.go): which
      hosts fit a node group, the name of a node, the allocation of hosts of a hub to
      requests.
    - NodeUpdateHandlers: the handlers of one node under update (helpers.go,
      baremetalhost_manager.go, node_operations.go) in a monad of state and errors,
      where each call that writes may fail ([Env]); NodeUpdates: the groups, the
      choice of the nodes to process and one reconcile; NodeRollout: sequences of
      reconciles, edits and events of the cluster and its hosts, where the
      MachineConfigPools and the membership of nodes may differ at every reconcile;
      NodeStatus: the condition derived from the nodes.
    - Firmware (hostfirmwarecomponents_manager.go, hostfirmwaresettings_manager.go,
      hostupdatepolicy_manager.go): what a host runs against what its profile asks for,
      and the objects that ask the hardware to change.
    - MergeMaps: controllers/utils/merge.go.  GoText, Unstructured: the texts and the
      dynamic objects of the controllers.
    - Handler: programs that change a state and may fail, with their weakest
      preconditions, frames and triples.  ProvisioningStatus (controllers/utils/
      provisioningrequest.go, conditions.go): the request and its status.
      ProvisioningTask: the task of a reconcile, the calls it makes and the log of
      them, the environment that answers, the timeouts.
    - ProvisioningPolicy, NodeConfiguration, ProvisioningHardware,
      ProvisioningValidation, ProvisioningCluster, ProvisioningRequest
      (controllers/provisioningrequest_*.go, utils/hardware_utils.go): the phases of a
      reconcile, one definition per method, composed in [Reconcile].  Upgrades and seed
      images reach it through the class [Subsystems]; [with_upgrades] fills in the
      upgrades of the source, [all_subsystems] the seed images as well.
    - ProvisioningFacts: what a part may change of a request ([evolves]), with a tactic
      that walks through a part; ProvisioningSafety, ProvisioningInstall,
      ProvisioningDeletion: invariants of a reconcile against any environment, with
      the laws of the other components ([SubsystemLaws]); ProvisioningProperties:
      theorems, those on timeouts too, and an environment in which all goes well.
      NodeAssignment, ProvisioningHardwareFacts: the hardware of nodes, and the updates
      of the NodeAllocationRequest.
    - UpgradePlan (controllers/utils/upgrade.go, validation/upgrade.go): versions and
      their order ([Semver], [SemverLaws]), the history of a ClusterVersion, the plan of a
      rollout and its validation, with its meaning.  UpgradeGraph
      (utils/cincinnati): the intermediate version of an EUS upgrade.  UpgradeConfig
      (provisioning/upgrade.go): what the template and the parameters say of an upgrade.
      UpgradeRollout and Upgrade (provisioningrequest_upgrade.go): the rollout to the
      worker pools by waves and stages, and the upgrade around it, image based ones
      included.
    - UpgradeQuiet (calls that leave the rollout alone), UpgradeRolloutFacts,
      UpgradePause, UpgradeFacts: what an upgrade does whatever is answered.
      ContractLaws: upgrades and seed generation meet [SubsystemLaws].
      UpgradeProperties: a cluster to run on.
    - SeedObjects: the objects of a run of seed generation and the calls on them, which
      are calls of the task ([Seed]).  SeedSnapshot, SeedWorkloads, SeedRegistry,
      SeedMirrors, SeedInputs, SeedPreflight, SeedDetachment, SeedCleanup, SeedISO,
      SeedGeneration (provisioningrequest_seedgeneration*.go): the frozen inputs, the pods
      and the job, the credentials of registries and the proof that they allow a push, the
      mirrors and certificates, how the inputs are resolved, the checks of the spoke, the removal of its agents, every clean-up, the live ISO,
      and the run ([reconcileSeedGeneration]), whose steps are one reconcile each.
    - SeedWorkloadFacts, SeedSnapshotFacts: the job and the snapshot are recognised and
      read back.  SeedFrame: an interface ([QuietFrame]) between the handlers and what is
      shown of a run: a relation of states that the quiet calls keep is kept by every
      handler but a few, among them what precedes a call in the log.  SeedOnce,
      SeedSpoke, SeedEvidence and ContractLaws are instances of it; SeedProperties has their
      theorems, the contract of the whole program, and runs to apply them to.
    - ReflectorStore: service/common/async/store.go, [store_step] interleaving the
      reflector's goroutine with that of the receiver.

    ** What the theorems show

    - Notifier: in every interleaving, a notification that a worker has yet to report is
      not deleted, deliveries are reported in order, once each, no goroutine blocks
      or panics, a PATCH that overtakes its creation is not lost, start-up dispatches
      the stored events in sequence; the retries of one delivery.
    - Filter: the parser terminates, inverts the printer exactly where it can,
      and rejects the one kind of name it cannot read back; path evaluation is
      compositional and is nested lookup on JSON; the operators are each other's
      negations and orders where they are; the middleware sends exactly the
      matching objects in order, always answers once, and its error answers.
    - Hardware manager: the invariant of the request's status over all user edits
      and reconciles, timeouts reported once, the start time of an operation,
      scale-in removes exactly what it was asked to and drains hosts that are up.
    - Selection and allocation: what a criterion means, and that exactly the hosts
      that meet them all are returned; no group gets more nodes than its size, no
      host is given to two nodes, the names of nodes are legal.
    - Updates: a reconcile that starts a node leaves those of its pool that are under
      update within the limit of that moment, workers do not start before the control
      plane is done, a host is
      only rebooted when its node is drained (or draining is skipped), reconciles whose
      calls succeed take every node of a group through drain, reboot and return until the
      new profile is applied; the derived condition.
    - Firmware: hardware that carries out what is asked of it ends valid, and a host
      that needs no update is one whose firmware matches its profile.
    - Reflector store: it refines an atomic queue (every change is handled once and in
      order), no wake-up is lost, nothing blocks under the lock; the calls of a sync.
    - ProvisioningRequest: whatever is answered and whichever calls fail, a request is
      reported as fulfilled only when all that it asked for is done, a cluster is
      installed only on provisioned hardware, ZTP Done is for ever, dependents are
      deleted in order and only for a request that is deleted, an installation that is
      overdue fails the request with the timeout as the reason; no two nodes share
      hardware, and a change is sent to the hardware manager when there is one, once.
    - Upgrades: the worker pools are held back while the control plane is upgraded and
      then released in the order of the plan, each wave after the one before is updated
      and no stage before it is authorized; authorization only grows and waiting for it
      is not counted as time; pools that could not be listed are never taken for none; an
      upgrade is completed when all of it is over; the graph
      gives the best intermediate version, and exactly the valid plans are accepted.
    - Seed generation: upgrades and seed generation keep the contract under which the
      theorems on the reconciler hold, so these are theorems on the program; the lifecycle
      agent and the job of the ISO are asked once, after the intent was stored; the spoke
      is changed, or asked for a seed image, only when that was recorded and its identity was checked; a run completes
      only on the answer of the agent or of the pods of its own job; the credentials that
      are frozen were proved at registries that want any (one that lets anyone push is taken for
      a proof, [anonymous_push_accepted]), and the secrets of a registry go only to it and to the token
      server that it names, over HTTPS; mirrors are normalized to one entry a source; frozen inputs are read
      back as they were; the job that was submitted, and no other, is recognised.
    - Merge: the rules per key, independence of map order, idempotence, and the
      result of a merge by key.

    ** Bounds and fuel

    The parser's loops take one unit of fuel per rune plus one ([Parse_returns]
    shows it is enough); schema validation takes fuel linear in the path under a
    rank on schemas ([ValidateFieldPath_terminates]); everything else is
    structural.  Integers of the program that are only compared or counted are
    [Z]; conversions of filter values go through the [Strconv] interface, which
    has Go's range errors.

    ** Not modelled

    SQL, HTTP transport, the Kubernetes API server beyond get and update with
    conflicts, byte-level JSON, logging.  In the handlers of a node's update, the
    answers of the firmware comparison are an input ([Env]).  In a reconcile of a
    ProvisioningRequest the parts that neither change the request nor decide on its
    phases (labels, secrets, the agents of removed nodes, rendering of templates) are
    calls of the environment ([RunSource], [AskSource], [RenderClusterInstance],
    [MergeClusterInput], [MergeHwMgmtInput]), and the texts of errors keep what the
    code looks at.  So are the client of the cluster that is upgraded and its clean-up,
    the merge of the upgrade data with its schema, the download of the update graph and
    the making of an ImageBasedGroupUpgrade ([EnsureSpokeClient], [CleanupSpokeAccess],
    [MergeUpgradeData], [GetGraph], [BuildIBGU]); a ClusterVersion that was patched keeps
    the status that was read, which only the text of a timeout shows.  Of seed
    generation, a request over HTTP, a TLS handshake and a command over SSH are calls, the
    checks that the validation of a request makes of the same inputs are calls of the
    validation, and the encodings, the parsers of images and URLs, certificates and the
    regular expressions are those of the libraries ([SeedEncoding], [SeedLibraries],
    [SeedFormats], [SeedText]); the errors of libraries are left out of texts.  Cluster templates, the deallocation of hosts, the collectors and the servers'
    handlers are not modelled. *)

From stdpp Require Export base tactics list gmap strings option relations.
From Stdlib Require Export ZArith Lia.

#[global] Set Default Goal Selector "!".


(** ** Outcomes of Go code

    A call of the modelled Go code returns normally, returns a non-nil [error],
    panics at run time, or (for a loop driven by fuel) has not finished.  Each
    component instantiates [E] with its own type of error values. *)

Inductive outcome (E A : Type) : Type :=
| Ret (a : A)
| Err (e : E)
| Panic
| NoFuel.
Arguments Ret {E A} a.
Arguments Err {E A} e.
Arguments Panic {E A}.
Arguments NoFuel {E A}.

Section outcome_monad.
Context {E : Type}.

#[export] Instance outcome_ret : MRet (outcome E) := fun _ a => Ret a.

#[export] Instance outcome_bind : MBind (outcome E) := fun _ _ k m =>
  match m with
  | Ret a => k a
  | Err e => Err e
  | Panic => Panic
  | NoFuel => NoFuel
  end.

#[export] Instance outcome_fmap : FMap (outcome E) := fun _ _ f m =>
  match m with
  | Ret a => Ret (f a)
  | Err e => Err e
  | Panic => Panic
  | NoFuel => NoFuel
  end.

(** A call that came back, with a value or with an error. *)
Definition returned {A} (m : outcome E A) : Prop :=
  match m with Ret _ | Err _ => True | Panic | NoFuel => False end.

(** [fmt.Errorf("...: %w", err)]: the error is wrapped. *)
Definition map_err {E' A} (f : E -> E') (m : outcome E A) : outcome E' A :=
  match m with
  | Ret a => Ret a
  | Err e => Err (f e)
  | Panic => Panic
  | NoFuel => NoFuel
  end.

Lemma bind_Ret {A B} (m : outcome E A) (k : A -> outcome E B) b :
  m ≫= k = Ret b <-> exists a, m = Ret a /\ k a = Ret b.
Proof. destruct m; simpl; naive_solver. Qed.

Lemma bind_Err {A B} (m : outcome E A) (k : A -> outcome E B) e :
  m ≫= k = Err e <-> m = Err e \/ exists a, m = Ret a /\ k a = Err e.
Proof. destruct m; simpl; naive_solver. Qed.

Lemma fmap_Ret {A B} (f : A -> B) (m : outcome E A) b :
  f <$> m = Ret b -> exists a, m = Ret a /\ b = f a.
Proof. destruct m; simpl; naive_solver. Qed.

Lemma map_err_Ret {E' A} (f : E -> E') (m : outcome E A) a : map_err f m = Ret a -> m = Ret a.
Proof. destruct m; simpl; congruence. Qed.

Lemma bind_assoc {A B C} (m : outcome E A) (k : A -> outcome E B) (h : B -> outcome E C) :
  (m ≫= k) ≫= h = m ≫= (fun a => k a ≫= h).
Proof. by destruct m. Qed.
End outcome_monad.

#[export] Instance outcome_eq_dec `{EqDecision E, EqDecision A} : EqDecision (outcome E A).
Proof. solve_decision. Defined.

(** ** Tactics *)

(** Case analysis on every [match] and [if] the goal or the context is stuck on. *)
Ltac cases := repeat (case_match; simplify_eq/=; try done).

(** Turn boolean tests into propositions, then decide. *)
Ltac bools :=
  repeat match goal with
  | H : _ && _ = true |- _ => apply andb_true_iff in H as [? ?]
  | H : _ || _ = false |- _ => apply orb_false_iff in H as [? ?]
  | H : negb _ = true |- _ => apply negb_true_iff in H
  | H : negb _ = false |- _ => apply negb_false_iff in H
  | H : (_ =? _)%Z = true |- _ => apply Z.eqb_eq in H
  | H : (_ =? _)%Z = false |- _ => apply Z.eqb_neq in H
  | H : (_ <=? _)%Z = true |- _ => apply Z.leb_le in H
  | H : (_ <=? _)%Z = false |- _ => apply Z.leb_gt in H
  | H : (_ <? _)%Z = true |- _ => apply Z.ltb_lt in H
  | H : (_ <? _)%Z = false |- _ => apply Z.ltb_ge in H
  | H : bool_decide _ = true |- _ => apply bool_decide_eq_true in H
  | H : bool_decide _ = false |- _ => apply bool_decide_eq_false in H
  end.

(** Invert a chain of [outcome] binds that came back. *)
Ltac inv_bind :=
  repeat match goal with
  | H : _ ≫= _ = Ret _ |- _ => apply bind_Ret in H as (? & ? & ?)
  end.

(** ** Step relations: invariants by induction on reachability *)

Section reachability.
Context {State : Type} (init : State -> Prop) (step : relation State).

Definition reachable (s : State) : Prop := exists s0, init s0 /\ rtc step s0 s.

Lemma reachable_invariant (I : State -> Prop) :
  (forall s, init s -> I s) ->
  (forall s s', I s -> step s s' -> I s') ->
  forall s, reachable s -> I s.
Proof.
  intros Hi Hs s (s0 & H0 & Hr). apply Hi in H0.
  induction Hr as [|x y z Hxy _ IH]; eauto.
Qed.

Lemma reachable_step s s' : reachable s -> step s s' -> reachable s'.
Proof. intros (s0 & ? & ?) ?. exists s0. eauto using rtc_r. Qed.

Lemma reachable_init s : init s -> reachable s.
Proof. intros ?. exists s. split; [done|apply rtc_refl]. Qed.
End reachability.

(** ** Labelled executions and simulation *)

Section executions.
Context {State Label : Type} (step : State -> Label -> State -> Prop).

Inductive exec (s0 : State) : list Label -> State -> Prop :=
| exec_nil : exec s0 [] s0
| exec_snoc tr l s s' : exec s0 tr s -> step s l s' -> exec s0 (tr ++ [l]) s'.

Lemma exec_trans s0 tr s tr' s' : exec s0 tr s -> exec s tr' s' -> exec s0 (tr ++ tr') s'.
Proof.
  intros He. induction 1 as [|tr' l s' s'' _ IH Hs]; [by rewrite app_nil_r|].
  rewrite app_assoc. by econstructor.
Qed.

Lemma exec_step s l s' : step s l s' -> exec s [l] s'.
Proof. intros Hs. apply (exec_snoc _ [] _ s); [constructor|done]. Qed.
End executions.
Arguments exec_nil {_ _ _ _}.
Arguments exec_snoc {_ _ _ _}.

Section simulation.
Context {C A Label : Type} (cstep : C -> Label -> C -> Prop) (astep : A -> Label -> A -> Prop).
Context (silent : Label -> Prop) `{forall l, Decision (silent l)} (R : C -> A -> Prop).

(** A step of the implementation is a step of the specification with the same label,
    or silent. *)
Context (forward : forall c l c' a, R c a -> cstep c l c' ->
  (silent l /\ R c' a) \/ (~ silent l /\ exists a', astep a l a' /\ R c' a')).

(** Forward simulation: the visible steps of an execution of the implementation are
    an execution of the specification. *)
Lemma forward_simulation c0 a0 tr c :
  R c0 a0 -> exec cstep c0 tr c -> exists a, exec astep a0 (filter (fun l => ~ silent l) tr) a /\ R c a.
Proof using forward.
  intros H0. induction 1 as [|tr l c c' _ (a & Ha & HR) Hs]; [exists a0; split; [constructor|done]|].
  destruct (forward _ _ _ _ HR Hs) as [[Hl HR']|(Hl & a' & Hs' & HR')]; rewrite filter_app, filter_cons.
  - exists a. rewrite decide_False by tauto. by rewrite app_nil_r.
  - exists a'. rewrite decide_True by done. split; [|done]. by econstructor.
Qed.
End simulation.

Create HintDb o2ims.
#[export] Hint Resolve reachable_step reachable_init : o2ims.

(** ** Association lists, searched from the front as a Go [for range] does *)

Fixpoint assoc_lookup {K V} `{EqDecision K} (k : K) (l : list (K * V)) : option V :=
  match l with
  | [] => None
  | (k', v) :: l' => if decide (k' = k) then Some v else assoc_lookup k l'
  end.

Lemma assoc_lookup_map {K V W} `{EqDecision K} (f : V -> W) (k : K) l :
  assoc_lookup k (map (fun '(k', v) => (k', f v)) l) = f <$> assoc_lookup k l.
Proof. induction l as [|[k' v] l IH]; simpl; [done|]. by case_decide. Qed.

Lemma assoc_lookup_elem {K V} `{EqDecision K} (k : K) (v : V) l :
  assoc_lookup k l = Some v -> (k, v) ∈ l.
Proof.
  induction l as [|[k' v'] l IH]; simpl; [done|]. case_decide as E.
  - intros [= ->]. subst. apply list_elem_of_here.
  - intros ?. apply list_elem_of_further. auto.
Qed.

(** A map assignment: an existing key keeps its place, a new one goes last. *)
Fixpoint set_key {K V} `{EqDecision K} (k : K) (v : V) (m : list (K * V)) : list (K * V) :=
  match m with
  | [] => [(k, v)]
  | (k', v') :: m' => if decide (k' = k) then (k, v) :: m' else (k', v') :: set_key k v m'
  end.

Section lookup.
Context {K V : Type} `{EqDecision K}.

Lemma lookup_set_key_eq k (v : V) (m : list (K * V)) : assoc_lookup k (set_key k v m) = Some v.
Proof.
  induction m as [|[k' v'] m IH]; simpl; [by rewrite decide_True|].
  case_decide as E; simpl; [by rewrite decide_True|by rewrite decide_False].
Qed.

Lemma lookup_set_key_ne k k' (v : V) (m : list (K * V)) :
  k <> k' -> assoc_lookup k (set_key k' v m) = assoc_lookup k m.
Proof.
  intros Hne. induction m as [|[j w] m IH]; simpl; [by rewrite decide_False by congruence|].
  case_decide as E; simpl; repeat case_decide; congruence.
Qed.

Lemma lookup_None k (m : list (K * V)) : assoc_lookup k m = None <-> k ∉ m.*1.
Proof.
  induction m as [|[j w] m IH]; simpl; [split; [intros _; apply not_elem_of_nil|done]|].
  rewrite not_elem_of_cons. case_decide; [split; [done|naive_solver]|]. rewrite IH. naive_solver.
Qed.

Lemma lookup_NoDup k (v : V) (m : list (K * V)) : NoDup m.*1 -> (k, v) ∈ m -> assoc_lookup k m = Some v.
Proof.
  induction m as [|[j w] m IH]; simpl; [by intros _ ?%elem_of_nil|].
  intros [Hj Hnd]%NoDup_cons [[= -> ->]|Hin]%elem_of_cons; [by rewrite decide_True|].
  rewrite decide_False; [by apply IH|]. intros ->. apply Hj, list_elem_of_fmap. by exists (k, v).
Qed.

Lemma set_key_same k (v : V) (m : list (K * V)) : assoc_lookup k m = Some v -> set_key k v m = m.
Proof.
  induction m as [|[j w] m IH]; simpl; [done|]. case_decide as E.
  - by intros [= ->]; rewrite E.
  - intros Hl. by rewrite IH.
Qed.

Lemma set_key_keys k (v w : V) (m : list (K * V)) : assoc_lookup k m = Some w -> (set_key k v m).*1 = m.*1.
Proof.
  induction m as [|[j u] m IH]; simpl; [done|]. case_decide as E; simpl; [by subst|].
  intros H. f_equal. by apply IH.
Qed.
End lookup.

(** ** Lists *)

Lemma filter_iff_elem {A} (P Q : A -> Prop) `{forall x, Decision (P x), forall x, Decision (Q x)} (l : list A) :
  (forall x, x ∈ l -> P x <-> Q x) -> filter P l = filter Q l.
Proof.
  induction l as [|a l IH]; intros Hpq; [done|]. rewrite !filter_cons.
  rewrite IH by (intros; apply Hpq; by apply list_elem_of_further).
  pose proof (Hpq a (list_elem_of_here _ _)). repeat case_decide; tauto.
Qed.

Lemma forallb_elem {A} (f : A -> bool) l x : forallb f l = true -> x ∈ l -> f x = true.
Proof. rewrite forallb_forall. intros Hf Hx. apply Hf. by apply list_elem_of_In. Qed.

Lemma fold_left_invariant {A B} (P : A -> Prop) (f : A -> B -> A) l a :
  P a -> (forall a b, b ∈ l -> P a -> P (f a b)) -> P (fold_left f l a).
Proof.
  revert a; induction l as [|b l IH]; intros a Ha Hf; simpl; [done|].
  apply IH; [apply Hf; [apply list_elem_of_here|done]|].
  intros a' b' Hb. apply Hf. by apply list_elem_of_further.
Qed.
