(* ===== verification/GoStrings.v ===== *)
(** * Go strings, runes and the standard library's conversions

    A rune is a code point ([Z]).  A Go string of the query languages is the
    sequence of its runes, in the order in which [bytes.Buffer.ReadRune] and
    [for _, r := range s] deliver them; UTF-8 itself is not modelled.  On valid
    UTF-8 the byte order used by [strings.Compare] and the byte search of
    [strings.Contains] agree with the order and the search on runes.

    The tables of package [unicode] are written out for Latin-1, as Go does in
    [unicode.properties]; beyond U+00FF they are the fields of [Unicode].  The
    binary/decimal conversions of [strconv] are the fields of [Strconv]. *)
From Corelib Require Import SpecFloat.
From S2P Require Import Prelude.
#[local] Open Scope Z_scope.

Abbreviation rune := Z (only parsing).
Abbreviation gostring := (list Z) (only parsing).

(** A string literal of the Go source (ASCII). *)
Definition lit (s : string) : gostring :=
  map (fun a => Z.of_N (Ascii.N_of_ascii a)) (String.list_ascii_of_string s).
Arguments lit : simpl never.

(** ** The runes the lexers of internal/search test for *)
Abbreviation c_quote := 39 (only parsing).   (* ' *)
Abbreviation c_lpar := 40 (only parsing).    (* ( *)
Abbreviation c_rpar := 41 (only parsing).    (* ) *)
Abbreviation c_comma := 44 (only parsing).   (* , *)
Abbreviation c_slash := 47 (only parsing).   (* / *)
Abbreviation c_0 := 48 (only parsing).       (* 0 *)
Abbreviation c_1 := 49 (only parsing).       (* 1 *)
Abbreviation c_semi := 59 (only parsing).    (* ; *)
Abbreviation c_at := 64 (only parsing).      (* @ *)
Abbreviation c_under := 95 (only parsing).   (* _ *)
Abbreviation c_a := 97 (only parsing).       (* a *)
Abbreviation c_b := 98 (only parsing).       (* b *)
Abbreviation c_tilde := 126 (only parsing).  (* ~ *)

(** ** Package unicode *)

(** [unicode.IsLetter], [IsDigit], [ToLower] and simple case folding outside
    Latin-1 (for the last two, outside ASCII), with the facts the lexers rely on. *)
Class Unicode := {
  uni_letter : rune -> bool;
  uni_digit : rune -> bool;
  uni_lower : rune -> rune;
  uni_fold : rune -> rune -> bool;
}.

Definition between (lo r hi : Z) : bool := (lo <=? r) && (r <=? hi).

Definition isSpace (r : rune) : bool :=
  if r <=? 255 then
    (r =? 9) || (r =? 10) || (r =? 11) || (r =? 12) || (r =? 13) || (r =? 32)
    || (r =? 133) || (r =? 160)
  else
    (r =? 5760) || between 8192 r 8202 || (r =? 8232) || (r =? 8233)
    || (r =? 8239) || (r =? 8287) || (r =? 12288).

Definition isLetter `{Unicode} (r : rune) : bool :=
  if r <=? 255 then
    between 65 r 90 || between 97 r 122 || (r =? 170) || (r =? 181) || (r =? 186)
    || between 192 r 214 || between 216 r 246 || between 248 r 255
  else uni_letter r.

Definition isDigit `{Unicode} (r : rune) : bool :=
  if r <=? 255 then between 48 r 57 else uni_digit r.

Definition toLowerRune `{Unicode} (r : rune) : rune :=
  if r <=? 127 then (if between 65 r 90 then r + 32 else r) else uni_lower r.

(** The Unicode tables agree that no letter or digit is white space, and that the lower
    case of a rune is white space when the rune is. *)
Class UnicodeLaws `{Unicode} := {
  uni_letter_space : forall r, uni_letter r = true -> isSpace r = false;
  uni_lower_space : forall r, 127 < r -> isSpace (uni_lower r) = isSpace r;
}.

(** ** Package strings *)

Definition toLower `{Unicode} (s : gostring) : gostring := map toLowerRune s.

Definition fold_rune `{Unicode} (a b : rune) : bool :=
  if a =? b then true
  else if Z.max a b <=? 127 then
    let '(lo, hi) := (Z.min a b, Z.max a b) in between 65 lo 90 && (hi =? lo + 32)
  else uni_fold a b.

Fixpoint equalFold `{Unicode} (s t : gostring) : bool :=
  match s, t with
  | [], [] => true
  | a :: s', b :: t' => fold_rune a b && equalFold s' t'
  | _, _ => false
  end.

Fixpoint hasPrefix (s prefix : gostring) : bool :=
  match prefix, s with
  | [], _ => true
  | p :: prefix', r :: s' => (p =? r) && hasPrefix s' prefix'
  | _ :: _, [] => false
  end.

Fixpoint contains (s sub : gostring) : bool :=
  hasPrefix s sub || match s with [] => false | _ :: s' => contains s' sub end.

Fixpoint compareStr (s t : gostring) : comparison :=
  match s, t with
  | [], [] => Eq
  | [], _ :: _ => Lt
  | _ :: _, [] => Gt
  | a :: s', b :: t' =>
      match a ?= b with Eq => compareStr s' t' | c => c end
  end.

Fixpoint joinStr (elems : list gostring) (sep : gostring) : gostring :=
  match elems with
  | [] => []
  | [e] => e
  | e :: rest => e ++ sep ++ joinStr rest sep
  end.

(** [strings.Split] on a one-byte separator. *)
Fixpoint split_on (sep : Z) (s : list Z) : list (list Z) :=
  match s with
  | [] => [[]]
  | c :: t =>
      if c =? sep then [] :: split_on sep t
      else match split_on sep t with
           | [] => [[c]]
           | piece :: pieces => (c :: piece) :: pieces
           end
  end.

(** The bytes of a string: each rune in UTF-8. *)
Definition rune_bytes (r : rune) : list Z :=
  if r <=? 127 then [r]
  else if r <=? 2047 then [192 + r / 64; 128 + r mod 64]
  else if r <=? 65535 then [224 + r / 4096; 128 + (r / 64) mod 64; 128 + r mod 64]
  else [240 + r / 262144; 128 + (r / 4096) mod 64; 128 + (r / 64) mod 64; 128 + r mod 64].

Definition string_bytes (s : gostring) : list Z := s ≫= rune_bytes.

(** ** Package strconv *)

Definition int_min : Z := - 2 ^ 63.
Definition int_max : Z := 2 ^ 63 - 1.

Fixpoint digits_value (acc : Z) (s : gostring) : option Z :=
  match s with
  | [] => Some acc
  | r :: s' => if between 48 r 57 then digits_value (10 * acc + (r - 48)) s' else None
  end.

(** [strconv.Atoi]: an optional sign, then decimal digits; [None] is the
    [ErrSyntax] and [ErrRange] of the standard library. *)
Definition atoi (s : gostring) : option Z :=
  let '(neg, ds) := match s with
                    | 45 :: t => (true, t)
                    | 43 :: t => (false, t)
                    | _ => (false, s)
                    end in
  match ds with
  | [] => None
  | _ :: _ =>
      match digits_value 0 ds with
      | None => None
      | Some v =>
          let v := if (neg : bool) then - v else v in
          if between int_min v int_max then Some v else None
      end
  end.

(** Decimal digits of a natural number, least significant last. *)
Fixpoint dec_digits (fuel : nat) (n : Z) (acc : gostring) : gostring :=
  match fuel with
  | O => acc
  | S fuel' =>
      let acc' := (48 + n mod 10) :: acc in
      if n <? 10 then acc' else dec_digits fuel' (n / 10) acc'
  end.

(** [strconv.Itoa]; twenty digits are enough for every 64-bit integer. *)
Definition itoa (n : Z) : gostring :=
  if n <? 0 then 45 :: dec_digits 20 (- n) [] else dec_digits 20 n [].

Lemma dec_digits_value fuel n acc :
  0 <= n < 10 ^ Z.of_nat fuel -> digits_value 0 (dec_digits fuel n acc) = digits_value n acc.
Proof.
  revert n acc; induction fuel as [|fuel IH]; intros n acc Hn.
  { assert (n = 0) as -> by (change (10 ^ Z.of_nat 0) with 1 in Hn; lia). done. }
  assert (Hd : forall m, digits_value m ((48 + n mod 10) :: acc) = digits_value (10 * m + n mod 10) acc).
  { intros m. pose proof (Z.mod_pos_bound n 10). cbn [digits_value]. unfold between.
    destruct (Z.leb_spec 48 (48 + n mod 10)); [|lia].
    destruct (Z.leb_spec (48 + n mod 10) 57); [|lia]. simpl. f_equal. lia. }
  cbn [dec_digits]. destruct (Z.ltb_spec n 10).
  - rewrite Hd, (Z.mod_small n 10) by lia; f_equal; lia.
  - rewrite IH, Hd; [f_equal; pose proof (Z.div_mod n 10); lia|].
    rewrite Nat2Z.inj_succ, Z.pow_succ_r in Hn by lia.
    split; [apply Z.div_pos; lia|apply Z.div_lt_upper_bound; lia].
Qed.

Lemma dec_digits_head fuel n acc :
  0 <= n -> exists d t, dec_digits (S fuel) n acc = d :: t /\ 48 <= d <= 57.
Proof.
  revert n acc; induction fuel as [|fuel IH]; intros n acc Hn; cbn [dec_digits] in *;
    pose proof (Z.mod_pos_bound n 10); destruct (n <? 10) eqn:E;
    try (eexists _, _; split; [done|lia]).
  apply IH. apply Z.div_pos; lia.
Qed.

(** [Atoi] reads back what [Itoa] prints, and rejects what does not fit in 64 bits. *)
Lemma atoi_itoa n :
  Z.abs n < 10 ^ 20 -> atoi (itoa n) = if between int_min n int_max then Some n else None.
Proof.
  intros Hn. unfold itoa. destruct (Z.ltb_spec n 0).
  - destruct (dec_digits_head 19 (- n) []) as (d & t & Hd & _); [lia|].
    unfold atoi. rewrite Hd, <- Hd, dec_digits_value by (simpl; lia).
    cbn [digits_value]. by rewrite Z.opp_involutive.
  - destruct (dec_digits_head 19 n []) as (d & t & Hd & ?); [lia|].
    assert (atoi (dec_digits 20 n []) =
      match digits_value 0 (dec_digits 20 n []) with
      | Some v => if between int_min v int_max then Some v else None
      | None => None end) as ->.
    { rewrite Hd. assert (d = 48 \/ d = 49 \/ d = 50 \/ d = 51 \/ d = 52 \/ d = 53 \/ d = 54
        \/ d = 55 \/ d = 56 \/ d = 57) as Hdigit by lia.
      destruct_or! Hdigit; by subst d. }
    by rewrite dec_digits_value by (simpl; lia).
Qed.

Definition formatBool (b : bool) : gostring := if b then lit "true" else lit "false".

Definition parseBool (s : gostring) : option bool :=
  if decide (s ∈ [lit "1"; lit "t"; lit "T"; lit "TRUE"; lit "true"; lit "True"]) then Some true
  else if decide (s ∈ [lit "0"; lit "f"; lit "F"; lit "FALSE"; lit "false"; lit "False"])
  then Some false
  else None.

(** ** float64 *)

Abbreviation float64 := spec_float (only parsing).

#[export] Instance spec_float_eq_dec : EqDecision spec_float.
Proof. solve_decision. Defined.

(** The conversions of [strconv] and of the language that touch float64. *)
Class Strconv := {
  parseFloat : gostring -> option float64;
  formatFloat : float64 -> gostring;
  float_to_int : float64 -> Z;
  sprintf_s_float : float64 -> gostring;
}.

(** [float64(n)] for an integer, rounded to nearest even. *)
Definition float_of_int (n : Z) : float64 := binary_normalize 53 1024 n 0 false.

Definition float_one : float64 := float_of_int 1.
Definition float_zero : float64 := S754_zero false.

Definition float_eqb (x y : float64) : bool := bool_decide (SFcompare x y = Some Eq).
Definition float_ltb (x y : float64) : bool := bool_decide (SFcompare x y = Some Lt).
Definition float_leb (x y : float64) : bool := float_ltb x y || float_eqb x y.

Definition is_nan (x : float64) : bool := match x with S754_nan => true | _ => false end.

(** ** Concrete instances, for evaluating the models on ASCII input *)

Definition ascii_unicode : Unicode :=
  {| uni_letter := fun _ => false; uni_digit := fun _ => false;
     uni_lower := fun r => r; uni_fold := fun _ _ => false |}.

Lemma ascii_unicode_laws : @UnicodeLaws ascii_unicode.
Proof. constructor; by intros r. Defined.

(** Integers only: enough to run examples. *)
Definition integer_strconv : Strconv :=
  {| parseFloat := fun s => float_of_int <$> atoi s;
     formatFloat := fun _ => []; float_to_int := fun _ => 0;
     sprintf_s_float := fun _ => [] |}.

(** ** Values of Go's [any] that the search package compares *)

(** The dynamic types the code has a case for are constructors; everything else
    is [VOther], with the name of its type and the text [%s] gives for it. *)

Inductive goany : Type :=
| VNil
| VString (s : gostring)
| VInt (n : Z)
| VFloat (f : float64)
| VBool (b : bool)
| VOther (typ text : gostring).

#[export] Instance goany_eq_dec : EqDecision goany.
Proof. solve_decision. Defined.

(** [fmt.Sprintf("%s", v)]. *)
Definition sprintf_s `{Strconv} (v : goany) : gostring :=
  match v with
  | VNil => lit "%!s(<nil>)"
  | VString s => s
  | VInt n => lit "%!s(int=" ++ itoa n ++ lit ")"
  | VFloat f => sprintf_s_float f
  | VBool b => lit "%!s(bool=" ++ formatBool b ++ lit ")"
  | VOther _ text => text
  end.

Definition is_string (v : goany) : bool := match v with VString _ => true | _ => false end.

(** ** github.com/google/uuid: [uuid.Parse], as far as its error *)

(** The selector evaluator only asks whether a text parses.  The strings are
    indexed by byte, as in Go. *)

(** [xvalues]: is a byte a hexadecimal digit? *)
Definition xvalue_ok (b : Z) : bool := between 48 b 57 || between 65 b 70 || between 97 b 102.

(** [xtob(s[x], s[x+1])]; callers keep [x+1] below [len(s)]. *)
Definition xtob_ok (s : list Z) (x : nat) : bool :=
  match s !! x, s !! S x with
  | Some x1, Some x2 => xvalue_ok x1 && xvalue_ok x2
  | _, _ => false
  end.

Definition dash_at (s : list Z) (x : nat) : bool := bool_decide (s !! x = Some 45).

Definition lower_byte (b : Z) : Z := if between 65 b 90 then b + 32 else b.

(** [strings.EqualFold] against "urn:uuid:", none of whose letters folds to
    anything but its other ASCII case. *)
Definition urn_prefix (s : list Z) : bool :=
  bool_decide (map lower_byte (take 9 s) = lit "urn:uuid:").

(** The 36-byte form xxxxxxxx-xxxx-xxxx-xxxx-xxxxxxxxxxxx. *)
Definition uuid_tail_ok (s : list Z) : bool :=
  dash_at s 8 && dash_at s 13 && dash_at s 18 && dash_at s 23
  && forallb (xtob_ok s) [0; 2; 4; 6; 9; 11; 14; 16; 19; 21; 24; 26; 28; 30; 32; 34]%nat.

(** [uuid.Parse(s)] returns a nil error. *)
Definition uuid_Parse_ok (str : gostring) : bool :=
  let s := string_bytes str in
  match length s with
  | 36%nat => uuid_tail_ok s
  | 45%nat => urn_prefix s && uuid_tail_ok (drop 9 s)
  | 38%nat => uuid_tail_ok (drop 1 s)
  | 32%nat => forallb (fun i => xtob_ok s (i * 2)) (seq 0 16)
  | _ => false
  end.
