(* ===== verification/GoText.v ===== *)
(** * Text: what the controllers use of Go's strings, strconv and time on bytes

    Kubernetes names, annotations and messages are ASCII here, so [strings.TrimSpace],
    [ToLower] and [EqualFold] are those of ASCII. *)
From Stdlib Require Import Ascii.
From stdpp Require Export pretty.
From S2P Require Import Prelude.
#[local] Open Scope string_scope.

(** ** strings *)

Definition newline : string := String "010" EmptyString.

Definition is_space (c : ascii) : bool :=
  let n := nat_of_ascii c in ((9 <=? n) && (n <=? 13) || (n =? 32))%nat.

Fixpoint trim_left (s : string) : string :=
  match s with
  | String c s' => if is_space c then trim_left s' else s
  | EmptyString => s
  end.

Fixpoint trim_right (s : string) : string :=
  match s with
  | EmptyString => EmptyString
  | String c s' =>
      match trim_right s' with
      | EmptyString => if is_space c then EmptyString else String c EmptyString
      | t => String c t
      end
  end.

Definition TrimSpace (s : string) : string := trim_right (trim_left s).

(** [strings.Split] by a comma. *)
Fixpoint split_comma (s : string) : list string :=
  match s with
  | EmptyString => [EmptyString]
  | String c s' =>
      if decide (c = ","%char) then EmptyString :: split_comma s'
      else match split_comma s' with
           | [] => [String c EmptyString]
           | p :: rest => String c p :: rest
           end
  end.

Fixpoint Join (sep : string) (l : list string) : string :=
  match l with
  | [] => ""
  | [s] => s
  | s :: rest => s ++ sep ++ Join sep rest
  end.

(** [strings.ReplaceAll] of a text that is not empty; [skip] characters are a match that
    was replaced already. *)
Fixpoint ReplaceAll_from (old new : string) (skip : nat) (s : string) : string :=
  match s with
  | EmptyString => EmptyString
  | String c s' =>
      match skip with
      | S skip => ReplaceAll_from old new skip s'
      | O => if String.prefix old s then new ++ ReplaceAll_from old new (pred (String.length old)) s'
             else String c (ReplaceAll_from old new O s')
      end
  end.
Definition ReplaceAll (s old new : string) : string := ReplaceAll_from old new O s.

Example ReplaceAll_example : ReplaceAll "aaab" "aa" "x" = "xab".
Proof. reflexivity. Qed.

(** [fmt]'s %q, of printable text. *)
Fixpoint escape_quotes (s : string) : string :=
  match s with
  | EmptyString => EmptyString
  | String c s' =>
      let rest := escape_quotes s' in
      if decide (c = "034"%char \/ c = "\"%char) then String "\"%char (String c rest) else String c rest
  end.
Definition Quote (s : string) : string := String "034"%char (escape_quotes s ++ String "034"%char EmptyString).

(** [fmt.Sprintf("%v", l)] *)
Definition sprint_strings (l : list string) : string := "[" ++ Join " " l ++ "]".

(** [strings.SplitN(s, ".", 2)]: [None] where there is no second part. *)
Fixpoint split_dot (s : string) : option (string * string) :=
  match s with
  | "" => None
  | String c s' =>
      if decide (c = "."%char) then Some ("", s')
      else match split_dot s' with Some (a, b) => Some (String c a, b) | None => None end
  end.

(** [strings.Contains] *)
Fixpoint Contains (s sub : string) : bool :=
  String.prefix sub s || match s with "" => false | String _ s' => Contains s' sub end.

Definition lower (c : ascii) : ascii :=
  let n := nat_of_ascii c in
  if ((65 <=? n) && (n <=? 90))%nat then ascii_of_nat (n + 32) else c.

Fixpoint ToLower (s : string) : string :=
  match s with "" => "" | String c s' => String (lower c) (ToLower s') end.

Definition EqualFold (s t : string) : bool := bool_decide (ToLower s = ToLower t).

(** ** Integers and durations

    A [time.Duration] is its number of nanoseconds. *)

Definition itoa (n : Z) : string := pretty n.

Definition Millisecond : Z := 1000000.
Definition Second : Z := 1000000000.
Definition Minute : Z := 60 * Second.

(** [fmtFrac]: the fraction of [v] in [prec] digits without trailing zeros, and what is
    left of [v]. *)
Fixpoint fmtFrac (v : Z) (prec : nat) (print : bool) (acc : string) : string * Z :=
  match prec with
  | O => (if print then "." ++ acc else acc, v)
  | S prec' =>
      let digit := (v mod 10)%Z in
      let print := print || negb (digit =? 0)%Z in
      fmtFrac (v / 10) prec' print (if print then itoa digit ++ acc else acc)
  end.

Definition micro : string := String (ascii_of_nat 194) (String (ascii_of_nat 181) "s").

(** [time.Duration.String] *)
Definition Duration_String (d : Z) : string :=
  let u := Z.abs d in
  let text :=
    if (u =? 0)%Z then "0s"
    else if (u <? Second)%Z then
      let '(prec, suffix) :=
        if (u <? 1000)%Z then (0, "ns") else if (u <? Millisecond)%Z then (3, micro) else (6, "ms") in
      let '(frac, whole) := fmtFrac u prec false "" in itoa whole ++ frac ++ suffix
    else
      let '(frac, seconds) := fmtFrac u 9 false "" in
      let s := itoa (seconds mod 60) ++ frac ++ "s" in
      let minutes := (seconds / 60)%Z in
      if (minutes =? 0)%Z then s
      else
        let m := itoa (minutes mod 60) ++ "m" ++ s in
        let hours := (minutes / 60)%Z in
        if (hours =? 0)%Z then m else itoa hours ++ "h" ++ m in
  if (d <? 0)%Z then "-" ++ text else text.

Example Duration_String_minutes : Duration_String (90 * Minute) = "1h30m0s".
Proof. vm_compute. reflexivity. Qed.
Example Duration_String_fraction : Duration_String 1500 = "1.5" ++ micro.
Proof. vm_compute. reflexivity. Qed.

(** ** Lemmas *)

Lemma prefix_app s t : String.prefix s (s ++ t) = true.
Proof. induction s as [|c s IH]; [by destruct t|]. change (String c s ++ t) with (String c (s ++ t)). simpl. destruct (ascii_dec c c) as [_|n]; [exact IH|by destruct n]. Qed.

Lemma Contains_prefix s sub : String.prefix sub s = true -> Contains s sub = true.
Proof. intros Hp. destruct s; cbn [Contains]; by rewrite Hp. Qed.

(** A text that is followed or preceded by others is still in the whole. *)
Lemma Contains_infix before s after : Contains (before ++ s ++ after) s = true.
Proof.
  induction before as [|c before IH]; [exact (Contains_prefix _ _ (prefix_app s after))|].
  change (String c before ++ s ++ after) with (String c (before ++ s ++ after)).
  cbn [Contains]. rewrite IH. apply orb_true_r.
Qed.
