(* ===== verification/SearchSelector.v ===== *)
(** * internal/search/selector.go: selectors, terms, operators, printing *)
From S2P Require Import Prelude GoStrings.
#[local] Open Scope Z_scope.

(** [type Operator int]; [OpOther] stands for the values beyond the constants. *)
Inductive Operator : Type :=
| OpCont | OpEq | OpGt | OpGte | OpIn | OpLt | OpLte | OpNcont | OpNeq | OpNin
| OpOther (o : Z).

#[export] Instance Operator_eq_dec : EqDecision Operator.
Proof. solve_decision. Defined.

Record Term := mkTerm {
  term_Operator : Operator;
  term_Path : list gostring;
  term_Values : list goany;
}.

#[export] Instance Term_eq_dec : EqDecision Term.
Proof. solve_decision. Defined.

Record Selector := mkSelector { Terms : list Term }.

(** [Operator.String]; [None] is its panic on an unknown operator. *)
Definition Operator_String (o : Operator) : option gostring :=
  match o with
  | OpCont => Some (lit "cont")
  | OpEq => Some (lit "eq")
  | OpGt => Some (lit "gt")
  | OpGte => Some (lit "gte")
  | OpLt => Some (lit "lt")
  | OpIn => Some (lit "in")
  | OpLte => Some (lit "lte")
  | OpNcont => Some (lit "ncont")
  | OpNeq => Some (lit "neq")
  | OpNin => Some (lit "nin")
  | OpOther _ => None
  end.

(** The special path segment [Key]. *)
Definition Key : gostring := lit "@key".

Definition escape_rune (r : rune) : gostring :=
  if r =? c_tilde then [c_tilde; c_0]
  else if r =? c_slash then [c_tilde; c_1]
  else if r =? c_at then [c_tilde; c_b]
  else [r].

Definition escapePathSegment (segment : gostring) : gostring :=
  if decide (segment = Key) then segment else segment ≫= escape_rune.

Definition escapeValue (text : gostring) : gostring :=
  [c_quote] ++ (text ≫= fun r => if r =? c_quote then [c_quote; r] else [r]) ++ [c_quote].

(** [Term.String]: [None] when [Operator.String] panics. *)
Definition Term_String `{Strconv} (t : Term) : option gostring :=
  op ← Operator_String (term_Operator t);
  Some ([c_lpar] ++ op ++ [c_comma]
        ++ joinStr (escapePathSegment <$> term_Path t) [c_slash]
        ++ [c_comma]
        ++ joinStr ((fun v => escapePathSegment (escapeValue (sprintf_s v))) <$> term_Values t)
                   [c_comma]
        ++ [c_rpar]).

Definition Selector_String `{Strconv} (e : Selector) : option gostring :=
  texts ← mapM Term_String (Terms e);
  Some (joinStr texts [c_semi]).
