(* ===== verification/SearchLexer.v ===== *)
(** * internal/search/selector_lexer.go: the scanner of filter expressions

    A scanner is a finite automaton that consumes one rune per iteration; the
    two modes of the source are two automata over the same driver [scan], which
    also drives the scanner of internal/search/paths_lexer.go. *)
From S2P Require Import Prelude GoStrings.
#[local] Open Scope Z_scope.

(** The errors of the two scanners, with the data their messages carry. *)
Inductive lexError : Type :=
| UnexpectedCharacter (r : rune)
| UnknownEscape (r : rune)
| UnexpectedEndOfInput (expecting : string)
| UnknownMode (m : Z)
| LexSourceMandatory.

#[export] Instance lexError_eq_dec : EqDecision lexError.
Proof. solve_decision. Defined.

(** What one iteration of the [for] loop of a scanner does with its rune. *)
Inductive action (St Tok : Type) : Type :=
| Goto (st : St) (lexeme : gostring)
| Emit (tok : Tok)
| UnreadEmit (tok : Tok)
| Reject (e : lexError).
Arguments Goto {St Tok} st lexeme.
Arguments Emit {St Tok} tok.
Arguments UnreadEmit {St Tok} tok.
Arguments Reject {St Tok} e.

(** [readRune] gives 0 at the end of the buffer and leaves it empty, and
    [unreadRune] has then nothing to undo.  A scanner that went on reading at
    the end of the input would not terminate: the outcome is [NoFuel], which
    [scan_returns] excludes for every automaton that stops on 0. *)
Fixpoint scan {St Tok} (step : St -> gostring -> rune -> action St Tok)
    (st : St) (lexeme : gostring) (buffer : list rune) : outcome lexError (Tok * list rune) :=
  match buffer with
  | [] =>
      match step st lexeme 0 with
      | Goto _ _ => NoFuel
      | Emit tok | UnreadEmit tok => Ret (tok, [])
      | Reject e => Err e
      end
  | r :: rest =>
      match step st lexeme r with
      | Goto st' lexeme' => scan step st' lexeme' rest
      | Emit tok => Ret (tok, rest)
      | UnreadEmit tok => Ret (tok, r :: rest)
      | Reject e => Err e
      end
  end.

(** ** Tokens *)

Inductive selectorSymbol : Type :=
| symEnd | symLeftParenthesis | symRightParenthesis | symIdentifier
| symComma | symSlash | symSemicolon | symString.

#[export] Instance selectorSymbol_eq_dec : EqDecision selectorSymbol.
Proof. solve_decision. Defined.

Record selectorToken := mkToken { tok_Symbol : selectorSymbol; tok_Text : gostring }.

#[export] Instance selectorToken_eq_dec : EqDecision selectorToken.
Proof. solve_decision. Defined.

Definition selectorSymbol_String (s : selectorSymbol) : string :=
  match s with
  | symEnd => "End"
  | symLeftParenthesis => "LeftParenthesis"
  | symRightParenthesis => "RightParenthesis"
  | symIdentifier => "Identifier"
  | symComma => "Comma"
  | symSlash => "Slash"
  | symSemicolon => "Semicolon"
  | symString => "String"
  end.

(** [selectorToken.String] of a token that is not nil. *)
Definition selectorToken_String (tok : selectorToken) : gostring :=
  match tok_Symbol tok with
  | symIdentifier => lit (selectorSymbol_String symIdentifier) ++ lit ":" ++ tok_Text tok
  | symbol => lit (selectorSymbol_String symbol)
  end.

Inductive selectorLexerMode : Type :=
| selectorLexerDefaultMode
| selectorLexerValuesMode
| selectorLexerOtherMode (m : Z).

Record selectorLexer := mkLexer { mode : selectorLexerMode; buffer : list rune }.

(** [selectorLexerBuilder.Build], the logger being set by every caller. *)
Definition newSelectorLexer (source : gostring) : outcome lexError selectorLexer :=
  match source with
  | [] => Err LexSourceMandatory
  | _ => Ret {| mode := selectorLexerDefaultMode; buffer := source |}
  end.

Definition SetMode (l : selectorLexer) (m : selectorLexerMode) : selectorLexer :=
  {| mode := m; buffer := buffer l |}.

(** ** The automaton of [fetchInDefaultMode] *)

Inductive defaultState : Type := D0 | D1 | D2.

Definition default_step `{Unicode} (st : defaultState) (lexeme : gostring) (r : rune)
    : action defaultState selectorToken :=
  match st with
  | D0 =>
      if isSpace r then Goto D0 lexeme
      else if isLetter r || (r =? c_under) || (r =? c_at) then Goto D1 (lexeme ++ [r])
      else if r =? c_lpar then Emit (mkToken symLeftParenthesis (lit "("))
      else if r =? c_rpar then Emit (mkToken symRightParenthesis (lit ")"))
      else if r =? c_comma then Emit (mkToken symComma (lit ","))
      else if r =? c_slash then Emit (mkToken symSlash (lit "/"))
      else if r =? c_semi then Emit (mkToken symSemicolon (lit ";"))
      else if r =? c_tilde then Goto D2 lexeme
      else if r =? 0 then Emit (mkToken symEnd [])
      else Reject (UnexpectedCharacter r)
  | D1 =>
      if isLetter r || isDigit r || (r =? c_under) then Goto D1 (lexeme ++ [r])
      else if r =? c_tilde then Goto D2 lexeme
      else UnreadEmit (mkToken symIdentifier lexeme)
  | D2 =>
      if r =? c_0 then Goto D0 (lexeme ++ [c_tilde])
      else if r =? c_1 then Goto D0 (lexeme ++ [c_slash])
      else if r =? c_b then Goto D0 (lexeme ++ [c_at])
      else Reject (UnknownEscape r)
  end.

Definition fetchInDefaultMode `{Unicode} (buf : list rune)
    : outcome lexError (selectorToken * list rune) :=
  scan default_step D0 [] buf.

(** ** The automaton of [fetchInValuesMode] *)

Inductive valuesState : Type := V0 | V1 | V2 | V3 | V4.

Definition values_step (st : valuesState) (lexeme : gostring) (r : rune)
    : action valuesState selectorToken :=
  match st with
  | V0 =>
      if isSpace r then Goto V1 (lexeme ++ [r])
      else if r =? c_quote then Goto V3 []
      else if r =? c_comma then Emit (mkToken symComma (lit ","))
      else if r =? c_rpar then Emit (mkToken symRightParenthesis (lit ")"))
      else if r =? 0 then Reject (UnexpectedEndOfInput "start of value, comma or right parenthesis")
      else Goto V2 (lexeme ++ [r])
  | V1 =>
      if isSpace r then Goto V1 (lexeme ++ [r])
      else if r =? c_quote then Goto V3 []
      else if (r =? c_comma) || (r =? c_rpar) then UnreadEmit (mkToken symString lexeme)
      else if r =? 0 then
        Reject (UnexpectedEndOfInput "continuation of value, comma or right parenthesis")
      else Goto V2 (lexeme ++ [r])
  | V2 =>
      if (r =? c_comma) || (r =? c_rpar) then UnreadEmit (mkToken symString lexeme)
      else if r =? 0 then Reject (UnexpectedEndOfInput "right parenthesis")
      else Goto V2 (lexeme ++ [r])
  | V3 =>
      if r =? c_quote then Goto V4 lexeme
      else if r =? 0 then Reject (UnexpectedEndOfInput "inside quoted string")
      else Goto V3 (lexeme ++ [r])
  | V4 =>
      if isSpace r then Goto V4 lexeme
      else if (r =? c_comma) || (r =? c_rpar) then UnreadEmit (mkToken symString lexeme)
      else if r =? c_quote then Goto V3 (lexeme ++ [c_quote])
      else if r =? 0 then Reject (UnexpectedEndOfInput "inside quoted string")
      else Goto V3 (lexeme ++ [r])
  end.

Definition fetchInValuesMode (buf : list rune) : outcome lexError (selectorToken * list rune) :=
  scan values_step V0 [] buf.

Definition FetchToken `{Unicode} (l : selectorLexer)
    : outcome lexError (selectorToken * selectorLexer) :=
  '(tok, buf) ← match mode l with
                | selectorLexerDefaultMode => fetchInDefaultMode (buffer l)
                | selectorLexerValuesMode => fetchInValuesMode (buffer l)
                | selectorLexerOtherMode m => Err (UnknownMode m)
                end;
  Ret (tok, {| mode := mode l; buffer := buf |}).

(** ** The driver: termination, and the input it leaves *)

Section scan.
Context {St Tok : Type} (step : St -> gostring -> rune -> action St Tok).

(** The automaton stops when it reads the 0 of the end of the input. *)
Definition stops_at_end : Prop :=
  forall st lexeme st' lexeme', step st lexeme 0 <> Goto st' lexeme'.

Lemma scan_returns st lexeme buf : stops_at_end -> returned (scan step st lexeme buf).
Proof.
  intros Hstop. revert st lexeme.
  induction buf as [|r buf IH]; intros st lexeme; simpl.
  - destruct (step st lexeme 0) eqn:E; [by apply Hstop in E|done..].
  - destruct (step st lexeme r); [apply IH|done..].
Qed.

Lemma scan_suffix st lexeme buf tok rest :
  scan step st lexeme buf = Ret (tok, rest) -> exists used, buf = used ++ rest.
Proof.
  revert st lexeme; induction buf as [|r buf IH]; intros st lexeme; simpl; intros Hs.
  - cases; by exists [].
  - destruct (step st lexeme r); simplify_eq.
    + apply IH in Hs as [used ->]. by exists (r :: used).
    + by exists [r].
    + by exists [].
Qed.

Lemma scan_length st lexeme buf tok rest :
  scan step st lexeme buf = Ret (tok, rest) -> (length rest <= length buf)%nat.
Proof. intros [used ->]%scan_suffix. rewrite length_app. lia. Qed.

(** From a state that never gives its first rune back, a token costs input. *)
Lemma scan_progress st lexeme buf tok rest :
  (forall r tok', step st lexeme r <> UnreadEmit tok') ->
  scan step st lexeme buf = Ret (tok, rest) ->
  (length rest < length buf)%nat \/ step st lexeme 0 = Emit tok.
Proof.
  intros Hno Hs. destruct buf as [|r buf]; simpl in Hs.
  - destruct (step st lexeme 0) eqn:E; simplify_eq; [by right|]. by apply Hno in E.
  - left. destruct (step st lexeme r) eqn:E; simplify_eq; simpl.
    + apply scan_length in Hs. lia.
    + lia.
    + by apply Hno in E.
Qed.
End scan.

Section fetch.
Context `{Unicode}.

Lemma default_stops_at_end : stops_at_end default_step.
Proof. by intros [] lexeme st' lexeme'. Qed.

Lemma values_stops_at_end : stops_at_end values_step.
Proof. by intros [] lexeme st' lexeme'. Qed.

Definition known_mode (m : selectorLexerMode) : Prop :=
  match m with selectorLexerOtherMode _ => False | _ => True end.

Lemma FetchToken_returns l : known_mode (mode l) -> returned (FetchToken l).
Proof.
  unfold FetchToken. destruct l as [[] buf]; simpl; intros ?; [| |done].
  - pose proof (scan_returns default_step D0 [] buf default_stops_at_end) as Hr.
    unfold fetchInDefaultMode. by destruct (scan _ _ _ _) as [[]| | |].
  - pose proof (scan_returns values_step V0 [] buf values_stops_at_end) as Hr.
    unfold fetchInValuesMode. by destruct (scan _ _ _ _) as [[]| | |].
Qed.

(** Every token but the end of the input consumes at least one rune. *)
Lemma FetchToken_progress l tok l' :
  FetchToken l = Ret (tok, l') ->
  mode l' = mode l /\ (length (buffer l') <= length (buffer l))%nat /\
  (tok_Symbol tok = symEnd \/ (length (buffer l') < length (buffer l))%nat).
Proof.
  unfold FetchToken. intros ([tok0 buf] & Hf & [= -> <-])%bind_Ret; simpl.
  destruct (mode l); [| |done].
  - pose proof (scan_length _ _ _ _ _ _ Hf). split_and!; [done..|].
    apply scan_progress in Hf as [?|[= <-]]; [by right|by left|].
    intros r tok'. unfold default_step. cases.
  - pose proof (scan_length _ _ _ _ _ _ Hf). split_and!; [done..|].
    apply scan_progress in Hf as [?|?]; [by right|done|].
    intros r tok'. unfold values_step. cases.
Qed.
End fetch.
