(* ===== verification/SearchMonad.v ===== *)
(** * The parsers of internal/search: errors, monad, cost of a parser

    Both parsers of the package are recursive descents over a task that holds a
    scanner and one token of lookahead; the monad threads the task, and [costs]
    is the termination argument they share. *)
From S2P Require Import Prelude GoStrings SearchLexer.
#[local] Open Scope nat_scope.

Inductive parseError : Type :=
| LexError (e : lexError)
| UnexpectedToken (text : gostring) (expecting : string)
| UnknownOperator (name : gostring).

#[export] Instance parseError_eq_dec : EqDecision parseError.
Proof. solve_decision. Defined.

(** ** The monad of a parser task *)

Definition parser (T A : Type) : Type := T -> outcome parseError (A * T).

#[export] Instance parser_ret {T} : MRet (parser T) := fun _ a t => Ret (a, t).
#[export] Instance parser_bind {T} : MBind (parser T) := fun _ _ k m t =>
  match m t with
  | Ret (a, t') => k a t'
  | Err e => Err e
  | Panic => Panic
  | NoFuel => NoFuel
  end.

Definition parse_fail {T A} (e : parseError) : parser T A := fun _ => Err e.
Definition out_of_fuel {T A} : parser T A := fun _ => NoFuel.

Lemma bind_run {T A B} (m : parser T A) (k : A -> parser T B) t a t' :
  m t = Ret (a, t') -> (m ≫= k) t = k a t'.
Proof. intros Hm. unfold mbind, parser_bind. by rewrite Hm. Qed.

(** ** Termination: a size that every token consumed makes smaller *)

(** What a task promises to the termination argument: a size, and the
    well-formedness its scanner needs. *)
Class Measured (T : Type) := { task_size : T -> nat; task_ok : T -> Prop }.

Section costs.
Context `{Measured T}.

(** From a task smaller than [n], the parser comes back and leaves a task
    smaller by at least [d]. *)
Definition costs {A} (n d : nat) (m : parser T A) : Prop := forall t,
  task_ok t -> task_size t < n ->
  match m t with
  | Ret (_, t') => task_ok t' /\ task_size t' + d <= task_size t
  | Err _ => True
  | Panic | NoFuel => False
  end.

Lemma costs_weaken {A} n n' d d' (m : parser T A) :
  n' <= n -> d' <= d -> costs n d m -> costs n' d' m.
Proof.
  intros ?? Hm t Hok Hn. specialize (Hm t Hok ltac:(lia)).
  destruct (m t) as [[? ?]| | |]; try done. destruct Hm. split; [done|lia].
Qed.

Lemma costs_bind {A B} n d1 d2 (m : parser T A) (k : A -> parser T B) :
  costs n d1 m -> (forall a, costs (n - d1) d2 (k a)) -> costs n (d1 + d2) (m ≫= k).
Proof.
  intros Hm Hk t Hok Hn. specialize (Hm t Hok Hn).
  unfold mbind, parser_bind. destruct (m t) as [[a t']| | |]; try done.
  destruct Hm as [Hok' Hle]. specialize (Hk a t' Hok' ltac:(lia)).
  destruct (k a t') as [[? ?]| | |]; try done. destruct Hk. split; [done|lia].
Qed.

Lemma costs_bind0 {A B} n d (m : parser T A) (k : A -> parser T B) :
  costs n 0 m -> (forall a, costs n d (k a)) -> costs n d (m ≫= k).
Proof.
  intros Hm Hk. apply (costs_bind n 0 d); [done|]. intros a. by rewrite Nat.sub_0_r.
Qed.

Lemma costs_bind1 {A B} n d (m : parser T A) (k : A -> parser T B) :
  costs n 1 m -> (forall a, costs n d (k a)) -> costs n (S d) (m ≫= k).
Proof.
  intros Hm Hk. apply (costs_bind n 1 d); [done|]. intros a.
  eapply costs_weaken; [| |apply Hk]; lia.
Qed.

Lemma costs_ret {A} n (a : A) : costs n 0 (mret (M := parser T) a).
Proof. intros t ??. simpl. split; [done|lia]. Qed.

Lemma costs_fail {A} n d e : costs n d (@parse_fail T A e).
Proof. by intros t ??. Qed.

Lemma costs_weaken0 {A} n d (m : parser T A) : costs n d m -> costs n 0 m.
Proof. apply costs_weaken; lia. Qed.

(** A loop whose body reads one token needs one unit of fuel per token. *)
Lemma costs_bind_loop {A B} n d (m : parser T A) (k : A -> parser T B) :
  costs (S n) 1 m -> (forall a, costs n d (k a)) -> costs (S n) (S d) (m ≫= k).
Proof.
  intros Hm Hk. apply (costs_bind (S n) 1 d); [done|]. intros a.
  replace (S n - 1) with n by lia. apply Hk.
Qed.

Lemma costs_no_fuel {A} d : costs 0 d (@out_of_fuel T A).
Proof. intros t ??. lia. Qed.
End costs.

Create HintDb costs.
#[export] Hint Resolve costs_ret costs_fail costs_no_fuel : costs.
#[export] Hint Extern 5 (costs _ 0 _) => apply (costs_weaken0 _ 1) : costs.

(** Walk through a parser that reads [_ ← _; _], spending nothing or one token. *)
Ltac costs_step :=
  lazymatch goal with
  | |- costs _ (S _) (_ ≫= _) =>
      first [apply costs_bind1; [solve [eauto with costs]|]
            |apply costs_bind0; [solve [eauto with costs]|]]; intros ?
  | |- costs _ 0 (_ ≫= _) => apply costs_bind0; [solve [eauto with costs]|]; intros ?
  | |- costs _ _ (if _ then _ else _) => case_match
  end.
Ltac costs := repeat costs_step; eauto with costs.

(** ** Postconditions *)

Section yields.
Context {T : Type}.

(** Every value the parser returns satisfies [P]. *)
Definition yields {A} (P : A -> Prop) (m : parser T A) : Prop :=
  forall t a t', m t = Ret (a, t') -> P a.

Lemma yields_bind {A B} (Q : A -> Prop) (P : B -> Prop) (m : parser T A) (k : A -> parser T B) :
  yields Q m -> (forall a, Q a -> yields P (k a)) -> yields P (m ≫= k).
Proof.
  intros Hm Hk t b t'. unfold mbind, parser_bind.
  destruct (m t) as [[a u]| | |] eqn:E; try done. apply Hm in E. by apply Hk.
Qed.

Lemma yields_any {A} (m : parser T A) : yields (fun _ => True) m.
Proof. by intros ?. Qed.

Lemma yields_bind_any {A B} (P : B -> Prop) (m : parser T A) (k : A -> parser T B) :
  (forall a, yields P (k a)) -> yields P (m ≫= k).
Proof. intros Hk. apply (yields_bind (fun _ => True)); [apply yields_any|auto]. Qed.

Lemma yields_ret {A} (P : A -> Prop) a : P a -> yields P (mret (M := parser T) a).
Proof. by intros ? t ? ? [= <- <-]. Qed.

Lemma yields_fail {A} (P : A -> Prop) e : yields P (@parse_fail T A e).
Proof. by intros t. Qed.

Lemma yields_no_fuel {A} (P : A -> Prop) : yields P (@out_of_fuel T A).
Proof. by intros t. Qed.
End yields.

(** Walk through a parser, remembering nothing of what it read. *)
Ltac yields :=
  repeat match goal with
  | |- yields _ (if _ then _ else _) => case_match
  | |- yields _ (parse_fail _) => apply yields_fail
  | |- yields _ out_of_fuel => apply yields_no_fuel
  | |- yields _ (mret _) => apply yields_ret
  | |- yields _ (_ ≫= _) => apply yields_bind_any; intros ?
  end.
