(* ===== verification/SearchParser.v ===== *)
(** * internal/search/selector_parser.go: the recursive-descent parser

    The parser task holds the scanner and one token of lookahead.  The source
    reports syntax errors by panicking with an error that [Parse] recovers, so
    a syntax error is the [Err] of the [parser] monad.  The three loops
    ([parseSelector], [parsePath], [parseValues]) run on fuel; [Parse] gives
    them one unit more than the runes of the text, which is always enough. *)
From S2P Require Import Prelude GoStrings SearchSelector SearchLexer SearchMonad.
#[local] Open Scope Z_scope.

Record selectorParserTask := mkTask {
  lexer : selectorLexer;
  token : option selectorToken;
}.

#[local] Abbreviation parser := (SearchMonad.parser selectorParserTask).

Definition setMode (m : selectorLexerMode) : parser unit := fun t =>
  Ret (tt, {| lexer := SetMode (lexer t) m; token := token t |}).

Section parser.
Context `{Unicode}.

(** ** Token handling *)

Definition fetchToken : parser unit := fun t =>
  match FetchToken (lexer t) with
  | Ret (tok, l) => Ret (tt, {| lexer := l; token := Some tok |})
  | Err e => Err (LexError e)
  | Panic => Panic
  | NoFuel => NoFuel
  end.

Definition ensureToken : parser unit := fun t =>
  match token t with
  | None => fetchToken t
  | Some _ => Ret (tt, t)
  end.

(** The dereference of [t.token]: a nil token would be a run-time panic. *)
Definition getToken : parser selectorToken := fun t =>
  match token t with Some tok => Ret (tok, t) | None => Panic end.

Definition currentToken : parser selectorToken := _ ← ensureToken; getToken.

Definition checkToken (symbol : selectorSymbol) : parser bool :=
  tok ← currentToken; mret (bool_decide (tok_Symbol tok = symbol)).

Definition expected_name (symbol : selectorSymbol) : string :=
  match symbol with
  | symEnd => "end of input"
  | symLeftParenthesis => "left parenthesis"
  | symRightParenthesis => "right parenthesis"
  | symIdentifier => "identifier"
  | symComma => "comma"
  | symSlash => "slash"
  | symSemicolon => "semicolon"
  | symString => "string"
  end.

Definition dropToken : parser unit := fun t =>
  Ret (tt, {| lexer := lexer t; token := None |}).

Definition consumeToken (symbol : selectorSymbol) : parser unit :=
  tok ← currentToken;
  if decide (tok_Symbol tok = symbol) then dropToken
  else parse_fail (UnexpectedToken (tok_Text tok) (expected_name symbol)).

(** ** The grammar *)

Definition parseIdentifier : parser gostring :=
  tok ← currentToken; _ ← consumeToken symIdentifier; mret (tok_Text tok).

Definition parseOperator : parser Operator :=
  name ← parseIdentifier;
  let lower := toLower name in
  if decide (lower = lit "cont") then mret OpCont
  else if decide (lower = lit "eq") then mret OpEq
  else if decide (lower = lit "gt") then mret OpGt
  else if decide (lower = lit "gte") then mret OpGte
  else if decide (lower = lit "in") then mret OpIn
  else if decide (lower = lit "lt") then mret OpLt
  else if decide (lower = lit "lte") then mret OpLte
  else if decide (lower = lit "ncont") then mret OpNcont
  else if decide (lower = lit "neq") then mret OpNeq
  else if decide (lower = lit "nin") then mret OpNin
  else parse_fail (UnknownOperator name).

(** The errors show the text of the token, or the token in its [String] form. *)
Definition unexpectedToken {A} (show : selectorToken -> gostring) (expecting : string) : parser A :=
  tok ← currentToken; parse_fail (UnexpectedToken (show tok) expecting).

(** [parsePath], with the segments read so far. *)
Fixpoint parsePath (fuel : nat) (segments : list gostring) : parser (list gostring) :=
  match fuel with
  | O => out_of_fuel
  | S fuel =>
      segment ← parseIdentifier;
      let segments := segments ++ [segment] in
      slash ← checkToken symSlash;
      if (slash : bool) then _ ← fetchToken; parsePath fuel segments
      else
        comma ← checkToken symComma;
        if (comma : bool) then mret segments
        else unexpectedToken tok_Text "slash or comma"
  end.

Definition parseValue : parser goany :=
  tok ← currentToken; _ ← consumeToken symString; mret (VString (tok_Text tok)).

Fixpoint parseValues (fuel : nat) (values : list goany) : parser (list goany) :=
  match fuel with
  | O => out_of_fuel
  | S fuel =>
      value ← parseValue;
      let values := values ++ [value] in
      comma ← checkToken symComma;
      if (comma : bool) then _ ← fetchToken; parseValues fuel values
      else
        rpar ← checkToken symRightParenthesis;
        if (rpar : bool) then mret values
        else unexpectedToken tok_Text "comma or right parenthesis"
  end.

Definition parseOptionalValues (fuel : nat) : parser (list goany) :=
  rpar ← checkToken symRightParenthesis;
  if (rpar : bool) then mret []
  else
    str ← checkToken symString;
    if (str : bool) then parseValues fuel []
    else unexpectedToken tok_Text "value or right parenthesis".

Definition parseTerm (fuel : nat) : parser Term :=
  _ ← consumeToken symLeftParenthesis;
  operator ← parseOperator;
  _ ← consumeToken symComma;
  path ← parsePath fuel [];
  _ ← consumeToken symComma;
  _ ← setMode selectorLexerValuesMode;
  values ← parseOptionalValues fuel;
  _ ← setMode selectorLexerDefaultMode;
  _ ← consumeToken symRightParenthesis;
  mret (mkTerm operator path values).

Fixpoint parseSelector (fuel : nat) (terms : list Term) : parser Selector :=
  match fuel with
  | O => out_of_fuel
  | S fuel' =>
      term ← parseTerm fuel;
      let terms := terms ++ [term] in
      semi ← checkToken symSemicolon;
      if (semi : bool) then _ ← fetchToken; parseSelector fuel' terms
      else
        fin ← checkToken symEnd;
        if (fin : bool) then mret (mkSelector terms)
        else unexpectedToken selectorToken_String "semicolon or end of input"
  end.

(** [SelectorParser.Parse]. *)
Definition Parse (text : gostring) : outcome parseError Selector :=
  match newSelectorLexer text with
  | Ret lexer =>
      fst <$> parseSelector (S (length text)) [] {| lexer := lexer; token := None |}
  | Err e => Err (LexError e)
  | Panic => Panic
  | NoFuel => NoFuel
  end.
End parser.
