(* ===== verification/SearchParserFacts.v ===== *)
(** * Theorems about the selector parser

    [Parse] always comes back (its fuel is enough, and no token is ever a nil
    dereference), and it inverts the printer of selector.go on every selector
    whose text the scanner can read back. *)
From S2P Require Import Prelude GoStrings SearchSelector SearchLexer SearchMonad SearchParser.
#[local] Open Scope nat_scope.

#[local] Abbreviation parser := (SearchMonad.parser selectorParserTask).

(** ** Termination: a size that every token consumed makes smaller *)

Section termination.
Context `{Unicode}.

Definition token_weight (o : option selectorToken) : nat :=
  match o with
  | Some tok => if decide (tok_Symbol tok = symEnd) then 0 else 1
  | None => 0
  end.

#[export] Instance selector_task_measured : Measured selectorParserTask := {
  task_size t := length (buffer (lexer t)) + token_weight (token t);
  task_ok t := known_mode (mode (lexer t));
}.

Lemma costs_setMode n m : known_mode m -> costs n 0 (setMode m).
Proof. intros ? t ??. simpl. split; [done|]. unfold task_size. simpl. lia. Qed.

Lemma costs_fetchToken n : costs n 0 fetchToken.
Proof.
  intros t Hok _. unfold fetchToken. pose proof (FetchToken_returns _ Hok).
  destruct (FetchToken (lexer t)) as [[tok l]| | |] eqn:E; try done.
  apply FetchToken_progress in E as (Hm & Hl & Hp).
  split; [unfold task_ok in *; simpl; by rewrite Hm|].
  unfold task_size, token_weight; simpl. case_decide; [lia|].
  destruct Hp; [done|lia].
Qed.

Lemma costs_ensureToken n : costs n 0 ensureToken.
Proof.
  intros t Hok Hn. unfold ensureToken. destruct (token t) eqn:E; [split; [done|lia]|].
  by apply (costs_fetchToken n).
Qed.

Lemma ensureToken_Some t u t' : ensureToken t = Ret (u, t') -> is_Some (token t').
Proof.
  unfold ensureToken. destruct (token t) eqn:E.
  - intros [= <- <-]. rewrite E. by eexists.
  - unfold fetchToken. destruct (FetchToken (lexer t)) as [[? ?]| | |]; try done.
    intros [= <- <-]. by eexists.
Qed.

(** [currentToken] leaves the token it returns in the task. *)
Lemma currentToken_inv t :
  task_ok t ->
  match currentToken t with
  | Ret (tok, t') => task_ok t' /\ token t' = Some tok /\ task_size t' <= task_size t
  | Err _ => True
  | Panic | NoFuel => False
  end.
Proof.
  intros Hok. unfold currentToken, mbind, parser_bind.
  pose proof (costs_ensureToken (S (task_size t)) t Hok ltac:(lia)) as He.
  destruct (ensureToken t) as [[u t']| | |] eqn:E; try done.
  apply ensureToken_Some in E as [tok Htok]. unfold getToken. rewrite Htok.
  split_and!; [apply He|done|lia].
Qed.

Lemma costs_currentToken n : costs n 0 currentToken.
Proof.
  intros t Hok Hn. pose proof (currentToken_inv t Hok) as Hc.
  destruct (currentToken t) as [[tok t']| | |]; try done.
  destruct Hc as (? & ? & ?). split; [done|lia].
Qed.

Lemma costs_checkToken n symbol : costs n 0 (checkToken symbol).
Proof.
  unfold checkToken. apply costs_bind0; [apply costs_currentToken|]. intros a. apply costs_ret.
Qed.

Lemma costs_consumeToken n symbol : symbol <> symEnd -> costs n 1 (consumeToken symbol).
Proof.
  intros Hs t Hok Hn. unfold consumeToken, mbind, parser_bind.
  pose proof (currentToken_inv t Hok) as Hc.
  destruct (currentToken t) as [[tok t']| | |]; try done.
  destruct Hc as (Hok' & Htok & Hle). case_decide as Hsym; simpl; [|done].
  split; [done|]. unfold task_size, selector_task_measured in *; simpl. rewrite Htok in Hle. simpl in Hle.
  rewrite decide_False in Hle by congruence. lia.
Qed.
End termination.

#[export] Hint Resolve costs_fetchToken costs_currentToken costs_checkToken : costs.
#[export] Hint Extern 1 (costs _ 1 (consumeToken _)) => apply costs_consumeToken; done : costs.
#[export] Hint Extern 1 (costs _ _ (setMode _)) => apply costs_setMode; done : costs.

Section termination_grammar.
Context `{Unicode}.

Lemma costs_parseIdentifier n : costs n 1 parseIdentifier.
Proof. unfold parseIdentifier. costs. Qed.

Lemma costs_parseValue n : costs n 1 parseValue.
Proof. unfold parseValue. costs. Qed.

Lemma costs_unexpectedToken {A} n d show s : costs n d (@unexpectedToken _ A show s).
Proof. unfold unexpectedToken. apply costs_bind0; eauto with costs. Qed.

#[local] Hint Resolve costs_parseIdentifier costs_parseValue costs_unexpectedToken : costs.

Lemma costs_parseOperator n : costs n 1 parseOperator.
Proof. unfold parseOperator. costs. Qed.

Lemma costs_parsePath fuel segments : costs fuel 1 (parsePath fuel segments).
Proof.
  revert segments; induction fuel as [|fuel IH]; intros segments; [apply costs_no_fuel|].
  simpl. apply costs_bind_loop; [eauto with costs|]. intros segment. costs.
Qed.

Lemma costs_parseValues fuel values : costs fuel 1 (parseValues fuel values).
Proof.
  revert values; induction fuel as [|fuel IH]; intros values; [apply costs_no_fuel|].
  simpl. apply costs_bind_loop; [eauto with costs|]. intros value. costs.
Qed.

#[local] Hint Resolve costs_parseOperator costs_parsePath costs_parseValues : costs.

Lemma costs_parseOptionalValues fuel : costs fuel 0 (parseOptionalValues fuel).
Proof.
  unfold parseOptionalValues. costs.
Qed.

#[local] Hint Resolve costs_parseOptionalValues : costs.

Lemma costs_parseTerm fuel : costs fuel 1 (parseTerm fuel).
Proof.
  unfold parseTerm. costs.
Qed.

Lemma costs_parseSelector fuel terms : costs fuel 1 (parseSelector fuel terms).
Proof.
  revert terms; induction fuel as [|fuel IH]; intros terms; [apply costs_no_fuel|].
  cbn [parseSelector]. apply costs_bind_loop; [apply costs_parseTerm|]. intros term. costs.
Qed.

Lemma Parse_total text : returned (Parse text).
Proof.
  unfold Parse, newSelectorLexer. destruct text as [|r text]; [done|].
  set (t0 := mkTask _ _). cbv iota beta.
  pose proof (costs_parseSelector (S (length (r :: text))) [] t0 I) as Hc.
  specialize (Hc ltac:(unfold task_size; simpl; lia)).
  by destruct (parseSelector _ _ t0) as [[]| | |].
Qed.

(** C38: for every filter text, [SelectorParser.Parse] comes back with a
    selector or with a syntax error: its loops terminate within one
    iteration per rune, and the parser never dereferences a nil token. *)
Theorem Parse_returns text : returned (Parse text).
Proof. apply Parse_total. Qed.
End termination_grammar.

(** ** The round trip: what [Parse] reads back from [Selector.String]

    The scanner reads a path segment back when it starts with a letter, an
    underscore or an escaped rune, goes on with letters, digits and underscores,
    and every escaped rune is followed by the start of another segment: after an
    escape sequence the automaton is in its initial state again. *)

Section printable.
Context `{Unicode}.

Definition special (r : rune) : bool := ((r =? 126) || (r =? 47) || (r =? 64))%Z.

(** [inner]: the automaton is inside an identifier (state [D1]). *)
Fixpoint segment_ok (inner : bool) (s : gostring) : bool :=
  match s with
  | [] => inner
  | r :: s' =>
      (special r && segment_ok false s')
      || ((isLetter r || (r =? c_under)%Z || (inner && isDigit r)) && segment_ok true s')
  end.

Definition printable_segment (s : gostring) : bool := bool_decide (s = Key) || segment_ok false s.

(** A value is read back when it is a string without NUL, but with its ~, /
    and @ still escaped: the values mode of the scanner has no escapes. *)
Definition printable_value (v : goany) : bool :=
  match v with VString s => forallb (fun r => negb (r =? 0)%Z) s | _ => false end.

Definition plain_value (v : goany) : bool :=
  match v with VString s => forallb (fun r => negb (special r)) s | _ => false end.

Definition read_back_value (v : goany) : goany :=
  match v with VString s => VString (s ≫= escape_rune) | _ => v end.

Definition read_back_term (t : Term) : Term :=
  mkTerm (term_Operator t) (term_Path t) (read_back_value <$> term_Values t).

Definition known_operator (o : Operator) : bool :=
  match o with OpOther _ => false | _ => true end.

Definition printable_term (t : Term) : bool :=
  known_operator (term_Operator t)
  && negb (bool_decide (term_Path t = [])) && forallb printable_segment (term_Path t)
  && forallb printable_value (term_Values t).

Definition printable (sel : Selector) : bool :=
  negb (bool_decide (Terms sel = [])) && forallb printable_term (Terms sel).
End printable.

Section scan_back.
Context `{UnicodeLaws}.
#[local] Open Scope Z_scope.

Lemma letter_not_space r : isLetter r = true -> isSpace r = false.
Proof.
  unfold isLetter, isSpace, between. destruct (r <=? 255) eqn:E.
  - intros Hl. apply Z.leb_le in E.
    repeat (apply orb_true_iff in Hl as [Hl|Hl]); bools;
      repeat (apply orb_false_intro); apply Z.eqb_neq; lia.
  - intros Hl. apply uni_letter_space in Hl. unfold isSpace in Hl. by rewrite E in Hl.
Qed.

(** Letters and digits are none of the runes the scanners give a meaning to. *)
Lemma letter_or_digit_special r : isLetter r || isDigit r || (r =? c_under) = true ->
  special r = false.
Proof.
  unfold isLetter, isDigit, special, between. destruct (r <=? 255) eqn:E.
  - intros Hl. repeat (apply orb_true_iff in Hl as [Hl|Hl]); bools;
      repeat (apply orb_false_intro); apply Z.eqb_neq; lia.
  - intros _. apply Z.leb_gt in E. repeat (apply orb_false_intro); apply Z.eqb_neq; lia.
Qed.

Lemma escape_plain r : special r = false -> escape_rune r = [r].
Proof.
  unfold special, escape_rune. intros ?. bools.
  by rewrite !(proj2 (Z.eqb_neq _ _)) by done.
Qed.

(** Reading one printed special rune: back to the initial state. *)
Lemma scan_special (st : defaultState) lexeme r rest :
  special r = true -> st <> D2 ->
  scan default_step st lexeme (escape_rune r ++ rest)
  = scan default_step D0 (lexeme ++ [r]) rest.
Proof.
  unfold special. intros Hr Hst.
  assert (r = 126 \/ r = 47 \/ r = 64) as [-> | [-> | ->]]
    by (apply orb_true_iff in Hr as [Hr|Hr]; [apply orb_true_iff in Hr as [Hr|Hr]|];
        apply Z.eqb_eq in Hr; auto);
    by destruct st.
Qed.

(** Reading a printed segment leaves the automaton inside an identifier. *)
Lemma scan_segment inner s lexeme rest :
  segment_ok inner s = true ->
  scan default_step (if inner then D1 else D0) lexeme ((s ≫= escape_rune) ++ rest)
  = scan default_step D1 (lexeme ++ s) rest.
Proof.
  revert inner lexeme. induction s as [|r s IH]; intros inner lexeme Hs.
  { simpl in *. destruct inner; [|done]. by rewrite app_nil_r. }
  change ((r :: s) ≫= escape_rune) with (escape_rune r ++ (s ≫= escape_rune)).
  rewrite <- (app_assoc (escape_rune r)). cbn [segment_ok] in Hs.
  replace (lexeme ++ r :: s) with ((lexeme ++ [r]) ++ s) by by rewrite <- app_assoc.
  apply orb_true_iff in Hs as [[Hr Hs]%andb_true_iff|[Hr Hs]%andb_true_iff].
  - rewrite scan_special by (done || by destruct inner). by apply (IH false).
  - assert (special r = false) as Hsp.
    { apply letter_or_digit_special. destruct (isLetter r), (isDigit r), (r =? c_under); simpl in *;
        try done. by destruct inner. }
    rewrite escape_plain by done. change ([r] ++ ?x) with (r :: x). cbn [scan].
    destruct inner; cbn [default_step].
    + replace (isLetter r || isDigit r || (r =? c_under)) with true
        by (destruct (isLetter r), (isDigit r), (r =? c_under); simpl in *; done).
      by apply (IH true).
    + rewrite orb_false_r in Hr.
      assert (isSpace r = false) as ->.
      { destruct (isLetter r) eqn:El; [by apply letter_not_space|].
        simpl in Hr. apply Z.eqb_eq in Hr as ->. done. }
      rewrite Hr. by apply (IH true).
Qed.

Lemma fetch_segment s c rest :
  printable_segment s = true -> c = 44 \/ c = 47 ->
  fetchInDefaultMode (escapePathSegment s ++ c :: rest)
  = Ret (mkToken symIdentifier s, c :: rest).
Proof.
  unfold printable_segment, escapePathSegment, fetchInDefaultMode. intros Hs Hc.
  destruct (decide (s = Key)) as [->|Hk]; [by destruct Hc as [-> | ->]|].
  rewrite bool_decide_eq_false_2 in Hs by done.
  rewrite (scan_segment false s []) by done.
  by destruct Hc as [-> | ->].
Qed.

(** An escape at the end of a segment: the scanner is in its initial state
    again when it meets the separator, and the lexeme is lost. *)
Lemma fetch_trailing_escape s r c rest :
  s = [] \/ segment_ok false s = true -> special r = true -> c = 44 \/ c = 47 ->
  fetchInDefaultMode (((s ++ [r]) ≫= escape_rune) ++ c :: rest)
  = Ret (mkToken (if c =? c_comma then symComma else symSlash) [c], rest).
Proof.
  intros Hs Hr Hc. unfold fetchInDefaultMode.
  rewrite bind_app, <- app_assoc. change ([r] ≫= escape_rune) with (escape_rune r ++ []).
  rewrite <- app_assoc.
  destruct Hs as [->|Hs]; [|rewrite (scan_segment false s []) by done]; simpl ([] ≫= _);
    rewrite ?app_nil_l, scan_special by done; by destruct Hc as [-> | ->].
Qed.

(** *** Values *)

Definition double_quote (r : rune) : gostring := if r =? c_quote then [c_quote; r] else [r].

#[local] Abbreviation nonzero := (forallb (fun r => negb (r =? 0)%Z)).

Lemma bind_cons {A B} (f : A -> list B) x l : (x :: l) ≫= f = f x ++ (l ≫= f).
Proof. done. Qed.

Lemma scan_quoted_body s lexeme rest :
  nonzero s = true ->
  scan values_step V3 lexeme ((s ≫= double_quote) ++ rest)
  = scan values_step V3 (lexeme ++ s) rest.
Proof.
  revert lexeme; induction s as [|r s IH]; intros lexeme Hs; [by rewrite app_nil_r|].
  rewrite bind_cons, <- (app_assoc (double_quote r)).
  replace (lexeme ++ r :: s) with ((lexeme ++ [r]) ++ s) by by rewrite <- app_assoc.
  simpl in Hs. apply andb_true_iff in Hs as [Hr Hs]. rewrite <- IH by done.
  unfold double_quote at 1. bools.
  destruct (r =? 39) eqn:Eq; [by apply Z.eqb_eq in Eq as ->|].
  simpl. by rewrite Eq, (proj2 (Z.eqb_neq _ _)) by done.
Qed.

(** Doubling quotes and escaping touch different runes. *)
Lemma double_quote_escape s : (s ≫= double_quote) ≫= escape_rune = (s ≫= escape_rune) ≫= double_quote.
Proof.
  induction s as [|r s IH]; [done|]. rewrite !bind_cons, !bind_app, IH. f_equal.
  unfold double_quote at 1. destruct (r =? 39) eqn:E; [by apply Z.eqb_eq in E as ->|].
  simpl. unfold escape_rune. repeat case_match; simpl; unfold double_quote; by rewrite ?E.
Qed.

Lemma nonzero_escape s : nonzero s = true -> nonzero (s ≫= escape_rune) = true.
Proof.
  induction s as [|r s IH]; [done|]. cbn [forallb]. intros [Hr Hs]%andb_true_iff.
  rewrite bind_cons, forallb_app, IH by done. unfold escape_rune.
  repeat case_match; simpl; by rewrite ?Hr.
Qed.

Lemma escape_quoted_value s :
  escapePathSegment (escapeValue s) = [39] ++ ((s ≫= escape_rune) ≫= double_quote) ++ [39].
Proof.
  unfold escapePathSegment. case_decide as Hk; [done|].
  change (escapeValue s) with ([39] ++ (s ≫= double_quote) ++ [39]).
  by rewrite !bind_app, double_quote_escape.
Qed.

Lemma fetch_value s c rest :
  nonzero s = true -> c = 44 \/ c = 41 ->
  fetchInValuesMode (escapePathSegment (escapeValue s) ++ c :: rest)
  = Ret (mkToken symString (s ≫= escape_rune), c :: rest).
Proof.
  intros Hs%nonzero_escape Hc. rewrite escape_quoted_value.
  unfold fetchInValuesMode. rewrite <- !app_assoc. set (e := s ≫= escape_rune) in *.
  change (scan values_step V3 [] ((e ≫= double_quote) ++ [39] ++ c :: rest)
          = Ret (mkToken symString e, c :: rest)).
  rewrite scan_quoted_body by done. by destruct Hc as [-> | ->].
Qed.
End scan_back.

Section round_trip.
Context `{UnicodeLaws} `{Strconv}.
#[local] Open Scope Z_scope.

#[local] Abbreviation D := selectorLexerDefaultMode.
#[local] Abbreviation V := selectorLexerValuesMode.
#[local] Abbreviation before m b := (mkTask (mkLexer m b) None).
#[local] Abbreviation at_token m tok b := (mkTask (mkLexer m b) (Some tok)).
#[local] Abbreviation ident s := (mkToken symIdentifier s).
#[local] Abbreviation comma := (mkToken symComma (lit ",")).
#[local] Abbreviation rpar := (mkToken symRightParenthesis (lit ")")).
#[local] Abbreviation lpar := (mkToken symLeftParenthesis (lit "(")).

(** A parser that starts by looking at a token may have it fetched before. *)
Definition looks_ahead {A} (m : parser A) : Prop :=
  forall t t', ensureToken t = Ret (tt, t') -> m t = m t'.

Lemma looks_ahead_bind {A B} (m : parser A) (k : A -> parser B) :
  looks_ahead m -> looks_ahead (m ≫= k).
Proof. intros Hm t t' Ht. unfold mbind, parser_bind. by rewrite (Hm t t'). Qed.

Lemma looks_ahead_currentToken : looks_ahead currentToken.
Proof.
  intros t t' Ht. unfold currentToken. rewrite (bind_run _ _ _ _ _ Ht).
  destruct (ensureToken_Some _ _ _ Ht) as [tok Htok].
  rewrite (bind_run _ _ _ tt t'); [done|]. unfold ensureToken. by rewrite Htok.
Qed.

Lemma looks_ahead_checkToken s : looks_ahead (checkToken s).
Proof. apply looks_ahead_bind, looks_ahead_currentToken. Qed.

Lemma looks_ahead_consumeToken s : looks_ahead (consumeToken s).
Proof. apply looks_ahead_bind, looks_ahead_currentToken. Qed.

Lemma ensureToken_D b tok b' :
  fetchInDefaultMode b = Ret (tok, b') -> ensureToken (before D b) = Ret (tt, at_token D tok b').
Proof. intros Hf. unfold ensureToken, fetchToken, FetchToken. simpl. by rewrite Hf. Qed.

Lemma ensureToken_V b tok b' :
  fetchInValuesMode b = Ret (tok, b') -> ensureToken (before V b) = Ret (tt, at_token V tok b').
Proof. intros Hf. unfold ensureToken, fetchToken, FetchToken. simpl. by rewrite Hf. Qed.

Lemma fetchToken_D o b tok b' :
  fetchInDefaultMode b = Ret (tok, b') ->
  fetchToken (mkTask (mkLexer D b) o) = Ret (tt, at_token D tok b').
Proof. intros Hf. unfold fetchToken, FetchToken. simpl. by rewrite Hf. Qed.

Lemma fetchToken_V o b tok b' :
  fetchInValuesMode b = Ret (tok, b') ->
  fetchToken (mkTask (mkLexer V b) o) = Ret (tt, at_token V tok b').
Proof. intros Hf. unfold fetchToken, FetchToken. simpl. by rewrite Hf. Qed.

(** *** Printed lists: an element, then a separator before each further one *)

Definition seps {A} (sep : Z) (f : A -> gostring) (l : list A) : gostring :=
  concat (map (fun x => sep :: f x) l).

Lemma joinStr_cons {A} sep (f : A -> gostring) x l :
  joinStr (f <$> x :: l) [sep] = f x ++ seps sep f l.
Proof.
  revert x; induction l as [|y l IH]; intros x; [by rewrite app_nil_r|].
  change (joinStr (f <$> x :: y :: l) [sep])
    with (f x ++ [sep] ++ joinStr (f <$> y :: l) [sep]).
  by rewrite IH.
Qed.

Lemma seps_head {A} sep (f : A -> gostring) l c b :
  exists b', seps sep f l ++ c :: b = (if l is [] then c else sep) :: b'.
Proof. destruct l; simpl; eexists; reflexivity. Qed.

Lemma seps_length {A} sep (f : A -> gostring) l : (length l <= length (seps sep f l))%nat.
Proof. induction l as [|x l IH]; simpl; [lia|]. rewrite length_app. fold (seps sep f l). lia. Qed.

(** *** The loops *)

Lemma parsePath_printed fuel acc s l b :
  (length l < fuel)%nat -> forallb printable_segment l = true ->
  parsePath fuel acc (at_token D (ident s) (seps 47 escapePathSegment l ++ 44 :: b))
  = Ret (acc ++ s :: l, at_token D comma b).
Proof.
  revert fuel acc s. induction l as [|s2 l IH]; intros [|fuel] acc s Hf Hl; simpl in Hf; try lia.
  - by simpl.
  - simpl in Hl. apply andb_true_iff in Hl as [Hs Hl].
    destruct (seps_head 47 escapePathSegment l 44 b) as [b' Hb].
    cbn [parsePath]. rewrite (bind_run _ _ _ s (before D (seps 47 escapePathSegment (s2 :: l) ++ 44 :: b)))
      by done.
    rewrite (bind_run _ _ _ true (at_token D (mkToken symSlash (lit "/"))
      (escapePathSegment s2 ++ seps 47 escapePathSegment l ++ 44 :: b))).
    2:{ unfold seps. simpl. by rewrite <- app_assoc. }
    rewrite (bind_run _ _ _ tt (at_token D (ident s2) (seps 47 escapePathSegment l ++ 44 :: b))).
    + rewrite IH by (done || lia). by rewrite <- app_assoc.
    + apply fetchToken_D. rewrite Hb. apply fetch_segment; [done|]. destruct l; auto.
Qed.

Definition print_value (v : goany) : gostring := escapePathSegment (escapeValue (sprintf_s v)).

Lemma parseValues_printed fuel acc v l b :
  (length l < fuel)%nat -> forallb printable_value l = true ->
  parseValues fuel acc (at_token V (mkToken symString v) (seps 44 print_value l ++ 41 :: b))
  = Ret (acc ++ VString v :: (read_back_value <$> l), at_token V rpar b).
Proof.
  revert fuel acc v. induction l as [|v2 l IH]; intros [|fuel] acc v Hf Hl; simpl in Hf; try lia.
  - by simpl.
  - simpl in Hl. apply andb_true_iff in Hl as [Hs Hl].
    destruct v2 as [|s2| | | |]; try done. cbn [printable_value] in Hs.
    destruct (seps_head 44 print_value l 41 b) as [b' Hb].
    cbn [parseValues].
    rewrite (bind_run _ _ _ (VString v) (before V (seps 44 print_value (VString s2 :: l) ++ 41 :: b)))
      by done.
    rewrite (bind_run _ _ _ true (at_token V comma
      (print_value (VString s2) ++ seps 44 print_value l ++ 41 :: b))).
    2:{ unfold seps. simpl. by rewrite <- app_assoc. }
    rewrite (bind_run _ _ _ tt
      (at_token V (mkToken symString (s2 ≫= escape_rune)) (seps 44 print_value l ++ 41 :: b))).
    + rewrite IH by (done || lia). by rewrite <- app_assoc.
    + apply fetchToken_V. rewrite Hb. apply fetch_value; [done|]. destruct l; auto.
Qed.

Lemma parseOptionalValues_printed fuel values b :
  (length values < fuel)%nat -> forallb printable_value values = true ->
  parseOptionalValues fuel (before V (joinStr (print_value <$> values) [44] ++ 41 :: b))
  = Ret (read_back_value <$> values, at_token V rpar b).
Proof.
  intros Hf Hv. destruct values as [|v l]; [by simpl|].
  simpl in Hv, Hf. apply andb_true_iff in Hv as [Hv Hl].
  destruct v as [|s| | | |]; try done. cbn [printable_value] in Hv.
  rewrite joinStr_cons, <- app_assoc. unfold parseOptionalValues.
  destruct (seps_head 44 print_value l 41 b) as [b' Hb].
  rewrite (bind_run _ _ _ false
    (at_token V (mkToken symString (s ≫= escape_rune)) (seps 44 print_value l ++ 41 :: b))).
  - rewrite (bind_run _ _ _ true
      (at_token V (mkToken symString (s ≫= escape_rune)) (seps 44 print_value l ++ 41 :: b))) by done.
    rewrite parseValues_printed by (done || lia). done.
  - rewrite (looks_ahead_checkToken _ _ (at_token V (mkToken symString (s ≫= escape_rune)) (seps 44 print_value l ++ 41 :: b)));
      [done|].
    apply ensureToken_V. rewrite Hb. apply fetch_value; [done|]. destruct l; auto.
Qed.

Lemma parseOperator_printed o text b :
  Operator_String o = Some text ->
  parseOperator (before D (text ++ 44 :: b)) = Ret (o, before D (44 :: b)).
Proof. destruct o; intros [= <-]; reflexivity. Qed.

Lemma Operator_String_length o text :
  Operator_String o = Some text -> (0 < length text)%nat.
Proof. destruct o; intros [= <-]; simpl; lia. Qed.

Lemma joinStr_length_le {A} sep (f : A -> gostring) l :
  (length l <= S (length (joinStr (f <$> l) [sep])))%nat.
Proof.
  destruct l as [|x l]; [simpl; lia|]. rewrite joinStr_cons, length_app.
  pose proof (seps_length sep f l). simpl length. lia.
Qed.

Lemma parseTerm_printed fuel t text b :
  printable_term t = true -> Term_String t = Some text -> (length text <= fuel)%nat ->
  parseTerm fuel (before D (text ++ b)) = Ret (read_back_term t, before D b).
Proof.
  destruct t as [o path values]. unfold printable_term, Term_String.
  cbn [term_Operator term_Path term_Values]. intros Hp Ht Hf.
  apply andb_true_iff in Hp as [Hp Hv]. apply andb_true_iff in Hp as [Hp Hs].
  apply andb_true_iff in Hp as [_ Hne]. bools.
  destruct path as [|s l]; [done|]. clear Hne. simpl in Hs. apply andb_true_iff in Hs as [Hs Hl].
  apply bind_Some in Ht as (op & Hop & Ht). apply (inj Some) in Ht as <-.
  change (fun v : goany => escapePathSegment (escapeValue (sprintf_s v))) with print_value in *.
  rewrite joinStr_cons in *. rewrite !length_app in Hf. simpl in Hf.
  pose proof (seps_length 47 escapePathSegment l).
  pose proof (joinStr_length_le 44 print_value values).
  pose proof (Operator_String_length _ _ Hop).
  rewrite <- !app_assoc. unfold parseTerm.
  rewrite (bind_run _ _ _ tt (before D (op ++ 44 :: escapePathSegment s
    ++ seps 47 escapePathSegment l ++ 44 :: joinStr (print_value <$> values) [44] ++ 41 :: b)))
    by done.
  erewrite bind_run by by apply parseOperator_printed.
  erewrite (bind_run (consumeToken symComma)) by done.
  destruct (seps_head 47 escapePathSegment l 44 (joinStr (print_value <$> values) [44] ++ 41 :: b))
    as [b' Hb].
  erewrite (bind_run (parsePath fuel []) _ _ (s :: l)).
  2:{ destruct fuel as [|fuel]; [lia|]. cbn [parsePath].
      rewrite (looks_ahead_bind parseIdentifier _ (looks_ahead_bind _ _ looks_ahead_currentToken) _
        (at_token D (ident s) (seps 47 escapePathSegment l ++ 44 :: joinStr (print_value <$> values) [44] ++ 41 :: b))).
      - apply (parsePath_printed (S fuel) []); [lia|done].
      - apply ensureToken_D. rewrite Hb. apply fetch_segment; [done|]. destruct l; auto. }
  erewrite (bind_run (consumeToken symComma)) by done.
  erewrite (bind_run (setMode V)) by done. unfold SetMode; cbn [lexer token buffer].
  erewrite bind_run by (apply parseOptionalValues_printed; [lia|done]).
  done.
Qed.

Lemma Term_String_head t text : Term_String t = Some text -> exists b, text = 40 :: b.
Proof. unfold Term_String. intros (op & _ & [= <-])%bind_Some. by eexists. Qed.

(** Parsing from the opening parenthesis, whether it was looked at or not. *)
Lemma parseTerm_ahead fuel t text b :
  printable_term t = true -> Term_String t = Some (40 :: text) ->
  (S (length text) <= fuel)%nat ->
  parseTerm fuel (at_token D lpar (text ++ b)) = Ret (read_back_term t, before D b).
Proof.
  intros Hp Ht Hf. rewrite <- (parseTerm_printed fuel t (40 :: text) b) by done.
  symmetry. apply looks_ahead_bind; [apply looks_ahead_consumeToken|]. by apply ensureToken_D.
Qed.

Lemma parseSelector_printed fuel acc t ts text texts :
  printable_term t = true -> forallb printable_term ts = true ->
  Term_String t = Some (40 :: text) -> Forall2 (fun t s => Term_String t = Some s) ts texts ->
  (S (length (text ++ seps 59 id texts)) <= fuel)%nat ->
  fst <$> parseSelector fuel acc (at_token D lpar (text ++ seps 59 id texts))
  = Ret (mkSelector (acc ++ (read_back_term <$> t :: ts))).
Proof.
  revert fuel acc t text texts. induction ts as [|t2 ts IH]; intros [|fuel] acc t text texts Ht Hts
    Hs Hss Hf; try lia; rewrite length_app in Hf.
  - inversion Hss; subst. cbn [parseSelector].
    by rewrite (bind_run _ _ _ _ _ (parseTerm_ahead (S fuel) t text _ Ht Hs ltac:(lia))).
  - inversion Hss as [|? text2 ? texts' Hs2 Hss']; subst. simpl in Hts.
    apply andb_true_iff in Hts as [Ht2 Hts].
    destruct (Term_String_head _ _ Hs2) as [b2 ->]. cbn [parseSelector].
    change (seps 59 id ((40 :: b2) :: texts')) with (59 :: (40 :: b2) ++ seps 59 id texts') in *.
    rewrite (bind_run _ _ _ _ _ (parseTerm_ahead (S fuel) t text _ Ht Hs ltac:(lia))).
    transitivity (fst <$> (fetchToken ≫= fun _ => parseSelector fuel (acc ++ [read_back_term t]))
      (at_token D (mkToken symSemicolon (lit ";")) (40 :: b2 ++ seps 59 id texts')));
      [reflexivity|].
    rewrite (bind_run _ _ _ _ _ (fetchToken_D _ (40 :: b2 ++ seps 59 id texts') lpar
      (b2 ++ seps 59 id texts') eq_refl)).
    rewrite (IH _ _ t2); [by rewrite <- app_assoc|done..|].
    simpl in Hf. lia.
Qed.

Lemma looks_ahead_parseSelector fuel acc : looks_ahead (parseSelector (S fuel) acc).
Proof.
  cbn [parseSelector]. apply looks_ahead_bind. unfold parseTerm.
  apply looks_ahead_bind, looks_ahead_consumeToken.
Qed.

Lemma joinStr_texts text texts :
  joinStr (text :: texts) [c_semi] = text ++ seps 59 id texts.
Proof. rewrite <- (list_fmap_id (text :: texts)) at 1. apply (joinStr_cons 59 id). Qed.

Lemma Parse_printed sel text :
  printable sel = true -> Selector_String sel = Some text ->
  Parse text = Ret (mkSelector (read_back_term <$> Terms sel)).
Proof.
  destruct sel as [[|t ts]]; unfold printable, Selector_String; cbn [Terms]; [done|].
  intros [_ Hp]%andb_true_iff Hstr. cbn [forallb] in Hp. apply andb_true_iff in Hp as [Ht Hts].
  apply bind_Some in Hstr as (ss & Hss & Hstr). apply (inj Some) in Hstr as <-.
  apply mapM_Some in Hss. inversion Hss as [|? head ? texts Hs Hss']; subst.
  destruct (Term_String_head _ _ Hs) as [b ->].
  rewrite joinStr_texts. unfold Parse, newSelectorLexer. cbn [app].
  rewrite (looks_ahead_parseSelector _ _ _ (at_token D lpar (b ++ seps 59 id texts))).
  - apply (parseSelector_printed _ []); [done..|simpl; lia].
  - by apply ensureToken_D.
Qed.

(** *** When the escapes change nothing *)

Lemma escape_rune_length r : (length (escape_rune r) = 1 + if special r then 1 else 0)%nat.
Proof. unfold escape_rune, special. repeat case_match; simpl in *; by simplify_eq. Qed.

Lemma escape_length s : (length s <= length (s ≫= escape_rune))%nat.
Proof.
  induction s as [|r s IH]; [done|]. rewrite bind_cons, length_app, escape_rune_length. simpl. lia.
Qed.

Lemma escape_fixpoint s :
  s ≫= escape_rune = s <-> forallb (fun r => negb (special r)) s = true.
Proof.
  split.
  - intros Hs%(f_equal length). induction s as [|r s IH]; [done|].
    rewrite bind_cons, length_app, escape_rune_length in Hs. cbn [length forallb] in *.
    pose proof (escape_length s). destruct (special r); [lia|]. simpl. apply IH. lia.
  - induction s as [|r s IH]; [done|]. cbn [forallb]. intros [Hr Hs]%andb_true_iff. bools.
    by rewrite bind_cons, escape_plain, IH.
Qed.

Lemma read_back_fixpoint vs :
  forallb printable_value vs = true ->
  read_back_value <$> vs = vs <-> forallb plain_value vs = true.
Proof.
  induction vs as [|v vs IH]; [done|]. cbn [forallb]. intros [Hv Hvs]%andb_true_iff.
  destruct v as [|s| | | |]; try done. rewrite fmap_cons, andb_true_iff, <- IH by done.
  cbn [plain_value read_back_value]. rewrite <- escape_fixpoint. naive_solver congruence.
Qed.

(** C28: printing a selector and parsing the text gives the selector back
    exactly when no value holds ~, / or @ ([String] escapes these in values
    and the values mode of the scanner has no escapes).  This covers every
    non-empty selector whose terms use a known operator, a non-empty path of
    segments the scanner can read, and string values without NUL. *)
Theorem Parse_String_iff sel text :
  printable sel = true -> Selector_String sel = Some text ->
  Parse text = Ret sel
  <-> forallb (fun t => forallb plain_value (term_Values t)) (Terms sel) = true.
Proof.
  intros Hp Hs. rewrite (Parse_printed sel text Hp Hs). destruct sel as [ts]. cbn [Terms].
  apply andb_true_iff in Hp as [_ Hp]. cbn [Terms] in Hp. clear Hs.
  transitivity (read_back_term <$> ts = ts); [split; [by intros [= ->]|by intros ->]|].
  induction ts as [|t ts IH]; [done|]. cbn [forallb] in *. apply andb_true_iff in Hp as [Ht Hts].
  apply andb_true_iff in Ht as [_ Hv].
  rewrite fmap_cons, andb_true_iff, <- IH, <- read_back_fixpoint by done.
  destruct t as [o p vs]; unfold read_back_term; simpl. naive_solver congruence.
Qed.

Lemma escapePathSegment_trailing s r :
  special r = true -> escapePathSegment (s ++ [r]) = (s ++ [r]) ≫= escape_rune.
Proof.
  intros Hr. unfold escapePathSegment. case_decide as Hk; [|done].
  change Key with (lit "@ke" ++ [121]) in Hk. by apply app_inj_2 in Hk as [_ [= ->]].
Qed.

(** An attribute name that ends with ~, / or @ cannot be filtered on: the
    text in which [Term.String] escapes that last rune is always rejected,
    because the scanner forgets the identifier after an escape sequence. *)
Theorem Parse_trailing_escape o op s r rest :
  Operator_String o = Some op -> s = [] \/ segment_ok false s = true -> special r = true ->
  Parse ([40] ++ op ++ [44] ++ escapePathSegment (s ++ [r]) ++ [44] ++ rest)
  = Err (UnexpectedToken (lit ",") "identifier").
Proof.
  intros Hop Hs Hr. rewrite escapePathSegment_trailing by done.
  set (path := ((s ++ [r]) ≫= escape_rune) ++ [44] ++ rest).
  unfold Parse, newSelectorLexer. change ([40] ++ ?x) with (40 :: x).
  change ([44] ++ path) with (44 :: path). cbv iota beta.
  rewrite (looks_ahead_parseSelector _ _ _ (at_token D lpar (op ++ 44 :: path)))
    by (by apply ensureToken_D).
  set (fuel := length _). cbn [parseSelector]. unfold parseTerm.
  unfold mbind at 1, parser_bind at 1. unfold mbind at 1, parser_bind at 1.
  change (consumeToken symLeftParenthesis (at_token D lpar (op ++ 44 :: path)))
    with (@Ret parseError _ (tt, before D (op ++ 44 :: path))). cbv iota beta.
  rewrite (bind_run _ _ _ _ _ (parseOperator_printed o op path Hop)).
  rewrite (bind_run _ _ _ tt (before D path)) by done.
  unfold mbind at 1, parser_bind at 1. cbn [parsePath].
  unfold mbind at 1, parser_bind at 1. unfold parseIdentifier.
  rewrite (looks_ahead_bind currentToken _ looks_ahead_currentToken _ (at_token D comma rest));
    [done|].
  apply ensureToken_D, (fetch_trailing_escape s r 44); auto.
Qed.
End round_trip.

(** ** What a parsed selector looks like *)

(** An operator of the language, some path, and values that are strings. *)
Definition parsed_term (t : Term) : Prop :=
  is_Some (Operator_String (term_Operator t)) /\ term_Path t <> [] /\
  forallb is_string (term_Values t) = true.

Section parsed.
Context `{Unicode}.

Lemma yields_parseOperator : yields (fun o => is_Some (Operator_String o)) parseOperator.
Proof. unfold parseOperator. yields; by eexists. Qed.

Lemma yields_unexpectedToken {A} (P : A -> Prop) show s : yields P (unexpectedToken show s).
Proof. unfold unexpectedToken. yields. Qed.

Lemma yields_parsePath fuel segments : yields (fun p => p <> []) (parsePath fuel segments).
Proof.
  revert segments; induction fuel as [|fuel IH]; intros segments; simpl; yields;
    auto using yields_unexpectedToken.
  by destruct segments.
Qed.

Lemma yields_parseValues fuel values :
  forallb is_string values = true ->
  yields (fun vs => forallb is_string vs = true) (parseValues fuel values).
Proof.
  revert values; induction fuel as [|fuel IH]; intros values Hv; simpl; [yields|].
  apply (yields_bind (fun v => is_string v = true)); [unfold parseValue; by yields|].
  intros v Hs. assert (forallb is_string (values ++ [v]) = true) as Hvs.
  { rewrite forallb_app, Hv. simpl. by rewrite Hs. }
  yields; auto using yields_unexpectedToken.
Qed.

Lemma yields_parseTerm fuel : yields parsed_term (parseTerm fuel).
Proof.
  unfold parseTerm. apply yields_bind_any. intros _.
  apply (yields_bind _ _ _ _ yields_parseOperator). intros o Ho. apply yields_bind_any. intros _.
  apply (yields_bind _ _ _ _ (yields_parsePath fuel [])). intros p Hp.
  do 2 (apply yields_bind_any; intros _).
  apply (yields_bind (fun vs => forallb is_string vs = true)).
  - unfold parseOptionalValues. yields; auto using yields_parseValues, yields_unexpectedToken.
  - intros vs Hvs. yields. done.
Qed.

Lemma yields_parseSelector fuel terms :
  Forall parsed_term terms ->
  yields (fun sel => Terms sel <> [] /\ Forall parsed_term (Terms sel)) (parseSelector fuel terms).
Proof.
  revert terms; induction fuel as [|fuel IH]; intros terms Ht; [apply yields_no_fuel|].
  cbn [parseSelector]. apply (yields_bind _ _ _ _ (yields_parseTerm (S fuel))). intros t Hp.
  assert (Forall parsed_term (terms ++ [t])) by (apply Forall_app; auto).
  yields; auto using yields_unexpectedToken. split; [by destruct terms|done].
Qed.

Lemma Parse_yields text sel :
  Parse text = Ret sel -> Terms sel <> [] /\ Forall parsed_term (Terms sel).
Proof.
  unfold Parse. destruct (newSelectorLexer text); try done.
  set (t0 := mkTask _ _). clearbody t0.
  pose proof (yields_parseSelector (S (length text)) [] (Forall_nil_2 _) t0) as Hy.
  destruct (parseSelector _ _ t0) as [[s t]| | |]; try done. intros [= <-]. by eapply Hy.
Qed.
End parsed.

(** ** Witnesses *)

Definition sample_selector : Selector :=
  mkSelector [mkTerm OpEq [lit "extensions"; lit "a/b"] [VString (lit "it's")];
              mkTerm OpNin [Key] [VString (lit "x, y"); VString []]].

Definition sample_text : gostring := lit "(eq,extensions/a~1b,'it''s');(nin,@key,'x, y','')".

Lemma Parse_String_iff_witness :
  @Parse ascii_unicode sample_text = Ret sample_selector <-> true = true.
Proof.
  apply (@Parse_String_iff ascii_unicode ascii_unicode_laws integer_strconv sample_selector sample_text);
    vm_compute; reflexivity.
Defined.

Lemma Parse_trailing_escape_witness :
  @Parse ascii_unicode (lit "(eq,url~1,'x')") = Err (UnexpectedToken (lit ",") "identifier").
Proof.
  apply (@Parse_trailing_escape ascii_unicode ascii_unicode_laws OpEq (lit "eq") (lit "url") 47%Z (lit "'x')"));
    [reflexivity|right; vm_compute; reflexivity|reflexivity].
Defined.
