(* ===== verification/SearchPaths.v ===== *)
(** * internal/search/paths_lexer.go and paths_parser.go: field paths

    The scanner is another automaton over the driver of [SearchLexer]; the
    parser reads comma-separated paths of slash-separated segments.  [Parse]
    takes several texts and, unlike the selector parser, keeps what it read
    before the text it rejects. *)
From S2P Require Import Prelude GoStrings SearchLexer SearchMonad.
#[local] Open Scope Z_scope.

Abbreviation Path := (list gostring).

Inductive pathsSymbol : Type :=
| pathsEnd | pathsIdentifier | pathsComma | pathsSlash.

#[export] Instance pathsSymbol_eq_dec : EqDecision pathsSymbol.
Proof. solve_decision. Defined.

Record pathsToken := mkPathsToken { ptok_Symbol : pathsSymbol; ptok_Text : gostring }.

Definition pathsSymbol_String (s : pathsSymbol) : string :=
  match s with
  | pathsEnd => "End"
  | pathsIdentifier => "Identifier"
  | pathsComma => "Comma"
  | pathsSlash => "Slash"
  end.

(** ** The automaton of [pathsLexer.FetchToken] *)

Inductive pathsState : Type := P0 | P1 | P2.

Definition paths_step `{Unicode} (st : pathsState) (lexeme : gostring) (r : rune)
    : action pathsState pathsToken :=
  match st with
  | P0 =>
      if isSpace r then Goto P0 lexeme
      else if isLetter r || (r =? c_under) then Goto P1 (lexeme ++ [r])
      else if r =? c_comma then Emit (mkPathsToken pathsComma (lit ","))
      else if r =? c_slash then Emit (mkPathsToken pathsSlash (lit "/"))
      else if r =? c_tilde then Goto P2 lexeme
      else if r =? 0 then Emit (mkPathsToken pathsEnd [])
      else Reject (UnexpectedCharacter r)
  | P1 =>
      if isLetter r || isDigit r || (r =? c_under) then Goto P1 (lexeme ++ [r])
      else if r =? c_tilde then Goto P2 lexeme
      else UnreadEmit (mkPathsToken pathsIdentifier lexeme)
  | P2 =>
      if r =? c_0 then Goto P0 (lexeme ++ [c_tilde])
      else if r =? c_1 then Goto P0 (lexeme ++ [c_slash])
      else if r =? c_a then Goto P0 (lexeme ++ [c_comma])
      else Reject (UnknownEscape r)
  end.

Definition pathsLexer : Type := list rune.

(** [pathsLexerBuilder.Build], the logger being set by the parser. *)
Definition newPathsLexer (source : gostring) : outcome lexError pathsLexer :=
  match source with [] => Err LexSourceMandatory | _ => Ret source end.

Definition pathsFetchToken `{Unicode} (l : pathsLexer) : outcome lexError (pathsToken * pathsLexer) :=
  scan paths_step P0 [] l.

(** ** The parser *)

Record pathsParserTask := mkPathsTask { plexer : pathsLexer; ptoken : option pathsToken }.

#[local] Abbreviation parser := (SearchMonad.parser pathsParserTask).

Section parser.
Context `{Unicode}.

Definition paths_fetchToken : parser unit := fun t =>
  match pathsFetchToken (plexer t) with
  | Ret (tok, l) => Ret (tt, {| plexer := l; ptoken := Some tok |})
  | Err e => Err (LexError e)
  | Panic => Panic
  | NoFuel => NoFuel
  end.

Definition paths_ensureToken : parser unit := fun t =>
  match ptoken t with
  | None => paths_fetchToken t
  | Some _ => Ret (tt, t)
  end.

Definition paths_getToken : parser pathsToken := fun t =>
  match ptoken t with Some tok => Ret (tok, t) | None => Panic end.

Definition paths_currentToken : parser pathsToken := _ ← paths_ensureToken; paths_getToken.

Definition paths_checkToken (symbol : pathsSymbol) : parser bool :=
  tok ← paths_currentToken; mret (bool_decide (ptok_Symbol tok = symbol)).

Definition paths_expected_name (symbol : pathsSymbol) : string :=
  match symbol with
  | pathsEnd => "end of input"
  | pathsIdentifier => "identifier"
  | pathsComma => "comma"
  | pathsSlash => "slash"
  end.

Definition paths_dropToken : parser unit := fun t =>
  Ret (tt, {| plexer := plexer t; ptoken := None |}).

Definition paths_consumeToken (symbol : pathsSymbol) : parser unit :=
  tok ← paths_currentToken;
  if decide (ptok_Symbol tok = symbol) then paths_dropToken
  else parse_fail (UnexpectedToken (ptok_Text tok) (paths_expected_name symbol)).

Definition paths_parseIdentifier : parser gostring :=
  tok ← paths_currentToken; _ ← paths_consumeToken pathsIdentifier; mret (ptok_Text tok).

Definition paths_unexpectedToken {A} (expecting : string) : parser A :=
  tok ← paths_currentToken; parse_fail (UnexpectedToken (ptok_Text tok) expecting).

Fixpoint paths_parsePath (fuel : nat) (segments : Path) : parser Path :=
  match fuel with
  | O => out_of_fuel
  | S fuel =>
      segment ← paths_parseIdentifier;
      let segments := segments ++ [segment] in
      slash ← paths_checkToken pathsSlash;
      if (slash : bool) then _ ← paths_fetchToken; paths_parsePath fuel segments
      else
        comma ← paths_checkToken pathsComma;
        if (comma : bool) then mret segments
        else
          fin ← paths_checkToken pathsEnd;
          if (fin : bool) then mret segments
          else paths_unexpectedToken "slash or comma"
  end.

Fixpoint paths_parsePaths (fuel : nat) (paths : list Path) : parser (list Path) :=
  match fuel with
  | O => out_of_fuel
  | S fuel' =>
      path ← paths_parsePath fuel [];
      let paths := paths ++ [path] in
      comma ← paths_checkToken pathsComma;
      if (comma : bool) then _ ← paths_fetchToken; paths_parsePaths fuel' paths
      else
        fin ← paths_checkToken pathsEnd;
        if (fin : bool) then mret paths
        else paths_unexpectedToken "comma or right parenthesis"
  end.

(** One text: the body of the loop of [Parse]. *)
Definition parse_one (path : gostring) : outcome parseError (list Path) :=
  match newPathsLexer path with
  | Ret lexer =>
      fst <$> paths_parsePaths (S (length path)) [] {| plexer := lexer; ptoken := None |}
  | Err e => Err (LexError e)
  | Panic => Panic
  | NoFuel => NoFuel
  end.

(** [PathsParser.Parse]: the named results when the loop ends, or when a panic
    is recovered; [result] has then the paths of the texts read before. *)
Fixpoint parse_texts (result : list Path) (paths : list gostring)
    : list Path * outcome parseError unit :=
  match paths with
  | [] => (result, Ret tt)
  | path :: rest =>
      match parse_one path with
      | Ret ps => parse_texts (result ++ ps) rest
      | Err e => (result, Err e)
      | Panic => (result, Panic)
      | NoFuel => (result, NoFuel)
      end
  end.

Definition PathsParse (paths : list gostring) : list Path * outcome parseError unit :=
  parse_texts [] paths.
End parser.

(** ** Termination *)

Section termination.
Context `{Unicode}.

Definition paths_weight (o : option pathsToken) : nat :=
  match o with
  | Some tok => if decide (ptok_Symbol tok = pathsEnd) then 0%nat else 1%nat
  | None => 0%nat
  end.

#[export] Instance paths_task_measured : Measured pathsParserTask := {
  task_size t := (length (plexer t) + paths_weight (ptoken t))%nat;
  task_ok t := True;
}.

Lemma paths_stops_at_end : stops_at_end paths_step.
Proof. by intros [] lexeme st' lexeme'. Qed.

Lemma costs_paths_fetchToken n : costs n 0 paths_fetchToken.
Proof.
  intros t _ _. unfold paths_fetchToken, pathsFetchToken.
  pose proof (scan_returns paths_step P0 [] (plexer t) paths_stops_at_end) as Hr.
  destruct (scan paths_step P0 [] (plexer t)) as [[tok l]| | |] eqn:E; try done.
  split; [done|]. unfold task_size, paths_task_measured, paths_weight; simpl.
  pose proof (scan_length _ _ _ _ _ _ E). case_decide; [lia|].
  apply scan_progress in E as [?|[= <-]]; [lia|done|].
  intros r tok'. unfold paths_step. cases.
Qed.

Lemma paths_currentToken_inv t :
  match paths_currentToken t with
  | Ret (tok, t') => ptoken t' = Some tok /\ (task_size t' <= task_size t)%nat
  | Err _ => True
  | Panic | NoFuel => False
  end.
Proof.
  unfold paths_currentToken, mbind, parser_bind, paths_ensureToken, paths_getToken.
  destruct (ptoken t) as [tok|] eqn:E; [by rewrite E|].
  pose proof (costs_paths_fetchToken (S (task_size t)) t I ltac:(lia)) as Hc.
  destruct (paths_fetchToken t) as [[u t']| | |] eqn:Ef; try done.
  assert (exists tok, ptoken t' = Some tok) as [tok Htok].
  { unfold paths_fetchToken in Ef.
    destruct (pathsFetchToken (plexer t)) as [[tok l]| | |]; simplify_eq. by exists tok. }
  rewrite Htok. split; [done|]. destruct Hc. lia.
Qed.

Lemma costs_paths_currentToken n : costs n 0 paths_currentToken.
Proof.
  intros t Hok Hn. pose proof (paths_currentToken_inv t) as Hc.
  destruct (paths_currentToken t) as [[tok t']| | |]; try done.
  destruct Hc. split; [done|lia].
Qed.

Lemma costs_paths_checkToken n symbol : costs n 0 (paths_checkToken symbol).
Proof. apply costs_bind0; [apply costs_paths_currentToken|]. intros. apply costs_ret. Qed.

Lemma costs_paths_consumeToken n symbol :
  symbol <> pathsEnd -> costs n 1 (paths_consumeToken symbol).
Proof.
  intros Hs t Hok Hn. unfold paths_consumeToken, mbind, parser_bind.
  pose proof (paths_currentToken_inv t) as Hc.
  destruct (paths_currentToken t) as [[tok t']| | |]; try done.
  destruct Hc as (Htok & Hle). case_decide as Hsym; simpl; [|done].
  split; [done|]. unfold task_size, paths_task_measured in *; simpl. rewrite Htok in Hle.
  simpl in Hle. rewrite decide_False in Hle by congruence. lia.
Qed.

#[local] Hint Resolve costs_paths_fetchToken costs_paths_currentToken
  costs_paths_checkToken : costs.
#[local] Hint Extern 1 (costs _ 1 (paths_consumeToken _)) =>
  apply costs_paths_consumeToken; done : costs.

Lemma costs_paths_parseIdentifier n : costs n 1 paths_parseIdentifier.
Proof. unfold paths_parseIdentifier. costs. Qed.

Lemma costs_paths_unexpectedToken {A} n d s : costs n d (@paths_unexpectedToken _ A s).
Proof. apply costs_bind0; eauto with costs. Qed.

#[local] Hint Resolve costs_paths_parseIdentifier costs_paths_unexpectedToken : costs.

Lemma costs_paths_parsePath fuel segments : costs fuel 1 (paths_parsePath fuel segments).
Proof.
  revert segments; induction fuel as [|fuel IH]; intros segments; [apply costs_no_fuel|].
  simpl. apply costs_bind_loop; [eauto with costs|]. intros segment. costs.
Qed.

#[local] Hint Resolve costs_paths_parsePath : costs.

Lemma costs_paths_parsePaths fuel paths : costs fuel 1 (paths_parsePaths fuel paths).
Proof.
  revert paths; induction fuel as [|fuel IH]; intros paths; [apply costs_no_fuel|].
  cbn [paths_parsePaths]. apply costs_bind_loop; [eauto with costs|]. intros path. costs.
Qed.

Lemma parse_one_returns path : returned (parse_one path).
Proof.
  unfold parse_one, newPathsLexer. destruct path as [|r path]; [done|].
  set (t0 := mkPathsTask _ _). cbv iota beta.
  pose proof (costs_paths_parsePaths (S (length (r :: path))) [] t0 I) as Hc.
  specialize (Hc ltac:(unfold task_size; simpl; lia)).
  by destruct (paths_parsePaths _ _ t0) as [[]| | |].
Qed.

Lemma parse_texts_spec result paths :
  exists good bad psss,
    paths = good ++ bad /\ Forall2 (fun p ps => parse_one p = Ret ps) good psss /\
    fst (parse_texts result paths) = result ++ concat psss /\
    match bad with
    | [] => snd (parse_texts result paths) = Ret tt
    | p :: _ => exists e, parse_one p = Err e /\ snd (parse_texts result paths) = Err e
    end.
Proof.
  revert result; induction paths as [|p paths IH]; intros result; simpl.
  { exists [], [], []. cbn [concat]. rewrite (app_nil_r result). split_and!; [done|apply Forall2_nil_2|done..]. }
  pose proof (parse_one_returns p) as Hr. destruct (parse_one p) as [ps|e| |] eqn:E; try done.
  - destruct (IH (result ++ ps)) as (good & bad & psss & -> & Hg & Hf & Hb).
    exists (p :: good), bad, (ps :: psss). rewrite Hf, <- app_assoc.
    split_and!; [done|by constructor|done|done].
  - exists [], (p :: paths), []. cbn [concat]. rewrite (app_nil_r result). split_and!; [done|apply Forall2_nil_2|done|by exists e].
Qed.

(** [PathsParser.Parse] always comes back.  Its texts split into a prefix
    it accepts and a rest; the result is the paths of the prefix, in order,
    and the error is nil when the rest is empty and otherwise that of the
    first text of the rest. *)
Theorem PathsParse_spec paths :
  exists good bad psss,
    paths = good ++ bad /\ Forall2 (fun p ps => parse_one p = Ret ps) good psss /\
    fst (PathsParse paths) = concat psss /\
    match bad with
    | [] => snd (PathsParse paths) = Ret tt
    | p :: _ => exists e, parse_one p = Err e /\ snd (PathsParse paths) = Err e
    end.
Proof. apply (parse_texts_spec []). Qed.
End termination.
