(* ===== verification/SearchPathEval.v ===== *)
(** * internal/search/path_evaluator.go: the value of an attribute given its path

    A [reflect.Value] is a tree: what [Kind], [FieldByName], [MapIndex], [Elem],
    [IsNil], [IsValid] and [Interface] of package reflect observe of it.
    Structs have no embedded fields.  A value reached through an unexported
    field is read-only, and [Interface] panics on it. *)
From S2P Require Import Prelude GoStrings.
#[local] Open Scope Z_scope.

Inductive rval : Type :=
| RInvalid
| RStruct (name pkg : gostring) (fields : list ((gostring * bool) * rval))  (* name, exported *)
| RPointer (typ : gostring) (elem : option rval)
| RMap (typ : gostring) (string_keys : bool) (entries : list (gostring * rval))
| RInterface (typ : gostring) (elem : option rval)
| RLeaf (v : goany).

Section rval_induction.
Context (P : rval -> Prop).
Context (H_invalid : P RInvalid).
Context (H_struct : forall n p fs, Forall (fun f => P f.2) fs -> P (RStruct n p fs)).
Context (H_pointer : forall t e, (forall v, e = Some v -> P v) -> P (RPointer t e)).
Context (H_map : forall t b es, Forall (fun f => P f.2) es -> P (RMap t b es)).
Context (H_interface : forall t e, (forall v, e = Some v -> P v) -> P (RInterface t e)).
Context (H_leaf : forall v, P (RLeaf v)).

Fixpoint rval_tree_ind (o : rval) : P o.
Proof.
  destruct o as [|n p fs|t e|t b es|t e|v].
  - exact H_invalid.
  - apply H_struct. induction fs as [|[k v] fs IH]; constructor; [apply rval_tree_ind|exact IH].
  - apply H_pointer. destruct e as [v|]; [|intros v [=]]. intros ? [= <-]. apply rval_tree_ind.
  - apply H_map. induction es as [|[k v] es IH]; constructor; [apply rval_tree_ind|exact IH].
  - apply H_interface. destruct e as [v|]; [|intros v [=]]. intros ? [= <-]. apply rval_tree_ind.
  - apply H_leaf.
Qed.
End rval_induction.

Inductive evalError : Type :=
| ExpectedStructOrMap (typ : gostring)
| NoField (typ pkg field : gostring)
| NoKey (key : gostring).

Definition leaf_type (v : goany) : gostring :=
  match v with
  | VNil => lit "nil"
  | VString _ => lit "string"
  | VInt _ => lit "int"
  | VFloat _ => lit "float64"
  | VBool _ => lit "bool"
  | VOther typ _ => typ
  end.

Section path_evaluator.
Context (allowMissingFields : bool).

(** The outcome of a field or a key that is not there. *)
Definition missing (e : evalError) : outcome evalError (rval * bool) :=
  if allowMissingFields then Ret (RInvalid, false) else Err e.

(** A step of a [reflect.Value] below a read-only one stays read-only. *)
Definition under (ro : bool) (r : rval * bool) : rval * bool := (r.1, ro || r.2).

(** [PathEvaluator.evaluate] with evaluateStruct, evaluatePointer, evaluateMap
    and evaluateInterface inlined; the boolean of the result tells a read-only
    value.  An invalid object makes [object.Type()] panic, and so does the
    [MapIndex] of a string in a map with keys of another type. *)
Fixpoint evaluate (object : rval) (path : list gostring)
    : outcome evalError (rval * bool) :=
  match path with
  | [] => Ret (object, false)
  | field :: path' =>
      match object with
      | RInvalid => Panic
      | RStruct name pkg fields =>
          match assoc_lookup field
                  (map (fun '((k, exported), v) => (k, (exported, evaluate v))) fields) with
          | None => missing (NoField name pkg field)
          | Some (exported, eval) => under (negb exported) <$> eval path'
          end
      | RPointer _ None => Ret (RInvalid, false)
      | RPointer _ (Some v) => evaluate v path
      | RMap _ string_keys entries =>
          if (string_keys : bool) then
            match assoc_lookup field (map (fun '(k, v) => (k, evaluate v)) entries) with
            | None => missing (NoKey field)
            | Some eval => eval path'
            end
          else Panic
      | RInterface _ None => Ret (RInvalid, false)
      | RInterface _ (Some v) => evaluate v path
      | RLeaf v => Err (ExpectedStructOrMap (leaf_type v))
      end
  end.

(** [Value.Interface]: the dynamic value, that of the element for an interface. *)
Fixpoint to_any (object : rval) : goany :=
  match object with
  | RInvalid => VNil
  | RStruct name _ _ => VOther name []
  | RPointer typ _ => VOther typ []
  | RMap typ _ _ => VOther typ []
  | RInterface _ None => VNil
  | RInterface _ (Some v) => to_any v
  | RLeaf v => v
  end.

(** [PathEvaluator.Evaluate]; the error is wrapped with the path. *)
Definition Evaluate (path : list gostring) (object : rval)
    : outcome (gostring * evalError) goany :=
  '(value, ro) ← map_err (pair (joinStr path [c_slash])) (evaluate object path);
  match value with
  | RInvalid => Ret VNil
  | _ => if (ro : bool) then Panic else Ret (to_any value)
  end.

(** ** Values on which reflection cannot panic *)

Fixpoint transparent (object : rval) : bool :=
  match object with
  | RInvalid | RLeaf _ => true
  | RStruct _ _ fields => forallb (fun '((_, exported), v) => exported && transparent v) fields
  | RPointer _ e | RInterface _ e => match e with None => true | Some v => transparent v end
  | RMap _ string_keys entries =>
      string_keys && forallb (fun '(_, v) => transparent v) entries
  end.

(** Every invalid value is at the root: fields, entries and elements are valid. *)
Fixpoint well_formed (object : rval) : bool :=
  match object with
  | RInvalid => false
  | RLeaf _ => true
  | RStruct _ _ fields => forallb (fun '(_, v) => well_formed v) fields
  | RPointer _ e | RInterface _ e => match e with None => true | Some v => well_formed v end
  | RMap _ _ entries => forallb (fun '(_, v) => well_formed v) entries
  end.
End path_evaluator.

Section facts.
Context (allow : bool).

Abbreviation evaluate := (evaluate allow).
Abbreviation Evaluate := (Evaluate allow).

(** The field [FieldByName] finds, with the value behind it. *)
Lemma evaluate_struct name pkg fields field path :
  evaluate (RStruct name pkg fields) (field :: path) =
    match assoc_lookup field (map (fun '((k, ex), v) => (k, (ex, v))) fields) with
    | None => missing allow (NoField name pkg field)
    | Some (ex, v) => under (negb ex) <$> evaluate v path
    end.
Proof.
  simpl. induction fields as [|[[k ex] v] fields IH]; simpl; [done|]. by case_decide.
Qed.

Lemma evaluate_map typ entries field path :
  evaluate (RMap typ true entries) (field :: path) =
    match assoc_lookup field entries with
    | None => missing allow (NoKey field)
    | Some v => evaluate v path
    end.
Proof. simpl. rewrite assoc_lookup_map. by destruct (assoc_lookup field entries). Qed.

Lemma struct_field_elem (fields : list ((gostring * bool) * rval)) field ex v :
  assoc_lookup field (map (fun '((k, ex), v) => (k, (ex, v))) fields) = Some (ex, v) ->
  ((field, ex), v) ∈ fields.
Proof.
  intros E%assoc_lookup_elem. apply list_elem_of_fmap in E as ([[k ex'] v'] & [= -> -> ->] & ?).
  done.
Qed.

Lemma missing_dichotomy e :
  missing allow e = Ret (RInvalid, false) \/ missing allow e = Err e.
Proof. unfold missing. destruct allow; auto. Qed.

(** Continue from where a path led. *)
Definition resume (q : list gostring) (r : rval * bool) : outcome evalError (rval * bool) :=
  match r.1 with
  | RInvalid => Ret r
  | v => under r.2 <$> evaluate v q
  end.

Lemma resume_under b q r : resume q (under b r) = under b <$> resume q r.
Proof.
  destruct r as [v ro]. unfold resume, under. simpl.
  destruct v; try done;
    match goal with |- _ = _ <$> (_ <$> ?m) => destruct m as [[]| | |] end;
    simpl; try done; by rewrite orb_assoc.
Qed.

Lemma under_false m : under false <$> m = (m : outcome evalError (rval * bool)).
Proof. by destruct m as [[]| | |]. Qed.

Lemma resume_here o q : well_formed o = true -> evaluate o q = resume q (o, false).
Proof. unfold resume. destruct o; simpl; try done; by rewrite under_false. Qed.

Lemma evaluate_resume o p q :
  well_formed o = true -> evaluate o (p ++ q) = evaluate o p ≫= resume q.
Proof.
  revert p; induction o as [|name pkg fields IH|t e IH|t b es IH|t e IH|v] using rval_tree_ind;
    intros p Hwf; (destruct p as [|f p]; [by apply resume_here|]).
  - done.
  - rewrite <- app_comm_cons, !evaluate_struct.
    destruct (assoc_lookup _ _) as [[ex v]|] eqn:E.
    + apply struct_field_elem in E. rewrite Forall_forall in IH.
      rewrite (IH _ E) by (by eapply (forallb_elem _ _ _ Hwf) in E).
      simpl. destruct (evaluate v p) as [r| | |]; try done. simpl. by rewrite resume_under.
    + by destruct (missing_dichotomy (NoField name pkg f)) as [-> | ->].
  - destruct e as [v|]; [|done]. by apply (IH v eq_refl (f :: p)).
  - destruct b; [|done]. rewrite <- app_comm_cons, !evaluate_map.
    destruct (assoc_lookup _ _) as [v|] eqn:E.
    + apply assoc_lookup_elem in E. rewrite Forall_forall in IH.
      apply (IH _ E). by eapply (forallb_elem _ _ _ Hwf) in E.
    + by destruct (missing_dichotomy (NoKey f)) as [-> | ->].
  - destruct e as [v|]; [|done]. by apply (IH v eq_refl (f :: p)).
  - done.
Qed.

Lemma evaluate_transparent o p :
  well_formed o = true -> transparent o = true ->
  match evaluate o p with
  | Ret (_, ro) => ro = false
  | Err _ => True
  | Panic | NoFuel => False
  end.
Proof.
  revert p; induction o as [|name pkg fields IH|t e IH|t b es IH|t e IH|v] using rval_tree_ind;
    intros p Hwf Htr; (destruct p as [|f p]; [done|]).
  - done.
  - rewrite evaluate_struct. destruct (assoc_lookup _ _) as [[ex v]|] eqn:E.
    + apply struct_field_elem in E. rewrite Forall_forall in IH.
      eapply (forallb_elem _ _ _ Hwf) in E as Hw. eapply (forallb_elem _ _ _ Htr) in E as Ht.
      simpl in Hw, Ht. bools. subst. specialize (IH _ E p Hw). simpl in *.
      destruct (evaluate v p) as [[r ro]| | |]; simpl; auto.
    + by destruct (missing_dichotomy (NoField name pkg f)) as [-> | ->].
  - destruct e as [v|]; [|done]. by apply (IH v eq_refl (f :: p)).
  - simpl in Htr. bools. subst. rewrite evaluate_map.
    destruct (assoc_lookup _ _) as [v|] eqn:E.
    + apply assoc_lookup_elem in E. rewrite Forall_forall in IH.
      apply (IH _ E); [by eapply (forallb_elem _ _ _ Hwf) in E|].
      match goal with H : forallb _ es = true |- _ => by eapply (forallb_elem _ _ _ H) in E end.
    + by destruct (missing_dichotomy (NoKey f)) as [-> | ->].
  - destruct e as [v|]; [|done]. by apply (IH v eq_refl (f :: p)).
  - done.
Qed.

(** [PathEvaluator.evaluate] is compositional: following [p ++ q] is
    following [p] and then [q] from where it led, an unexported field on the
    way still marking the result; an absent value (a missing optional field,
    a nil pointer) met along [p] is the result for every continuation. *)
Theorem evaluate_app o p q :
  well_formed o = true -> evaluate o (p ++ q) = evaluate o p ≫= resume q.
Proof. apply evaluate_resume. Qed.

(** [PathEvaluator.Evaluate] comes back with a value or an error, never a
    panic, on a non-nil object whose structs have exported fields only and
    whose maps have string keys, whatever the path; and when it fails, the
    error carries the path it was asked for. *)
Theorem Evaluate_returns o p :
  well_formed o = true -> transparent o = true ->
  returned (Evaluate p o) /\ forall q e, Evaluate p o = Err (q, e) -> q = joinStr p [c_slash].
Proof.
  intros Hwf Htr. pose proof (evaluate_transparent o p Hwf Htr) as He.
  unfold SearchPathEval.Evaluate. destruct (evaluate o p) as [[v ro]|e| |]; simpl; try done.
  - subst. split; [by destruct v|]. intros q e. by destruct v.
  - split; [done|]. by intros q e' [= <- <-].
Qed.
End facts.

(** A struct with an unexported pointer to a struct, in an interface in a map. *)
Definition example_object : rval :=
  RMap (lit "map[string]interface {}") true
    [(lit "a", RInterface (lit "interface {}")
        (Some (RStruct (lit "S") (lit "p")
          [((lit "x", false), RPointer (lit "*T")
              (Some (RStruct (lit "T") (lit "p") [((lit "Y", true), RLeaf (VInt 7))])));
           ((lit "Z", true), RPointer (lit "*T") None)])))].

Example evaluate_app_witness :
  evaluate false example_object ([lit "a"; lit "x"] ++ [lit "Y"]) =
    evaluate false example_object [lit "a"; lit "x"] ≫= resume false [lit "Y"]
  /\ evaluate false example_object [lit "a"; lit "x"; lit "Y"] = Ret (RLeaf (VInt 7), true).
Proof. split; [apply (evaluate_app false example_object); reflexivity | reflexivity]. Defined.

Definition example_exported : rval :=
  RMap (lit "map[string]interface {}") true
    [(lit "a", RInterface (lit "interface {}") (Some (RLeaf (VString (lit "v")))));
     (lit "n", RInterface (lit "interface {}") None)].

Example Evaluate_returns_witness :
  (returned (Evaluate true [lit "a"; lit "b"] example_exported) /\
   forall q e, Evaluate true [lit "a"; lit "b"] example_exported = Err (q, e) ->
               q = joinStr [lit "a"; lit "b"] [c_slash])
  /\ Evaluate true [lit "n"; lit "b"] example_exported = Ret VNil.
Proof. split; [apply Evaluate_returns; reflexivity | reflexivity]. Defined.
