(* ===== verification/SearchEvaluator.v ===== *)
(** * internal/search/selector_evaluator.go: evaluating selectors on objects *)
From S2P Require Import Prelude GoStrings SearchSelector.
From Corelib Require Import SpecFloat.
#[local] Open Scope Z_scope.

(** The errors the operators create; [PathError] is one of the path evaluator. *)
Inductive cmpError {PE : Type} : Type :=
| PathError (e : PE)
| UnknownOperator (o : Operator)
| RequiresString (op : string) (value : goany)
| OneValue (op : string) (count : nat)
| Unsupported (op : string) (value : goany)
| DontKnowValue (value : goany)
| DontKnowArg (target : string) (arg : goany)
| AtoiError (s : gostring)
| ParseFloatError (s : gostring)
| ParseBoolError (s : gostring).
Arguments cmpError : clear implicits.

Section evaluator.
Context `{Unicode, Strconv} {Obj PE : Type}.
Context (pathEvaluator : list gostring -> Obj -> outcome PE goany).

Abbreviation result := (outcome (cmpError PE)).

(** ** The conversions of the values of a term to the type of the attribute *)

Definition convertString (arg : goany) : result goany :=
  match arg with
  | VString s => Ret (VString s)
  | VInt n => Ret (VString (itoa n))
  | VFloat f => Ret (VString (formatFloat f))
  | VBool b => Ret (VString (formatBool b))
  | _ => Err (DontKnowArg "string" arg)
  end.

(** A boolean argument is kept as it is. *)
Definition convertInt (arg : goany) : result goany :=
  match arg with
  | VString s => match atoi s with Some n => Ret (VInt n) | None => Err (AtoiError s) end
  | VInt n => Ret (VInt n)
  | VFloat f => Ret (VInt (float_to_int f))
  | VBool b => Ret (VBool b)
  | _ => Err (DontKnowArg "integer" arg)
  end.

Definition convertFloat (arg : goany) : result goany :=
  match arg with
  | VString s =>
      match parseFloat s with Some f => Ret (VFloat f) | None => Err (ParseFloatError s) end
  | VInt n => Ret (VFloat (float_of_int n))
  | VFloat f => Ret (VFloat f)
  | VBool b => Ret (VFloat (if b then float_one else float_zero))
  | _ => Err (DontKnowArg "integer" arg)
  end.

(** [arg != 0] compares interfaces: a float64 is never equal to the [int] 0. *)
Definition convertBool (arg : goany) : result goany :=
  match arg with
  | VString s => match parseBool s with Some b => Ret (VBool b) | None => Err (ParseBoolError s) end
  | VInt n => Ret (VBool (negb (n =? 0)))
  | VFloat _ => Ret (VBool true)
  | VBool b => Ret (VBool b)
  | _ => Err (DontKnowArg "boolean" arg)
  end.

(** The loops of convertStrings, convertInts, convertFloats and convertBools. *)
Fixpoint convertAll (convert : goany -> result goany) (args : list goany) : result (list goany) :=
  match args with
  | [] => Ret []
  | arg :: rest =>
      converted ← convert arg; others ← convertAll convert rest; Ret (converted :: others)
  end.

Definition convertStrings := convertAll convertString.
Definition convertInts := convertAll convertInt.
Definition convertFloats := convertAll convertFloat.
Definition convertBools := convertAll convertBool.

Definition convertArgs (value : goany) (args : list goany) : result (list goany) :=
  match value with
  | VString _ => convertStrings args
  | VInt _ => convertInts args
  | VFloat _ => convertFloats args
  | VBool _ => convertBools args
  | _ => Err (DontKnowValue value)
  end.

(** ** Type assertions [arg.(T)]: they panic on another type *)

Definition as_string (arg : goany) : result gostring :=
  match arg with VString s => Ret s | _ => Panic end.
Definition as_int (arg : goany) : result Z :=
  match arg with VInt n => Ret n | _ => Panic end.
Definition as_float (arg : goany) : result float64 :=
  match arg with VFloat f => Ret f | _ => Panic end.
Definition as_bool (arg : goany) : result bool :=
  match arg with VBool b => Ret b | _ => Panic end.

(** [args[0]]. *)
Definition first (args : list goany) : result goany :=
  match args with [] => Panic | arg :: _ => Ret arg end.

(** [reflect.DeepEqual] on a basic value: same type and equal. *)
Definition deepEqual (value arg : goany) : bool :=
  match value, arg with
  | VFloat x, VFloat y => float_eqb x y
  | VFloat _, _ | _, VFloat _ => false
  | _, _ => bool_decide (value = arg)
  end.

(** ** The operators *)

(** The loop of evaluateCont and evaluateNcont: does an argument occur in [str]? *)
Fixpoint containsAny (str : gostring) (args : list goany) : result bool :=
  match args with
  | [] => Ret false
  | arg :: rest =>
      arg ← as_string arg;
      if contains str arg then Ret true else containsAny str rest
  end.

Definition evaluateCont (value : goany) (args : list goany) : result bool :=
  match value with
  | VString str => args ← convertArgs value args; containsAny str args
  | _ => Err (RequiresString "cont" value)
  end.

Definition evaluateNcont (value : goany) (args : list goany) : result bool :=
  match value with
  | VString str => args ← convertArgs value args; negb <$> containsAny str args
  | _ => Err (RequiresString "ncont" value)
  end.

Definition evaluateEq (value : goany) (args : list goany) : result bool :=
  if negb (length args =? 1)%nat then Err (OneValue "eq" (length args))
  else
    match value with
    | VNil => Ret false
    | _ =>
        args ← convertArgs value args;
        arg ← first args;
        match value with
        | VString value =>
            arg ← as_string arg;
            Ret (if uuid_Parse_ok arg then equalFold value arg else bool_decide (value = arg))
        | VInt value => arg ← as_int arg; Ret (value =? arg)
        | VFloat value => arg ← as_float arg; Ret (float_eqb value arg)
        | VBool value => arg ← as_bool arg; Ret (bool_decide (value = arg))
        | _ => Err (Unsupported "eq" value)
        end
    end.

Definition evaluateNeq (value : goany) (args : list goany) : result bool :=
  if negb (length args =? 1)%nat then Err (OneValue "neq" (length args))
  else
    args ← convertArgs value args;
    arg ← first args;
    match value with
    | VString value => arg ← as_string arg; Ret (bool_decide (value <> arg))
    | VInt value => arg ← as_int arg; Ret (negb (value =? arg))
    | VFloat value => arg ← as_float arg; Ret (negb (float_eqb value arg))
    | VBool value => arg ← as_bool arg; Ret (bool_decide (value <> arg))
    | _ => Err (Unsupported "neq" value)
    end.

(** evaluateGt, evaluateGte, evaluateLt and evaluateLte: the same text but for
    the comparison and the operator named by the last error. *)
Definition evaluateOrder (op op' : string) (strings : comparison -> bool)
    (ints : Z -> Z -> bool) (floats : float64 -> float64 -> bool)
    (value : goany) (args : list goany) : result bool :=
  if negb (length args =? 1)%nat then Err (OneValue op (length args))
  else
    args ← convertArgs value args;
    arg ← first args;
    match value with
    | VString value => arg ← as_string arg; Ret (strings (compareStr value arg))
    | VInt value => arg ← as_int arg; Ret (ints value arg)
    | VFloat value => arg ← as_float arg; Ret (floats value arg)
    | _ => Err (Unsupported op' value)
    end.

Definition evaluateGt := evaluateOrder "gt" "gt"
  (fun c => bool_decide (c = Gt)) Z.gtb (fun x y => float_ltb y x).
Definition evaluateGte := evaluateOrder "gte" "gte"
  (fun c => bool_decide (c <> Lt)) Z.geb (fun x y => float_leb y x).
Definition evaluateLt := evaluateOrder "lt" "lt"
  (fun c => bool_decide (c = Lt)) Z.ltb float_ltb.
Definition evaluateLte := evaluateOrder "lte" "lt"
  (fun c => bool_decide (c <> Gt)) Z.leb float_leb.

Definition evaluateIn (value : goany) (args : list goany) : result bool :=
  args ← convertArgs value args; Ret (existsb (deepEqual value) args).

Definition evaluateNin (value : goany) (args : list goany) : result bool :=
  args ← convertArgs value args; Ret (negb (existsb (deepEqual value) args)).

(** ** Terms and selectors *)

Definition evaluateTerm (term : Term) (object : Obj) : result bool :=
  value ← map_err PathError (pathEvaluator (term_Path term) object);
  let args := term_Values term in
  match term_Operator term with
  | OpCont => evaluateCont value args
  | OpEq => evaluateEq value args
  | OpGt => evaluateGt value args
  | OpGte => evaluateGte value args
  | OpIn => evaluateIn value args
  | OpLt => evaluateLt value args
  | OpLte => evaluateLte value args
  | OpNcont => evaluateNcont value args
  | OpNeq => evaluateNeq value args
  | OpNin => evaluateNin value args
  | OpOther _ => Err (UnknownOperator (term_Operator term))
  end.

Fixpoint evaluateTerms (terms : list Term) (object : Obj) : result bool :=
  match terms with
  | [] => Ret true
  | term :: rest =>
      match evaluateTerm term object with
      | Ret true => evaluateTerms rest object
      | r => r
      end
  end.

Definition evaluateSelector (selector : Selector) (object : Obj) : result bool :=
  evaluateTerms (Terms selector) object.

(** [SelectorEvaluator.Evaluate]: at debug level the selector is also printed,
    which panics on an unknown operator. *)
Definition Evaluate (debug : bool) (selector : Selector) (object : Obj) : result bool :=
  match evaluateSelector selector object with
  | Panic => Panic
  | NoFuel => NoFuel
  | r => if debug then match Selector_String selector with Some _ => r | None => Panic end else r
  end.
End evaluator.

(** ** What the operators compute *)

Section facts.
Context `{Unicode, Strconv} {Obj PE : Type}.
Context (pathEvaluator : list gostring -> Obj -> outcome PE goany).

Abbreviation result := (outcome (cmpError PE)).

(** The type of an argument after a conversion to the type of the attribute. *)
Definition same_kind (value arg : goany) : bool :=
  match value, arg with
  | VString _, VString _ | VInt _, VInt _ | VFloat _, VFloat _ | VBool _, VBool _ => true
  | _, _ => false
  end.

Lemma convertAll_Forall2 (convert : goany -> result goany) args :
  match convertAll convert args with
  | Ret args' => Forall2 (fun a a' => convert a = Ret a') args args'
  | Err _ => True
  | Panic => exists a, a ∈ args /\ convert a = Panic
  | NoFuel => exists a, a ∈ args /\ convert a = NoFuel
  end.
Proof.
  induction args as [|a args IH]; simpl; [constructor|].
  destruct (convert a) eqn:E; simpl; try done; try by (exists a; split; [left|]).
  destruct (convertAll convert args); simpl; try by constructor.
  - destruct IH as (x & ? & ?). exists x. split; [by right|done].
  - destruct IH as (x & ? & ?). exists x. split; [by right|done].
Qed.

Lemma convertArgs_cases value args :
  (exists args', convertArgs (PE := PE) value args = Ret args' /\ length args' = length args /\
     (forallb is_string args = true -> forallb (same_kind value) args' = true)) \/
  (exists e, convertArgs (PE := PE) value args = Err e).
Proof.
  assert (forall convert : goany -> result goany,
    (forall a, returned (convert a)) ->
    (forall s r, convert (VString s) = Ret r -> same_kind value r = true) ->
    (exists args', convertAll convert args = Ret args' /\ length args' = length args /\
      (forallb is_string args = true -> forallb (same_kind value) args' = true)) \/
    (exists e, convertAll convert args = Err e)) as Hall.
  { intros convert Hr Hs. pose proof (convertAll_Forall2 convert args) as Hc.
    destruct (convertAll convert args) as [args'|e| |]; [left|right; by exists e| |].
    - exists args'. split_and!; [done|by symmetry; eapply Forall2_length|].
      induction Hc as [|a a' l l' Ha _ IH]; [done|]. simpl. intros Hstr. bools.
      destruct a; try done. erewrite Hs by done. auto.
    - destruct Hc as (a & _ & Ha). specialize (Hr a). by rewrite Ha in Hr.
    - destruct Hc as (a & _ & Ha). specialize (Hr a). by rewrite Ha in Hr. }
  destruct value; simpl; try by (right; eexists).
  all: apply Hall; [intros []; simpl; by try case_match | intros text r; simpl; cases].
Qed.

Lemma convert_one value arg :
  (exists arg', convertArgs (PE := PE) value [arg] = Ret [arg']) \/
  (exists e, convertArgs (PE := PE) value [arg] = Err e).
Proof.
  destruct (convertArgs_cases value [arg]) as [(args & E & Hl & _)|?]; [|auto].
  destruct args as [|a [|]]; try done. left. by exists a.
Qed.

Lemma compareStr_Eq (s t : gostring) : compareStr s t = Eq <-> s = t.
Proof.
  revert t; induction s as [|a s IH]; intros [|b t]; simpl; try done.
  destruct (Z.compare_spec a b).
  - subst. rewrite IH. naive_solver.
  - split; [done|]. intros [= ]. lia.
  - split; [done|]. intros [= ]. lia.
Qed.

Lemma SFcompare_swap (x y : float64) : SFcompare y x = CompOpp <$> SFcompare x y.
Proof.
  destruct x as [[]|[]| |[] mx ex], y as [[]|[]| |[] my ey]; try done; simpl;
    rewrite (Z.compare_antisym ex ey); destruct (ex ?= ey); simpl; try done;
    change (Pos.compare_cont Eq) with Pos.compare; rewrite (Pos.compare_antisym mx my);
    by destruct (mx ?= my)%positive.
Qed.

Lemma SFcompare_total (x y : float64) :
  is_nan x = false -> is_nan y = false -> exists c, SFcompare x y = Some c.
Proof. destruct x as [[]|[]| |[] mx ex], y as [[]|[]| |[] my ey]; simpl; try done; eauto. Qed.

(** Attributes with a total order: strings, integers and floats other than NaN,
    compared with an argument that does not stay a boolean. *)
Definition ordered (value arg : goany) : bool :=
  match value with
  | VString _ => true
  | VInt _ => match arg with VBool _ => false | _ => true end
  | VFloat x =>
      negb (is_nan x) &&
      match convertFloat (PE := PE) arg with Ret (VFloat y) => negb (is_nan y) | _ => true end
  | _ => false
  end.

(** [evaluateSelector] is the conjunction of the terms, from left to right:
    it is true when every term is true, and otherwise it is the outcome (false
    or the error) of the first term that is not true; the later terms do not
    matter. *)
Theorem evaluateSelector_first_failure (selector : Selector) (object : Obj) :
  let eval t := evaluateTerm pathEvaluator t object in
  (Forall (fun t => eval t = Ret true) (Terms selector) /\
     evaluateSelector pathEvaluator selector object = Ret true) \/
  (exists before t after,
     Terms selector = before ++ t :: after /\ Forall (fun t => eval t = Ret true) before /\
     eval t <> Ret true /\ evaluateSelector pathEvaluator selector object = eval t).
Proof.
  unfold evaluateSelector. simpl. induction (Terms selector) as [|t ts IH]; simpl; [by left|].
  destruct (evaluateTerm pathEvaluator t object) as [[|]|e| |] eqn:E.
  2-5: right; exists [], t, ts; rewrite E; by split_and!.
  destruct IH as [[Ht ->]|(before & t' & after & -> & Hb & Hn & ->)].
  - left. split; [by constructor|done].
  - right. exists (t :: before), t', after. split_and!; [done|by constructor|done..].
Qed.

(** [nin] is the negation of [in] and [ncont] that of [cont], on every value
    and every list of arguments; for [nin] the errors are the same too. *)
Theorem evaluate_negations (value : goany) (args : list goany) (b : bool) :
  evaluateNin (PE := PE) value args = negb <$> evaluateIn value args /\
  (evaluateNcont (PE := PE) value args = Ret b <->
   evaluateCont (PE := PE) value args = Ret (negb b)).
Proof.
  unfold evaluateNin, evaluateIn, evaluateNcont, evaluateCont. split.
  - by destruct (convertArgs value args).
  - destruct value; try done. destruct (convertArgs (VString s) args) as [args'| | |]; try done.
    simpl. destruct (containsAny s args') as [[]| | |]; destruct b; done.
Qed.

(** On strings, integers and floats other than NaN the ordering operators
    agree with each other: [gte] is the negation of [lt], [lte] the negation
    of [gt], and [neq] holds exactly when [lt] or [gt] does; an argument that
    does not convert gives all of them the same error. *)
Theorem evaluate_order (value arg : goany) :
  ordered value arg = true ->
  evaluateGte (PE := PE) value [arg] = negb <$> evaluateLt value [arg] /\
  evaluateLte (PE := PE) value [arg] = negb <$> evaluateGt value [arg] /\
  evaluateNeq (PE := PE) value [arg] =
    (lt ← evaluateLt value [arg]; gt ← evaluateGt value [arg]; Ret (lt || gt)).
Proof.
  unfold evaluateGte, evaluateLt, evaluateLte, evaluateGt, evaluateNeq, evaluateOrder.
  unfold convertArgs, convertStrings, convertInts, convertFloats.
  destruct value as [|s|n|x| |]; simpl; try done; intros Ho.
  - destruct (convertString (PE := PE) arg) as [a| | |] eqn:E; try done. simpl.
    destruct a as [|t| | | |]; try (destruct arg; simplify_eq/=; done). simpl.
    pose proof (compareStr_Eq s t).
    destruct (compareStr s t) eqn:Ec; simpl; split_and!; try done; f_equal;
      apply bool_decide_eq_false || apply bool_decide_eq_true; naive_solver.
  - destruct (convertInt (PE := PE) arg) as [a| | |] eqn:E; try done. simpl.
    destruct a as [| |m| | |]; try solve [destruct arg; simplify_eq/=; cases]. simpl.
    rewrite Z.geb_leb, Z.gtb_ltb. split_and!; f_equal; lia.
  - destruct (convertFloat (PE := PE) arg) as [a| | |] eqn:E; try done. simpl.
    destruct a as [| | |y| |]; try solve [destruct arg; simplify_eq/=; cases]. simpl.
    bools. destruct (SFcompare_total x y) as (c & Hc); [done..|].
    pose proof (SFcompare_swap x y) as Hs. unfold float_leb, float_eqb, float_ltb.
    rewrite Hs, Hc. by destruct c.
Qed.

(** [neq] is the negation of [eq] unless the argument reads as a UUID: then
    [eq] ignores case and [neq] does not, so that both hold of a value that is
    the UUID in another case. *)
Theorem evaluateNeq_Eq (value arg : goany) (b : bool) :
  value <> VNil -> evaluateNeq (PE := PE) value [arg] = Ret b ->
  evaluateEq (PE := PE) value [arg] = Ret (negb b) \/
  (exists v t, value = VString v /\ convertString (PE := PE) arg = Ret (VString t) /\
     uuid_Parse_ok t = true /\ v <> t /\ equalFold v t = true /\ b = true /\
     evaluateEq (PE := PE) value [arg] = Ret true).
Proof.
  intros Hv. unfold evaluateNeq, evaluateEq, convertArgs, convertStrings, convertInts,
    convertFloats, convertBools. simpl.
  destruct value as [|s|n|x|c|]; try done; simpl.
  - destruct (convertString (PE := PE) arg) as [[]| | |] eqn:E; try done. simpl. intros [= <-].
    destruct (uuid_Parse_ok s0) eqn:Eu.
    + destruct (decide (s = s0)) as [->|Hne].
      * left. rewrite bool_decide_eq_false_2 by naive_solver.
        f_equal. clear. induction s0 as [|r s IH]; simpl; [done|].
        unfold fold_rune. by rewrite Z.eqb_refl.
      * rewrite bool_decide_eq_true_2 by done.
        destruct (equalFold s s0) eqn:Ef; [right; eauto 10|by left].
    + left. f_equal. by repeat case_bool_decide.
  - destruct (convertInt (PE := PE) arg) as [[]| | |]; try done. simpl. intros [= <-]. left.
    by rewrite negb_involutive.
  - destruct (convertFloat (PE := PE) arg) as [[]| | |]; try done. simpl. intros [= <-]. left.
    by rewrite negb_involutive.
  - destruct (convertBool (PE := PE) arg) as [[]| | |]; try done. simpl. intros [= <-]. left.
    destruct c, b0; done.
Qed.

Lemma containsAny_returns str args :
  forallb (same_kind (VString str)) args = true -> returned (containsAny (PE := PE) str args).
Proof.
  induction args as [|a args IH]; simpl; [done|]. intros ?. bools.
  destruct a; try done. simpl. case_match; [done|auto].
Qed.

Lemma evaluateCont_returns value args :
  forallb is_string args = true -> returned (evaluateCont (PE := PE) value args).
Proof.
  intros Hs. unfold evaluateCont. destruct value as [|s| | | |]; try done.
  destruct (convertArgs_cases (VString s) args) as [(args' & -> & _ & Hk)|(e & ->)]; [|done].
  apply containsAny_returns. auto.
Qed.

Lemma evaluateNcont_returns value args :
  forallb is_string args = true -> returned (evaluateNcont (PE := PE) value args).
Proof.
  intros Hs%(evaluateCont_returns value). unfold evaluateNcont, evaluateCont in *.
  destruct value as [|s| | | |]; try done.
  destruct (convertArgs (VString s) args) as [args'| | |]; try done. simpl in *.
  by destruct (containsAny s args').
Qed.

(** The operators that take one value: convert, then use it at its kind. *)
Lemma one_arg_returns value args (k : goany -> result bool) :
  forallb is_string args = true -> length args = 1%nat ->
  (forall a, same_kind value a = true -> returned (k a)) ->
  returned (args' ← convertArgs value args; a ← first args'; k a).
Proof.
  intros Hs Hl Hk.
  destruct (convertArgs_cases value args) as [(args' & -> & Hl' & Hkind)|(e & ->)]; [|done].
  specialize (Hkind Hs). rewrite Hl in Hl'. destruct args' as [|a [|]]; try done.
  simpl in *. bools. auto.
Qed.

Lemma evaluateTerm_total (term : Term) (object : Obj) :
  returned (pathEvaluator (term_Path term) object) ->
  forallb is_string (term_Values term) = true ->
  returned (evaluateTerm pathEvaluator term object).
Proof.
  intros Hp Hs. unfold evaluateTerm.
  destruct (pathEvaluator _ object) as [value|e| |]; try done. simpl. clear Hp.
  destruct (term_Operator term);
    unfold evaluateEq, evaluateNeq, evaluateGt, evaluateGte, evaluateLt, evaluateLte,
      evaluateOrder, evaluateIn, evaluateNin; try done;
    auto using evaluateCont_returns, evaluateNcont_returns.
  4, 8: by destruct (convertArgs_cases value (term_Values term))
          as [(args' & -> & _)|(e & ->)].
  all: destruct (length (term_Values term) =? 1)%nat eqn:Hl; simpl; [|done];
    apply Nat.eqb_eq in Hl.
  1: destruct value; try done.
  all: apply one_arg_returns; try done; intros []; by try destruct value.
Qed.

(** A term whose values are all strings, as the parser makes them, never
    makes a type assertion fail: its evaluation comes back whenever the path
    evaluator does, whatever the attribute holds. *)
Theorem evaluateTerm_returns (term : Term) (object : Obj) :
  returned (pathEvaluator (term_Path term) object) ->
  forallb is_string (term_Values term) = true ->
  returned (evaluateTerm pathEvaluator term object).
Proof. apply evaluateTerm_total. Qed.
End facts.

(** ** The theorems at work *)

Section examples.
#[local] Existing Instance ascii_unicode.
#[local] Existing Instance integer_strconv.

Definition example_uuid : gostring := lit "aaaaaaaa-bbbb-cccc-dddd-000000000001".
Definition example_UUID : gostring := lit "AAAAAAAA-BBBB-CCCC-DDDD-000000000001".

Example evaluate_order_witness :
  (evaluateGte (PE := unit) (VInt 5) [VString (lit "7")] =
     negb <$> evaluateLt (VInt 5) [VString (lit "7")] /\
   evaluateLte (PE := unit) (VInt 5) [VString (lit "7")] =
     negb <$> evaluateGt (VInt 5) [VString (lit "7")] /\
   evaluateNeq (PE := unit) (VInt 5) [VString (lit "7")] =
     (lt ← evaluateLt (VInt 5) [VString (lit "7")];
      gt ← evaluateGt (VInt 5) [VString (lit "7")]; Ret (lt || gt)))
  /\ evaluateLt (PE := unit) (VInt 5) [VString (lit "7")] = Ret true.
Proof. split; [apply (evaluate_order (VInt 5) (VString (lit "7"))); reflexivity | reflexivity]. Defined.

Example evaluateNeq_Eq_witness :
  (evaluateEq (PE := unit) (VString example_uuid) [VString example_UUID] = Ret false \/
   exists v t, VString example_uuid = VString v /\
     convertString (PE := unit) (VString example_UUID) = Ret (VString t) /\
     uuid_Parse_ok t = true /\ v <> t /\ equalFold v t = true /\ true = true /\
     evaluateEq (PE := unit) (VString example_uuid) [VString example_UUID] = Ret true)
  /\ evaluateEq (PE := unit) (VString example_uuid) [VString example_UUID] = Ret true.
Proof.
  split; [|vm_compute; reflexivity].
  apply (evaluateNeq_Eq (VString example_uuid) (VString example_UUID) true);
    [discriminate | vm_compute; reflexivity].
Defined.

Definition example_eval (path : list gostring) (object : goany) : outcome unit goany := Ret object.

Example evaluateTerm_returns_witness :
  returned (evaluateTerm example_eval (mkTerm OpGt [lit "a"] [VString (lit "x")]) (VInt 3))
  /\ evaluateTerm example_eval (mkTerm OpGt [lit "a"] [VString (lit "2")]) (VInt 3) = Ret true.
Proof. split; [apply evaluateTerm_returns; [exact I | reflexivity] | reflexivity]. Defined.
End examples.
