(* ===== verification/UrlQuery.v ===== *)
(** * Query strings: semicolons, net/url and UTF-8

    A raw query is a list of bytes.  [ParseQuery] is net/url's, with the key and
    value pairs in the order of the query; [decode_runes] reads bytes as runes
    the way [for range] and [bytes.Buffer.ReadRune] do. *)
From S2P Require Import Prelude GoStrings.
#[local] Open Scope Z_scope.

(** ** net/url *)

Definition hex_value (c : Z) : option Z :=
  if between 48 c 57 then Some (c - 48)
  else if between 97 c 102 then Some (c - 97 + 10)
  else if between 65 c 70 then Some (c - 65 + 10)
  else None.

(** [url.QueryUnescape]. *)
Fixpoint queryUnescape (s : list Z) : option (list Z) :=
  match s with
  | [] => Some []
  | c :: rest =>
      if c =? 37 then
        match rest with
        | a :: b :: t =>
            match hex_value a, hex_value b with
            | Some x, Some y => cons (16 * x + y) <$> queryUnescape t
            | _, _ => None
            end
        | _ => None
        end
      else cons (if c =? 43 then 32 else c) <$> queryUnescape rest
  end.

(** [strings.Cut] on a byte. *)
Fixpoint cut (sep : Z) (s : list Z) : list Z * list Z :=
  match s with
  | [] => ([], [])
  | c :: t => if c =? sep then ([], t) else let '(a, b) := cut sep t in (c :: a, b)
  end.

Definition unescape_pair (piece : list Z) : option (list Z * list Z) :=
  let '(key, value) := cut 61 piece in
  key ← queryUnescape key; value ← queryUnescape value; Some (key, value).

(** [url.ParseQuery]: [None] when it reports an error. *)
Definition ParseQuery (query : list Z) : option (list (list Z * list Z)) :=
  let pieces := filter (fun p => p <> []) (split_on 38 query) in
  if existsb (existsb (Z.eqb 59)) pieces then None else mapM unescape_pair pieces.

(** What a query would mean were a semicolon an ordinary character. *)
Definition lenientParseQuery (query : list Z) : option (list (list Z * list Z)) :=
  mapM unescape_pair (filter (fun p => p <> []) (split_on 38 query)).

(** [sanitizeQuerySemicolons]: [strings.ReplaceAll(rawQuery, ";", "%3B")]. *)
Definition sanitize_byte (c : Z) : list Z := if c =? 59 then lit "%3B" else [c].
Definition sanitizeQuerySemicolons (rawQuery : list Z) : list Z := rawQuery ≫= sanitize_byte.

(** ** unicode/utf8 *)

(** [utf8.DecodeRune] on a non-empty string: the rune and the bytes left;
    an invalid sequence is U+FFFD and one byte. *)
Definition continuation (b : Z) : bool := between 128 b 191.

Definition decode_rune (b : Z) (t : list Z) : rune * list Z :=
  let bad := (65533, t) in
  if b <=? 127 then (b, t)
  else if between 194 b 223 then
    match t with
    | b1 :: t1 => if continuation b1 then ((b - 192) * 64 + (b1 - 128), t1) else bad
    | _ => bad
    end
  else if between 224 b 239 then
    match t with
    | b1 :: b2 :: t2 =>
        let lo := if b =? 224 then 160 else 128 in
        let hi := if b =? 237 then 159 else 191 in
        if between lo b1 hi && continuation b2
        then ((b - 224) * 4096 + (b1 - 128) * 64 + (b2 - 128), t2) else bad
    | _ => bad
    end
  else if between 240 b 244 then
    match t with
    | b1 :: b2 :: b3 :: t3 =>
        let lo := if b =? 240 then 144 else 128 in
        let hi := if b =? 244 then 143 else 191 in
        if between lo b1 hi && continuation b2 && continuation b3
        then ((b - 240) * 262144 + (b1 - 128) * 4096 + (b2 - 128) * 64 + (b3 - 128), t3) else bad
    | _ => bad
    end
  else bad.

Fixpoint decode_fuel (fuel : nat) (s : list Z) : gostring :=
  match fuel, s with
  | S fuel', b :: t => let '(r, rest) := decode_rune b t in r :: decode_fuel fuel' rest
  | _, _ => []
  end.

(** Every step reads at least one byte. *)
Definition decode_runes (s : list Z) : gostring := decode_fuel (length s) s.

(** The code points UTF-8 can carry. *)
Definition scalar (r : rune) : bool := between 0 r 55295 || between 57344 r 1114111.

Section facts.
Lemma sanitize_cons c s : sanitizeQuerySemicolons (c :: s) = sanitize_byte c ++ sanitizeQuerySemicolons s.
Proof. done. Qed.

Lemma sanitize_other c s : c <> 59 -> sanitizeQuerySemicolons (c :: s) = c :: sanitizeQuerySemicolons s.
Proof. intros Hc. rewrite sanitize_cons. unfold sanitize_byte. by apply Z.eqb_neq in Hc as ->. Qed.

Lemma sanitize_semi s : sanitizeQuerySemicolons (59 :: s) = 37 :: 51 :: 66 :: sanitizeQuerySemicolons s.
Proof. done. Qed.

Lemma unescape_sanitize s : queryUnescape (sanitizeQuerySemicolons s) = queryUnescape s.
Proof.
  induction s as [s IH] using (induction_ltof1 _ length); unfold ltof in IH.
  destruct s as [|c s]; [done|].
  destruct (decide (c = 59)) as [->|Hc].
  { rewrite sanitize_semi. simpl. by rewrite IH by (simpl; lia). }
  rewrite sanitize_other by done. cbn [queryUnescape].
  destruct (c =? 37); [|by rewrite IH by (simpl; lia)].
  destruct s as [|a s]; [done|]. destruct (decide (a = 59)) as [->|Ha]; [rewrite sanitize_semi; by destruct s|].
  rewrite sanitize_other by done. destruct s as [|b s]; [done|].
  destruct (decide (b = 59)) as [->|Hb].
  - rewrite sanitize_semi. simpl. by destruct (hex_value a).
  - rewrite sanitize_other, IH by (done || (simpl; lia)). done.
Qed.

Lemma split_on_sanitize sep s :
  sep ∉ [59; 37; 51; 66] ->
  split_on sep (sanitizeQuerySemicolons s) = sanitizeQuerySemicolons <$> split_on sep s.
Proof.
  intros Hsep. rewrite !not_elem_of_cons in Hsep. destruct Hsep as (H1 & H2 & H3 & H4 & _).
  assert (forall c t, c <> sep -> split_on sep (c :: t) =
    match split_on sep t with [] => [[c]] | p :: ps => (c :: p) :: ps end) as Hstep.
  { intros c t Hc%Z.eqb_neq. simpl. by rewrite Hc. }
  induction s as [|c s IH]; [done|]. destruct (decide (c = 59)) as [->|Hc].
  - rewrite sanitize_semi, !Hstep, IH by done. by destruct (split_on sep s).
  - rewrite sanitize_other by done. destruct (decide (c = sep)) as [->|Hcs].
    + simpl. rewrite Z.eqb_refl. simpl. by rewrite IH.
    + rewrite !Hstep, IH by done.
      destruct (split_on sep s); cbn [fmap list_fmap]; by rewrite sanitize_other.
Qed.

Lemma cut_sanitize sep s :
  sep ∉ [59; 37; 51; 66] ->
  cut sep (sanitizeQuerySemicolons s) =
    (sanitizeQuerySemicolons (cut sep s).1, sanitizeQuerySemicolons (cut sep s).2).
Proof.
  intros Hsep. rewrite !not_elem_of_cons in Hsep. destruct Hsep as (H1 & H2 & H3 & H4 & _).
  assert (forall c t, c <> sep -> cut sep (c :: t) = (c :: (cut sep t).1, (cut sep t).2)) as Hstep.
  { intros c t Hc%Z.eqb_neq. simpl. rewrite Hc. by destruct (cut sep t). }
  induction s as [|c s IH]; [done|]. destruct (decide (c = 59)) as [->|Hc].
  - rewrite sanitize_semi, !Hstep, IH by done. done.
  - rewrite sanitize_other by done. destruct (decide (c = sep)) as [->|Hcs].
    + simpl. rewrite Z.eqb_refl. done.
    + rewrite !Hstep, IH by done. cbn [fst snd]. by rewrite sanitize_other.
Qed.

Lemma unescape_pair_sanitize p : unescape_pair (sanitizeQuerySemicolons p) = unescape_pair p.
Proof.
  unfold unescape_pair. rewrite cut_sanitize by set_solver.
  destruct (cut 61 p) as [k v]; simpl. by rewrite !unescape_sanitize.
Qed.

Lemma sanitize_nil p : sanitizeQuerySemicolons p <> [] <-> p <> [].
Proof.
  destruct p as [|c p]; [done|]. destruct (decide (c = 59)) as [->|Hc]; [done|].
  by rewrite sanitize_other.
Qed.

Lemma sanitize_no_semicolon p : existsb (Z.eqb 59) (sanitizeQuerySemicolons p) = false.
Proof.
  induction p as [|c p IH]; [done|]. destruct (decide (c = 59)) as [->|Hc]; [exact IH|].
  rewrite sanitize_other by done. cbn [existsb]. rewrite IH, orb_false_r.
  apply Z.eqb_neq. congruence.
Qed.

Lemma filter_sanitize (ps : list (list Z)) :
  filter (fun p => p <> []) (sanitizeQuerySemicolons <$> ps) =
    sanitizeQuerySemicolons <$> filter (fun p => p <> []) ps.
Proof.
  induction ps as [|p ps IH]; [done|]. cbn [fmap list_fmap]. rewrite !filter_cons, IH.
  destruct (decide (p <> [])) as [Hp|Hp].
  - rewrite decide_True by (by apply sanitize_nil). done.
  - rewrite decide_False by (by rewrite sanitize_nil). done.
Qed.

(** [sanitizeQuerySemicolons] makes the semicolons that separate filter
    terms ordinary characters: [url.ParseQuery] on the sanitized query gives
    the keys and values the query has when a semicolon means itself, and its
    semicolon error is never raised. *)
Theorem ParseQuery_sanitize (query : list Z) :
  ParseQuery (sanitizeQuerySemicolons query) = lenientParseQuery query.
Proof.
  unfold ParseQuery, lenientParseQuery.
  rewrite split_on_sanitize by set_solver.
  rewrite filter_sanitize. induction (filter _ (split_on 38 query)) as [|p ps IH]; [done|].
  cbn [fmap list_fmap existsb mapM]. rewrite sanitize_no_semicolon, unescape_pair_sanitize. simpl.
  destruct (existsb _ (sanitizeQuerySemicolons <$> ps)).
  - rewrite <- IH. by destruct (unescape_pair p).
  - by rewrite IH.
Qed.

Lemma decode_rune_bytes r t :
  scalar r = true -> exists b bs, rune_bytes r = b :: bs /\ decode_rune b (bs ++ t) = (r, t).
Proof.
  intros Hs. assert (0 <= r <= 55295 \/ 57344 <= r <= 1114111) as Hr.
  { unfold scalar, between in Hs. lia. }
  clear Hs. unfold rune_bytes.
  repeat match goal with |- context [if ?b then _ else _] => destruct b eqn:?; bools end;
    eexists _, _; (split; [done|]); unfold decode_rune, between, continuation; simpl.
  1: by destruct (Z.leb_spec r 127); [|lia].
  all: Z.to_euclidean_division_equations.
  all: unfold between;
    repeat match goal with |- context [?x =? ?y] => destruct (Z.eqb_spec x y) end;
    repeat match goal with
    | |- context [if ?b then _ else _] =>
        first [replace b with true by lia | replace b with false by lia]
    end; f_equal; lia.
Qed.

(** The rune sequences this development works on are the UTF-8 strings of
    Go: decoding the bytes of a string of Unicode scalar values, as the scanners
    do rune by rune, gives back its runes. *)
Lemma decode_string_bytes (s : gostring) :
  forallb scalar s = true -> decode_runes (string_bytes s) = s.
Proof.
  assert (forall s fuel, forallb scalar s = true -> (length (string_bytes s) <= fuel)%nat ->
                         decode_fuel fuel (string_bytes s) = s) as Hd.
  { clear s. induction s as [|r s IH]; intros fuel Hs Hf; [by destruct fuel|].
    simpl in Hs. bools. unfold string_bytes in *. cbn [mbind list_bind] in *.
    destruct (decode_rune_bytes r (s ≫= rune_bytes)) as (b & bs & E & Hr); [done|].
    rewrite E in *. simpl in Hf. destruct fuel as [|fuel]; [lia|]. simpl.
    rewrite Hr, IH; [done|done|]. rewrite length_app in Hf. lia. }
  intros Hs. by apply Hd.
Qed.
End facts.
