(* ===== verification/Json.v ===== *)
(** * JSON documents as encoding/json decodes them into [any]

    What a decoded document looks like to reflection, and what the path
    evaluator of the filter middleware finds in it.  Object keys are unique
    once decoded (the last duplicate wins). *)
From S2P Require Import Prelude GoStrings SearchPathEval.

Inductive json : Type :=
| JNull
| JBool (b : bool)
| JNumber (f : float64)
| JString (s : gostring)
| JArray (l : list json)
| JObject (o : list (gostring * json)).

(** [data.Object] is an alias of [map[string]any]. *)
Definition object_type : gostring := lit "map[string]interface {}".
Definition array_type : gostring := lit "[]interface {}".
Definition any_type : gostring := lit "interface {}".

(** The dynamic value in an [any]; [None] is the nil interface. *)
Fixpoint dynamic (j : json) : option rval :=
  match j with
  | JNull => None
  | JBool b => Some (RLeaf (VBool b))
  | JNumber f => Some (RLeaf (VFloat f))
  | JString s => Some (RLeaf (VString s))
  | JArray _ => Some (RLeaf (VOther array_type []))
  | JObject o =>
      Some (RMap object_type true (map (fun '(k, v) => (k, RInterface any_type (dynamic v))) o))
  end.

(** [reflect.ValueOf] of a [data.Object]. *)
Definition object_rval (o : list (gostring * json)) : rval :=
  RMap object_type true (map (fun '(k, v) => (k, RInterface any_type (dynamic v))) o).

Definition json_any (j : json) : goany :=
  match j with
  | JNull => VNil
  | JBool b => VBool b
  | JNumber f => VFloat f
  | JString s => VString s
  | JArray _ => VOther array_type []
  | JObject _ => VOther object_type []
  end.

(** Nested lookup: nil where a key is missing or a null is on the way. *)
Fixpoint json_get (j : json) (path : list gostring) : outcome evalError goany :=
  match path with
  | [] => Ret (json_any j)
  | key :: path' =>
      match j with
      | JNull => Ret VNil
      | JObject o => match assoc_lookup key o with None => Ret VNil | Some v => json_get v path' end
      | _ => Err (ExpectedStructOrMap (leaf_type (json_any j)))
      end
  end.

Lemma transparent_dynamic j : match dynamic j with None => True | Some v => transparent v = true end.
Proof.
  revert j. fix IH 1. intros [| | | | |o]; simpl; try done.
  induction o as [|[k v] o IHo]; simpl; [done|]. specialize (IH v).
  destruct (dynamic v); simpl; rewrite ?IH; exact IHo.
Qed.

Lemma well_formed_dynamic j : match dynamic j with None => True | Some v => well_formed v = true end.
Proof.
  revert j. fix IH 1. intros [| | | | |o]; simpl; try done.
  induction o as [|[k v] o IHo]; simpl; [done|]. specialize (IH v).
  destruct (dynamic v); simpl; rewrite ?IH; exact IHo.
Qed.

(** What the evaluator makes of the value it reached. *)
Definition interface_of (r : rval * bool) : outcome evalError goany :=
  match r.1 with RInvalid => Ret VNil | v => if r.2 then Panic else Ret (to_any v) end.

Lemma json_any_dynamic j : json_any j = match dynamic j with None => VNil | Some v => to_any v end.
Proof. by destruct j. Qed.

Lemma evaluate_json j path :
  evaluate true (RInterface any_type (dynamic j)) path ≫= interface_of = json_get j path.
Proof.
  revert j; induction path as [|key path IH]; intros j.
  { simpl. unfold interface_of. simpl. by rewrite json_any_dynamic. }
  destruct j as [| | | | |o]; try done. cbn [dynamic].
  change (evaluate true (RMap object_type true
    (map (fun '(k, v) => (k, RInterface any_type (dynamic v))) o)) (key :: path) ≫= interface_of
    = json_get (JObject o) (key :: path)).
  rewrite evaluate_map. rewrite (assoc_lookup_map (fun v => RInterface any_type (dynamic v))).
  simpl. destruct (assoc_lookup key o) as [v|]; [apply IH|done].
Qed.

Lemma Evaluate_json o path :
  Evaluate true path (object_rval o) = map_err (pair (joinStr path [47%Z])) (json_get (JObject o) path).
Proof.
  rewrite <- (evaluate_json (JObject o) path). unfold Evaluate.
  assert (evaluate true (RInterface any_type (dynamic (JObject o))) path ≫= interface_of =
          evaluate true (object_rval o) path ≫= interface_of) as ->.
  { destruct path; [done|]. done. }
  destruct (evaluate true (object_rval o) path) as [[v ro]| | |]; try done. simpl.
  unfold interface_of; simpl. by destruct v; destruct ro.
Qed.

Lemma json_get_returns j path : returned (json_get j path).
Proof.
  revert j; induction path as [|key path IH]; intros j; [done|].
  destruct j as [| | | | |o]; try done. simpl. destruct (assoc_lookup key o); [apply IH|done].
Qed.

Lemma Evaluate_json_returns o path : returned (Evaluate true path (object_rval o)).
Proof.
  rewrite Evaluate_json. pose proof (json_get_returns (JObject o) path).
  by destruct (json_get (JObject o) path).
Qed.

(** On a JSON object the path evaluator of the filter middleware is the
    nested lookup of the path: it never panics, an absent field or a null on the
    way is nil, and a scalar or an array on the way is an error. *)
Theorem Evaluate_json_lookup (o : list (gostring * json)) (path : list gostring) :
  Evaluate true path (object_rval o) =
    map_err (pair (joinStr path [47%Z])) (json_get (JObject o) path) /\
  returned (Evaluate true path (object_rval o)).
Proof. split; [apply Evaluate_json|apply Evaluate_json_returns]. Qed.
