(* ===== verification/FilterSchema.v ===== *)
(** * Field validation against OpenAPI schemas
    (service/common/api/middleware/schema_validator.go, schema_utils.go)

    Schemas are kin-openapi's, linked by pointers that may form cycles, so they
    live in a store and refer to each other by address; a [SchemaRef] whose
    [Value] is nil is [None].  [validateFieldInSchema] takes fuel. *)
From S2P Require Import Prelude GoStrings.

Abbreviation address := positive (only parsing).
Abbreviation SchemaRef := (option positive) (only parsing).

(** The fields of [openapi3.Schema] the validator reads. *)
Record Schema := mkSchema {
  schema_Type : option (list gostring);
  Properties : list (gostring * SchemaRef);
  AdditionalHas : option bool;
  AdditionalSchema : bool;                     (* AdditionalProperties.Schema != nil *)
  AllOf : list SchemaRef;
  AnyOf : list SchemaRef;
  OneOf : list SchemaRef;
  Items : option SchemaRef;
}.

(** [Types.Is]. *)
Definition Is (types : option (list gostring)) (typ : gostring) : bool :=
  bool_decide (types = Some [typ]).

(** Go's [||] and a loop that returns true at the first success. *)
Fixpoint first_true {A} (f : A -> outcome Empty_set bool) (l : list A) : outcome Empty_set bool :=
  match l with
  | [] => Ret false
  | a :: l' => b ← f a; if (b : bool) then Ret true else first_true f l'
  end.

Section validator.
Context (store : gmap address Schema).

Definition object_like (s : Schema) : bool :=
  Is (schema_Type s) (lit "object") || (0 <? length (Properties s))%nat.

Definition allows_additional (s : Schema) : bool :=
  bool_decide (AdditionalHas s = Some true) || AdditionalSchema s.

(** The allOf, anyOf and oneOf schemas, in the order the loops try them. *)
Definition alternatives (s : Schema) : list SchemaRef := AllOf s ++ AnyOf s ++ OneOf s.

Fixpoint validateFieldInSchema (fuel : nat) (fieldPath : list gostring) (schema : SchemaRef)
    : outcome Empty_set bool :=
  match fuel with
  | O => NoFuel
  | S fuel =>
      match fieldPath, schema ≫= (store !!.) with
      | [], _ => Ret true
      | _, None => Ret false
      | fieldName :: rest, Some s =>
          let array :=
            match Items s with
            | Some items =>
                if Is (schema_Type s) (lit "array")
                then validateFieldInSchema fuel fieldPath items else Ret false
            | None => Ret false
            end in
          if object_like s then
            match assoc_lookup fieldName (Properties s) with
            | Some property =>
                match rest with
                | [] => Ret true
                | _ => validateFieldInSchema fuel rest property
                end
            | None =>
                if allows_additional s then Ret true
                else
                  b ← first_true (validateFieldInSchema fuel fieldPath) (alternatives s);
                  if (b : bool) then Ret true else array
            end
          else array
      end
  end.

(** [ValidateFieldPath]: the schemas of the map, in the order of the iteration. *)
Definition ValidateFieldPath (fuel : nat) (schemas : list SchemaRef) (fieldPath : list gostring)
    : outcome Empty_set bool :=
  match fieldPath with
  | [] => Ret false
  | _ => first_true (validateFieldInSchema fuel fieldPath) schemas
  end.

(** [extractSchemasFromSwagger]: the named schemas that have a value. *)
Definition extractSchemasFromSwagger (components : list (gostring * option SchemaRef))
    : list (gostring * address) :=
  omap (fun '(name, ref) => pair name <$> mjoin ref) components.
End validator.

(** ** The validator terminates, and what it accepts is closed under prefixes *)

Section facts.
Context (store : gmap address Schema).

Abbreviation validate := (validateFieldInSchema store).

Lemma first_true_returns {A} (f : A -> outcome Empty_set bool) l :
  (forall a, a ∈ l -> exists b, f a = Ret b) ->
  exists b, first_true f l = Ret b /\ (b = true <-> exists a, a ∈ l /\ f a = Ret true).
Proof.
  induction l as [|a l IH]; intros Hf; simpl.
  { exists false. split; [done|]. split; [done|]. intros (a & Ha & _). by apply elem_of_nil in Ha. }
  destruct (Hf a) as ([|] & Ea); [left|rewrite Ea; simpl..].
  - exists true. split; [done|]. split; [|done]. intros _. exists a. split; [left|done].
  - destruct IH as (b & E & Hb); [intros; apply Hf; by right|].
    exists b. rewrite E. split; [done|]. rewrite Hb. split.
    + intros (c & Hc & ?). exists c. split; [by right|done].
    + intros (c & [->|Hc]%elem_of_cons & ?); [congruence|eauto].
Qed.

(** [g] answers wherever [f] does, and accepts at least as much. *)
Definition accepts_more {A} (f g : A -> outcome Empty_set bool) : Prop :=
  forall a b, f a = Ret b -> exists b', g a = Ret b' /\ (b = true -> b' = true).

Lemma first_true_more {A} (f g : A -> outcome Empty_set bool) l b :
  accepts_more f g -> first_true f l = Ret b ->
  exists b', first_true g l = Ret b' /\ (b = true -> b' = true).
Proof.
  intros Hfg. induction l as [|a l IH]; simpl; [intros [= <-]; eauto|].
  destruct (f a) as [c| | |] eqn:E; try done. apply Hfg in E as (c' & -> & Hc). simpl.
  destruct c; [rewrite Hc by done; eauto|]. destruct c'; eauto.
Qed.

Lemma validate_prefix n p q s b :
  p <> [] -> validate n (p ++ q) s = Ret b ->
  exists b', validate n p s = Ret b' /\ (b = true -> b' = true).
Proof.
  revert p s b; induction n as [|n IH]; intros p s b Hp; [done|].
  destruct p as [|f rest]; [done|]. rewrite <- app_comm_cons. cbn [validateFieldInSchema].
  destruct (s ≫= (store !!.)) as [sch|]; [|intros [= <-]; eauto]. cbv zeta.
  set (array p := match Items sch with
    | Some items => if Is (schema_Type sch) (lit "array") then validate n p items else Ret false
    | None => Ret false
    end).
  assert (forall c, array (f :: rest ++ q) = Ret c ->
            exists c', array (f :: rest) = Ret c' /\ (c = true -> c' = true)) as Harr.
  { intros c. unfold array. destruct (Items sch); [|intros [= <-]; eauto].
    case_match; [apply (IH (f :: rest)); done|intros [= <-]; eauto]. }
  destruct (object_like sch); [|apply Harr].
  destruct (assoc_lookup f (Properties sch)).
  - destruct rest as [|g rest]; [by eexists|]. by apply IH.
  - destruct (allows_additional sch); [intros [= <-]; eauto|].
    destruct (first_true (validate n (f :: rest ++ q)) _) as [c| | |] eqn:E; try done.
    apply (first_true_more _ (validate n (f :: rest))) in E as (c' & -> & Hc);
      [|intros ref c0; apply (IH (f :: rest)); done].
    simpl. destruct c'; [eauto|]. destruct c; [by discriminate Hc|]. apply Harr.
Qed.

(** ** Acyclic composition *)

(** allOf, anyOf, oneOf and items lead to schemas of smaller rank; properties
    may lead anywhere, so that recursive types are allowed. *)
Definition ranked (rank : address -> nat) (bound : nat) : Prop :=
  forall a s, store !! a = Some s ->
    (rank a <= bound)%nat /\
    forall a', Some a' ∈ alternatives s \/ Items s = Some (Some a') -> (rank a' < rank a)%nat.

Definition depth (rank : address -> nat) (s : SchemaRef) : nat :=
  match s with Some a => match store !! a with Some _ => rank a + 1 | None => 0 end | None => 0 end.

Definition fuel_needed (rank : address -> nat) (bound : nat) (p : list gostring) (s : SchemaRef) : nat :=
  (length p * (bound + 2) + depth rank s + 1)%nat.

Lemma depth_bound rank bound s : ranked rank bound -> (depth rank s <= bound + 1)%nat.
Proof.
  intros Hr. unfold depth. destruct s as [a|]; [|lia].
  destruct (store !! a) eqn:E; [destruct (Hr _ _ E)|]; lia.
Qed.

Lemma validate_returns rank bound n p s :
  ranked rank bound -> (fuel_needed rank bound p s <= n)%nat -> exists b, validate n p s = Ret b.
Proof.
  intros Hr. revert p s; induction n as [|n IH]; intros p s Hn; [unfold fuel_needed in Hn; lia|].
  cbn [validateFieldInSchema]. destruct p as [|f rest]; [by eexists|].
  destruct s as [a|]; simpl; [|by eexists]. destruct (store !! a) as [sch|] eqn:E; [|by eexists].
  destruct (Hr a sch E) as [Ha Hdown].
  unfold fuel_needed in *. cbn [length] in *. unfold depth in Hn. rewrite E in Hn.
  assert (forall ref, ref ∈ alternatives sch \/ Items sch = Some ref ->
            exists b, validate n (f :: rest) ref = Ret b) as Hsub.
  { intros ref Href. apply IH. simpl. unfold depth. destruct ref as [a'|]; [|lia].
    apply Hdown in Href. destruct (store !! a'); lia. }
  set (array := match Items sch with
    | Some items => if Is (schema_Type sch) (lit "array") then validate n (f :: rest) items else Ret false
    | None => Ret false
    end).
  assert (exists b, array = Ret b) as Harr.
  { unfold array. destruct (Items sch) eqn:Ei; [|by eexists]. case_match; [eauto|by eexists]. }
  destruct (object_like sch); [|done].
  destruct (assoc_lookup f (Properties sch)) as [ref|].
  - destruct rest as [|g rest]; [by eexists|]. apply IH.
    pose proof (depth_bound rank bound ref Hr). cbn [length] in *. lia.
  - destruct (allows_additional sch); [by eexists|].
    destruct (first_true_returns (validate n (f :: rest)) (alternatives sch)) as (b & -> & _);
      [eauto|]. simpl. destruct b; [by eexists|done].
Qed.

Lemma ValidateFieldPath_total rank bound schemas p n :
  ranked rank bound -> p <> [] -> (length p * (bound + 2) + bound + 2 <= n)%nat ->
  exists b, ValidateFieldPath store n schemas p = Ret b /\
    (b = true <-> exists s, s ∈ schemas /\ validate n p s = Ret true).
Proof.
  intros Hr Hp Hn. destruct p as [|f p]; [done|]. apply first_true_returns.
  intros s _. apply (validate_returns rank bound); [done|].
  pose proof (depth_bound rank bound s Hr). unfold fuel_needed. lia.
Qed.

(** When no schema contains itself through allOf, anyOf, oneOf or items (it
    may through its properties), [ValidateFieldPath] terminates on every path,
    within a number of calls linear in the length of the path; it is true
    exactly when one of the schemas accepts the path, so the iteration order
    of the map does not matter. *)
Theorem ValidateFieldPath_terminates rank bound schemas p n :
  ranked rank bound -> p <> [] -> (length p * (bound + 2) + bound + 2 <= n)%nat ->
  exists b, ValidateFieldPath store n schemas p = Ret b /\
    (b = true <-> exists s, s ∈ schemas /\ validate n p s = Ret true).
Proof. apply ValidateFieldPath_total. Qed.

(** The paths [ValidateFieldPath] accepts are closed under non-empty
    prefixes: a filter on a nested field is never accepted when one on the
    object that contains it is refused. *)
Theorem ValidateFieldPath_prefix n schemas p q :
  p <> [] -> ValidateFieldPath store n schemas (p ++ q) = Ret true ->
  ValidateFieldPath store n schemas p = Ret true.
Proof.
  intros Hp. unfold ValidateFieldPath. destruct p as [|f p]; [done|].
  rewrite <- app_comm_cons. intros Ht.
  apply (first_true_more _ (validate n (f :: p))) in Ht as (b' & -> & Hb);
    [by rewrite Hb|]. intros s b. by apply (validate_prefix n (f :: p)).
Qed.
End facts.

(** A recursive type: a node with a name and child nodes. *)
Definition example_store : gmap address Schema :=
  <[1%positive := mkSchema (Some [lit "object"]) [(lit "name", Some 2%positive); (lit "child", Some 1%positive)]
                           None false [] [] [] None]>
  (<[2%positive := mkSchema (Some [lit "string"]) [] None false [] [] [] None]> ∅).

Example ValidateFieldPath_terminates_witness :
  (exists b, ValidateFieldPath example_store 8 [Some 1%positive] [lit "child"; lit "nope"] = Ret b /\
     (b = true <-> exists s, s ∈ [Some 1%positive] /\
        validateFieldInSchema example_store 8 [lit "child"; lit "nope"] s = Ret true))
  /\ ValidateFieldPath example_store 8 [Some 1%positive] [lit "child"; lit "nope"] = Ret false.
Proof.
  split; [|vm_compute; reflexivity].
  apply (ValidateFieldPath_terminates example_store (fun _ => 0%nat) 0); [|discriminate|simpl; lia].
  intros a s Ha. split; [lia|]. intros a' Hs. exfalso.
  unfold example_store in Ha. rewrite !lookup_insert_Some, lookup_empty in Ha.
  destruct Ha as [[<- <-]|[_ [[<- <-]|[_ Ha]]]]; [..|discriminate Ha];
    destruct Hs as [Hs|Hs]; try discriminate Hs; by apply elem_of_nil in Hs.
Defined.

Example ValidateFieldPath_prefix_witness :
  ValidateFieldPath example_store 8 [Some 1%positive] [lit "child"; lit "child"; lit "name"] = Ret true /\
  ValidateFieldPath example_store 8 [Some 1%positive] [lit "child"; lit "child"] = Ret true.
Proof.
  split; [vm_compute; reflexivity|].
  apply (ValidateFieldPath_prefix example_store 8 [Some 1%positive] [lit "child"; lit "child"] [lit "name"]);
    [discriminate|vm_compute; reflexivity].
Defined.
