(* ===== verification/Filtering.v ===== *)
(** * The response filter middleware (service/common/api/middleware/filtering.go)

    The filter query parameters of a request are parsed into one selector; the
    handler's response is kept in an interceptor, and [Flush] sends the objects
    of a list that match.  What reaches the original [http.ResponseWriter] is a
    list of [event]s.  Parameters: the JSON decoder, whether a write to the
    connection succeeds, and the texts of the errors that are not built here. *)
From S2P Require Import Prelude GoStrings SearchSelector SearchMonad SearchParser.
From S2P Require Import SearchParserFacts SearchPathEval SearchEvaluator UrlQuery Json FilterSchema.
#[local] Open Scope Z_scope.

Abbreviation object := (option (list (gostring * json))) (only parsing).

(** encoding/json on the two shapes [Flush] tries; [None] is an error. *)
Class Decoder := {
  unmarshal_object : list Z -> option (option (list (gostring * json)));
  unmarshal_list : list Z -> option (list (option (list (gostring * json))));
}.

Inductive body : Type :=
| Raw (bytes : list Z)
| Problem (detail : gostring) (status : Z)
| ItemList (items : list (option (list (gostring * json)))).

Inductive event : Type :=
| SetHeader (name value : gostring)
| WriteHeader (status : Z)
| Write (b : body).

Inductive flushError : Type :=
| FailedToWrite
| UnableToUnmarshal
| FailedToWriteError
| FailedToEncode.

Inductive filterError : Type :=
| InvalidSyntax (e : parseError)
| InvalidField (fieldName : gostring).

Abbreviation pathError := (list Z * evalError)%type.

Section middleware.
Context `{Unicode, Strconv, Decoder}.
Context (write_ok : body -> bool).
Context (parse_error_text : parseError -> gostring).
Context (eval_error_text : cmpError pathError -> gostring).
Context (flush_error_text : flushError -> gostring).
Context (debug : bool).

(** ** FilterAdapter *)

(** The schema validator, if the API has schemas: the store of the schemas, the
    schemas of the map, and the height of their composition, for the fuel. *)
Context (schemaValidator : option (gmap positive Schema * list (option positive) * nat)).

Definition validation_fuel (bound : nat) (path : list gostring) : nat :=
  (length path * (bound + 2) + bound + 2)%nat.

(** The loop of [ParseFilter] over the terms. *)
Fixpoint check_fields (terms : list Term) : outcome filterError unit :=
  match schemaValidator, terms with
  | None, _ | _, [] => Ret tt
  | Some (store, schemas, bound), term :: rest =>
      match ValidateFieldPath store (validation_fuel bound (term_Path term)) schemas (term_Path term) with
      | Ret true => check_fields rest
      | Ret false => Err (InvalidField (joinStr (term_Path term) (lit ".")))
      | Err e => match e with end
      | Panic => Panic
      | NoFuel => NoFuel
      end
  end.

Definition ParseFilter (query : gostring) : outcome filterError Selector :=
  selector ← map_err InvalidSyntax (Parse query);
  _ ← check_fields (Terms selector);
  Ret selector.

Definition filterError_text (e : filterError) : gostring :=
  match e with
  | InvalidSyntax e => lit "invalid filter syntax: " ++ parse_error_text e
  | InvalidField fieldName =>
      lit "invalid field name '" ++ fieldName
      ++ lit "' in filter - field does not exist in the API schema"
  end.

Definition isParserError (e : filterError) : bool :=
  hasPrefix (filterError_text e) (lit "invalid filter syntax:").

Definition eval (selector : Selector) (item : object) : outcome (cmpError pathError) bool :=
  SearchEvaluator.Evaluate (SearchPathEval.Evaluate true) debug selector
    (object_rval (default [] item)).

(** [FilterAdapter.EvaluateSelector]: a nil map is an object without fields. *)
Definition EvaluateSelector (selector : Selector) (item : object) : outcome gostring bool :=
  map_err (fun e => lit "failed to evaluate selector: " ++ eval_error_text e) (eval selector item).

(** [FilterAdapter.Error]: what it sends and whether that worked. *)
Definition Error (details : gostring) (status : Z) : list event * bool :=
  ([SetHeader (lit "Content-Type") (lit "application/problem+json"); WriteHeader status;
    Write (Problem details status)],
   write_ok (Problem details status)).

(** ** FilterResponseInterceptor *)

Record interceptor := mkInterceptor { buf : list Z; statusCode : Z }.

(** The calls a handler makes on the writer it is given. *)
Inductive call : Type :=
| CallHeader (name value : gostring)
| CallWriteHeader (status : Z)
| CallWrite (data : list Z).

(** The methods Header, WriteHeader and Write. *)
Definition intercept (s : list event * interceptor) (c : call) : list event * interceptor :=
  let '(events, i) := s in
  match c with
  | CallHeader name value => (events ++ [SetHeader name value], i)
  | CallWriteHeader status => (events, mkInterceptor (buf i) status)
  | CallWrite data => (events, mkInterceptor (buf i ++ data) (statusCode i))
  end.

Definition serve (calls : list call) : list event * interceptor :=
  fold_left intercept calls ([], mkInterceptor [] 0).

(** The loop of [Flush] over the list. *)
Fixpoint select (selector : Selector) (listResult : list object) : outcome gostring (list object) :=
  match listResult with
  | [] => Ret []
  | item :: rest =>
      ok ← EvaluateSelector selector item;
      items ← select selector rest;
      Ret (if (ok : bool) then item :: items else items)
  end.

Definition send (b : body) (e : flushError) : list event * outcome flushError unit :=
  ([Write b], if write_ok b then Ret tt else Err e).

Definition prepend (events : list event) {A} (r : list event * A) : list event * A :=
  (events ++ r.1, r.2).

Definition Flush (i : interceptor) (selector : Selector) : list event * outcome flushError unit :=
  if negb (statusCode i =? 200) || (length (Terms selector) =? 0)%nat then
    prepend (if 0 <? statusCode i then [WriteHeader (statusCode i)] else [])
            (send (Raw (buf i)) FailedToWrite)
  else
    match unmarshal_object (buf i) with
    | Some _ => prepend [WriteHeader (statusCode i)] (send (Raw (buf i)) FailedToWrite)
    | None =>
        match unmarshal_list (buf i) with
        | None => ([], Err UnableToUnmarshal)
        | Some listResult =>
            match select selector listResult with
            | Ret items => prepend [WriteHeader (statusCode i)] (send (ItemList items) FailedToEncode)
            | Err text =>
                let '(events, ok) := Error text 400 in
                (events, if ok then Ret tt else Err FailedToWriteError)
            | Panic => ([], Panic)
            | NoFuel => ([], NoFuel)
            end
        end
    end.

(** ** ResponseFilter *)

(** The loop over the values of the filter parameter. *)
Fixpoint parse_filters (terms : list Term) (values : list gostring) : outcome filterError (list Term) :=
  match values with
  | [] => Ret terms
  | value :: rest =>
      result ← ParseFilter value; parse_filters (terms ++ Terms result) rest
  end.

Definition filter_values (query : list (list Z * list Z)) : list gostring :=
  omap (fun '(k, v) => if decide (k = lit "filter") then Some (decode_runes v) else None) query.

(** The handler answers the request whose query string was sanitized. *)
Definition ResponseFilter (handler : list Z -> list call) (rawQuery : list Z)
    : list event * outcome Empty_set unit :=
  let rawQuery := sanitizeQuerySemicolons rawQuery in
  match ParseQuery rawQuery with
  | None => ((Error (lit "failed to parse query parameters") 400).1, Ret tt)
  | Some query =>
      match parse_filters [] (filter_values query) with
      | Err e =>
          let msg := if isParserError e then lit "invalid filter syntax" else filterError_text e in
          ((Error msg 400).1, Ret tt)
      | Panic => ([], Panic)
      | NoFuel => ([], NoFuel)
      | Ret terms =>
          let '(headers, i) := serve (handler rawQuery) in
          prepend headers
            (let '(events, r) := Flush i (mkSelector terms) in
             match r with
             | Ret _ => (events, Ret tt)
             | Err e =>
                 (events ++ (Error (lit "failed to flush interceptor: " ++ flush_error_text e) 500).1,
                  Ret tt)
             | Panic => (events, Panic)
             | NoFuel => (events, NoFuel)
             end)
      end
  end.
End middleware.

Section facts.
Context `{Unicode, Strconv, Decoder}.
Context (write_ok : body -> bool).
Context (parse_error_text : parseError -> gostring).
Context (eval_error_text : cmpError pathError -> gostring).
Context (flush_error_text : flushError -> gostring).
Context (debug : bool).
Context (schemaValidator : option (gmap positive Schema * list (option positive) * nat)).

Abbreviation eval := (eval debug).
Abbreviation select := (select eval_error_text debug).
Abbreviation ParseFilter := (ParseFilter schemaValidator).
Abbreviation parse_filters := (parse_filters schemaValidator).
Abbreviation Error := (Error write_ok).
Abbreviation Flush := (Flush write_ok eval_error_text debug).
Abbreviation ResponseFilter :=
  (ResponseFilter write_ok parse_error_text eval_error_text flush_error_text debug schemaValidator).

(** ** Parsed selectors evaluate without panics *)

Lemma parsed_printable terms : Forall parsed_term terms -> is_Some (mapM Term_String terms).
Proof.
  intros Hp. apply mapM_is_Some. eapply Forall_impl; [exact Hp|].
  intros t ([op Ho] & _). cbn. unfold Term_String. rewrite Ho. by eexists.
Qed.

Lemma eval_parsed sel item :
  Forall parsed_term (Terms sel) ->
  eval sel item = evaluateTerms (SearchPathEval.Evaluate true) (Terms sel) (object_rval (default [] item)).
Proof.
  intros Hp. unfold Filtering.eval, SearchEvaluator.Evaluate, evaluateSelector.
  destruct (evaluateTerms _ _ _); try done; destruct debug; try done;
    unfold Selector_String; by destruct (parsed_printable _ Hp) as [texts ->].
Qed.

Lemma evaluateTerms_returns terms o :
  Forall parsed_term terms ->
  returned (evaluateTerms (SearchPathEval.Evaluate true) terms (object_rval o)).
Proof.
  induction 1 as [|t ts (_ & _ & Hs) _ IH]; simpl; [done|].
  pose proof (evaluateTerm_total (SearchPathEval.Evaluate true) t (object_rval o)
    (Evaluate_json_returns _ _) Hs) as Ht.
  by destruct (evaluateTerm _ t _) as [[|]| | |].
Qed.

Lemma select_returns sel items : Forall parsed_term (Terms sel) -> returned (select sel items).
Proof.
  intros Hp. induction items as [|item items IH]; simpl; [done|].
  unfold EvaluateSelector. rewrite eval_parsed by done.
  pose proof (evaluateTerms_returns (Terms sel) (default [] item) Hp) as Hr.
  destruct (evaluateTerms _ _ _); try done. simpl. by destruct (select sel items).
Qed.

(** ** Selectors of several filters *)

Definition matches (sel : Selector) (item : object) : bool :=
  match eval sel item with Ret true => true | _ => false end.

Definition matches_all (sels : list Selector) (item : object) : bool :=
  forallb (fun sel => matches sel item) sels.

Lemma evaluateTerms_app {Obj PE} (pe : list gostring -> Obj -> outcome PE goany) ts us o :
  evaluateTerms pe (ts ++ us) o =
    match evaluateTerms pe ts o with Ret true => evaluateTerms pe us o | r => r end.
Proof.
  induction ts as [|t ts IH]; simpl; [done|]. rewrite IH.
  by destruct (evaluateTerm pe t o) as [[|]| | |].
Qed.

Lemma ParseFilter_parsed value sel : ParseFilter value = Ret sel -> Forall parsed_term (Terms sel) /\ Terms sel <> [].
Proof.
  unfold Filtering.ParseFilter. destruct (Parse value) as [s| | |] eqn:E; try done. simpl.
  destruct (check_fields _ _); try done. simpl. intros [= <-]. by apply Parse_yields in E as [].
Qed.

Lemma parsed_filters values sels :
  Forall2 (fun v sel => ParseFilter v = Ret sel) values sels ->
  Forall (fun sel => Forall parsed_term (Terms sel) /\ Terms sel <> []) sels.
Proof. induction 1 as [|v sel ? ? Hv]; constructor; [by apply ParseFilter_parsed in Hv|done]. Qed.

Lemma parse_filters_Ret terms values sels :
  Forall2 (fun v sel => ParseFilter v = Ret sel) values sels ->
  parse_filters terms values = Ret (terms ++ concat (map Terms sels)).
Proof.
  intros Hv. revert terms. induction Hv as [|v sel values sels Hv _ IH]; intros terms; simpl.
  - by rewrite app_nil_r.
  - rewrite Hv. simpl. by rewrite IH, <- app_assoc.
Qed.

Lemma parse_filters_inv terms values :
  match parse_filters terms values with
  | Ret terms' => exists sels, Forall2 (fun v sel => ParseFilter v = Ret sel) values sels /\
                               terms' = terms ++ concat (map Terms sels)
  | Err e => exists v, v ∈ values /\ ParseFilter v = Err e
  | Panic => exists v, v ∈ values /\ ParseFilter v = Panic
  | NoFuel => exists v, v ∈ values /\ ParseFilter v = NoFuel
  end.
Proof.
  revert terms; induction values as [|v values IH]; intros terms; simpl.
  { exists []. simpl. by rewrite app_nil_r. }
  destruct (ParseFilter v) as [sel|e| |] eqn:E; simpl; try by (exists v; split; [left|]).
  specialize (IH (terms ++ Terms sel)). destruct (parse_filters _ values) as [ts| | |].
  - destruct IH as (sels & Hs & ->). exists (sel :: sels). split; [by constructor|].
    simpl. by rewrite app_assoc.
  - destruct IH as (w & ? & ?). exists w. split; [by right|done].
  - destruct IH as (w & ? & ?). exists w. split; [by right|done].
  - destruct IH as (w & ? & ?). exists w. split; [by right|done].
Qed.

Lemma eval_concat sels item :
  Forall (fun sel => Forall parsed_term (Terms sel)) sels ->
  Forall (fun sel => exists b, eval sel item = Ret b) sels ->
  eval (mkSelector (concat (map Terms sels))) item = Ret (matches_all sels item).
Proof.
  intros Hp Hb. rewrite eval_parsed.
  - simpl. induction Hp as [|sel sels Hsel Hp IH]; [done|].
    inversion_clear Hb as [|? ? [b Hs] Hb']. cbn [map concat matches_all forallb].
    rewrite evaluateTerms_app, <- (eval_parsed sel item Hsel), Hs.
    unfold matches. rewrite Hs. destruct b; [by apply IH|done].
  - simpl. apply Forall_concat, Forall_fmap. done.
Qed.

Lemma select_filter sels items :
  Forall (fun sel => Forall parsed_term (Terms sel)) sels ->
  (forall item, item ∈ items -> Forall (fun sel => exists b, eval sel item = Ret b) sels) ->
  select (mkSelector (concat (map Terms sels))) items = Ret (List.filter (matches_all sels) items).
Proof.
  intros Hp. induction items as [|item items IH]; intros Hb; simpl; [done|].
  unfold EvaluateSelector. rewrite eval_concat by (done || (apply Hb; left)). simpl.
  rewrite IH by (intros; apply Hb; by right). done.
Qed.

Lemma concat_terms_nonempty sels :
  sels <> [] -> Forall (fun sel => Terms sel <> []) sels -> concat (map Terms sels) <> [].
Proof.
  intros Hs Hf. destruct Hf as [|sel sels Hne _]; [done|]. simpl. by destruct (Terms sel).
Qed.

(** What the handler's calls leave in the interceptor. *)
Lemma serve_spec calls :
  serve calls =
    (omap (fun c => match c with CallHeader n v => Some (SetHeader n v) | _ => None end) calls,
     mkInterceptor
       (concat (omap (fun c => match c with CallWrite d => Some d | _ => None end) calls))
       (default 0 (last (omap (fun c => match c with CallWriteHeader s => Some s | _ => None end) calls)))).
Proof.
  induction calls as [|c calls IH] using rev_ind; [done|]. unfold serve in *.
  rewrite fold_left_app, IH, !omap_app. simpl. destruct c; simpl; rewrite ?app_nil_r; try done.
  - by rewrite last_snoc.
  - by rewrite concat_app; simpl; rewrite app_nil_r.
Qed.

Lemma Flush_selects sels content items :
  Forall (fun sel => Forall parsed_term (Terms sel) /\ Terms sel <> []) sels -> sels <> [] ->
  unmarshal_object content = None -> unmarshal_list content = Some items ->
  (forall item, item ∈ items -> Forall (fun sel => exists b, eval sel item = Ret b) sels) ->
  write_ok (ItemList (List.filter (matches_all sels) items)) = true ->
  Flush (mkInterceptor content 200) (mkSelector (concat (map Terms sels))) =
    ([WriteHeader 200; Write (ItemList (List.filter (matches_all sels) items))], Ret tt).
Proof.
  intros [Hp Hn]%Forall_and Hne Ho Hl Hb Hw. pose proof (concat_terms_nonempty sels Hne Hn) as Hc.
  unfold Filtering.Flush. simpl. rewrite Ho, Hl, select_filter by done. unfold send, prepend.
  rewrite Hw. by destruct (concat (map Terms sels)).
Qed.

(** C26: a successful list response is reduced to the objects that match every
    filter parameter, each in full and in the order of the handler's list, sent
    with the handler's headers and status 200; provided that every filter is
    well formed and evaluates without an error on every object (one error makes
    the response a 400), and that the reduced list can be written. *)
Theorem ResponseFilter_selects handler rawQuery query sels headers content items :
  let raw := sanitizeQuerySemicolons rawQuery in
  ParseQuery raw = Some query ->
  Forall2 (fun v sel => ParseFilter v = Ret sel) (filter_values query) sels -> sels <> [] ->
  serve (handler raw) = (headers, mkInterceptor content 200) ->
  unmarshal_object content = None -> unmarshal_list content = Some items ->
  (forall item, item ∈ items -> Forall (fun sel => exists b, eval sel item = Ret b) sels) ->
  write_ok (ItemList (List.filter (matches_all sels) items)) = true ->
  ResponseFilter handler rawQuery =
    (headers ++ [WriteHeader 200; Write (ItemList (List.filter (matches_all sels) items))], Ret tt).
Proof.
  intros raw Hq Hv Hne Hserve Ho Hl Hb Hw. unfold Filtering.ResponseFilter. cbv zeta.
  change (sanitizeQuerySemicolons rawQuery) with raw. rewrite Hq, (parse_filters_Ret [] _ _ Hv), Hserve.
  cbv iota beta. rewrite app_nil_l.
  rewrite (Flush_selects sels content items); try done.
  by eapply parsed_filters.
Qed.

(** A filter that cannot be evaluated on some object of the list (a type
    the operator does not support, say) makes the response a 400 problem with
    the error of the first such object; nothing of the list is sent. *)
Theorem Flush_error content sel items before item after text :
  Terms sel <> [] ->
  unmarshal_object content = None -> unmarshal_list content = Some items ->
  items = before ++ item :: after ->
  Forall (fun i => exists b, EvaluateSelector eval_error_text debug sel i = Ret b) before ->
  EvaluateSelector eval_error_text debug sel item = Err text ->
  Flush (mkInterceptor content 200) sel =
    ((Error text 400).1,
     if write_ok (Problem text 400) then Ret tt else Err FailedToWriteError).
Proof.
  intros Hne Ho Hl -> Hb He. unfold Filtering.Flush. simpl.
  destruct (Terms sel) eqn:E; [done|]. simpl. rewrite Ho, Hl.
  assert (select sel (before ++ item :: after) = Err text) as ->; [|done].
  clear E Hl; induction Hb as [|i items [b Hi] _ IH]; simpl; [by rewrite He|]. by rewrite Hi, IH.
Qed.

Definition is_write (e : event) : bool := match e with Write _ => true | _ => false end.

(** One body for every request, if writing to the connection works. *)
Lemma Flush_returns i sel :
  Forall parsed_term (Terms sel) ->
  (forall b, write_ok b = true) ->
  (exists events, Flush i sel = (events, Ret tt) /\ length (List.filter is_write events) = 1%nat) \/
  Flush i sel = ([], Err UnableToUnmarshal).
Proof.
  intros Hp Hw. unfold Filtering.Flush, send, Filtering.Error, prepend. rewrite !Hw.
  destruct (_ || _); [left; eexists; split; [done|]; by destruct (0 <? statusCode i)|].
  destruct (unmarshal_object (buf i)); [left; by eexists|].
  destruct (unmarshal_list (buf i)) as [items|]; [|by right]. left.
  pose proof (select_returns sel items Hp) as Hr.
  destruct (select sel items); try done; simpl; rewrite Hw; by eexists.
Qed.

Lemma no_write_in_headers calls : List.filter is_write (serve calls).1 = [].
Proof.
  rewrite serve_spec. simpl. induction calls as [|[] calls IH]; simpl; auto.
Qed.

(** The validator of the adapter, if there is one, terminates. *)
Definition validator_terminates : Prop :=
  match schemaValidator with
  | None => True
  | Some (store, _, bound) => exists rank, ranked store rank bound
  end.

Lemma ParseFilter_returns value : validator_terminates -> returned (ParseFilter value).
Proof.
  intros Hv. unfold Filtering.ParseFilter. pose proof (Parse_total value) as Hr.
  destruct (Parse value) as [sel| | |] eqn:E; try done. simpl.
  apply Parse_yields in E as [_ Hp]. clear Hr.
  assert (returned (check_fields schemaValidator (Terms sel))) as Hc.
  { unfold validator_terminates in Hv.
    induction Hp as [|t ts (_ & Ht & _) _ IH]; simpl.
    - by destruct schemaValidator as [[[]]|].
    - destruct schemaValidator as [[[store schemas] bound]|]; [|done].
      destruct Hv as [rank Hr].
      destruct (ValidateFieldPath_total store rank bound schemas (term_Path t)
                  (validation_fuel bound (term_Path t)) Hr Ht) as (b & -> & _).
      + unfold validation_fuel. lia.
      + by destruct b. }
  by destruct (check_fields schemaValidator (Terms sel)).
Qed.

(** The middleware answers every request: whatever the query and whatever
    the handler does, no panic reaches the server, and if writing to the
    connection works, exactly one body is sent. *)
Theorem ResponseFilter_returns handler rawQuery :
  validator_terminates ->
  (forall b, write_ok b = true) ->
  exists events, ResponseFilter handler rawQuery = (events, Ret tt) /\
    length (List.filter is_write events) = 1%nat.
Proof.
  intros Hv Hw. unfold Filtering.ResponseFilter. cbv zeta.
  destruct (ParseQuery _) as [query|]; [|by eexists].
  pose proof (parse_filters_inv [] (filter_values query)) as Hi.
  destruct (parse_filters [] (filter_values query)) as [terms|e| |]; [|by eexists|..].
  2-3: destruct Hi as (v & _ & E); pose proof (ParseFilter_returns v Hv) as Hr; by rewrite E in Hr.
  destruct Hi as (sels & Hs & ->).
  pose proof (no_write_in_headers (handler (sanitizeQuerySemicolons rawQuery))) as Hh.
  destruct (serve _) as [headers i]. simpl in Hh.
  rewrite app_nil_l. assert (Forall parsed_term (concat (map Terms sels))) as Hp.
  { apply Forall_concat, Forall_fmap. by apply parsed_filters, Forall_and in Hs as []. }
  destruct (Flush_returns i (mkSelector (concat (map Terms sels))) Hp Hw)
    as [(evs & -> & Hl)| ->]; (eexists; split; [done|]; by rewrite List.filter_app, Hh).
Qed.

(** A response that is not a 200, or a request without filters, or a body
    that is a single object, goes through unchanged: the handler's headers, its
    last status (none if it set none) and the bytes it wrote. *)
Theorem Flush_passthrough calls sel headers content status :
  serve calls = (headers, mkInterceptor content status) ->
  status <> 200 \/ Terms sel = [] \/ (exists o, unmarshal_object content = Some o) ->
  write_ok (Raw content) = true ->
  headers = omap (fun c => match c with CallHeader n v => Some (SetHeader n v) | _ => None end) calls /\
  content = concat (omap (fun c => match c with CallWrite d => Some d | _ => None end) calls) /\
  Flush (mkInterceptor content status) sel =
    ((if 0 <? status then [WriteHeader status] else []) ++ [Write (Raw content)], Ret tt).
Proof.
  rewrite serve_spec. intros [= <- <- Hst] Hc Hw. split_and!; [done..|].
  unfold Filtering.Flush. simpl. unfold send, prepend. rewrite Hw.
  destruct (Z.eqb_spec status 200) as [->|?]; [|done]. simpl.
  destruct Hc as [?|[-> |[o ->]]]; [done..|]. by destruct (_ =? 0)%nat.
Qed.

(** A text the selector parser rejects is answered with a fixed 400 problem
    that repeats nothing of it; an unknown field is named; the handler is not
    called in either case. *)
Theorem ResponseFilter_rejects handler rawQuery query before v after sels e :
  ParseQuery (sanitizeQuerySemicolons rawQuery) = Some query ->
  filter_values query = before ++ v :: after ->
  Forall2 (fun v sel => ParseFilter v = Ret sel) before sels ->
  ParseFilter v = Err e ->
  ResponseFilter handler rawQuery =
    ((Error (match e with
             | InvalidSyntax _ => lit "invalid filter syntax"
             | InvalidField field =>
                 lit "invalid field name '" ++ field
                 ++ lit "' in filter - field does not exist in the API schema"
             end) 400).1, Ret tt).
Proof.
  intros Hq Hv Hs He. unfold Filtering.ResponseFilter. cbv zeta. rewrite Hq, Hv.
  assert (forall terms, parse_filters terms (before ++ v :: after) = Err e) as ->.
  { clear -Hs He. induction Hs as [|w sel before sels Hw _ IH]; intros terms; simpl;
      [by rewrite He|]. by rewrite Hw; simpl. }
  by destruct e.
Qed.
End facts.

(** ** The theorems at work: a list of two objects, one of them without a name *)

Section examples.
#[local] Existing Instance ascii_unicode.
#[local] Existing Instance integer_strconv.

Definition example_alpha : list (gostring * json) :=
  [(lit "name", JString (lit "alpha")); (lit "n", JNumber (float_of_int 3))].
Definition example_items : list (option (list (gostring * json))) := [Some example_alpha; Some []].
Definition example_content : list Z := lit "[{'name':'alpha','n':3},{}]".

Definition example_decoder : Decoder :=
  {| unmarshal_object := fun b => if decide (b = lit "{}") then Some (Some []) else None;
     unmarshal_list := fun b => if decide (b = example_content) then Some example_items else None |}.
#[local] Existing Instance example_decoder.

Definition example_handler (raw : list Z) : list call :=
  [CallHeader (lit "Content-Type") (lit "application/json"); CallWriteHeader 200;
   CallWrite example_content].

Definition example_sels : list Selector :=
  [mkSelector [mkTerm OpEq [lit "name"] [VString (lit "alpha")]];
   mkSelector [mkTerm OpEq [lit "n"] [VString (lit "3")]]].

Definition example_query : list Z := lit "filter=(eq,name,alpha)&x=1&filter=(eq,n,3)".

Abbreviation example_filter := (ResponseFilter (fun _ => true) (fun _ => []) (fun _ => [])
  (fun _ => []) true None example_handler).

Example ResponseFilter_selects_witness :
  example_filter example_query =
    ([SetHeader (lit "Content-Type") (lit "application/json")] ++
     [WriteHeader 200; Write (ItemList (List.filter (matches_all true example_sels) example_items))],
     Ret tt)
  /\ List.filter (matches_all true example_sels) example_items = [Some example_alpha].
Proof.
  split; [|vm_compute; reflexivity].
  apply (ResponseFilter_selects (fun _ => true) (fun _ => []) (fun _ => []) (fun _ => []) true None
    example_handler example_query
    [(lit "filter", lit "(eq,name,alpha)"); (lit "x", lit "1"); (lit "filter", lit "(eq,n,3)")]
    example_sels _ example_content).
  - vm_compute; reflexivity.
  - repeat constructor; vm_compute; reflexivity.
  - discriminate.
  - vm_compute; reflexivity.
  - vm_compute; reflexivity.
  - vm_compute; reflexivity.
  - intros item [->|[->|Hi]%elem_of_cons]%elem_of_cons; [..|by apply elem_of_nil in Hi];
      repeat constructor; eexists; vm_compute; reflexivity.
  - reflexivity.
Defined.

Example Flush_error_witness :
  Flush (fun _ => true) (fun _ => []) false (mkInterceptor example_content 200)
    (mkSelector [mkTerm OpNeq [lit "n"] [VString (lit "3")]]) =
    ((Error (fun _ => true) (lit "failed to evaluate selector: ") 400).1, Ret tt).
Proof.
  apply (Flush_error (fun _ => true) (fun _ => []) false example_content
    (mkSelector [mkTerm OpNeq [lit "n"] [VString (lit "3")]]) example_items
    [Some example_alpha] (Some []) []); try (vm_compute; reflexivity); [discriminate|].
  repeat constructor. eexists; vm_compute; reflexivity.
Defined.

Example ResponseFilter_returns_witness :
  exists events, example_filter (lit "filter=(gt,n,x") = (events, Ret tt) /\
    length (List.filter is_write events) = 1%nat.
Proof. apply ResponseFilter_returns; [exact I|reflexivity]. Defined.

Example Flush_passthrough_witness :
  [SetHeader (lit "Content-Type") (lit "application/json")] =
    omap (fun c => match c with CallHeader n v => Some (SetHeader n v) | _ => None end)
         (example_handler []) /\
  example_content =
    concat (omap (fun c => match c with CallWrite d => Some d | _ => None end) (example_handler [])) /\
  Flush (fun _ => true) (fun _ => []) false (mkInterceptor example_content 200) (mkSelector []) =
    ([WriteHeader 200; Write (Raw example_content)], Ret tt).
Proof.
  apply (Flush_passthrough (fun _ => true) (fun _ => []) false (example_handler []));
    [vm_compute; reflexivity|right; left; reflexivity|reflexivity].
Defined.

Example ResponseFilter_rejects_witness :
  example_filter (lit "filter=(eq,name,a)&filter=(zz,n,1)") =
    ((Error (fun _ => true) (lit "invalid filter syntax") 400).1, Ret tt).
Proof.
  eapply eq_trans; [apply (ResponseFilter_rejects (fun _ => true) (fun _ => []) (fun _ => []) (fun _ => []) true None
    example_handler (lit "filter=(eq,name,a)&filter=(zz,n,1)")
    [(lit "filter", lit "(eq,name,a)"); (lit "filter", lit "(zz,n,1)")]
    [lit "(eq,name,a)"] (lit "(zz,n,1)") []
    [mkSelector [mkTerm OpEq [lit "name"] [VString (lit "a")]]]
    (InvalidSyntax (SearchMonad.UnknownOperator (lit "zz"))))
    |reflexivity].
  - vm_compute; reflexivity.
  - vm_compute; reflexivity.
  - repeat constructor; vm_compute; reflexivity.
  - vm_compute; reflexivity.
Defined.
End examples.
