(* ===== verification/NotifierEvent.v ===== *)
(** * service/common/notifier: notifications, and sending one (event.go)

    [callUrl] is a function of what each HTTP attempt gives and of whether the
    context is found done while waiting after it; times are in seconds. *)
From S2P Require Import Prelude GoStrings.
#[local] Open Scope Z_scope.

(** A payload the transformers know: its [ConsumerSubscriptionId], the event type
    of an alarm, and the rest. *)
Inductive Payload : Type :=
| PAlarm (eventType : Z) (consumer : option gostring) (rest : gostring)
| PInventory (consumer : option gostring) (rest : gostring)
| PCluster (consumer : option gostring) (rest : gostring)
| POther (rest : gostring).

Record Notification := mkNotification {
  NotificationID : positive;
  SequenceID : Z;
  notification_Payload : Payload;
}.

Record SubscriptionInfo := mkSubscription {
  SubscriptionID : positive;
  ConsumerSubscriptionID : option gostring;
  Callback : gostring;
  subscription_Filter : option gostring;
  EventCursor : Z;
}.

#[export] Instance Payload_eq_dec : EqDecision Payload. Proof. solve_decision. Defined.
#[export] Instance Notification_eq_dec : EqDecision Notification. Proof. solve_decision. Defined.

(** ** Sending *)

(** The errors [isRetryableError] tells apart. *)
Inductive sendError : Type :=
| MarshalFailed | RequestFailed | HostNotFound | ConnectionRefused | SendFailed
| StatusFailed (code : Z).

#[export] Instance sendError_eq_dec : EqDecision sendError. Proof. solve_decision. Defined.

(** What [json.Marshal], [http.NewRequestWithContext] and [client.Do] give. *)
Inductive httpOutcome : Type := Failed (e : sendError) | Response (status : Z).

Definition sendNotification (h : httpOutcome) : option sendError :=
  match h with
  | Failed e => Some e
  | Response status => if 204 <? status then Some (StatusFailed status) else None
  end.

(** [true] where the Go function returns nil. *)
Definition isRetryableError (e : sendError) : bool :=
  match e with HostNotFound | ConnectionRefused => false | _ => true end.

Definition maxRetries : nat := 5.
Definition retryDelay : Z := 10.

Inductive callResult : Type := Delivered | NonRetryable (e : sendError) | RetriesExceeded (e : option sendError).

Record callTrace := mkTrace { attempts : nat; waits : list Z; result : callResult }.

Section callUrl.
Context (http : nat -> httpOutcome) (ctxDone : nat -> bool).

(** The loop from [attempt] on, [left] iterations before [maxRetries]; the
    [break] of the select leaves the select only. *)
Fixpoint callUrl_loop (left attempt : nat) (delay : Z) (err : option sendError) : callTrace :=
  match left with
  | O => mkTrace 0 [] (RetriesExceeded err)
  | S left' =>
      match sendNotification (http attempt) with
      | None => mkTrace 1 [] Delivered
      | Some e =>
          if isRetryableError e then
            let waited := (attempt <? maxRetries - 1)%nat && negb (ctxDone attempt) in
            let t := callUrl_loop left' (S attempt) (if waited then delay * 2 else delay) (Some e) in
            mkTrace (S (attempts t)) ((if waited then [delay] else []) ++ waits t) (result t)
          else mkTrace 1 [] (NonRetryable e)
      end
  end.

Definition callUrl : callTrace := callUrl_loop maxRetries 0 retryDelay None.

Definition retryable_failure (i : nat) : Prop :=
  exists e, sendNotification (http i) = Some e /\ isRetryableError e = true.

Lemma callUrl_loop_spec left attempt delay err :
  let t := callUrl_loop left attempt delay err in
  (attempts t <= left)%nat /\
  (forall i, (i + 1 < attempts t)%nat -> retryable_failure (attempt + i)) /\
  match result t with
  | Delivered => (0 < attempts t)%nat /\ sendNotification (http (attempt + attempts t - 1)) = None
  | NonRetryable e => (0 < attempts t)%nat /\ isRetryableError e = false /\
      sendNotification (http (attempt + attempts t - 1)) = Some e
  | RetriesExceeded e => attempts t = left /\ forall i, (i < left)%nat -> retryable_failure (attempt + i)
  end.
Proof.
  revert attempt delay err; induction left as [|left IH]; intros attempt delay err; simpl.
  { split_and!; [lia|intros; lia|done|intros; lia]. }
  destruct (sendNotification (http attempt)) as [e|] eqn:E; simpl.
  2: { split_and!; [lia|intros; lia|lia|]. by replace (attempt + 1 - 1)%nat with attempt by lia. }
  destruct (isRetryableError e) eqn:Er; simpl.
  2: { split_and!; [lia|intros; lia|lia|done|]. by replace (attempt + 1 - 1)%nat with attempt by lia. }
  specialize (IH (S attempt) (if (attempt <? maxRetries - 1)%nat && negb (ctxDone attempt)
                              then delay * 2 else delay) (Some e)).
  destruct (callUrl_loop left _ _ _) as [n ws r]. simpl in *. destruct IH as (Hn & Hf & Hr).
  assert (forall k (P : nat -> Prop), (forall i, (i < k)%nat -> P (S attempt + i)%nat) -> P attempt ->
            forall i, (i < S k)%nat -> P (attempt + i)%nat) as Hshift.
  { intros k P Hk H0 [|i] Hi; [by rewrite Nat.add_0_r|].
    replace (attempt + S i)%nat with (S attempt + i)%nat by lia. apply Hk. lia. }
  split_and!; [lia| |].
  - intros i Hi. destruct n as [|n]; [lia|].
    apply (Hshift n retryable_failure); [intros; apply Hf; lia|by exists e|lia].
  - destruct r as [|e'|e'].
    + destruct Hr as [? Hr]. split; [lia|].
      by replace (attempt + S n - 1)%nat with (S attempt + n - 1)%nat by lia.
    + destruct Hr as (? & ? & Hr). split_and!; [lia|done|].
      by replace (attempt + S n - 1)%nat with (S attempt + n - 1)%nat by lia.
    + destruct Hr as [-> Hr]. split; [done|]. apply Hshift; [done|by exists e].
Qed.

(** A notification is attempted at least once and at most [maxRetries]
    times; every attempt but the last failed in a retryable way; the outcome is
    that of the last attempt, and the retries are exceeded only after
    [maxRetries] retryable failures.  Unless the context is cancelled, the waits
    between attempts are 10, 20, 40 and 80 seconds. *)
Theorem callUrl_spec :
  (1 <= attempts callUrl <= maxRetries)%nat /\
  (forall i, (i + 1 < attempts callUrl)%nat -> retryable_failure i) /\
  match result callUrl with
  | Delivered => sendNotification (http (attempts callUrl - 1)) = None
  | NonRetryable e => isRetryableError e = false /\ sendNotification (http (attempts callUrl - 1)) = Some e
  | RetriesExceeded _ => attempts callUrl = maxRetries /\ forall i, (i < maxRetries)%nat -> retryable_failure i
  end /\
  ((forall i, ctxDone i = false) -> waits callUrl = take (attempts callUrl - 1) [10; 20; 40; 80]).
Proof.
  pose proof (callUrl_loop_spec maxRetries 0 retryDelay None) as (Hn & Hf & Hr).
  fold callUrl in *. cbn [Nat.add] in *. split_and!.
  - destruct (result callUrl); try lia. unfold maxRetries in *. lia.
  - done.
  - done.
  - by destruct (result callUrl) as [|e|e]; destruct Hr.
  - intros Hd. clear Hn Hf Hr. unfold callUrl, maxRetries. cbn [callUrl_loop].
    repeat match goal with
    | |- context [match sendNotification ?h with _ => _ end] => destruct (sendNotification h)
    | |- context [if isRetryableError ?e then _ else _] => destruct (isRetryableError e)
    | _ => progress (rewrite ?Hd; simpl)
    end; done.
Qed.

(** The wait between attempts does not stop the loop when the context is
    done: with every context check positive and every attempt failing in a
    retryable way (as requests on a cancelled context do), all [maxRetries]
    attempts are made, back to back. *)
Theorem callUrl_ignores_cancellation :
  (forall i, ctxDone i = true) -> (forall i, (i < maxRetries)%nat -> retryable_failure i) ->
  attempts callUrl = maxRetries /\ waits callUrl = [].
Proof.
  intros Hd Hf. unfold callUrl. change maxRetries with 5%nat in *.
  cbn [callUrl_loop]. rewrite !Hd.
  assert (forall i, (i < 5)%nat -> exists e, sendNotification (http i) = Some e /\
                                            isRetryableError e = true) as Hf' by exact Hf.
  destruct (Hf' 0%nat) as (e0 & -> & ->); [lia|]. destruct (Hf' 1%nat) as (e1 & -> & ->); [lia|].
  destruct (Hf' 2%nat) as (e2 & -> & ->); [lia|]. destruct (Hf' 3%nat) as (e3 & -> & ->); [lia|].
  destruct (Hf' 4%nat) as (e4 & -> & ->); [lia|]. done.
Qed.
End callUrl.

Example callUrl_ignores_cancellation_witness :
  attempts (callUrl (fun _ => Failed SendFailed) (fun _ => true)) = maxRetries /\
  waits (callUrl (fun _ => Failed SendFailed) (fun _ => true)) = [].
Proof.
  apply (callUrl_ignores_cancellation (fun _ => Failed SendFailed) (fun _ => true)); [reflexivity|].
  intros i _. exists SendFailed. split; reflexivity.
Defined.
