(* ===== verification/NotifierWorker.v ===== *)
(** * service/common/notifier/notifier_worker.go: one subscription worker

    A worker is a goroutine with a queue, fed by the notifier; sending one
    notification is another goroutine ([processEvent]).  The state has the queue,
    the two channels of capacity one, the running [processEvent]s, and where the
    worker's goroutine stands.  [worker_step] interleaves the three; its labels
    say what was enqueued, what started to be sent, and what was reported to the
    notifier.  The worker reports a completion first and takes the notification
    out of its queue later, under its mutex: between the two the notifier can
    already handle the completion. *)
From S2P Require Import Prelude GoStrings NotifierEvent.
#[local] Open Scope Z_scope.

Record SubscriptionJobComplete := mkJob {
  job_subscriptionID : positive;
  job_notificationID : positive;
  job_sequenceID : Z;
}.

#[export] Instance SubscriptionJobComplete_eq_dec : EqDecision SubscriptionJobComplete.
Proof. solve_decision. Defined.

(** Where [Run] stands: in its select, in [handleCurrentEventCompletion] blocked
    on the notifier's channel, there past the send but before the lock, returned,
    or dead of an index out of range. *)
Inductive Position : Type :=
| Selecting
| Forwarding (e : SubscriptionJobComplete)
| Dequeuing (e : SubscriptionJobComplete)
| Stopped
| Panicked.

Record SubscriptionWorker := mkWorker {
  subscription : SubscriptionInfo;
  workQueue : list Notification;
  workChannel : bool;                                 (* a token is in the channel *)
  currentEventDone : option SubscriptionJobComplete;  (* what the channel holds *)
  running : list Notification;                        (* the processEvent goroutines *)
  position : Position;
  cancelled : bool;
  sender_blocked : bool;                              (* NewNotification is stuck on the send *)
}.

(** [NewSubscriptionWorker]; [None] when the client cannot be created. *)
Definition NewSubscriptionWorker (client_ok : bool) (s : SubscriptionInfo) : option SubscriptionWorker :=
  if client_ok then Some (mkWorker s [] false None [] Selecting false false) else None.

Definition NewNotification (n : Notification) (w : SubscriptionWorker) : SubscriptionWorker :=
  let queue := workQueue w ++ [n] in
  let kick := (length queue =? 1)%nat in
  mkWorker (subscription w) queue (workChannel w || kick) (currentEventDone w) (running w)
    (position w) (cancelled w) (sender_blocked w || (kick && workChannel w)).

Definition GetNotifications (w : SubscriptionWorker) : list Notification := workQueue w.

Definition UpdateSubscription (latest : SubscriptionInfo) (w : SubscriptionWorker) : SubscriptionWorker :=
  let s := subscription w in
  mkWorker (mkSubscription (SubscriptionID s) (ConsumerSubscriptionID latest) (Callback latest)
              (subscription_Filter latest) (EventCursor s))
    (workQueue w) (workChannel w) (currentEventDone w) (running w) (position w) (cancelled w)
    (sender_blocked w).

Definition Shutdown (w : SubscriptionWorker) : SubscriptionWorker :=
  mkWorker (subscription w) (workQueue w) (workChannel w) (currentEventDone w) (running w)
    (position w) true (sender_blocked w).

(** The notifier sets the cursor of the worker's subscription. *)
Definition SetEventCursor (cursor : Z) (w : SubscriptionWorker) : SubscriptionWorker :=
  let s := subscription w in
  mkWorker (mkSubscription (SubscriptionID s) (ConsumerSubscriptionID s) (Callback s)
              (subscription_Filter s) cursor)
    (workQueue w) (workChannel w) (currentEventDone w) (running w) (position w) (cancelled w)
    (sender_blocked w).

(** ** The worker's goroutine *)

Definition with_position (p : Position) (w : SubscriptionWorker) : SubscriptionWorker :=
  mkWorker (subscription w) (workQueue w) (workChannel w) (currentEventDone w) (running w) p
    (cancelled w) (sender_blocked w).

(** [processNextEvent(w.ctx, w.workQueue[0])], from the select. *)
Definition processNextEvent (w : SubscriptionWorker) : SubscriptionWorker :=
  match workQueue w with
  | [] => with_position Panicked w
  | n :: _ =>
      mkWorker (subscription w) (workQueue w) (workChannel w) (currentEventDone w)
        (running w ++ [n]) Selecting (cancelled w) (sender_blocked w)
  end.

(** [case <-w.workChannel]. *)
Definition take_work (w : SubscriptionWorker) : SubscriptionWorker :=
  processNextEvent (mkWorker (subscription w) (workQueue w) false (currentEventDone w) (running w)
                      (position w) (cancelled w) (sender_blocked w)).

(** [case e := <-w.currentEventDone], up to the send to the notifier. *)
Definition take_done (e : SubscriptionJobComplete) (w : SubscriptionWorker) : SubscriptionWorker :=
  mkWorker (subscription w) (workQueue w) (workChannel w) None (running w) (Forwarding e)
    (cancelled w) (sender_blocked w).

(** [handleCurrentEventCompletion], the select: the completion was sent. *)
Definition send_done (e : SubscriptionJobComplete) (w : SubscriptionWorker) : SubscriptionWorker :=
  with_position (Dequeuing e) w.

(** [handleCurrentEventCompletion], the select: the worker was cancelled first.
    It goes back to the select of [Run]; the completion is lost. *)
Definition abandon_done (w : SubscriptionWorker) : SubscriptionWorker := with_position Selecting w.

(** [handleCurrentEventCompletion] from the lock on. *)
Definition dequeue (w : SubscriptionWorker) : SubscriptionWorker :=
  match workQueue w with
  | [] => with_position Panicked w
  | _ :: rest =>
      let w' := mkWorker (subscription w) rest (workChannel w) (currentEventDone w) (running w)
                  Selecting (cancelled w) (sender_blocked w) in
      match rest with [] => w' | _ => processNextEvent w' end
  end.

(** ** [processEvent] *)

(** What it reports for a notification. *)
Definition completion (s : SubscriptionInfo) (n : Notification) : SubscriptionJobComplete :=
  mkJob (SubscriptionID s) (NotificationID n) (SequenceID n).

(** The goroutine for [n] has sent its completion. *)
Definition finish (rest : list Notification) (n : Notification) (w : SubscriptionWorker)
    : SubscriptionWorker :=
  mkWorker (subscription w) (workQueue w) (workChannel w) (Some (completion (subscription w) n)) rest (position w)
    (cancelled w) (sender_blocked w).

(** ** Interleaving *)

Inductive label : Type :=
| LEnqueue (n : Notification)
| LStart (n : Notification)
| LReport (e : SubscriptionJobComplete)
| LDequeue (next : option Notification)               (* and what starts with it *)
| LTau
| LEnv.                                              (* the notifier changes the worker *)

Inductive worker_step : SubscriptionWorker -> label -> SubscriptionWorker -> Prop :=
| step_enqueue w n :
    sender_blocked w = false -> worker_step w (LEnqueue n) (NewNotification n w)
| step_work w n rest :
    position w = Selecting -> workChannel w = true -> workQueue w = n :: rest ->
    worker_step w (LStart n) (take_work w)
| step_work_panic w :
    position w = Selecting -> workChannel w = true -> workQueue w = [] ->
    worker_step w LTau (take_work w)
| step_finish w before n after :
    running w = before ++ n :: after -> currentEventDone w = None ->
    worker_step w LTau (finish (before ++ after) n w)
| step_done w e :
    position w = Selecting -> currentEventDone w = Some e -> worker_step w LTau (take_done e w)
| step_report w e :
    position w = Forwarding e -> worker_step w (LReport e) (send_done e w)
| step_abandon w e :
    position w = Forwarding e -> cancelled w = true -> worker_step w LTau (abandon_done w)
| step_dequeue w e :
    position w = Dequeuing e -> worker_step w (LDequeue (workQueue w !! 1%nat)) (dequeue w)
| step_update w latest : worker_step w LEnv (UpdateSubscription latest w)
| step_cursor w c : worker_step w LEnv (SetEventCursor c w)
| step_cancel w : worker_step w LEnv (Shutdown w)
| step_stop w :
    cancelled w = true -> position w = Selecting -> worker_step w LTau (with_position Stopped w).

Abbreviation worker_exec := (exec worker_step).

Definition enqueued (tr : list label) : list Notification :=
  omap (fun l => match l with LEnqueue n => Some n | _ => None end) tr.
Definition started (tr : list label) : list Notification :=
  omap (fun l => match l with LStart n => Some n | LDequeue next => next | _ => None end) tr.
Definition reported (tr : list label) : list SubscriptionJobComplete :=
  omap (fun l => match l with LReport e => Some e | _ => None end) tr.

(** ** One token per non-empty queue *)

Definition resting (p : Position) : Prop := p = Selecting \/ p = Stopped.

(** A worker with an empty queue has nothing in progress.  One with a non-empty
    queue has exactly one token, for the head of its queue: in the work channel,
    as a running [processEvent], as a completion in its channel, or in the hands
    of the worker, before or after it reported it (unless the worker was cancelled
    with the completion in its hands). *)
Inductive worker_ok : SubscriptionWorker -> Prop :=
| ok_idle s p c : resting p -> worker_ok (mkWorker s [] false None [] p c false)
| ok_kicked s n q p c : resting p -> worker_ok (mkWorker s (n :: q) true None [] p c false)
| ok_sending s n q p c : resting p -> worker_ok (mkWorker s (n :: q) false None [n] p c false)
| ok_done s n q p c e :
    resting p -> e = completion s n -> worker_ok (mkWorker s (n :: q) false (Some e) [] p c false)
| ok_forwarding s n q c e :
    e = completion s n -> worker_ok (mkWorker s (n :: q) false None [] (Forwarding e) c false)
| ok_dequeuing s n q c e :
    e = completion s n -> worker_ok (mkWorker s (n :: q) false None [] (Dequeuing e) c false)
| ok_abandoned s n q p : resting p -> worker_ok (mkWorker s (n :: q) false None [] p true false).

#[export] Hint Constructors worker_ok : o2ims.

(** The notification of the queue that was started: its head, unless the token is
    still in the work channel. *)
Definition head_started (w : SubscriptionWorker) : list Notification :=
  if workChannel w then [] else take 1 (workQueue w).

(** The notification of the queue that was reported: its head, while the worker is
    between the send and the lock; and those that were not. *)
Definition leaving (w : SubscriptionWorker) : list Notification :=
  match position w with Dequeuing _ => take 1 (workQueue w) | _ => [] end.
Definition pending (w : SubscriptionWorker) : list Notification :=
  match position w with Dequeuing _ => drop 1 (workQueue w) | _ => workQueue w end.

Lemma leaving_pending w : leaving w ++ pending w = workQueue w.
Proof. unfold leaving, pending. destruct (position w); [done..| |done|done]. apply take_drop. Qed.

Lemma pending_queued w m : m ∈ pending w -> m ∈ workQueue w.
Proof. rewrite <- (leaving_pending w), elem_of_app. by right. Qed.

Lemma NewSubscriptionWorker_ok client_ok s w : NewSubscriptionWorker client_ok s = Some w -> worker_ok w.
Proof. unfold NewSubscriptionWorker. destruct client_ok; [|done]. intros [= <-]. constructor. by left. Qed.

(** Find the constructor of [worker_ok] a computed worker is in. *)
Ltac solve_ok :=
  simpl; solve [apply ok_idle; unfold resting in *; auto | apply ok_kicked; unfold resting in *; auto
               | apply ok_sending; unfold resting in *; auto | apply ok_done; unfold resting in *; auto
               | apply ok_forwarding; auto | apply ok_dequeuing; auto
               | apply ok_abandoned; unfold resting in *; auto].

Ltac impossible :=
  try match goal with
  | H : resting (Forwarding _) |- _ => by destruct H
  | H : resting (Dequeuing _) |- _ => by destruct H
  | H : [] = ?before ++ _ :: _ |- _ => by destruct before
  end.

Lemma kick_once (n m : Notification) q : (length ((n :: q) ++ [m]) =? 1)%nat = false.
Proof. apply Nat.eqb_neq. rewrite length_app. simpl. lia. Qed.

Lemma NewNotification_ok n w : worker_ok w -> worker_ok (NewNotification n w).
Proof. destruct 1; unfold NewNotification; cbn [workQueue]; rewrite ?kick_once; solve_ok. Qed.

Lemma UpdateSubscription_ok latest w : worker_ok w -> worker_ok (UpdateSubscription latest w).
Proof. destruct 1; subst; unfold UpdateSubscription; solve_ok. Qed.

Lemma SetEventCursor_ok c w : worker_ok w -> worker_ok (SetEventCursor c w).
Proof. destruct 1; subst; unfold SetEventCursor; solve_ok. Qed.

Lemma Shutdown_ok w : worker_ok w -> worker_ok (Shutdown w).
Proof. destruct 1; unfold Shutdown; solve_ok. Qed.

Lemma worker_step_ok w l w' : worker_ok w -> worker_step w l w' -> worker_ok w'.
Proof.
  intros Hok Hstep; destruct Hstep; auto using NewNotification_ok, UpdateSubscription_ok,
    SetEventCursor_ok, Shutdown_ok.
  all: inversion Hok; subst; simpl in *; simplify_eq; impossible.
  all: unfold take_work, take_done, send_done, abandon_done, dequeue, processNextEvent, with_position.
  all: try solve_ok.
  - destruct before as [|? []]; simplify_eq/=. unfold finish; solve_ok.
  - simpl. destruct q; solve_ok.
Qed.

(** A new notification is behind the head of the queue. *)
Lemma NewNotification_head n w :
  worker_ok w ->
  leaving (NewNotification n w) = leaving w /\ head_started (NewNotification n w) = head_started w.
Proof.
  unfold leaving, head_started.
  destruct 1 as [s p c [-> | ->]|s m q p c [-> | ->]|s m q p c [-> | ->]|s m q p c e [-> | ->]
    | | |s m q p [-> | ->]]; unfold NewNotification; cbn [workQueue workChannel position];
    by rewrite ?kick_once.
Qed.

(** What a step does to the queue: [popped] notifications leave it, and what it
    reports is of the head of the queue. *)
Lemma worker_step_queue w l w' :
  worker_ok w -> worker_step w l w' ->
  SubscriptionID (subscription w') = SubscriptionID (subscription w) /\
  exists popped,
    popped ++ workQueue w' = workQueue w ++ enqueued [l] /\
    map (completion (subscription w)) (leaving w) ++ reported [l] =
      map (completion (subscription w)) (popped ++ leaving w') /\
    head_started w ++ started [l] = popped ++ head_started w'.
Proof.
  unfold head_started. intros Hok Hstep; destruct Hstep; simpl; rewrite ?app_nil_r.
  1: split; [done|]; exists []; destruct (NewNotification_head n w Hok) as [-> E];
     unfold head_started in E; simpl in E; by rewrite E.
  all: inversion Hok; subst; simpl in *; simplify_eq; impossible.
  all: try (split; [done|exists []; done]).
  all: split; [unfold dequeue, processNextEvent; simpl; by destruct q|].
  all: exists [n]; unfold dequeue, processNextEvent; simpl; destruct q; by split_and!.
Qed.

Lemma worker_exec_history w0 tr w :
  workQueue w0 = [] -> worker_ok w0 -> worker_exec w0 tr w ->
  worker_ok w /\ SubscriptionID (subscription w) = SubscriptionID (subscription w0) /\
  exists finished,
    enqueued tr = finished ++ workQueue w /\
    reported tr = map (completion (subscription w0)) (finished ++ leaving w) /\
    started tr = finished ++ head_started w.
Proof.
  intros Hq H0 Hex. induction Hex as [|tr l w w' _ (Hok & Hid & f & He & Hr & Hs) Hstep].
  - split_and!; [done|done|]. exists []. unfold head_started, leaving. rewrite Hq.
    split_and!; [done|by destruct (position w0)|by destruct (workChannel w0)].
  - destruct (worker_step_queue w l w' Hok Hstep) as (Hid' & popped & Hpq & Hpr & Hps).
    split_and!; [by eapply worker_step_ok|congruence|]. exists (f ++ popped).
    assert (completion (subscription w) = completion (subscription w0)) as Hc
      by (unfold completion; by rewrite Hid).
    unfold enqueued, reported, started in *. rewrite !omap_app, He, Hr, Hs.
    rewrite <- !app_assoc, !(map_app _ f), <- Hc, <- Hpr, <- !app_assoc. by rewrite Hpq, Hps.
Qed.

Lemma worker_ok_alive w : worker_ok w -> position w <> Panicked /\ sender_blocked w = false.
Proof.
  destruct 1 as [s p c [-> | ->]|s n q p c [-> | ->]|s n q p c [-> | ->]|s n q p c e [-> | ->]
    | | |s n q p [-> | ->]]; done.
Qed.

(** C27: the worker never panics on its queue and its notifier never blocks on the
    work channel, whatever the interleaving of notifications, deliveries, updates
    and shutdown; completions are reported in the order of the notifications,
    each once and none skipped (those of the notifications that left the queue,
    and of the head of the queue while the worker has reported it but not yet
    taken it out); and each is started in that order, the next one only after the
    completion of the one before was handed to the notifier. *)
Theorem worker_delivers_in_order client_ok s w0 tr w :
  NewSubscriptionWorker client_ok s = Some w0 -> worker_exec w0 tr w ->
  position w <> Panicked /\ sender_blocked w = false /\
  exists finished,
    enqueued tr = finished ++ workQueue w /\
    reported tr = map (completion s) (finished ++ leaving w) /\
    started tr = finished ++ head_started w.
Proof.
  intros Hnew Hex. assert (workQueue w0 = [] /\ subscription w0 = s) as [Hq Hs].
  { unfold NewSubscriptionWorker in Hnew. destruct client_ok; by simplify_eq. }
  destruct (worker_exec_history w0 tr w Hq (NewSubscriptionWorker_ok _ _ _ Hnew) Hex)
    as (Hok & _ & Hh).
  rewrite Hs in Hh. destruct (worker_ok_alive w Hok). done.
Qed.

(** A worker that is not cancelled and has notifications queued can always take
    a step of its own towards the head of the queue (given that an HTTP attempt
    ends and the notifier reads its channel), and a running [processEvent] always
    finds room in the completion channel, even after the worker stopped. *)
Theorem worker_progress client_ok s w0 tr w :
  NewSubscriptionWorker client_ok s = Some w0 -> worker_exec w0 tr w ->
  (workQueue w <> [] -> cancelled w = false -> position w <> Stopped ->
     (exists n w', worker_step w (LStart n) w') \/
     (exists w', worker_step w LTau w' /\ (length (running w') < length (running w))%nat) \/
     (exists e w', worker_step w LTau w' /\ position w' = Forwarding e) \/
     (exists e w', worker_step w (LReport e) w') \/
     (exists next w', worker_step w (LDequeue next) w')) /\
  (running w <> [] -> currentEventDone w = None).
Proof.
  intros Hnew Hex. assert (workQueue w0 = []) as Hq.
  { unfold NewSubscriptionWorker in Hnew. destruct client_ok; by simplify_eq. }
  destruct (worker_exec_history w0 tr w Hq (NewSubscriptionWorker_ok _ _ _ Hnew) Hex) as (Hok & _).
  split; [|by destruct Hok]. intros Hne Hc Hns. destruct Hok; simpl in *; try done.
  - left. destruct H as [-> | ->]; [|done]. exists n. eexists. by eapply step_work.
  - right; left. eexists. split; [by eapply (step_finish _ [] n [])|]. simpl. lia.
  - right; right; left. destruct H as [-> | ->]; [|done]. exists e. eexists. split; [by eapply step_done|done].
  - right; right; right; left. exists e. eexists. by eapply step_report.
  - right; right; right; right. eexists _, _. by eapply step_dequeue.
Qed.

(** Two notifications; the first one is delivered and reported, and is still to be
    taken out of the queue. *)
Definition example_subscription : SubscriptionInfo := mkSubscription 7 None (lit "http://c") None 0.
Definition example_n1 : Notification := mkNotification 1 1 (POther []).
Definition example_n2 : Notification := mkNotification 2 2 (POther []).
Definition example_worker : SubscriptionWorker :=
  mkWorker example_subscription [] false None [] Selecting false false.

Definition example_done : SubscriptionJobComplete := completion example_subscription example_n1.

Definition example_trace : list label :=
  [LEnqueue example_n1; LEnqueue example_n2; LStart example_n1; LTau; LTau; LReport example_done].

Definition example_end : SubscriptionWorker :=
  mkWorker example_subscription [example_n1; example_n2] false None [] (Dequeuing example_done)
    false false.

Lemma example_exec : worker_exec example_worker example_trace example_end.
Proof.
  change example_trace with ((((((([] ++ [LEnqueue example_n1]) ++ [LEnqueue example_n2])
    ++ [LStart example_n1]) ++ [LTau]) ++ [LTau]) ++ [LReport example_done])).
  eapply exec_snoc; [eapply exec_snoc; [eapply exec_snoc; [eapply exec_snoc; [eapply exec_snoc;
    [eapply exec_snoc; [apply exec_nil|]|]|]|]|]|].
  - by apply step_enqueue.
  - by apply step_enqueue.
  - by eapply (step_work _ example_n1 [example_n2]).
  - by apply (step_finish _ [] example_n1 []).
  - by eapply step_done.
  - by apply (step_report (take_done example_done
      (finish [] example_n1 (take_work (NewNotification example_n2 (NewNotification example_n1 example_worker)))))
      example_done).
Qed.

(** And then it is taken out, and the second one is started. *)
Example example_dequeued :
  worker_step example_end (LDequeue (Some example_n2))
    (mkWorker example_subscription [example_n2] false None [example_n2] Selecting false false).
Proof. by apply (step_dequeue example_end example_done). Qed.

Example worker_delivers_in_order_witness :
  position example_end <> Panicked /\ sender_blocked example_end = false /\
  exists finished,
    enqueued example_trace = finished ++ workQueue example_end /\
    reported example_trace =
      map (completion example_subscription) (finished ++ leaving example_end) /\
    started example_trace = finished ++ head_started example_end.
Proof.
  apply (worker_delivers_in_order true example_subscription example_worker);
    [reflexivity|exact example_exec].
Defined.

Example worker_progress_witness :
  (workQueue example_end <> [] -> cancelled example_end = false -> position example_end <> Stopped ->
     (exists n w', worker_step example_end (LStart n) w') \/
     (exists w', worker_step example_end LTau w' /\ (length (running w') < length (running example_end))%nat) \/
     (exists e w', worker_step example_end LTau w' /\ position w' = Forwarding e) \/
     (exists e w', worker_step example_end (LReport e) w') \/
     (exists next w', worker_step example_end (LDequeue next) w')) /\
  (running example_end <> [] -> currentEventDone example_end = None).
Proof.
  apply (worker_progress true example_subscription example_worker example_trace);
    [reflexivity|exact example_exec].
Defined.
