(* ===== verification/Notifier.v ===== *)
(** * service/common/notifier/notifier.go: the notifier

    The notifier owns the workers; each of its handlers is a function of its
    state and of what the providers answer.  NotifierSystem interleaves the handlers
    with the goroutines of the workers, including those of workers that were
    removed or replaced and have not ended. *)
From S2P Require Import Prelude GoStrings NotifierEvent NotifierWorker.
From stdpp Require Import sorting.
#[local] Open Scope Z_scope.

(** ** NotificationProvider and SubscriptionProvider *)

(** The pure operations of [SubscriptionProvider]; [None] is an error. *)
Class SubscriptionProvider := {
  Matches : SubscriptionInfo -> Notification -> bool;
  Transform : SubscriptionInfo -> Notification -> option Notification;
}.

(** What the notifier relies on: a transformed notification is the same one. *)
Class TransformLaws `{SubscriptionProvider} :=
  Transform_same : forall s n n', Transform s n = Some n' ->
    NotificationID n' = NotificationID n /\ SequenceID n' = SequenceID n.

(** [GetSubscription]: the record, [ErrNotFound], or another error. *)
Inductive lookupResult : Type := FoundSubscription (s : SubscriptionInfo) | NotFound | ReadError.

Record SubscriptionEvent := mkEvent {
  Removed : bool;
  Updated : bool;
  event_Subscription : SubscriptionInfo;
}.

Record Notifier := mkNotifier {
  workers : gmap positive SubscriptionWorker;
  pendingUpdates : gset positive;
  jobChannel : list SubscriptionJobComplete;     (* subscriptionJobCompleteChannel *)
  retired : list SubscriptionWorker;             (* workers no longer in the map *)
  retries : list positive;                       (* updates scheduled again *)
  notifications : gset positive;                 (* the notifications of the database *)
}.

Definition with_workers (ws : gmap positive SubscriptionWorker) (n : Notifier) : Notifier :=
  mkNotifier ws (pendingUpdates n) (jobChannel n) (retired n) (retries n) (notifications n).
Definition with_pending (p : gset positive) (n : Notifier) : Notifier :=
  mkNotifier (workers n) p (jobChannel n) (retired n) (retries n) (notifications n).
Definition with_jobs (js : list SubscriptionJobComplete) (n : Notifier) : Notifier :=
  mkNotifier (workers n) (pendingUpdates n) js (retired n) (retries n) (notifications n).
Definition with_retired (r : list SubscriptionWorker) (n : Notifier) : Notifier :=
  mkNotifier (workers n) (pendingUpdates n) (jobChannel n) r (retries n) (notifications n).
Definition with_retries (r : list positive) (n : Notifier) : Notifier :=
  mkNotifier (workers n) (pendingUpdates n) (jobChannel n) (retired n) r (notifications n).
Definition with_notifications (d : gset positive) (n : Notifier) : Notifier :=
  mkNotifier (workers n) (pendingUpdates n) (jobChannel n) (retired n) (retries n) d.

Definition CompletionChannelSize : nat := 1.

(** The errors of the handlers, logged by [Run]. *)
Inductive notifierError : Type :=
| DeleteFailed | UpdateFailed | CreateWorkerFailed.

Abbreviation handled := (Notifier * option notifierError)%type.

Section notifier.
Context `{SubscriptionProvider}.

(** [DeleteNotification]: whether it succeeds is up to the database. *)
Definition DeleteNotification (delete_ok : bool) (id : positive) (n : Notifier) : handled :=
  if delete_ok then (with_notifications (notifications n ∖ {[ id ]}) n, None)
  else (n, Some DeleteFailed).

(** ** handleNotification *)

(** The notification a worker gets, if it matches and can be transformed. *)
Definition dispatched (event : Notification) (w : SubscriptionWorker) : option Notification :=
  if Matches (subscription w) event then Transform (subscription w) event else None.

Definition dispatch (event : Notification) (w : SubscriptionWorker) : SubscriptionWorker :=
  match dispatched event w with Some clone => NewNotification clone w | None => w end.

(** [count == 0] after the loop. *)
Definition no_subscriber (event : Notification) (n : Notifier) : bool :=
  bool_decide (map_Forall (fun _ w => dispatched event w = None) (workers n)).

Definition handleNotification (delete_ok : bool) (event : Notification) (n : Notifier) : handled :=
  let n' := with_workers (dispatch event <$> workers n) n in
  if no_subscriber event n then DeleteNotification delete_ok (NotificationID event) n' else (n', None).

(** ** Release of notifications *)

Definition all_past (sequenceID : Z) (n : Notifier) : bool :=
  bool_decide (map_Forall (fun _ w => sequenceID <= EventCursor (subscription w)) (workers n)).

Definition releaseNotification (delete_ok : bool) (notificationID : positive) (sequenceID : Z)
    (n : Notifier) : handled :=
  if all_past sequenceID n then DeleteNotification delete_ok notificationID n else (n, None).

(** Errors are logged and the loop goes on. *)
Definition releaseNotifications (delete_ok : positive -> bool) (events : list Notification)
    (n : Notifier) : Notifier :=
  fold_left (fun n event =>
    (releaseNotification (delete_ok (NotificationID event)) (NotificationID event) (SequenceID event) n).1)
    events n.

(** ** Subscription events *)

(** [worker.Shutdown()], [delete(n.workers, id)], release of its queue; the
    goroutines of the worker are still there. *)
Definition removeWorker (delete_ok : positive -> bool) (id : positive) (worker : SubscriptionWorker)
    (n : Notifier) : Notifier :=
  releaseNotifications delete_ok (GetNotifications (Shutdown worker))
    (with_retired (Shutdown worker :: retired n) (with_workers (delete id (workers n)) n)).

Definition refreshSubscriptionWorker (latest : lookupResult) (delete_ok : positive -> bool)
    (id : positive) (n : Notifier) : Notifier :=
  match workers n !! id with
  | None => n
  | Some worker =>
      match latest with
      | NotFound => removeWorker delete_ok id worker n
      | ReadError => with_retries (retries n ++ [id]) n
      | FoundSubscription s => with_workers (<[id := UpdateSubscription s worker]> (workers n)) n
      end
  end.

(** A worker of the same id is replaced, without being shut down. *)
Definition installWorker (id : positive) (worker : SubscriptionWorker) (n : Notifier) : Notifier :=
  with_retired (option_list (workers n !! id) ++ retired n)
    (with_workers (<[id := worker]> (workers n)) n).

Definition handleSubscriptionEvent (client_ok : bool) (latest : lookupResult)
    (delete_ok : positive -> bool) (event : SubscriptionEvent) (n : Notifier) : handled :=
  let id := SubscriptionID (event_Subscription event) in
  if Updated event then
    match workers n !! id with
    | None => (with_pending ({[ id ]} ∪ pendingUpdates n) n, None)
    | Some _ => (refreshSubscriptionWorker latest delete_ok id n, None)
    end
  else if Removed event then
    let n := with_pending (pendingUpdates n ∖ {[ id ]}) n in
    match workers n !! id with
    | None => (n, None)
    | Some worker => (removeWorker delete_ok id worker n, None)
    end
  else
    match NewSubscriptionWorker client_ok (event_Subscription event) with
    | None => (n, Some CreateWorkerFailed)
    | Some worker =>
        let n := installWorker id worker n in
        if bool_decide (id ∈ pendingUpdates n) then
          (refreshSubscriptionWorker latest delete_ok id
             (with_pending (pendingUpdates n ∖ {[ id ]}) n), None)
        else (n, None)
    end.

(** ** Completions *)

Definition handleSubscriptionJobCompleteEvent (update_ok delete_ok : bool)
    (event : SubscriptionJobComplete) (n : Notifier) : handled :=
  match workers n !! job_subscriptionID event with
  | Some worker =>
      let n' := with_workers (<[job_subscriptionID event := SetEventCursor (job_sequenceID event) worker]>
                                (workers n)) n in
      if (update_ok : bool)
      then releaseNotification delete_ok (job_notificationID event) (job_sequenceID event) n'
      else (n', Some UpdateFailed)
  | None => releaseNotification delete_ok (job_notificationID event) (job_sequenceID event) n
  end.

(** ** Start-up *)

(** [loadEvents]: the notifications of the database in the order of their
    sequence numbers; the first error stops it. *)
Definition sequence_order : relation Notification := fun a b => SequenceID a <= SequenceID b.
#[export] Instance sequence_order_dec : RelDecision sequence_order.
Proof. intros a b. unfold sequence_order. apply _. Defined.

Fixpoint handle_all (delete_ok : positive -> bool) (events : list Notification) (n : Notifier) : handled :=
  match events with
  | [] => (n, None)
  | event :: rest =>
      match handleNotification (delete_ok (NotificationID event)) event n with
      | (n', None) => handle_all delete_ok rest n'
      | (n', Some e) => (n', Some e)
      end
  end.

Definition loadEvents (delete_ok : positive -> bool) (events : list Notification) (n : Notifier) : handled :=
  handle_all delete_ok (merge_sort sequence_order events) n.

(** [loadSubscriptions]: the first client that cannot be created stops it. *)
Fixpoint loadSubscriptions (client_ok : positive -> bool) (subscriptions : list SubscriptionInfo)
    (n : Notifier) : handled :=
  match subscriptions with
  | [] => (n, None)
  | s :: rest =>
      match NewSubscriptionWorker (client_ok (SubscriptionID s)) s with
      | None => (n, Some CreateWorkerFailed)
      | Some worker =>
          loadSubscriptions client_ok rest (installWorker (SubscriptionID s) worker n)
      end
  end.
End notifier.

(** ** What the handlers do *)

Section facts.
Context `{SubscriptionProvider}.

Definition created_event (s : SubscriptionInfo) : SubscriptionEvent := mkEvent false false s.
Definition updated_event (s : SubscriptionInfo) : SubscriptionEvent := mkEvent false true s.

(** A PATCH whose event overtakes the creation of its subscription is not
    lost: handling the update before the creation, or after it, gives the same
    workers, with the callback, filter and consumer identifier read from the
    database and the cursor the subscription was created with, and no update is
    left pending. *)
Theorem update_creation_commute d d' (s s' u : SubscriptionInfo) (n : Notifier) :
  SubscriptionID u = SubscriptionID s ->
  workers n !! SubscriptionID s = None -> SubscriptionID s ∉ pendingUpdates n ->
  let latest := FoundSubscription s' in
  let early := (handleSubscriptionEvent true latest d (created_event s)
                  (handleSubscriptionEvent true latest d' (updated_event u) n).1).1 in
  let late := (handleSubscriptionEvent true latest d (updated_event u)
                  (handleSubscriptionEvent true latest d' (created_event s) n).1).1 in
  early = late /\
  pendingUpdates early = pendingUpdates n /\
  exists w, workers early !! SubscriptionID s = Some w /\ workQueue w = [] /\
    subscription w = mkSubscription (SubscriptionID s) (ConsumerSubscriptionID s') (Callback s')
                       (subscription_Filter s') (EventCursor s).
Proof.
  intros Hu Hnone Hpend latest early late.
  set (w := mkWorker s [] false None [] Selecting false false).
  assert (late = mkNotifier (<[SubscriptionID s := UpdateSubscription s' w]> (workers n))
            (pendingUpdates n) (jobChannel n) (retired n) (retries n) (notifications n)) as El.
  { unfold late, handleSubscriptionEvent. simpl. rewrite Hu, bool_decide_eq_false_2 by done.
    unfold refreshSubscriptionWorker, installWorker. simpl. rewrite !lookup_insert_eq.
    unfold with_workers, with_retired. simpl. by rewrite insert_insert_eq, Hnone. }
  assert (early = late) as Ee.
  { rewrite El. unfold early, handleSubscriptionEvent. simpl. rewrite Hu, Hnone. simpl.
    rewrite bool_decide_eq_true_2 by set_solver.
    unfold refreshSubscriptionWorker, installWorker. simpl. rewrite lookup_insert_eq.
    unfold with_workers, with_retired, with_pending. simpl. rewrite insert_insert_eq, Hnone. simpl.
    by replace (({[SubscriptionID s]} ∪ pendingUpdates n) ∖ {[SubscriptionID s]})
      with (pendingUpdates n) by set_solver. }
  split; [done|]. rewrite Ee, El. split; [done|]. eexists. simpl. by rewrite lookup_insert_eq.
Qed.

(** [releaseNotification] deletes a notification when the cursor of every
    worker has reached its sequence number, matching or not: a subscription the
    notification was never dispatched to keeps it in the database as long as its
    cursor is lower. *)
Theorem unmatched_worker_keeps_notification u d d' event id1 w1 id2 w2 (n : Notifier) :
  workers n !! id1 = Some w1 -> workers n !! id2 = Some w2 -> id1 <> id2 ->
  is_Some (dispatched event w1) -> Matches (subscription w2) event = false ->
  EventCursor (subscription w2) < SequenceID event ->
  NotificationID event ∈ notifications n ->
  let n1 := (handleNotification d event n).1 in
  let n2 := (handleSubscriptionJobCompleteEvent u d'
               (mkJob id1 (NotificationID event) (SequenceID event)) n1).1 in
  workers n2 !! id2 = Some w2 /\ NotificationID event ∈ notifications n2.
Proof.
  intros H1 H2 Hne [clone Hd] Hm Hc Hin n1 n2.
  assert (dispatch event w2 = w2) as Hw2 by (unfold dispatch, dispatched; by rewrite Hm).
  assert (n1 = with_workers (dispatch event <$> workers n) n) as En1.
  { unfold n1, handleNotification, no_subscriber. rewrite bool_decide_eq_false_2; [done|].
    intros Hall. apply Hall in H1. congruence. }
  unfold n2, handleSubscriptionJobCompleteEvent. simpl.
  rewrite En1. simpl. rewrite lookup_fmap, H1. simpl.
  set (ws := <[id1 := _]> _). assert (ws !! id2 = Some w2) as Hws.
  { unfold ws. rewrite lookup_insert_ne by done. by rewrite lookup_fmap, H2; simpl; rewrite Hw2. }
  destruct u; [|done]. unfold releaseNotification, all_past. rewrite bool_decide_eq_false_2; [done|].
  simpl. intros Hall. apply Hall in Hws. lia.
Qed.

Lemma dispatch_subscription event w : subscription (dispatch event w) = subscription w.
Proof. unfold dispatch. by destruct (dispatched event w). Qed.

Lemma dispatch_queue event w :
  workQueue (dispatch event w) = workQueue w ++ option_list (dispatched event w).
Proof. unfold dispatch. destruct (dispatched event w); [done|]. simpl. by rewrite app_nil_r. Qed.

Lemma handle_all_queue d events n id w :
  (forall k, d k = true) -> workers n !! id = Some w ->
  exists n' w', handle_all d events n = (n', None) /\ workers n' !! id = Some w' /\
    subscription w' = subscription w /\
    workQueue w' = workQueue w ++ omap (fun e => dispatched e w) events.
Proof.
  intros Hd. revert n w; induction events as [|e events IH]; intros n w Hw; simpl.
  { exists n, w. rewrite app_nil_r. done. }
  assert (exists n1, handleNotification (d (NotificationID e)) e n = (n1, None) /\
            workers n1 = dispatch e <$> workers n) as (n1 & -> & Hn1).
  { unfold handleNotification, DeleteNotification. rewrite Hd.
    destruct (no_subscriber e n); by eexists. }
  destruct (IH n1 (dispatch e w)) as (n' & w' & E & Hw' & Hs & Hq).
  { by rewrite Hn1, lookup_fmap, Hw. }
  rewrite dispatch_subscription in Hs. rewrite dispatch_queue in Hq.
  exists n', w'. split_and!; [done|done|done|]. rewrite Hq, <- app_assoc. f_equal.
  replace (omap (fun e0 => dispatched e0 (dispatch e w)) events)
    with (omap (fun e0 => dispatched e0 w) events);
    [by destruct (dispatched e w)|].
  apply list_omap_ext, Forall_Forall2_diag, Forall_forall. intros x _.
  unfold dispatched. by rewrite dispatch_subscription.
Qed.

(** At start-up every worker gets the notifications of the database that
    match its subscription, each once, in the order of their sequence numbers,
    behind what it has. *)
Theorem loadEvents_in_sequence d events n id w :
  (forall k, d k = true) -> workers n !! id = Some w ->
  exists sorted n' w',
    sorted ≡ₚ events /\ Sorted sequence_order sorted /\
    loadEvents d events n = (n', None) /\ workers n' !! id = Some w' /\
    workQueue w' = workQueue w ++ omap (fun e => dispatched e w) sorted.
Proof.
  intros Hd Hw.
  destruct (handle_all_queue d (merge_sort sequence_order events) n id w Hd Hw)
    as (n' & w' & E & Hw' & _ & Hq).
  exists (merge_sort sequence_order events), n', w'. split_and!; [|..|done|done|done].
  - apply merge_sort_Permutation.
  - apply Sorted_merge_sort. intros a b. unfold sequence_order. lia.
Qed.
End facts.
