(* ===== verification/NotifierSystem.v ===== *)
(** * The notifier with its workers as one concurrent system

    The main loop of [Run] interleaved with the goroutines of the workers, and
    the invariant behind the safety of deleting notifications. *)
From S2P Require Import Prelude GoStrings NotifierEvent NotifierWorker Notifier.
From stdpp Require Import sorting.
#[local] Open Scope Z_scope.

(** The notifier, with what happened so far: the sequence number of each
    notification that arrived, the last of them, and the cursor each worker of
    the map was created with. *)
Record System := mkSystem {
  net : Notifier;
  arrived : gmap positive Z;
  lastSequence : Z;
  base : gmap positive Z;
}.

Definition initial : System := mkSystem (mkNotifier ∅ ∅ [] [] [] ∅) ∅ 0 ∅.

(** The steps of a worker that are its own goroutines'. *)
Definition internal (l : label) : Prop :=
  match l with LEnqueue _ | LEnv => False | _ => True end.

(** A completion is sent only when the channel has room. *)
Definition may_report (l : label) (n : Notifier) : Prop :=
  match l with LReport _ => (length (jobChannel n) < CompletionChannelSize)%nat | _ => True end.

Definition created (client_ok : bool) (ev : SubscriptionEvent) : bool :=
  negb (Updated ev) && negb (Removed ev) && client_ok.

Definition retry_event (id : positive) : SubscriptionEvent :=
  mkEvent false true (mkSubscription id None [] None 0).

Section system.
Context `{SubscriptionProvider}.

(** Notifications arrive with new identifiers and growing sequence numbers. *)
Inductive sys_step : relation System :=
| sys_notification s event d :
    arrived s !! NotificationID event = None -> lastSequence s < SequenceID event ->
    sys_step s
      (mkSystem
         (handleNotification d event
            (with_notifications ({[ NotificationID event ]} ∪ notifications (net s)) (net s))).1
         (<[NotificationID event := SequenceID event]> (arrived s)) (SequenceID event) (base s))
| sys_subscription s ev client_ok latest d :
    let id := SubscriptionID (event_Subscription ev) in
    sys_step s
      (mkSystem (handleSubscriptionEvent client_ok latest d ev (net s)).1 (arrived s) (lastSequence s)
         (if created client_ok ev then <[id := EventCursor (event_Subscription ev)]> (base s) else base s))
| sys_retry s before id after latest d :
    retries (net s) = before ++ id :: after ->
    sys_step s
      (mkSystem
         (handleSubscriptionEvent true latest d (retry_event id)
            (with_retries (before ++ after) (net s))).1
         (arrived s) (lastSequence s) (base s))
| sys_job s j js u d :
    jobChannel (net s) = j :: js ->
    sys_step s
      (mkSystem (handleSubscriptionJobCompleteEvent u d j (with_jobs js (net s))).1
         (arrived s) (lastSequence s) (base s))
| sys_worker s id w l w' :
    workers (net s) !! id = Some w -> worker_step w l w' -> internal l -> may_report l (net s) ->
    sys_step s
      (mkSystem
         (with_jobs (jobChannel (net s) ++ reported [l])
            (with_workers (<[id := w']> (workers (net s))) (net s)))
         (arrived s) (lastSequence s) (base s))
| sys_retired s before w after l w' :
    retired (net s) = before ++ w :: after -> worker_step w l w' -> internal l ->
    may_report l (net s) ->
    sys_step s
      (mkSystem
         (with_jobs (jobChannel (net s) ++ reported [l])
            (with_retired (before ++ w' :: after) (net s)))
         (arrived s) (lastSequence s) (base s)).
End system.

(** ** The invariant *)

Definition before_in_sequence : relation Notification := fun a b => SequenceID a < SequenceID b.

(** The queue of a worker holds notifications that arrived, in sequence. *)
Definition queue_ok (A : gmap positive Z) (w : SubscriptionWorker) : Prop :=
  (forall m, m ∈ workQueue w -> A !! NotificationID m = Some (SequenceID m)) /\
  StronglySorted before_in_sequence (workQueue w).

(** Above the cursor the worker was created with, what is queued and not yet
    reported is beyond the worker's cursor and still in the database. *)
Definition kept (L : Z) (d : gset positive) (b : Z) (w : SubscriptionWorker) : Prop :=
  (EventCursor (subscription w) <= b \/ EventCursor (subscription w) <= L) /\
  forall m, m ∈ pending w -> b < SequenceID m ->
    EventCursor (subscription w) < SequenceID m /\ NotificationID m ∈ d.

Record net_ok (A : gmap positive Z) (L : Z) (B : gmap positive Z) (n : Notifier) : Prop := {
  arrived_bound : forall id z, A !! id = Some z -> z <= L;
  workers_ok : forall id w, workers n !! id = Some w ->
    worker_ok w /\ SubscriptionID (subscription w) = id /\ queue_ok A w /\
    exists b, B !! id = Some b /\ kept L (notifications n) b w;
  retired_ok : forall w, w ∈ retired n -> worker_ok w /\ queue_ok A w;
  jobs_ok : forall j, j ∈ jobChannel n -> A !! job_notificationID j = Some (job_sequenceID j);
  jobs_order : forall j w m, j ∈ jobChannel n -> workers n !! job_subscriptionID j = Some w ->
    m ∈ pending w -> job_sequenceID j < SequenceID m;
  retired_order : forall r w m m', r ∈ retired n ->
    workers n !! SubscriptionID (subscription r) = Some w ->
    m ∈ workQueue r -> m' ∈ workQueue w -> SequenceID m < SequenceID m';
}.

Section invariant.
Context `{TransformLaws}.

(** *** Deletion *)

Lemma delete_ok_inv A L B n id z d :
  net_ok A L B n -> A !! id = Some z -> all_past z n = true ->
  net_ok A L B (DeleteNotification d id n).1.
Proof.
  intros [Ha Hw Hr Hj Hjo Hro] Hz Hp. unfold all_past in Hp. apply bool_decide_eq_true in Hp.
  unfold DeleteNotification. destruct d; [|by constructor].
  constructor; try done. simpl. intros k w Hk.
  destruct (Hw k w Hk) as (? & ? & [Hq ?] & b & Hb & Hc & Hkept).
  split_and!; [done..|]. exists b. split; [done|]. split; [done|].
  intros m Hm Hbm. destruct (Hkept m Hm Hbm) as [Hlt Hin]. split; [done|].
  apply elem_of_difference. split; [done|]. intros Heq%elem_of_singleton.
  specialize (Hq m (pending_queued w m Hm)). rewrite Heq in Hq. apply Hp in Hk. simpl in Hk. simplify_eq. lia.
Qed.

Lemma release_inv A L B n id z d :
  net_ok A L B n -> A !! id = Some z -> net_ok A L B (releaseNotification d id z n).1.
Proof.
  intros. unfold releaseNotification. destruct (all_past z n) eqn:?; [|done].
  by eapply delete_ok_inv.
Qed.

Lemma releases_inv A L B n d events :
  net_ok A L B n -> (forall m, m ∈ events -> A !! NotificationID m = Some (SequenceID m)) ->
  net_ok A L B (releaseNotifications d events n).
Proof.
  intros Hn He. unfold releaseNotifications. apply (fold_left_invariant (net_ok A L B)); [done|].
  intros n' m Hm Hn'. apply release_inv; auto.
Qed.

(** *** Notifications *)

Lemma dispatched_same event w clone :
  dispatched event w = Some clone ->
  NotificationID clone = NotificationID event /\ SequenceID clone = SequenceID event.
Proof. unfold dispatched. destruct (Matches _ _); [|done]. apply Transform_same. Qed.

Lemma queue_ok_mono A id z w :
  A !! id = None -> queue_ok A w -> queue_ok (<[id := z]> A) w.
Proof.
  intros Hid [Hq Hs]. split; [|done]. intros m Hm. apply Hq in Hm as E.
  rewrite lookup_insert_ne by congruence. done.
Qed.

Lemma NewNotification_queue m w : workQueue (NewNotification m w) = workQueue w ++ [m].
Proof. done. Qed.

Lemma queue_ok_snoc A L event m w :
  (forall id z, A !! id = Some z -> z <= L) ->
  A !! NotificationID event = None -> L < SequenceID event ->
  NotificationID m = NotificationID event -> SequenceID m = SequenceID event ->
  queue_ok A w -> queue_ok (<[NotificationID event := SequenceID event]> A) (NewNotification m w).
Proof.
  intros Ha Hnew Hlast Hid Hseq Hq.
  pose proof (queue_ok_mono A _ (SequenceID event) w Hnew Hq) as [Hq' Hs].
  split; rewrite NewNotification_queue.
  - intros m' [Hm'| ->%list_elem_of_singleton]%elem_of_app; [by apply Hq'|].
    by rewrite Hid, Hseq, lookup_insert_eq.
  - apply StronglySorted_app_2; [|done|by repeat constructor].
    intros m1 m2 Hm1 ->%list_elem_of_singleton. unfold before_in_sequence. rewrite Hseq.
    destruct Hq as [Hq _]. apply Hq, Ha in Hm1. lia.
Qed.

Lemma NewNotification_pending n m w :
  m ∈ pending (NewNotification n w) -> m ∈ pending w \/ m = n.
Proof.
  unfold pending. cbn [position workQueue NewNotification].
  destruct (position w); rewrite ?skipn_app, ?elem_of_app; intros [?|Hm]; auto; right;
    try by apply list_elem_of_singleton in Hm.
  apply list_elem_of_singleton. by apply (subseteq_drop (1 - length (workQueue w))).
Qed.

(** What a dispatch puts in the queue has the sequence number of the event. *)
Lemma dispatch_queue_elem event w m :
  m ∈ workQueue (dispatch event w) -> m ∈ workQueue w \/ SequenceID m = SequenceID event.
Proof.
  unfold dispatch. destruct (dispatched event w) as [clone|] eqn:E; [|by left].
  rewrite NewNotification_queue. intros [?| ->%list_elem_of_singleton]%elem_of_app; [by left|].
  right. by apply dispatched_same in E as [_ ->].
Qed.

Lemma dispatch_pending_elem event w m :
  m ∈ pending (dispatch event w) -> m ∈ pending w \/ SequenceID m = SequenceID event.
Proof.
  unfold dispatch. destruct (dispatched event w) as [clone|] eqn:E; [|by left].
  intros [?| ->]%NewNotification_pending; [by left|]. right. by apply dispatched_same in E as [_ ->].
Qed.

Lemma dispatch_worker_ok A L d b event w :
  (forall id z, A !! id = Some z -> z <= L) -> A !! NotificationID event = None ->
  L < SequenceID event -> worker_ok w -> queue_ok A w -> kept L d b w ->
  worker_ok (dispatch event w) /\
  queue_ok (<[NotificationID event := SequenceID event]> A) (dispatch event w) /\
  kept (SequenceID event) ({[ NotificationID event ]} ∪ d) b (dispatch event w).
Proof.
  intros Ha Hnew Hlast Hok Hq [Hc Hkept].
  assert (kept (SequenceID event) ({[ NotificationID event ]} ∪ d) b w) as Hkept'.
  { split; [destruct Hc; [by left|right; lia]|]. intros m Hm Hbm.
    destruct (Hkept m Hm Hbm). split; [done|set_solver]. }
  unfold dispatch. destruct (dispatched event w) as [clone|] eqn:E.
  - apply dispatched_same in E as [E1 E2].
    split_and!; [by apply NewNotification_ok|by eapply queue_ok_snoc|].
    split; [apply Hkept'|].
    intros m [Hm| ->]%NewNotification_pending Hbm; [by apply Hkept'|].
    rewrite E1, E2 in *. simpl. split; [destruct Hc; lia|set_solver].
  - split_and!; [done|by apply queue_ok_mono|done].
Qed.

Lemma dispatch_inv A L B n event :
  net_ok A L B n -> A !! NotificationID event = None -> L < SequenceID event ->
  let n1 := with_notifications ({[ NotificationID event ]} ∪ notifications n) n in
  net_ok (<[NotificationID event := SequenceID event]> A) (SequenceID event) B
    (with_workers (dispatch event <$> workers n1) n1).
Proof.
  intros [Ha Hw Hr Hj Hjo Hro] Hnew Hlast. constructor; simpl.
  - intros id z [[<- <-]|[_ E%Ha]]%lookup_insert_Some; lia.
  - intros id w' (w & <- & Hk)%lookup_fmap_Some.
    destruct (Hw id w Hk) as (Hok & Hid & Hq & b & Hb & Hkept).
    destruct (dispatch_worker_ok A L (notifications n) b event w) as (? & ? & ?); try done.
    split_and!; [done|by rewrite dispatch_subscription|done|]. by exists b.
  - intros w Hin. destruct (Hr w Hin). split; [done|by apply queue_ok_mono].
  - intros j Hin. rewrite lookup_insert_ne; [by apply Hj|]. apply Hj in Hin. congruence.
  - intros j w' m Hin (w & <- & Hk)%lookup_fmap_Some [Hm| ->]%dispatch_pending_elem; [by eapply Hjo|].
    apply Hj, Ha in Hin. lia.
  - intros r w' m m' Hin (w & <- & Hk)%lookup_fmap_Some Hm [Hm'| ->]%dispatch_queue_elem.
    + by eapply Hro.
    + destruct (Hr r Hin) as [_ [Hq _]]. apply Hq, Ha in Hm. lia.
Qed.

Lemma handleNotification_inv A L B n event d :
  net_ok A L B n -> A !! NotificationID event = None -> L < SequenceID event ->
  net_ok (<[NotificationID event := SequenceID event]> A) (SequenceID event) B
    (handleNotification d event (with_notifications ({[ NotificationID event ]} ∪ notifications n) n)).1.
Proof.
  intros Hok Hnew Hlast. pose proof (dispatch_inv A L B n event Hok Hnew Hlast) as Hn.
  unfold handleNotification. destruct (no_subscriber event _) eqn:E; [|done].
  unfold DeleteNotification. destruct d; [|done].
  destruct Hn as [Ha' Hw' Hr' Hj' Hjo' Hro']. constructor; try done. simpl in *.
  intros id w' Hk. destruct (Hw' id w' Hk) as (? & ? & Hq & b & Hb & Hc & Hkept).
  split_and!; [done..|]. exists b. split; [done|]. split; [done|].
  intros m Hm Hbm. destruct (Hkept m Hm Hbm) as [? Hin]. split; [done|].
  apply elem_of_difference. split; [done|]. intros Heq%elem_of_singleton.
  (* nothing was dispatched, so [m] was there before and has another identifier *)
  apply bool_decide_eq_true in E.
  apply lookup_fmap_Some in Hk as (w & <- & Hk). specialize (E id w Hk).
  unfold dispatch in Hm. rewrite E in Hm.
  destruct (workers_ok _ _ _ _ Hok id w Hk) as (_ & _ & [Hq0 _] & _).
  apply pending_queued, Hq0 in Hm. congruence.
Qed.

(** *** Subscriptions *)

Lemma remove_inv A L B n id w d :
  net_ok A L B n -> workers n !! id = Some w -> net_ok A L B (removeWorker d id w n).
Proof.
  intros [Ha Hw Hr Hj Hjo Hro] Hid. destruct (Hw id w Hid) as (Hok & Hsid & Hq & _).
  apply releases_inv; [|by apply Hq]. constructor; simpl; try done.
  - intros k w' [? Hk]%lookup_delete_Some. by apply Hw.
  - intros w' [->|?]%elem_of_cons; [split; [by apply Shutdown_ok|done]|by apply Hr].
  - intros j w' m Hin [? Hk]%lookup_delete_Some. by eapply Hjo.
  - intros r w' m m' [->|?]%elem_of_cons [Hne Hk]%lookup_delete_Some; [|by eapply Hro].
    simpl in Hne. congruence.
Qed.

Lemma retries_inv A L B n r : net_ok A L B n -> net_ok A L B (with_retries r n).
Proof. by intros []. Qed.

Lemma pending_inv A L B n p : net_ok A L B n -> net_ok A L B (with_pending p n).
Proof. by intros []. Qed.

(** Replacing a worker by one with the same queue and no larger cursor issue. *)
Lemma update_inv A L B n id w w' :
  net_ok A L B n -> workers n !! id = Some w -> worker_ok w' ->
  SubscriptionID (subscription w') = id -> workQueue w' = workQueue w ->
  position w' = position w ->
  (forall b, B !! id = Some b -> kept L (notifications n) b w -> kept L (notifications n) b w') ->
  net_ok A L B (with_workers (<[id := w']> (workers n)) n).
Proof.
  intros [Ha Hw Hr Hj Hjo Hro] Hid Hok Hsid Hqueue Hpos Hk. constructor; simpl; try done.
  - intros k x [[<- <-]|[_ Hx]]%lookup_insert_Some; [|by apply Hw].
    destruct (Hw id w Hid) as (_ & _ & Hq & b & Hb & Hkept).
    split_and!; [done|done| |exists b; split; [done|by apply Hk]].
    unfold queue_ok in *. by rewrite Hqueue.
  - intros j x m Hin [[E <-]|[_ Hx]]%lookup_insert_Some;
      [unfold pending; rewrite Hqueue, Hpos; rewrite E in Hid|]; by eapply Hjo.
  - intros r x m m' Hin [[E <-]|[_ Hx]]%lookup_insert_Some; [rewrite Hqueue; rewrite E in Hid|]; by eapply Hro.
Qed.

Lemma refresh_inv A L B n latest d id :
  net_ok A L B n -> net_ok A L B (refreshSubscriptionWorker latest d id n).
Proof.
  intros Hn. unfold refreshSubscriptionWorker. destruct (workers n !! id) as [w|] eqn:Hid; [|done].
  destruct latest as [s| |]; [|by apply remove_inv|by apply retries_inv].
  destruct (workers_ok _ _ _ _ Hn id w Hid) as (Hok & Hsid & _).
  by apply (update_inv A L B n id w); [..|apply UpdateSubscription_ok| | | |].
Qed.

Lemma install_inv A L B n id s w :
  net_ok A L B n -> SubscriptionID s = id -> NewSubscriptionWorker true s = Some w ->
  net_ok A L (<[id := EventCursor s]> B) (installWorker id w n).
Proof.
  intros [Ha Hw Hr Hj Hjo Hro] Hs [= <-]. constructor; simpl; try done.
  - intros k x [[<- <-]|[Hne Hx]]%lookup_insert_Some.
    + split_and!; [constructor; by left|done|split; [by intros m Hm%elem_of_nil|constructor]|].
      exists (EventCursor s). rewrite lookup_insert_eq. split; [done|]. split; [by left|].
      by intros m Hm%elem_of_nil.
    + rewrite lookup_insert_ne by done. by apply Hw.
  - intros x [Hx|Hx]%elem_of_app; [|by apply Hr].
    destruct (workers n !! id) as [y|] eqn:E; [|by apply elem_of_nil in Hx].
    apply list_elem_of_singleton in Hx as ->. destruct (Hw id y E) as (? & _ & ? & _). done.
  - intros j x m Hin [[? <-]|[_ Hx]]%lookup_insert_Some Hm; [by apply elem_of_nil in Hm|by eapply Hjo].
  - intros r x m m' [Hx|Hx]%elem_of_app [[? <-]|[Hne Hk]]%lookup_insert_Some Hm Hm';
      try by apply elem_of_nil in Hm'.
    + destruct (workers n !! id) as [y|] eqn:E; [|by apply elem_of_nil in Hx].
      apply list_elem_of_singleton in Hx as ->. destruct (Hw id y E) as (_ & E' & _). congruence.
    + by eapply Hro.
Qed.

Lemma subscription_inv A L B n client_ok latest d ev :
  net_ok A L B n ->
  net_ok A L
    (if created client_ok ev
     then <[SubscriptionID (event_Subscription ev) := EventCursor (event_Subscription ev)]> B else B)
    (handleSubscriptionEvent client_ok latest d ev n).1.
Proof.
  intros Hn. unfold handleSubscriptionEvent, created.
  destruct (Updated ev); simpl.
  { destruct (workers n !! _); [by apply refresh_inv|by apply pending_inv]. }
  destruct (Removed ev); simpl.
  { destruct (workers n !! _) eqn:E; [apply remove_inv; [by apply pending_inv|done]|by apply pending_inv]. }
  destruct client_ok; [|done]. simpl.
  pose proof (install_inv A L B n _ (event_Subscription ev) _ Hn eq_refl eq_refl) as Hi.
  case_bool_decide; [|done]. by apply refresh_inv, pending_inv.
Qed.

(** *** Completions *)

Lemma job_inv A L B n j js u d :
  net_ok A L B n -> jobChannel n = j :: js ->
  net_ok A L B (handleSubscriptionJobCompleteEvent u d j (with_jobs js n)).1.
Proof.
  intros Hn Hjs. destruct Hn as [Ha Hw Hr Hj Hjo Hro].
  assert (A !! job_notificationID j = Some (job_sequenceID j)) as HA
    by (apply Hj; rewrite Hjs; left).
  assert (net_ok A L B (with_jobs js n)) as Hn'.
  { constructor; simpl; try done.
    - intros k Hk. apply Hj. rewrite Hjs. by right.
    - intros k w m Hk. apply Hjo. rewrite Hjs. by right. }
  unfold handleSubscriptionJobCompleteEvent. cbn [workers with_jobs].
  destruct (workers n !! job_subscriptionID j) as [w|] eqn:Hid; [|by apply release_inv].
  destruct (Hw _ w Hid) as (Hok & Hsid & _).
  assert (net_ok A L B (with_workers (<[job_subscriptionID j := SetEventCursor (job_sequenceID j) w]>
                                        (workers n)) (with_jobs js n))) as Hn2.
  { apply (update_inv A L B (with_jobs js n) _ w); [done|done|by apply SetEventCursor_ok|done..|].
    intros b Hb [_ Hk]. split; [right; by eapply Ha|].
    intros m Hm Hbm. destruct (Hk m Hm Hbm). split; [|done].
    simpl. apply (Hjo j w); [rewrite Hjs; left|done|done]. }
  destruct u; [by apply release_inv|done].
Qed.

(** *** The goroutines of the workers *)

Lemma internal_pending w l w' :
  worker_ok w -> worker_step w l w' -> internal l ->
  exists sent, pending w = sent ++ pending w' /\
    reported [l] = map (completion (subscription w)) sent.
Proof.
  intros Hok Hstep Hint. destruct Hstep; try done.
  all: inversion Hok; subst; simpl in *; simplify_eq; impossible.
  all: unfold pending, dequeue, processNextEvent, with_position; simpl.
  all: try by (exists []).
  - by exists [n].
  - exists []. by destruct q.
Qed.

Lemma internal_queue w l w' :
  worker_ok w -> worker_step w l w' -> internal l ->
  worker_ok w' /\ subscription w' = subscription w /\
  (exists popped, workQueue w = popped ++ workQueue w') /\
  exists sent, pending w = sent ++ pending w' /\
    reported [l] = map (completion (subscription w)) sent.
Proof.
  intros Hok Hstep Hint. split_and!.
  - by eapply worker_step_ok.
  - destruct Hstep; try done; unfold take_work, dequeue, processNextEvent; simpl; by repeat case_match.
  - destruct (worker_step_queue w l w' Hok Hstep) as (_ & popped & Hq & _).
    exists popped. assert (enqueued [l] = []) as E by (by destruct l). by rewrite Hq, E, app_nil_r.
  - by eapply internal_pending.
Qed.

Lemma queue_ok_suffix A w w' popped :
  queue_ok A w -> workQueue w = popped ++ workQueue w' -> queue_ok A w'.
Proof.
  intros [Hq Hs] E. rewrite E in *. split; [|by eapply StronglySorted_app_1_r].
  intros m Hm. apply Hq. apply elem_of_app. by right.
Qed.

Lemma queue_ok_pending A w : queue_ok A w -> StronglySorted before_in_sequence (pending w).
Proof. intros [_ Hs]. rewrite <- (leaving_pending w) in Hs. by eapply StronglySorted_app_1_r. Qed.

Lemma jobs_of_popped s popped j :
  j ∈ map (completion s) popped ->
  exists m, m ∈ popped /\ job_subscriptionID j = SubscriptionID s /\
    job_notificationID j = NotificationID m /\ job_sequenceID j = SequenceID m.
Proof. intros (m & -> & Hm)%list_elem_of_fmap. by exists m. Qed.

Lemma worker_inv A L B n id w l w' :
  net_ok A L B n -> workers n !! id = Some w -> worker_step w l w' -> internal l ->
  net_ok A L B (with_jobs (jobChannel n ++ reported [l]) (with_workers (<[id := w']> (workers n)) n)).
Proof.
  intros [Ha Hw Hr Hj Hjo Hro] Hid Hstep Hint.
  destruct (Hw id w Hid) as (Hok & Hsid & Hq & b & Hb & Hc & Hk).
  destruct (internal_queue w l w' Hok Hstep Hint) as (Hok' & Hsub & [popped Hqueue] & sent & Hpend & Hrep).
  pose proof (queue_ok_suffix _ _ _ _ Hq Hqueue) as Hq'.
  assert (forall m, m ∈ workQueue w' -> m ∈ workQueue w) as Hsuf.
  { intros m Hm. rewrite Hqueue. apply elem_of_app. by right. }
  assert (forall m, m ∈ pending w' -> m ∈ pending w) as Hpsuf.
  { intros m Hm. rewrite Hpend. apply elem_of_app. by right. }
  rewrite Hrep. constructor; simpl; try done.
  - intros k x [[<- <-]|[_ Hx]]%lookup_insert_Some; [|by apply Hw].
    split_and!; [done|by rewrite Hsub|done|]. exists b. split; [done|]. unfold kept. rewrite Hsub.
    split; [done|]. auto.
  - intros j [Hin|(m & Hm & _ & -> & ->)%jobs_of_popped]%elem_of_app; [by apply Hj|].
    apply Hq, pending_queued. rewrite Hpend. apply elem_of_app. by left.
  - intros j x m [Hin|(m0 & Hm0 & E1 & _ & ->)%jobs_of_popped]%elem_of_app
      [[E <-]|[Hne Hx]]%lookup_insert_Some Hm.
    + rewrite E in Hid. eauto.
    + by eapply Hjo.
    + apply queue_ok_pending in Hq. rewrite Hpend in Hq.
      by eapply StronglySorted_app_1_elem_of in Hq.
    + congruence.
  - intros r x m m' Hin [[E <-]|[_ Hx]]%lookup_insert_Some Hm Hm'; [rewrite E in Hid|]; eauto.
Qed.

Lemma retired_inv A L B n before w after l w' :
  net_ok A L B n -> retired n = before ++ w :: after -> worker_step w l w' -> internal l ->
  net_ok A L B (with_jobs (jobChannel n ++ reported [l]) (with_retired (before ++ w' :: after) n)).
Proof.
  intros [Ha Hw Hr Hj Hjo Hro] Hret Hstep Hint.
  assert (w ∈ retired n) as Hin by (rewrite Hret; apply elem_of_app; right; left).
  destruct (Hr w Hin) as [Hok Hq].
  destruct (internal_queue w l w' Hok Hstep Hint) as (Hok' & Hsub & [popped Hqueue] & sent & Hpend & Hrep).
  pose proof (queue_ok_suffix _ _ _ _ Hq Hqueue) as Hq'.
  assert (forall x, x ∈ before ++ w' :: after -> x = w' \/ x ∈ retired n) as Hcase.
  { intros x Hx. rewrite Hret. set_solver. }
  rewrite Hrep. constructor; simpl; try done.
  - intros x [->|Hx]%Hcase; [done|by apply Hr].
  - intros j [Hj'|(m & Hm & _ & -> & ->)%jobs_of_popped]%elem_of_app; [by apply Hj|].
    apply Hq, pending_queued. rewrite Hpend. apply elem_of_app. by left.
  - intros j x m [Hj'|(m0 & Hm0 & E1 & _ & ->)%jobs_of_popped]%elem_of_app Hx Hm; [by eapply Hjo|].
    rewrite E1 in Hx. eapply Hro; [exact Hin|done| |by apply pending_queued].
    apply pending_queued. rewrite Hpend. apply elem_of_app. by left.
  - intros r x m m' [->|Hr']%Hcase Hx Hm Hm'; [|by eapply Hro].
    rewrite Hsub in Hx. eapply Hro; [exact Hin|done| |done]. rewrite Hqueue. apply elem_of_app. by right.
Qed.

Lemma system_inv s s' :
  net_ok (arrived s) (lastSequence s) (base s) (net s) -> sys_step s s' ->
  net_ok (arrived s') (lastSequence s') (base s') (net s').
Proof.
  intros Hn. destruct 1; simpl.
  - by apply (handleNotification_inv _ (lastSequence s)).
  - by apply subscription_inv.
  - by apply (subscription_inv _ _ _ _ true latest d (retry_event id)), retries_inv.
  - by apply job_inv.
  - by eapply worker_inv.
  - by eapply retired_inv.
Qed.

Lemma reachable_ok s :
  reachable (eq initial) sys_step s -> net_ok (arrived s) (lastSequence s) (base s) (net s).
Proof.
  apply (reachable_invariant _ _ (fun s => net_ok (arrived s) (lastSequence s) (base s) (net s)));
    [|intros; by eapply system_inv].
  intros ? <-. constructor; simpl.
  - by intros id z ?%lookup_empty_Some.
  - by intros id w ?%lookup_empty_Some.
  - by intros w ?%elem_of_nil.
  - by intros j ?%elem_of_nil.
  - by intros j w m ?%elem_of_nil.
  - by intros r w m m' ?%elem_of_nil.
Qed.

(** C25: no notification is deleted under a subscriber that still has it to
    send: whatever the interleaving of notifications, deliveries, failures,
    subscription changes and restarts of workers, a notification in the queue of
    a worker whose completion that worker has not reported ([pending]: the whole
    queue, but for its head between the report and the removal), beyond the cursor
    the worker was created with, is in the database.  It relies on notifications arriving with growing sequence numbers
    and on [Transform] keeping identifier and sequence number. *)
Theorem queued_not_deleted s id w m b :
  reachable (eq initial) sys_step s ->
  workers (net s) !! id = Some w -> m ∈ pending w ->
  base s !! id = Some b -> b < SequenceID m ->
  NotificationID m ∈ notifications (net s).
Proof.
  intros Hs%reachable_ok Hw Hm Hb Hlt.
  destruct (workers_ok _ _ _ _ Hs id w Hw) as (_ & _ & _ & b' & Hb' & _ & Hk).
  simplify_eq. by apply Hk.
Qed.

(** C36: in every reachable state the notifier can make progress: no call of
    [NewNotification] is blocked on a full work channel, no worker of the map or
    awaiting its end has died, and the notifications of each queue are in
    sequence. *)
Theorem notifier_never_stuck s w :
  reachable (eq initial) sys_step s ->
  (exists id, workers (net s) !! id = Some w) \/ w ∈ retired (net s) ->
  sender_blocked w = false /\ position w <> Panicked /\
  StronglySorted before_in_sequence (workQueue w).
Proof.
  intros Hs%reachable_ok Hw.
  assert (worker_ok w /\ queue_ok (arrived s) w) as [Hok [_ Hq]].
  { destruct Hw as [[id Hw]|Hw].
    - by destruct (workers_ok _ _ _ _ Hs id w Hw) as (? & _ & ? & _).
    - by apply (retired_ok _ _ _ _ Hs). }
  destruct (worker_ok_alive w Hok). done.
Qed.
End invariant.
