(* ===== verification/NotifierProviders.v ===== *)
(** * The subscription providers of the alarms, resource and cluster servers

    The [Matches] and [Transform] each server plugs into the notifier, as
    instances of the interface, with the law the notifier relies on. *)
From S2P Require Import Prelude GoStrings NotifierEvent NotifierWorker Notifier.
From S2P Require Import NotifierSystem.
From stdpp Require Import sorting.
#[local] Open Scope Z_scope.

Definition with_payload (p : Payload) (n : Notification) : Notification :=
  mkNotification (NotificationID n) (SequenceID n) p.

(** ** Alarms (alarms/internal/notifier_provider/subscription.go) *)

Definition AlarmFilterToEventType (filter : gostring) : Z :=
  if decide (filter = lit "NEW") then 0
  else if decide (filter = lit "CHANGE") then 1
  else if decide (filter = lit "CLEAR") then 2
  else if decide (filter = lit "ACKNOWLEDGE") then 3
  else 0.

Definition alarms_Matches (s : SubscriptionInfo) (n : Notification) : bool :=
  match notification_Payload n with
  | PAlarm eventType _ _ =>
      match subscription_Filter s with
      | None => true
      | Some filter => negb (AlarmFilterToEventType filter =? eventType)
      end
  | _ => false
  end.

Definition alarms_Transform (s : SubscriptionInfo) (n : Notification) : option Notification :=
  match ConsumerSubscriptionID s with
  | None => Some n
  | Some id =>
      match notification_Payload n with
      | PAlarm eventType _ rest => Some (with_payload (PAlarm eventType (Some id) rest) n)
      | _ => None
      end
  end.

(** The row of a subscription, and the subscription the notifier sees. *)
Record AlarmSubscription := mkAlarmSubscription {
  as_SubscriptionID : positive;
  as_ConsumerSubscriptionID : option gostring;
  as_Callback : gostring;
  as_Filter : option gostring;
  as_EventFilter : option gostring;
  as_EventCursor : Z;
}.

Definition ConvertAlertSubToNotificationSub (r : AlarmSubscription) : SubscriptionInfo :=
  mkSubscription (as_SubscriptionID r) (as_ConsumerSubscriptionID r) (as_Callback r)
    (match as_EventFilter r with Some f => Some f | None => as_Filter r end) (as_EventCursor r).

(** ** Resource and cluster servers (common/repo/subscriptions.go, */collector/transformer.go) *)

Definition common_Matches (s : SubscriptionInfo) (n : Notification) : bool := true.

(** The consumer's identifier when it is a UUID, nil otherwise. *)
Definition consumer_uuid (id : gostring) : option gostring :=
  if uuid_Parse_ok id then Some id else None.

Definition resources_Transform (s : SubscriptionInfo) (n : Notification) : option Notification :=
  match ConsumerSubscriptionID s with
  | None => Some n
  | Some id =>
      match notification_Payload n with
      | PInventory _ rest => Some (with_payload (PInventory (consumer_uuid id) rest) n)
      | _ => None
      end
  end.

Definition cluster_Transform (s : SubscriptionInfo) (n : Notification) : option Notification :=
  match ConsumerSubscriptionID s with
  | None => Some n
  | Some id =>
      match notification_Payload n with
      | PCluster _ rest => Some (with_payload (PCluster (consumer_uuid id) rest) n)
      | _ => None
      end
  end.

Definition alarms_provider : SubscriptionProvider :=
  {| Matches := alarms_Matches; Transform := alarms_Transform |}.
Definition resources_provider : SubscriptionProvider :=
  {| Matches := common_Matches; Transform := resources_Transform |}.
Definition cluster_provider : SubscriptionProvider :=
  {| Matches := common_Matches; Transform := cluster_Transform |}.

Ltac transform_laws :=
  intros s n n'; simpl; unfold alarms_Transform, resources_Transform, cluster_Transform;
  destruct (ConsumerSubscriptionID s); [|by intros [= ->]];
  destruct (notification_Payload n); try done; by intros [= <-].

Lemma alarms_laws : @TransformLaws alarms_provider. Proof. transform_laws. Defined.
Lemma resources_laws : @TransformLaws resources_provider. Proof. transform_laws. Defined.
Lemma cluster_laws : @TransformLaws cluster_provider. Proof. transform_laws. Defined.

(** No event of a server is lost on its way to a subscriber: on payloads of
    the server's own kind [Transform] cannot fail, so that the notification is
    enqueued exactly when it matches; the alarms server leaves out the events of
    the subscription's effective filter, and the resource and cluster servers
    leave out none, whatever the consumer's identifier looks like. *)
Theorem dispatch_no_loss (n : Notification) (w : SubscriptionWorker) eventType consumer rest :
  (notification_Payload n = PAlarm eventType consumer rest ->
     (is_Some (@dispatched alarms_provider n w) <->
        forall f, subscription_Filter (subscription w) = Some f -> AlarmFilterToEventType f <> eventType)) /\
  (notification_Payload n = PInventory consumer rest -> is_Some (@dispatched resources_provider n w)) /\
  (notification_Payload n = PCluster consumer rest -> is_Some (@dispatched cluster_provider n w)).
Proof.
  unfold dispatched. simpl.
  unfold alarms_Matches, alarms_Transform, common_Matches, resources_Transform, cluster_Transform.
  split_and!; intros ->; [|by destruct (ConsumerSubscriptionID _); eexists..].
  assert (forall b : bool, is_Some (if b then match ConsumerSubscriptionID (subscription w) with
      | Some id => Some (with_payload (PAlarm eventType (Some id) rest) n) | None => Some n end
      else None) <-> b = true) as Hb.
  { intros []; [|by split; [intros []|]]. split; [done|]. intros _.
    by destruct (ConsumerSubscriptionID _); eexists. }
  rewrite Hb. destruct (subscription_Filter (subscription w)) as [f|].
  - rewrite negb_true_iff, Z.eqb_neq. naive_solver.
  - split; [intros _ f [=]|done].
Qed.

(** ** The theorems at work: two subscriptions and one notification *)

Section examples.
#[local] Existing Instance alarms_provider.
#[local] Existing Instance alarms_laws.

Definition example_s1 : SubscriptionInfo := mkSubscription 1 None (lit "http://a") None 0.
Definition example_s2 : SubscriptionInfo := mkSubscription 2 (Some (lit "c2")) (lit "http://b") (Some (lit "NEW")) 0.
Definition example_event : Notification := mkNotification 10 5 (PAlarm 0 None []).

Definition worker_of (s : SubscriptionInfo) (q : list Notification) (kick : bool) : SubscriptionWorker :=
  mkWorker s q kick None [] Selecting false false.

Definition example_net : Notifier :=
  mkNotifier {[ 1%positive := worker_of example_s1 [] false; 2%positive := worker_of example_s2 [] false ]}
    ∅ [] [] [] {[ 10%positive ]}.

Definition ex_created : System :=
  mkSystem (handleSubscriptionEvent true ReadError (fun _ => true) (created_event example_s1) (net initial)).1
    ∅ 0 (<[1%positive := 0]> ∅).

Definition ex_notified : System :=
  mkSystem
    (handleNotification true example_event
       (with_notifications ({[ 10%positive ]} ∪ notifications (net ex_created)) (net ex_created))).1
    (<[10%positive := 5]> ∅) 5 (<[1%positive := 0]> ∅).

Lemma ex_reachable : reachable (eq initial) sys_step ex_notified.
Proof.
  exists initial. split; [done|]. eapply rtc_l; [|eapply rtc_l; [|apply rtc_refl]].
  - apply (sys_subscription initial (created_event example_s1) true ReadError (fun _ => true)).
  - by apply (sys_notification ex_created example_event true).
Qed.

Example queued_not_deleted_witness :
  10%positive ∈ notifications (net ex_notified).
Proof.
  apply (queued_not_deleted ex_notified 1 (worker_of example_s1 [example_event] true) example_event 0);
    [exact ex_reachable|vm_compute; reflexivity|left|vm_compute; reflexivity|vm_compute; reflexivity].
Defined.

Example notifier_never_stuck_witness :
  sender_blocked (worker_of example_s1 [example_event] true) = false /\
  position (worker_of example_s1 [example_event] true) <> Panicked /\
  StronglySorted before_in_sequence (workQueue (worker_of example_s1 [example_event] true)).
Proof.
  apply (notifier_never_stuck ex_notified); [exact ex_reachable|left; exists 1%positive].
  vm_compute; reflexivity.
Defined.

Definition example_patched : SubscriptionInfo :=
  mkSubscription 1 (Some (lit "new")) (lit "http://new") (Some (lit "CLEAR")) 3.

Example update_creation_commute_witness :
  let latest := FoundSubscription example_patched in
  let d := fun _ : positive => true in
  let early := (handleSubscriptionEvent true latest d (created_event example_s1)
                  (handleSubscriptionEvent true latest d (updated_event example_s1) (net initial)).1).1 in
  let late := (handleSubscriptionEvent true latest d (updated_event example_s1)
                  (handleSubscriptionEvent true latest d (created_event example_s1) (net initial)).1).1 in
  early = late /\
  pendingUpdates early = pendingUpdates (net initial) /\
  exists w, workers early !! 1%positive = Some w /\ workQueue w = [] /\
    subscription w = mkSubscription 1 (Some (lit "new")) (lit "http://new") (Some (lit "CLEAR")) 0.
Proof.
  apply (update_creation_commute (fun _ => true) (fun _ => true) example_s1 example_patched example_s1
           (net initial)); [reflexivity|reflexivity|apply not_elem_of_empty].
Defined.

Example unmatched_worker_keeps_notification_witness :
  let n1 := (handleNotification true example_event example_net).1 in
  let n2 := (handleSubscriptionJobCompleteEvent true true (mkJob 1 10 5) n1).1 in
  workers n2 !! 2%positive = Some (worker_of example_s2 [] false) /\
  10%positive ∈ notifications n2.
Proof.
  apply (unmatched_worker_keeps_notification true true true example_event 1
           (worker_of example_s1 [] false) 2 (worker_of example_s2 [] false) example_net);
    try (vm_compute; reflexivity); [discriminate|vm_compute; eexists; reflexivity].
Defined.

Example loadEvents_in_sequence_witness :
  exists sorted n' w',
    sorted ≡ₚ [example_event; example_n1] /\ Sorted sequence_order sorted /\
    loadEvents (fun _ => true) [example_event; example_n1] example_net = (n', None) /\
    workers n' !! 1%positive = Some w' /\
    workQueue w' = [] ++ omap (fun e => dispatched e (worker_of example_s1 [] false)) sorted.
Proof.
  apply (loadEvents_in_sequence (fun _ => true) [example_event; example_n1] example_net 1
           (worker_of example_s1 [] false)); [reflexivity|vm_compute; reflexivity].
Defined.

Example dispatch_no_loss_witness :
  (notification_Payload example_event = PAlarm 0 None [] ->
     (is_Some (@dispatched alarms_provider example_event (worker_of example_s2 [] false)) <->
      forall f, subscription_Filter example_s2 = Some f -> AlarmFilterToEventType f <> 0)) /\
  (notification_Payload example_event = PInventory None [] ->
     is_Some (@dispatched resources_provider example_event (worker_of example_s2 [] false))) /\
  (notification_Payload example_event = PCluster None [] ->
     is_Some (@dispatched cluster_provider example_event (worker_of example_s2 [] false))).
Proof. apply (dispatch_no_loss example_event (worker_of example_s2 [] false) 0 None []). Defined.
End examples.
