(* ===== verification/Conditions.v ===== *)
(** * Status conditions (apimachinery's meta package, hardwaremanager/utils and
    controllers/utils conditions.go)

    A condition list is searched from the front; the wall clock is an argument. *)
From S2P Require Import Prelude.
#[local] Open Scope Z_scope.

Inductive ConditionStatus : Type := ConditionTrue | ConditionFalse | ConditionUnknown.
#[export] Instance ConditionStatus_eq_dec : EqDecision ConditionStatus.
Proof. solve_decision. Defined.

Record Condition := mkCondition {
  cond_Type : string;
  cond_Status : ConditionStatus;
  cond_Reason : string;
  cond_Message : string;
  cond_LastTransitionTime : Z;
  cond_ObservedGeneration : Z;
}.

#[export] Instance Condition_eq_dec : EqDecision Condition.
Proof. solve_decision. Defined.

(** ** k8s.io/apimachinery/pkg/api/meta *)

Fixpoint FindStatusCondition (conditions : list Condition) (conditionType : string) : option Condition :=
  match conditions with
  | [] => None
  | c :: rest =>
      if decide (cond_Type c = conditionType) then Some c else FindStatusCondition rest conditionType
  end.

Definition RemoveStatusCondition (conditions : list Condition) (conditionType : string) : list Condition :=
  filter (fun c => cond_Type c <> conditionType) conditions.

(** The assignments to the existing condition; its transition time changes with
    its status only. *)
Definition update_condition (new existing : Condition) : Condition :=
  mkCondition (cond_Type existing) (cond_Status new) (cond_Reason new) (cond_Message new)
    (if decide (cond_Status existing = cond_Status new) then cond_LastTransitionTime existing
     else cond_LastTransitionTime new)
    (cond_ObservedGeneration new).

Fixpoint update_first (new : Condition) (conditions : list Condition) : list Condition :=
  match conditions with
  | [] => []
  | c :: rest =>
      if decide (cond_Type c = cond_Type new) then update_condition new c :: rest
      else c :: update_first new rest
  end.

(** [meta.SetStatusCondition], for a condition whose transition time is set. *)
Definition meta_SetStatusCondition (conditions : list Condition) (new : Condition) : list Condition :=
  match FindStatusCondition conditions (cond_Type new) with
  | None => conditions ++ [new]
  | Some _ => update_first new conditions
  end.

(** ** The wrappers of the repository *)

(** controllers/utils: in place. *)
Definition SetStatusCondition (now : Z) (conditions : list Condition)
    (conditionType conditionReason : string) (conditionStatus : ConditionStatus) (message : string)
    : list Condition :=
  meta_SetStatusCondition conditions
    (mkCondition conditionType conditionStatus conditionReason message now 0).

(** hardwaremanager/utils: a condition whose status changes moves to the end. *)
Definition hw_SetStatusCondition (now : Z) (conditions : list Condition)
    (conditionType conditionReason : string) (conditionStatus : ConditionStatus) (message : string)
    : list Condition :=
  let moved :=
    match FindStatusCondition conditions conditionType with
    | Some c =>
        bool_decide (cond_Status c <> conditionStatus) &&
        negb (bool_decide (option_map cond_Type (last conditions) = Some conditionType))
    | None => false
    end in
  let conditions := if moved then RemoveStatusCondition conditions conditionType else conditions in
  meta_SetStatusCondition conditions
    (mkCondition conditionType conditionStatus conditionReason message now 0).

(** ** Lemmas *)

Definition types (cs : list Condition) : list string := map cond_Type cs.

Lemma Find_type cs t c : FindStatusCondition cs t = Some c -> cond_Type c = t.
Proof. induction cs as [|d cs IH]; simpl; [done|]. case_decide; [naive_solver|done]. Qed.

Lemma Find_None cs t : FindStatusCondition cs t = None <-> t ∉ types cs.
Proof.
  induction cs as [|d cs IH]; simpl; [split; [intros _; apply not_elem_of_nil|done]|].
  rewrite not_elem_of_cons. case_decide; [split; [done|naive_solver]|]. rewrite IH. naive_solver.
Qed.

Lemma Find_app cs ds t :
  FindStatusCondition (cs ++ ds) t =
    match FindStatusCondition cs t with Some c => Some c | None => FindStatusCondition ds t end.
Proof. induction cs as [|c cs IH]; simpl; [done|]. by case_decide. Qed.

Lemma types_update_first new cs : types (update_first new cs) = types cs.
Proof. induction cs as [|c cs IH]; simpl; [done|]. case_decide; simpl; congruence. Qed.

Lemma Find_update_first_eq new cs c :
  FindStatusCondition cs (cond_Type new) = Some c ->
  FindStatusCondition (update_first new cs) (cond_Type new) = Some (update_condition new c).
Proof.
  induction cs as [|d cs IH]; simpl; [done|]. case_decide as E.
  - intros [= ->]. simpl. by rewrite decide_True.
  - intros Hf. simpl. rewrite decide_False by done. auto.
Qed.

Lemma Find_update_first_ne new cs t :
  t <> cond_Type new -> FindStatusCondition (update_first new cs) t = FindStatusCondition cs t.
Proof.
  intros Hne. induction cs as [|d cs IH]; simpl; [done|].
  case_decide; simpl; case_decide; try done; congruence.
Qed.

Lemma Find_Remove_ne cs t t' :
  t <> t' -> FindStatusCondition (RemoveStatusCondition cs t') t = FindStatusCondition cs t.
Proof.
  intros Hne. unfold RemoveStatusCondition. induction cs as [|c cs IH]; simpl; [done|].
  rewrite filter_cons. case_decide; simpl; case_decide; try done; congruence.
Qed.

Lemma Find_Remove_eq cs t : FindStatusCondition (RemoveStatusCondition cs t) t = None.
Proof.
  unfold RemoveStatusCondition. induction cs as [|c cs IH]; simpl; [done|].
  rewrite filter_cons. case_decide; simpl; [by rewrite decide_False|done].
Qed.

Lemma Find_SetStatusCondition_eq cs new :
  FindStatusCondition (meta_SetStatusCondition cs new) (cond_Type new) =
    Some (match FindStatusCondition cs (cond_Type new) with
          | None => new
          | Some c => update_condition new c
          end).
Proof.
  unfold meta_SetStatusCondition. destruct (FindStatusCondition cs (cond_Type new)) eqn:E.
  - by apply Find_update_first_eq.
  - rewrite Find_app, E. simpl. by rewrite decide_True.
Qed.

Lemma Find_SetStatusCondition_ne cs new t :
  t <> cond_Type new ->
  FindStatusCondition (meta_SetStatusCondition cs new) t = FindStatusCondition cs t.
Proof.
  intros Hne. unfold meta_SetStatusCondition. destruct (FindStatusCondition cs (cond_Type new)) eqn:E.
  - by apply Find_update_first_ne.
  - rewrite Find_app. simpl. rewrite decide_False by done. by destruct (FindStatusCondition cs t).
Qed.

Lemma NoDup_SetStatusCondition cs new : NoDup (types cs) -> NoDup (types (meta_SetStatusCondition cs new)).
Proof.
  intros Hnd. unfold meta_SetStatusCondition. destruct (FindStatusCondition cs (cond_Type new)) eqn:E.
  - by rewrite types_update_first.
  - apply Find_None in E. unfold types in *. rewrite map_app. simpl. apply NoDup_app.
    split_and!; [done| |apply NoDup_singleton]. intros x Hx ->%list_elem_of_singleton. done.
Qed.

Lemma types_Remove cs t : types (RemoveStatusCondition cs t) = filter (fun x => x <> t) (types cs).
Proof.
  unfold types, RemoveStatusCondition. induction cs as [|c cs IH]; simpl; [done|].
  rewrite !filter_cons. case_decide; simpl; by rewrite IH.
Qed.

Section hw.
Context (now : Z) (cs : list Condition) (t reason : string) (status : ConditionStatus) (message : string).

Abbreviation cs' := (hw_SetStatusCondition now cs t reason status message).

(** The condition that is found afterwards. *)
Lemma hw_Find_eq :
  exists time, FindStatusCondition cs' t = Some (mkCondition t status reason message time 0) /\
    match FindStatusCondition cs t with
    | Some c => if decide (cond_Status c = status) then time = cond_LastTransitionTime c else time = now
    | None => time = now
    end.
Proof.
  set (new := mkCondition t status reason message now 0).
  assert (forall cs, exists time,
    FindStatusCondition (meta_SetStatusCondition cs new) t = Some (mkCondition t status reason message time 0) /\
    match FindStatusCondition cs t with
    | Some c => if decide (cond_Status c = status) then time = cond_LastTransitionTime c else time = now
    | None => time = now
    end) as Hset.
  { intros ds. pose proof (Find_SetStatusCondition_eq ds new) as Hf. simpl in Hf.
    rewrite Hf. destruct (FindStatusCondition ds t) as [c|] eqn:E; [|by exists now].
    unfold update_condition. simpl. rewrite (Find_type _ _ _ E).
    case_decide; eexists; split; done. }
  unfold hw_SetStatusCondition. fold new. destruct (FindStatusCondition cs t) as [c|] eqn:E.
  - destruct (bool_decide (cond_Status c <> status) && _) eqn:Em.
    + destruct (Hset (RemoveStatusCondition cs t)) as (time & Hf & Ht). exists time. split; [done|].
      rewrite Find_Remove_eq in Ht. bools. by rewrite decide_False.
    + destruct (Hset cs) as (time & Hf & Ht). exists time. by rewrite E in Ht.
  - destruct (Hset cs) as (time & Hf & Ht). exists time. by rewrite E in Ht.
Qed.

Lemma hw_Find_ne t' : t' <> t -> FindStatusCondition cs' t' = FindStatusCondition cs t'.
Proof.
  intros Hne. unfold hw_SetStatusCondition. rewrite Find_SetStatusCondition_ne by done.
  match goal with |- context [if ?b then _ else _] => destruct b end; [by apply Find_Remove_ne|done].
Qed.

Lemma hw_NoDup : NoDup (types cs) -> NoDup (types cs').
Proof.
  intros Hnd. apply NoDup_SetStatusCondition.
  match goal with |- context [if ?b then _ else _] => destruct b end; [|done].
  rewrite types_Remove. by apply NoDup_filter.
Qed.
End hw.
