(* ===== verification/NodeAllocationRequest.v ===== *)
(** * NodeAllocationRequest status (hardwaremanager/utils)

    The fields of the resource the controller reads and writes, the FSM that
    picks the handler, and the closures the status updates run on the object
    freshly read from the API server.  Times are in seconds; a start time that is
    unset or the zero time is [None]. *)
From S2P Require Import Prelude Conditions.
#[local] Open Scope Z_scope.

Abbreviation Provisioned := "Provisioned"%string.
Abbreviation Configured := "Configured"%string.
Abbreviation InProgress := "InProgress"%string.
Abbreviation Completed := "Completed"%string.
Abbreviation Failed := "Failed"%string.
Abbreviation TimedOut := "TimedOut"%string.
Abbreviation ConfigApplied := "ConfigurationApplied"%string.
Abbreviation InvalidInput := "InvalidUserInput"%string.

Record NAR := mkNAR {
  Generation : Z;
  ConfigTransactionId : Z;
  HardwareProvisioningTimeout : option Z;
  ClusterProvisioned : bool;
  ObservedGeneration : Z;
  ObservedConfigTransactionId : Z;
  Conditions : list Condition;
  HardwareOperationStartTime : option Z;
  NodeNames : list string;
  Finalizer : bool;
}.

Definition with_conditions (cs : list Condition) (n : NAR) : NAR :=
  mkNAR (Generation n) (ConfigTransactionId n) (HardwareProvisioningTimeout n) (ClusterProvisioned n)
    (ObservedGeneration n) (ObservedConfigTransactionId n) cs (HardwareOperationStartTime n)
    (NodeNames n) (Finalizer n).
Definition with_start (t : option Z) (n : NAR) : NAR :=
  mkNAR (Generation n) (ConfigTransactionId n) (HardwareProvisioningTimeout n) (ClusterProvisioned n)
    (ObservedGeneration n) (ObservedConfigTransactionId n) (Conditions n) t (NodeNames n) (Finalizer n).
Definition with_observed (g : Z) (n : NAR) : NAR :=
  mkNAR (Generation n) (ConfigTransactionId n) (HardwareProvisioningTimeout n) (ClusterProvisioned n)
    g (ObservedConfigTransactionId n) (Conditions n) (HardwareOperationStartTime n)
    (NodeNames n) (Finalizer n).
Definition with_observed_txid (x : Z) (n : NAR) : NAR :=
  mkNAR (Generation n) (ConfigTransactionId n) (HardwareProvisioningTimeout n) (ClusterProvisioned n)
    (ObservedGeneration n) x (Conditions n) (HardwareOperationStartTime n) (NodeNames n) (Finalizer n).
Definition with_names (names : list string) (n : NAR) : NAR :=
  mkNAR (Generation n) (ConfigTransactionId n) (HardwareProvisioningTimeout n) (ClusterProvisioned n)
    (ObservedGeneration n) (ObservedConfigTransactionId n) (Conditions n)
    (HardwareOperationStartTime n) names (Finalizer n).
Definition with_finalizer (b : bool) (n : NAR) : NAR :=
  mkNAR (Generation n) (ConfigTransactionId n) (HardwareProvisioningTimeout n) (ClusterProvisioned n)
    (ObservedGeneration n) (ObservedConfigTransactionId n) (Conditions n)
    (HardwareOperationStartTime n) (NodeNames n) b.

(** ** node_allocation_request_fsm.go *)

Inductive fsmAction : Type := FSMCreate | FSMProcessing | FSMSpecChanged | FSMNoop.

Definition terminal_reason (reason : string) : bool :=
  bool_decide (reason = Failed) || bool_decide (reason = TimedOut).

Definition DetermineAction (n : NAR) : fsmAction :=
  if (length (Conditions n) =? 0)%nat then FSMCreate
  else
    match FindStatusCondition (Conditions n) Provisioned with
    | Some c =>
        if decide (cond_Status c = ConditionTrue) then
          if negb (Generation n =? ObservedGeneration n) then FSMSpecChanged else FSMNoop
        else if terminal_reason (cond_Reason c) then FSMNoop
        else FSMProcessing
    | None => FSMNoop
    end.

(** ** node_allocation_request.go: what the updates write *)

(** Case [Provisioned] of the start time logic; [conditions] are already set. *)
Definition provisioned_start (now : Z) (reason : string) (status : ConditionStatus) (n : NAR) : NAR :=
  if bool_decide (status = ConditionFalse) && negb (terminal_reason reason) then
    if bool_decide (reason = InProgress) && bool_decide (HardwareOperationStartTime n = None)
    then with_start (Some now) n else n
  else if bool_decide (status = ConditionTrue) || bool_decide (reason = Completed)
          || terminal_reason reason then
    let n := with_start None n in
    if terminal_reason reason then with_observed (Generation n) n else n
  else n.

(** Case [Configured]. *)
Definition configured_start (now : Z) (reason : string) (status : ConditionStatus) (n : NAR) : NAR :=
  if bool_decide (status = ConditionFalse) && negb (terminal_reason reason) then
    if bool_decide (reason = InProgress) then
      let isRetryAfterTerminal :=
        match FindStatusCondition (Conditions n) Configured with
        | Some existing => terminal_reason (cond_Reason existing)
        | None => false
        end in
      if bool_decide (HardwareOperationStartTime n = None) || isRetryAfterTerminal
      then with_start (Some now) n else n
    else n
  else if bool_decide (status = ConditionTrue) || bool_decide (reason = ConfigApplied)
          || terminal_reason reason then
    with_observed (Generation n) (with_start None n)
  else n.

(** The closure of [UpdateNodeAllocationRequestStatusCondition], between the Get
    and the status update: [txid] is the transaction of the caller's object. *)
Definition apply_status_condition (now txid : Z) (conditionType reason : string)
    (status : ConditionStatus) (message : string) (n : NAR) : NAR :=
  let n := with_conditions (hw_SetStatusCondition now (Conditions n) conditionType reason status message) n in
  let n := if decide (conditionType = Configured) then with_observed_txid txid n else n in
  if decide (conditionType = Provisioned) then provisioned_start now reason status n
  else if decide (conditionType = Configured) then configured_start now reason status n
  else n.

Definition apply_observed_generation (n : NAR) : NAR := with_observed (Generation n) n.

Definition apply_observed_status (n : NAR) : NAR :=
  with_observed_txid (ConfigTransactionId n) (with_observed (Generation n) n).

(** [UpdateNodeAllocationRequestProperties]: the union of the names. *)
Definition apply_properties (names : list string) (n : NAR) : NAR :=
  with_names (fold_left (fun acc name =>
    if bool_decide (name ∈ NodeNames n) then acc else acc ++ [name]) names (NodeNames n)) n.

Definition apply_add_finalizer (n : NAR) : NAR := with_finalizer true n.
Definition apply_remove_finalizer (n : NAR) : NAR := with_finalizer false n.

(** ** RetryOnConflictOrRetriable with [retry.DefaultRetry] *)

Inductive apiError : Type := Conflict | InternalError | ServiceUnavailable | ConnRefused | OtherAPIError.

Definition isConflictOrRetriable (e : apiError) : bool :=
  match e with OtherAPIError => false | _ => true end.

(** One attempt: other clients may write first; then the Get, or the update of the
    object it read, may fail. *)
Record attempt := mkAttempt {
  others : NAR -> NAR;
  get_error : option apiError;
  update_error : option apiError;
}.

Fixpoint retry_update (steps : nat) (attempts : list attempt) (f : NAR -> NAR) (lastErr : option apiError)
    (api : NAR) : NAR * option apiError :=
  match steps, attempts with
  | S steps', a :: rest =>
      let api := others a api in
      match (match get_error a with Some e => Some e | None => update_error a end) with
      | None => (f api, None)
      | Some e =>
          if isConflictOrRetriable e then retry_update steps' rest f (Some e) api else (api, Some e)
      end
  | _, _ => (api, lastErr)
  end.

Definition DefaultRetrySteps : nat := 5.

(** ** Timeouts (nodeallocationrequest_controller.go, [checkHardwareTimeout]) *)

Definition DefaultHardwareProvisioningTimeout : Z := 5400.

Definition condition_in_progress (c : option Condition) : bool :=
  match c with Some c => negb (bool_decide (cond_Status c = ConditionTrue)) | None => false end.

Inductive timeoutCheck : Type := TimeoutError | NotTimedOut | TimedOutOn (conditionType : string).

Definition deadline_passed (now timeout : Z) (n : NAR) (conditionType : string) : timeoutCheck :=
  match HardwareOperationStartTime n with
  | None => NotTimedOut
  | Some start => if start + timeout <=? now then TimedOutOn conditionType else NotTimedOut
  end.

Definition checkHardwareTimeout (now : Z) (n : NAR) : timeoutCheck :=
  let timeout := default DefaultHardwareProvisioningTimeout (HardwareProvisioningTimeout n) in
  if timeout <=? 0 then TimeoutError
  else if condition_in_progress (FindStatusCondition (Conditions n) Provisioned) then
    deadline_passed now timeout n Provisioned
  else if condition_in_progress (FindStatusCondition (Conditions n) Configured) then
    if negb (ConfigTransactionId n =? 0)
       && ((ObservedConfigTransactionId n =? 0)
           || negb (ObservedConfigTransactionId n =? ConfigTransactionId n))
    then NotTimedOut
    else deadline_passed now timeout n Configured
  else NotTimedOut.
