(* ===== verification/NodeAllocationController.v ===== *)
(** * The NodeAllocationRequest reconciler
    (hardwaremanager/controller/nodeallocationrequest_controller.go)

    One reconcile is a function of the object read, and of an oracle for what the
    rest of the manager and the API server answer: the allocation of nodes, the
    profile and size comparisons, the spoke clients, the status of the nodes, and
    whether each status update goes through.  What it leaves is the object in the
    API server, the requeue, and whether it returns an error. *)
From S2P Require Import Prelude Conditions NodeAllocationRequest.
#[local] Open Scope Z_scope.

Inductive Requeue : Type := DoNotRequeue | RequeueImmediately | RequeueAfter (seconds : Z).
Definition RequeueWithShortInterval : Requeue := RequeueAfter 15.
Definition RequeueWithMediumInterval : Requeue := RequeueAfter 60.

Inductive spokeResult : Type := SpokeReady | SpokeNotReady | SpokeInputError (msg : string) | SpokeError.
Inductive progressResult : Type :=
| ProgressError (input : bool) (msg : string)
| ProgressRequeue (r : Requeue)
| ProgressFull
| ProgressPartial.

Record oracle := mkOracle {
  now : Z;
  updates : nat -> bool;                          (* the k-th status update goes through *)
  cleanup_ok : bool;                              (* annotations after a configuration timeout *)
  finalizer_ok : bool;
  scale_in : option (Requeue * bool * option (list string)); (* ScaleIn: result, error, names left *)
  create_error : option string;                   (* processNewNodeAllocationRequest *)
  sync_ok : bool;                                 (* syncSkipCleanupToAllocatedNodes *)
  bmo_ok : bool;                                  (* enableBMOManagementForIBINodes *)
  size_increased : option bool;                   (* hasNodeGroupSizeIncreases; None: error *)
  profile_changed : option bool;                  (* hasNodeGroupHwProfileChanges; None: error *)
  nodes_ok : bool;                                (* GetChildNodes *)
  derived : ConditionStatus * string * string;    (* deriveNARStatusFrom... *)
  spoke : spokeResult;                            (* ensureSpokeClients *)
  configuring : Requeue * bool;                   (* handleNodeAllocationRequestConfiguring: result, error *)
  progress : progressResult;                      (* checkNodeAllocationRequestProgress *)
}.

(** The object in the API server, the result and whether an error is returned. *)
Abbreviation reconciled := (NAR * Requeue * bool)%type.

Section reconciler.
Context (o : oracle).

(** The k-th [UpdateNodeAllocationRequestStatusCondition] of this reconcile;
    [txid] comes from the object the reconcile started with. *)
Definition update_condition_k (k : nat) (txid : Z) (conditionType reason : string)
    (status : ConditionStatus) (message : string) (api : NAR) : NAR * bool :=
  if updates o k then (apply_status_condition (now o) txid conditionType reason status message api, true)
  else (api, false).

Definition handleNewNodeAllocationRequestCreate (nar : NAR) : reconciled :=
  let '(reason, message) :=
    match create_error o with
    | Some e => (Failed, ("Creation request failed: " ++ e)%string)
    | None => (InProgress, "Handling creation"%string)
    end in
  match update_condition_k 0 (ConfigTransactionId nar) Provisioned reason ConditionFalse message nar with
  | (api, false) => (api, RequeueWithMediumInterval, true)
  | (api, true) =>
      if updates o 1 then (apply_observed_generation api, DoNotRequeue, false)
      else (api, RequeueWithShortInterval, true)
  end.

Definition handleNodeAllocationRequestProcessing (nar : NAR) : reconciled :=
  let update reason status message :=
    update_condition_k 0 (ConfigTransactionId nar) Provisioned reason status message nar in
  let await := "Spec updated; awaiting configuration application by the hardware manager"%string in
  match progress o with
  | ProgressError input msg =>
      match update (if input then InvalidInput else Failed) ConditionFalse msg with
      | (api, false) => (api, RequeueWithMediumInterval, true)
      | (api, true) => (api, DoNotRequeue, true)
      end
  | ProgressRequeue r =>
      match update InProgress ConditionFalse await with
      | (api, false) => (api, RequeueWithMediumInterval, true)
      | (api, true) => (api, r, false)
      end
  | ProgressFull =>
      match update Completed ConditionTrue "Created"%string with
      | (api, false) => (api, RequeueWithMediumInterval, true)
      | (api, true) => (api, DoNotRequeue, false)
      end
  | ProgressPartial =>
      match update InProgress ConditionFalse await with
      | (api, false) => (api, RequeueWithMediumInterval, true)
      | (api, true) => (api, RequeueWithShortInterval, false)
      end
  end.

(** [updateConfiguredFromNodes], as the k-th update. *)
Definition updateConfiguredFromNodes (k : nat) (txid : Z) (api : NAR) : NAR * bool :=
  let '(status, reason, message) := derived o in
  update_condition_k k txid Configured reason status message api.

Definition handleHardwareProfileChanges (k : nat) (nar api : NAR) : reconciled :=
  let txid := ConfigTransactionId nar in
  if negb (nodes_ok o) then (api, DoNotRequeue, true)
  else
    match spoke o with
    | SpokeError => (api, DoNotRequeue, true)
    | SpokeInputError msg =>
        match update_condition_k k txid Configured Failed ConditionFalse msg api with
        | (api, ok) => (api, DoNotRequeue, negb ok)
        end
    | SpokeNotReady => (api, RequeueWithShortInterval, false)
    | SpokeReady =>
        let '(result, err) := configuring o in
        match updateConfiguredFromNodes k txid api with
        | (api, false) => (api, DoNotRequeue, true)
        | (api, true) => (api, result, err)
        end
    end.

(** [handleScaleOut] on a size increase. *)
Definition scaleOut (nar : NAR) : reconciled :=
  match update_condition_k 0 (ConfigTransactionId nar) Provisioned InProgress ConditionFalse
          "Allocating additional nodes for scale-out"%string nar with
  | (api, false) => (api, RequeueWithShortInterval, true)
  | (api, true) => (api, RequeueImmediately, false)
  end.

Definition handleNodeAllocationRequestSpecChanged (nar : NAR) : reconciled :=
  let configuredCondition := FindStatusCondition (Conditions nar) Configured in
  let configInProgress :=
    match configuredCondition with
    | Some c => bool_decide (cond_Status c = ConditionFalse) && bool_decide (cond_Reason c = InProgress)
    | None => false
    end in
  if negb (sync_ok o) then (nar, RequeueWithShortInterval, true)
  else if ClusterProvisioned nar && negb (bmo_ok o) then (nar, RequeueWithShortInterval, true)
  else
    match size_increased o with
    | None => (nar, RequeueWithShortInterval, true)
    | Some true => scaleOut nar
    | Some false =>
        match profile_changed o with
        | None => (nar, RequeueWithShortInterval, true)
        | Some hwProfileChanged =>
            if negb hwProfileChanged && negb configInProgress then
              match configuredCondition with
              | Some _ =>
                  if negb (nodes_ok o) then (nar, DoNotRequeue, true)
                  else
                    match updateConfiguredFromNodes 0 (ConfigTransactionId nar) nar with
                    | (api, ok) => (api, DoNotRequeue, negb ok)
                    end
              | None =>
                  if updates o 0 then (apply_observed_status nar, DoNotRequeue, false)
                  else (nar, RequeueWithShortInterval, true)
              end
            else if hwProfileChanged && negb configInProgress then
              match update_condition_k 0 (ConfigTransactionId nar) Configured InProgress ConditionFalse
                      "Spec updated; awaiting configuration application by the hardware manager"%string nar with
              | (api, false) => (api, DoNotRequeue, true)
              | (api, true) => handleHardwareProfileChanges 1 nar api
              end
            else handleHardwareProfileChanges 0 nar nar
        end
    end.

(** [HandleNodeAllocationRequest]. *)
Definition HandleNodeAllocationRequest (nar : NAR) : reconciled :=
  match checkHardwareTimeout (now o) nar with
  | TimeoutError => (nar, RequeueWithMediumInterval, true)
  | TimedOutOn conditionType =>
      let message :=
        if decide (conditionType = Provisioned) then "Hardware provisioning timed out"%string
        else if decide (conditionType = Configured) then "Hardware configuration timed out"%string
        else "Hardware operation timed out"%string in
      match update_condition_k 0 (ConfigTransactionId nar) conditionType TimedOut ConditionFalse message nar with
      | (api, false) => (api, RequeueWithMediumInterval, true)
      | (api, true) =>
          if bool_decide (conditionType = Configured) && negb (cleanup_ok o)
          then (api, RequeueWithMediumInterval, true)
          else (api, DoNotRequeue, false)
      end
  | NotTimedOut =>
      if negb (Finalizer nar) && negb (finalizer_ok o) then (nar, RequeueImmediately, true)
      else
        let nar := if Finalizer nar then nar else apply_add_finalizer nar in
        match scale_in o with
        | Some (result, err, remaining) =>
            ((match remaining with Some names => with_names names nar | None => nar end), result, err)
        | None =>
            match DetermineAction nar with
            | FSMCreate => handleNewNodeAllocationRequestCreate nar
            | FSMProcessing => handleNodeAllocationRequestProcessing nar
            | FSMSpecChanged => handleNodeAllocationRequestSpecChanged nar
            | FSMNoop => (nar, DoNotRequeue, false)
            end
        end
  end.
End reconciler.

(** ** The life of a request: the user edits it, the reconciler runs *)

(** An edit of the spec: the API server bumps the generation. *)
Definition edit (txid : Z) (timeout : option Z) (provisioned : bool) (n : NAR) : NAR :=
  mkNAR (Generation n + 1) txid timeout provisioned (ObservedGeneration n)
    (ObservedConfigTransactionId n) (Conditions n) (HardwareOperationStartTime n) (NodeNames n)
    (Finalizer n).

Definition created (n : NAR) : Prop :=
  Generation n = 1 /\ ObservedGeneration n = 0 /\ ObservedConfigTransactionId n = 0 /\
  Conditions n = [] /\ HardwareOperationStartTime n = None /\ NodeNames n = [].

Inductive nar_step : relation NAR :=
| nar_edit n txid timeout provisioned : nar_step n (edit txid timeout provisioned n)
| nar_properties n names : nar_step n (apply_properties names n)
| nar_reconcile n o : nar_step n (HandleNodeAllocationRequest o n).1.1.

(** An operation that may still finish. *)
Definition busy (c : option Condition) : bool :=
  match c with
  | Some c => negb (bool_decide (cond_Status c = ConditionTrue)) && negb (terminal_reason (cond_Reason c))
  | None => false
  end.

Definition nar_busy (n : NAR) : bool :=
  busy (FindStatusCondition (Conditions n) Provisioned) ||
  busy (FindStatusCondition (Conditions n) Configured).

Record nar_ok (n : NAR) : Prop := {
  ok_types : NoDup (types (Conditions n));
  ok_generation : ObservedGeneration n <= Generation n;
  ok_start : HardwareOperationStartTime n <> None -> nar_busy n = true;
}.

(** ** Status updates keep the invariant *)

Section updates.
Context (t0 txid : Z) (reason : string) (status : ConditionStatus) (message : string).

Lemma busy_after conditionType n :
  busy (FindStatusCondition (hw_SetStatusCondition t0 (Conditions n) conditionType reason status message)
          conditionType) =
    negb (bool_decide (status = ConditionTrue)) && negb (terminal_reason reason).
Proof.
  by destruct (hw_Find_eq t0 (Conditions n) conditionType reason status message) as (time & -> & _).
Qed.

(** The start time logic leaves the conditions alone, and a start time only
    where the operation it belongs to is not over. *)
Lemma provisioned_start_spec n :
  let n' := provisioned_start t0 reason status n in
  Conditions n' = Conditions n /\ Generation n' = Generation n /\
  (ObservedGeneration n' = ObservedGeneration n \/ ObservedGeneration n' = Generation n) /\
  (HardwareOperationStartTime n' <> None ->
     negb (bool_decide (status = ConditionTrue)) && negb (terminal_reason reason) = true).
Proof.
  unfold provisioned_start. destruct status, (terminal_reason reason); simpl; rewrite ?orb_true_r;
    repeat case_match; simpl; (split_and!; [done|done|by auto|by auto]).
Qed.

Lemma configured_start_spec n :
  let n' := configured_start t0 reason status n in
  Conditions n' = Conditions n /\ Generation n' = Generation n /\
  (ObservedGeneration n' = ObservedGeneration n \/ ObservedGeneration n' = Generation n) /\
  (HardwareOperationStartTime n' <> None ->
     negb (bool_decide (status = ConditionTrue)) && negb (terminal_reason reason) = true).
Proof.
  unfold configured_start. destruct status, (terminal_reason reason); simpl; rewrite ?orb_true_r;
    repeat case_match; simpl; (split_and!; [done|done|by auto|by auto]).
Qed.

Lemma apply_status_condition_ok conditionType n :
  conditionType = Provisioned \/ conditionType = Configured -> nar_ok n ->
  nar_ok (apply_status_condition t0 txid conditionType reason status message n).
Proof.
  intros Ht [Hnd Hg Hs]. unfold apply_status_condition.
  pose proof (busy_after conditionType n) as Hb.
  assert (forall n', Conditions n' = hw_SetStatusCondition t0 (Conditions n) conditionType reason status message ->
            Generation n' = Generation n ->
            ObservedGeneration n' = ObservedGeneration n \/ ObservedGeneration n' = Generation n ->
            (HardwareOperationStartTime n' <> None ->
               negb (bool_decide (status = ConditionTrue)) && negb (terminal_reason reason) = true) ->
            nar_ok n') as Hok.
  { intros n' Hc Hg' Ho Hst. constructor.
    - rewrite Hc. by apply hw_NoDup.
    - rewrite Hg'. destruct Ho as [-> | ->]; lia.
    - intros Hne. unfold nar_busy. rewrite Hc. apply Hst in Hne. rewrite <- Hb in Hne.
      destruct Ht as [-> | ->]; rewrite Hne; by rewrite ?orb_true_r. }
  destruct Ht as [-> | ->]; simpl.
  - destruct (provisioned_start_spec
      (with_conditions (hw_SetStatusCondition t0 (Conditions n) Provisioned reason status message) n))
      as (H1 & H2 & H3 & H4). by apply Hok.
  - destruct (configured_start_spec (with_observed_txid txid
      (with_conditions (hw_SetStatusCondition t0 (Conditions n) Configured reason status message) n)))
      as (H1 & H2 & H3 & H4). by apply Hok.
Qed.
End updates.

(** ** One reconcile keeps the invariant *)

Section reconcile.
Context (o : oracle).

Lemma update_condition_k_ok k txid conditionType reason status message n :
  conditionType = Provisioned \/ conditionType = Configured -> nar_ok n ->
  nar_ok (update_condition_k o k txid conditionType reason status message n).1.
Proof.
  intros Ht Hn. unfold update_condition_k. case_match; [by apply apply_status_condition_ok|done].
Qed.

(** Whatever follows an update, only its object matters. *)
Lemma updated_ok k txid conditionType reason status message n (f : NAR -> bool -> reconciled) :
  conditionType = Provisioned \/ conditionType = Configured -> nar_ok n ->
  (forall api b, nar_ok api -> nar_ok (f api b).1.1) ->
  nar_ok (let '(api, b) := update_condition_k o k txid conditionType reason status message n in f api b).1.1.
Proof.
  intros Ht Hn Hf. pose proof (update_condition_k_ok k txid conditionType reason status message n Ht Hn).
  destruct (update_condition_k _ _ _ _ _ _ _ _). by apply Hf.
Qed.

Lemma observed_ok n g : nar_ok n -> g = Generation n -> nar_ok (with_observed g n).
Proof. intros [] ->. constructor; simpl; [done|lia|done]. Qed.

Lemma observed_status_ok n : nar_ok n -> nar_ok (apply_observed_status n).
Proof. intros []. constructor; simpl; [done|lia|done]. Qed.

Lemma observed_generation_ok n : nar_ok n -> nar_ok (apply_observed_generation n).
Proof. intros Hn. by apply observed_ok. Qed.

Lemma names_ok n names : nar_ok n -> nar_ok (with_names names n).
Proof. intros []. by constructor. Qed.

Lemma finalizer_set_ok n b : nar_ok n -> nar_ok (with_finalizer b n).
Proof. intros []. by constructor. Qed.

#[local] Hint Resolve observed_generation_ok observed_status_ok names_ok finalizer_set_ok : o2ims.

(** Walk through a handler: each update, then what is done with its result. *)
Ltac handler :=
  repeat first
    [ done
    | progress simpl in *
    | match goal with
      | |- nar_ok (match update_condition_k ?o ?k ?x ?t ?r ?s ?m ?n with _ => _ end).1.1 =>
          pose proof (update_condition_k_ok k x t r s m n ltac:(auto) ltac:(done));
          destruct (update_condition_k o k x t r s m n) as [? []]
      | |- nar_ok (match ?x with _ => _ end).1.1 => destruct x
      | |- nar_ok (match ?x with _ => _ end) => destruct x
      end ];
  auto with o2ims.

Lemma create_ok n : nar_ok n -> nar_ok (handleNewNodeAllocationRequestCreate o n).1.1.
Proof. intros Hn. unfold handleNewNodeAllocationRequestCreate. handler. Qed.

Lemma processing_ok n : nar_ok n -> nar_ok (handleNodeAllocationRequestProcessing o n).1.1.
Proof. intros Hn. unfold handleNodeAllocationRequestProcessing. handler. Qed.

Lemma profile_ok k n api : nar_ok api -> nar_ok (handleHardwareProfileChanges o k n api).1.1.
Proof.
  intros Hn. unfold handleHardwareProfileChanges, updateConfiguredFromNodes.
  destruct (derived o) as [[]]. handler.
Qed.

#[local] Hint Resolve create_ok processing_ok profile_ok : o2ims.

Lemma spec_changed_ok n : nar_ok n -> nar_ok (handleNodeAllocationRequestSpecChanged o n).1.1.
Proof.
  intros Hn. unfold handleNodeAllocationRequestSpecChanged, scaleOut, updateConfiguredFromNodes.
  destruct (derived o) as [[]]. handler.
Qed.

#[local] Hint Resolve spec_changed_ok : o2ims.

Lemma deadline_type t timeout n c k : deadline_passed t timeout n c = TimedOutOn k -> k = c.
Proof. unfold deadline_passed. repeat case_match; congruence. Qed.

Lemma checkHardwareTimeout_type t n k :
  checkHardwareTimeout t n = TimedOutOn k -> k = Provisioned \/ k = Configured.
Proof.
  unfold checkHardwareTimeout. repeat case_match; try done; intros ?%deadline_type; auto.
Qed.

Lemma reconcile_ok n : nar_ok n -> nar_ok (HandleNodeAllocationRequest o n).1.1.
Proof.
  intros Hn. unfold HandleNodeAllocationRequest.
  destruct (checkHardwareTimeout (now o) n) as [| |k] eqn:Hk; [done| |].
  - destruct (negb (Finalizer n) && negb (finalizer_ok o)); [done|].
    assert (nar_ok (if Finalizer n then n else apply_add_finalizer n)) as Hn'
      by (destruct (Finalizer n); [done|by apply finalizer_set_ok]).
    generalize dependent (if Finalizer n then n else apply_add_finalizer n). intros n' Hn'.
    destruct (scale_in o) as [[[r err] [names|]]|]; simpl; auto with o2ims.
    destruct (DetermineAction n'); auto with o2ims.
  - apply checkHardwareTimeout_type in Hk. handler.
Qed.
End reconcile.

Lemma nar_step_ok n n' : nar_ok n -> nar_step n n' -> nar_ok n'.
Proof.
  intros Hn. destruct 1.
  - destruct Hn. constructor; simpl; [done|lia|done].
  - by apply names_ok.
  - by apply reconcile_ok.
Qed.

Lemma reachable_nar_ok n : reachable created nar_step n -> nar_ok n.
Proof.
  apply reachable_invariant; [|intros; by eapply nar_step_ok].
  intros m (Hg & Ho & _ & Hc & Hs & _). constructor; [|lia|done]. rewrite Hc. constructor.
Qed.

(** C29: whatever the user edits and whatever the reconciler meets, the status of a
    request has at most one condition of each type, it never acknowledges a
    generation the object has not reached, and a start time is set only while
    provisioning or configuration is neither done, failed nor timed out, so that
    no deadline is left behind by a finished operation. *)
Theorem nar_invariant n :
  reachable created nar_step n ->
  NoDup (types (Conditions n)) /\ ObservedGeneration n <= Generation n /\
  (HardwareOperationStartTime n <> None -> nar_busy n = true).
Proof. by intros []%reachable_nar_ok. Qed.

(** A timeout is reported once: when the deadline of an operation passed, the
    reconcile whose status update goes through marks that operation timed out,
    clears the start time and acknowledges the generation; no later check of the
    object finds a timeout, and if it was the provisioning, nothing is left for
    the FSM to do. *)
Theorem timeout_once o n k later :
  checkHardwareTimeout (now o) n = TimedOutOn k -> updates o 0 = true ->
  let n' := (HandleNodeAllocationRequest o n).1.1 in
  (exists time message, FindStatusCondition (Conditions n') k =
     Some (mkCondition k ConditionFalse TimedOut message time 0)) /\
  HardwareOperationStartTime n' = None /\ ObservedGeneration n' = Generation n' /\
  checkHardwareTimeout later n' = NotTimedOut /\
  (k = Provisioned -> DetermineAction n' = FSMNoop).
Proof.
  intros Hk Hu n'. pose proof (checkHardwareTimeout_type _ _ _ Hk) as Ht.
  assert (exists message, n' = apply_status_condition (now o) (ConfigTransactionId n) k TimedOut
            ConditionFalse message n) as [message En'].
  { unfold n', HandleNodeAllocationRequest. rewrite Hk. unfold update_condition_k. rewrite Hu.
    eexists. simpl. by case_match. }
  destruct (hw_Find_eq (now o) (Conditions n) k TimedOut ConditionFalse message) as (time & Hf & _).
  assert (Conditions n' = hw_SetStatusCondition (now o) (Conditions n) k TimedOut ConditionFalse message /\
          HardwareOperationStartTime n' = None /\ ObservedGeneration n' = Generation n' /\
          HardwareProvisioningTimeout n' = HardwareProvisioningTimeout n) as (Hc & Hs & Ho & Hto).
  { rewrite En'. by destruct Ht as [-> | ->]. }
  split_and!; [rewrite Hc; eauto|done|done| |].
  - unfold checkHardwareTimeout in *. rewrite Hto. destruct (_ <=? 0); [done|].
    unfold deadline_passed. rewrite Hs. by repeat case_match.
  - intros ->. unfold DetermineAction. rewrite Hc.
    destruct (hw_SetStatusCondition _ _ _ _ _ _) eqn:E; [done|]. rewrite Hf. by simpl.
Qed.

(** An operation that is put in progress while a start time is set keeps that
    start time: the check for a retry after a terminal state reads the condition
    that was just overwritten with reason InProgress, so it never holds, whatever
    the condition was before; and a scale-out that starts while a configuration
    is in progress is timed from the start of the configuration. *)
Theorem InProgress_keeps_start_time t0 txid conditionType message n start :
  HardwareOperationStartTime n = Some start ->
  conditionType = Provisioned \/ conditionType = Configured ->
  HardwareOperationStartTime
    (apply_status_condition t0 txid conditionType InProgress ConditionFalse message n) = Some start.
Proof.
  intros Hs [-> | ->]; unfold apply_status_condition; simpl.
  - unfold provisioned_start. simpl. rewrite Hs. done.
  - unfold configured_start. simpl. rewrite Hs.
    destruct (hw_Find_eq t0 (Conditions n) Configured InProgress ConditionFalse message)
      as (time & -> & _). simpl. done.
Qed.

(** ** The theorems at work *)

Definition example_new : NAR := mkNAR 1 0 None false 0 0 [] None [] true.

Definition example_oracle (t : Z) : oracle :=
  mkOracle t (fun _ => true) true true None None true true (Some false) (Some false) true
    (ConditionTrue, ConfigApplied, "ok"%string) SpokeReady (DoNotRequeue, false) ProgressPartial.

Definition example_running : NAR :=
  mkNAR 1 0 None false 1 0 [mkCondition Provisioned ConditionFalse InProgress "Handling creation" 100 0]
    (Some 100) [] true.

Example nar_invariant_witness :
  NoDup (types (Conditions example_running)) /\
  ObservedGeneration example_running <= Generation example_running /\
  (HardwareOperationStartTime example_running <> None -> nar_busy example_running = true).
Proof.
  apply nar_invariant. exists example_new. split; [repeat split|].
  apply rtc_once. apply (nar_reconcile example_new (example_oracle 100)).
Defined.

Example timeout_once_witness :
  let n' := (HandleNodeAllocationRequest (example_oracle 5500) example_running).1.1 in
  (exists time message, FindStatusCondition (Conditions n') Provisioned =
     Some (mkCondition Provisioned ConditionFalse TimedOut message time 0)) /\
  HardwareOperationStartTime n' = None /\ ObservedGeneration n' = Generation n' /\
  checkHardwareTimeout 9000 n' = NotTimedOut /\
  (Provisioned = Provisioned -> DetermineAction n' = FSMNoop).
Proof. apply (timeout_once (example_oracle 5500) example_running Provisioned 9000); reflexivity. Defined.

(** A configuration that failed, in an object that still carries a start time. *)
Definition example_failed : NAR :=
  mkNAR 2 7 None false 1 6
    [mkCondition Provisioned ConditionTrue Completed "Created" 50 0;
     mkCondition Configured ConditionFalse Failed "no" 100 0] (Some 100) [] true.

Example InProgress_keeps_start_time_witness :
  HardwareOperationStartTime
    (apply_status_condition 9000 7 Configured InProgress ConditionFalse "retry" example_failed) = Some 100.
Proof. apply InProgress_keeps_start_time; [reflexivity|right; reflexivity]. Defined.
