(* ===== verification/MergeMaps.v ===== *)
(** * Deep merge of configuration maps (controllers/utils/merge.go)

    A map is an association list with distinct keys, in some iteration order;
    assigning an existing key keeps its place, a new key goes last.  The model is
    the contents of [dst] after the call, for [dst] and [src] that share no map;
    when the call fails, [dst] is left half merged and is not modelled. *)
From S2P Require Import Prelude.
#[local] Open Scope string_scope.

(** The dynamic values of [any] that configuration data has; a leaf is its type
    and its content. *)
Inductive value : Type :=
| VNil
| VLeaf (typ content : string)
| VMap (m : list (string * value))
| VSlice (l : list value).

Record ByKeyMergeOptions := mkOptions { AllowDuplicateKeys : bool; RejectUnmatchedSrc : bool }.
Record SliceMergeRule := mkRule { rule_Key : string; ByKey : ByKeyMergeOptions }.
Definition SliceMergeRules : Type := list (string * SliceMergeRule).

Inductive mergeError : Type :=
| TypeMismatch (dst src : string)
| ElementMismatch (path : string) (dst src : string)
| NotAMap (side path : string)
| MissingKey (side path key : string)
| DuplicateKey (side path key value : string)
| UnmatchedSrc (path key value : string)
| InKey (key : string) (e : mergeError)
| InElement (path : string) (e : mergeError).

(** ** Paths *)

Definition joinMergePath (parent key : string) : string :=
  if decide (parent = "") then key else parent ++ "." ++ key.
Definition sliceElemMergePath (listPath : string) : string :=
  if decide (listPath = "") then "[]" else listPath ++ "[]".
Definition mergePathLabel (listPath : string) : string :=
  if decide (listPath = "") then "<root>" else listPath.

(** ** Maps; an assignment is [set_key] *)

(** Every map of a value has distinct keys. *)
Inductive distinct : value -> Prop :=
| distinct_nil : distinct VNil
| distinct_leaf t c : distinct (VLeaf t c)
| distinct_map m : NoDup m.*1 -> Forall distinct m.*2 -> distinct (VMap m)
| distinct_slice l : Forall distinct l -> distinct (VSlice l).

(** [reflect.TypeOf], printed. *)
Definition type_of (v : value) : string :=
  match v with
  | VNil => "nil"
  | VLeaf typ _ => "leaf:" ++ typ
  | VMap _ => "map"
  | VSlice _ => "slice"
  end.

(** [itemMap[rule.Key].(string)], non-empty. *)
Definition key_of (rule : SliceMergeRule) (m : list (string * value)) : option string :=
  match assoc_lookup (rule_Key rule) m with
  | Some (VLeaf "string" s) => if decide (s = "") then None else Some s
  | _ => None
  end.

(** The elements of a list of maps, under their keys. *)
Abbreviation keyed := (list (string * list (string * value))).

Section merge.
Context (checkType : bool) (rules : SliceMergeRules).

Abbreviation result := (outcome mergeError).

(** The rule for the slice at a path, when it is by key. *)
Definition by_key_rule (path : string) : option SliceMergeRule :=
  match assoc_lookup path rules with
  | Some rule => if decide (rule_Key rule = "") then None else Some rule
  | None => None
  end.

(** The destination side of deepMergeSlicesByKey: the elements under their keys,
    the index [dstByKey] being the position of the key. *)
Fixpoint index_dst (rule : SliceMergeRule) (path : string) (dst : list value)
    (res : list (string * list (string * value))) : result (list (string * list (string * value))) :=
  match dst with
  | [] => Ret res
  | VMap m :: rest =>
      match key_of rule m with
      | None => Err (MissingKey "destination" (mergePathLabel path) (rule_Key rule))
      | Some k =>
          match assoc_lookup k res with
          | Some _ =>
              if AllowDuplicateKeys (ByKey rule) then index_dst rule path rest (set_key k m res)
              else Err (DuplicateKey "destination" (mergePathLabel path) (rule_Key rule) k)
          | None => index_dst rule path rest (res ++ [(k, m)])%list
          end
      end
  | _ :: _ => Err (NotAMap "destination" (mergePathLabel path))
  end.

(** The value of a key both maps have, [src] being the one that decides; [path]
    is the path of the value. *)
Fixpoint merge_value (src : value) (path : string) (dst : value) : result value :=
  if negb (bool_decide (type_of dst = type_of src)) then
    if checkType then Err (TypeMismatch (type_of dst) (type_of src)) else Ret src
  else
    match src, dst with
    | VMap sm, VMap dm =>
        (* deepMergeMaps *)
        VMap <$> (fix merge_entries sm dm : result (list (string * value)) :=
          match sm with
          | [] => Ret dm
          | (k, v) :: sm' =>
              v' ← match assoc_lookup k dm with
                   | None => Ret v
                   | Some d => map_err (InKey k) (merge_value v (joinMergePath path k) d)
                   end;
              merge_entries sm' (set_key k v' dm)
          end) sm dm
    | VSlice ss, VSlice ds =>
        match by_key_rule path with
        | None =>
            (* deepMergeSlicesByIndex *)
            VSlice <$> (fix merge_index ss ds : result (list value) :=
              match ss, ds with
              | [], _ => Ret ds
              | _, [] => Ret ss
              | s :: ss', d :: ds' =>
                  e ← (if negb (bool_decide (type_of d = type_of s)) then
                         if checkType
                         then Err (ElementMismatch (mergePathLabel path) (type_of d) (type_of s))
                         else Ret s
                       else match s with
                            | VMap _ => map_err (InElement (mergePathLabel path))
                                          (merge_value s (sliceElemMergePath path) d)
                            | _ => Ret s
                            end);
                  es ← merge_index ss' ds'; Ret (e :: es)
              end) ss ds
        | Some rule =>
            (* deepMergeSlicesByKey *)
            res ← index_dst rule path ds [];
            res ← (fix merge_keyed ss (seen : list string) res
                       : result (list (string * list (string * value))) :=
              match ss with
              | [] => Ret res
              | s :: ss' =>
                  match s with
                  | VMap sm =>
                      match key_of rule sm with
                      | None => Err (MissingKey "source" (mergePathLabel path) (rule_Key rule))
                      | Some k =>
                          if bool_decide (k ∈ seen) && negb (AllowDuplicateKeys (ByKey rule))
                          then Err (DuplicateKey "source" (mergePathLabel path) (rule_Key rule) k)
                          else
                            match assoc_lookup (V := list (string * value)) k res with
                            | Some dm =>
                                m ← map_err (InElement (mergePathLabel path))
                                      (merge_value s (sliceElemMergePath path) (VMap dm));
                                match m with
                                | VMap m => merge_keyed ss' (k :: seen) (set_key k m res)
                                | _ => Panic
                                end
                            | None =>
                                if RejectUnmatchedSrc (ByKey rule)
                                then Err (UnmatchedSrc (mergePathLabel path) (rule_Key rule) k)
                                else merge_keyed ss' (k :: seen) (res ++ [(k, sm)])%list
                            end
                      end
                  | _ => Err (NotAMap "source" (mergePathLabel path))
                  end
              end) ss [] res;
            Ret (VSlice (map (fun '(_, m) => VMap m) res))
        end
    | _, _ => Ret src
    end.

(** The three loops, as functions of their own. *)
Fixpoint deepMergeMaps (dst src : list (string * value)) (path : string)
    : result (list (string * value)) :=
  match src with
  | [] => Ret dst
  | (k, v) :: src' =>
      v' ← match assoc_lookup k dst with
           | None => Ret v
           | Some d => map_err (InKey k) (merge_value v (joinMergePath path k) d)
           end;
      deepMergeMaps (set_key k v' dst) src' path
  end.

Definition merge_elem (listPath : string) (s d : value) : result value :=
  if negb (bool_decide (type_of d = type_of s)) then
    if checkType then Err (ElementMismatch (mergePathLabel listPath) (type_of d) (type_of s))
    else Ret s
  else match s with
       | VMap _ => map_err (InElement (mergePathLabel listPath))
                     (merge_value s (sliceElemMergePath listPath) d)
       | _ => Ret s
       end.

Fixpoint deepMergeSlicesByIndex (dst src : list value) (listPath : string)
    {struct src} : result (list value) :=
  match src, dst with
  | [], _ => Ret dst
  | _, [] => Ret src
  | s :: src', d :: dst' =>
      e ← merge_elem listPath s d;
      es ← deepMergeSlicesByIndex dst' src' listPath; Ret (e :: es)
  end.

Fixpoint merge_src (rule : SliceMergeRule) (listPath : string) (src : list value)
    (seen : list string) (res : keyed) : result keyed :=
  match src with
  | [] => Ret res
  | VMap sm :: src' =>
      match key_of rule sm with
      | None => Err (MissingKey "source" (mergePathLabel listPath) (rule_Key rule))
      | Some k =>
          if bool_decide (k ∈ seen) && negb (AllowDuplicateKeys (ByKey rule))
          then Err (DuplicateKey "source" (mergePathLabel listPath) (rule_Key rule) k)
          else
            match assoc_lookup k res with
            | Some dm =>
                m ← map_err (InElement (mergePathLabel listPath))
                      (deepMergeMaps dm sm (sliceElemMergePath listPath));
                merge_src rule listPath src' (k :: seen) (set_key k m res)
            | None =>
                if RejectUnmatchedSrc (ByKey rule)
                then Err (UnmatchedSrc (mergePathLabel listPath) (rule_Key rule) k)
                else merge_src rule listPath src' (k :: seen) (res ++ [(k, sm)])%list
            end
      end
  | _ :: _ => Err (NotAMap "source" (mergePathLabel listPath))
  end.

Definition deepMergeSlicesByKey (rule : SliceMergeRule) (dst src : list value)
    (listPath : string) : result (list value) :=
  res ← index_dst rule listPath dst [];
  res ← merge_src rule listPath src [] res;
  Ret (map (fun '(_, m) => VMap m) res).

Definition DeepMergeMaps (dst src : list (string * value)) : result (list (string * value)) :=
  deepMergeMaps dst src "".
End merge.

(** ** Lemmas *)

Lemma value_induction (P : value -> Prop) :
  P VNil -> (forall t c, P (VLeaf t c)) ->
  (forall m, Forall P m.*2 -> P (VMap m)) ->
  (forall l, Forall P l -> P (VSlice l)) -> forall v, P v.
Proof.
  intros Hnil Hleaf Hmap Hslice. fix IH 1. intros [| |m|l]; [done|done|apply Hmap|apply Hslice].
  - induction m as [|[k v] m IHm]; constructor; [apply IH|done].
  - induction l as [|v l IHl]; constructor; [apply IH|done].
Qed.

Section facts.
Context (checkType : bool) (rules : SliceMergeRules).

Abbreviation merge_value := (merge_value checkType rules).
Abbreviation deepMergeMaps := (deepMergeMaps checkType rules).
Abbreviation deepMergeSlicesByIndex := (deepMergeSlicesByIndex checkType rules).
Abbreviation deepMergeSlicesByKey := (deepMergeSlicesByKey checkType rules).
Abbreviation merge_src := (merge_src checkType rules).
Abbreviation merge_elem := (merge_elem checkType rules).

Lemma merge_value_maps sm dm path :
  merge_value (VMap sm) path (VMap dm) = VMap <$> deepMergeMaps dm sm path.
Proof.
  simpl. f_equal. revert dm. induction sm as [|[k v] sm IH]; intros dm; simpl; [done|].
  match goal with |- (?m ≫= _) = (?m ≫= _) => destruct m end; simpl; auto.
Qed.

(** The merge rules of the comment of [DeepMergeMaps], key by key. *)
Definition merged (path k : string) (d s r : option value) : Prop :=
  match d, s with
  | None, _ => r = s
  | Some _, None => r = d
  | Some d, Some s => exists v, merge_value s (joinMergePath path k) d = Ret v /\ r = Some v
  end.

Lemma deepMergeMaps_lookup dst src path res :
  NoDup src.*1 -> deepMergeMaps dst src path = Ret res ->
  forall k, merged path k (assoc_lookup k dst) (assoc_lookup k src) (assoc_lookup k res).
Proof.
  intros Hnd. revert dst. induction src as [|[k v] src IH]; intros dst.
  { simpl. intros [= ->] k. unfold merged. by destruct (assoc_lookup k res). }
  apply NoDup_cons in Hnd as [Hk%lookup_None Hnd]; simpl in Hk. simpl. intros Hm.
  apply bind_Ret in Hm as (v' & Hv & Hm). intros j. specialize (IH Hnd _ Hm j).
  case_decide as E.
  - subst j. rewrite lookup_set_key_eq, Hk in IH. simpl in IH. rewrite IH.
    destruct (assoc_lookup k dst) as [d|]; simpl in *; [|by simplify_eq].
    exists v'. destruct (merge_value v _ d); simplify_eq/=. done.
  - by rewrite lookup_set_key_ne in IH by congruence.
Qed.

Lemma merge_value_slices ss ds path :
  merge_value (VSlice ss) path (VSlice ds)
  = VSlice <$> match by_key_rule rules path with
               | None => deepMergeSlicesByIndex ds ss path
               | Some rule => deepMergeSlicesByKey rule ds ss path
               end.
Proof.
  simpl. destruct (by_key_rule rules path) as [rule|].
  - unfold MergeMaps.deepMergeSlicesByKey. destruct (index_dst rule path ds []) as [res| | |]; try done.
    simpl. match goal with |- ?a ≫= _ = _ <$> (?b ≫= _) => cut (a = b); [by intros ->; destruct b|] end.
    generalize (@nil string). revert res.
    induction ss as [|s ss IH]; intros res seen; simpl; [done|].
    destruct s as [| |sm|]; try done. destruct (key_of rule sm) as [k|]; [|done].
    destruct (_ && _); [done|]. destruct (assoc_lookup k res) as [dm|].
    + rewrite merge_value_maps. destruct (deepMergeMaps dm sm _); simpl; auto.
    + destruct (RejectUnmatchedSrc _); auto.
  - simpl. f_equal. revert ds.
    induction ss as [|s ss IH]; intros [|d ds]; simpl; try done.
    fold (merge_elem path s d). destruct (merge_elem path s d); simpl; try done. by rewrite IH.
Qed.

Lemma merge_value_other s path d :
  type_of d <> type_of s -> checkType = false -> merge_value s path d = Ret s.
Proof.
  intros Hne Hc. destruct s; cbn [MergeMaps.merge_value]; rewrite bool_decide_false by done; cbn;
    by rewrite Hc.
Qed.

(** The cases of the merge of one value. *)
Inductive merge_case (path : string) : value -> value -> value -> Prop :=
| case_override s d : type_of d <> type_of s -> checkType = false -> merge_case path s d s
| case_leaf s d : merge_value s path d = Ret s ->
    (forall d', type_of d' = type_of s -> merge_value s path d' = Ret s) -> merge_case path s d s
| case_maps sm dm m : deepMergeMaps dm sm path = Ret m -> merge_case path (VMap sm) (VMap dm) (VMap m)
| case_slices ss ds l :
    match by_key_rule rules path with
    | None => deepMergeSlicesByIndex ds ss path
    | Some rule => deepMergeSlicesByKey rule ds ss path
    end = Ret l -> merge_case path (VSlice ss) (VSlice ds) (VSlice l).

Lemma leaf_same s path d :
  match s with VNil | VLeaf _ _ => True | _ => False end ->
  type_of d = type_of s -> merge_value s path d = Ret s.
Proof. by destruct s; intros ? E; cbn; rewrite bool_decide_true by done. Qed.

Lemma merge_value_case s path d r : merge_value s path d = Ret r -> merge_case path s d r.
Proof.
  intros H. destruct (decide (type_of d = type_of s)) as [E|E].
  - assert (Hleaf : match s with VNil | VLeaf _ _ => True | _ => False end -> merge_case path s d r).
    { intros Hl. pose proof (leaf_same s path d Hl E) as Hs. rewrite Hs in H. simplify_eq.
      apply case_leaf; [done|]. intros d' E'. by apply leaf_same. }
    destruct s as [|t c|sm|ss]; try by apply Hleaf.
    all: destruct d as [|t' c'|dm|ds]; try done.
    + rewrite merge_value_maps in H. apply fmap_Ret in H as (m & Hm & ->). by constructor.
    + rewrite merge_value_slices in H. apply fmap_Ret in H as (l & Hl & ->). by constructor.
  - destruct s; cbn [MergeMaps.merge_value] in H; rewrite bool_decide_false in H by done;
      cbn in H; destruct checkType eqn:Hc; simplify_eq; by apply case_override.
Qed.

Lemma merge_value_type s path d r : merge_value s path d = Ret r -> type_of r = type_of s.
Proof. by intros [] %merge_value_case. Qed.

(** A source that the destination already reflects leaves it as it is. *)
Lemma deepMergeMaps_absorbed dm sm path :
  Forall (fun '(k, v) => exists d, assoc_lookup k dm = Some d /\
                                   merge_value v (joinMergePath path k) d = Ret d) sm ->
  deepMergeMaps dm sm path = Ret dm.
Proof.
  induction 1 as [|[k v] sm (d & Hd & Hv) _ IH]; simpl; [done|].
  rewrite Hd, Hv. simpl. by rewrite set_key_same.
Qed.

Lemma deepMergeSlices_absorbed ds ss path :
  Forall2 (fun s d => merge_elem path s d = Ret d) ss (take (length ss) ds) ->
  length ss <= length ds -> deepMergeSlicesByIndex ds ss path = Ret ds.
Proof.
  revert ds. induction ss as [|s ss IH]; intros [|d ds] Hf Hlen; simpl in *; try done; try lia.
  apply Forall2_cons in Hf as [-> Hf]. simpl. rewrite IH; [done|done|lia].
Qed.

Lemma merge_elem_value path s d r :
  merge_elem path s d = Ret r ->
  r = s \/ exists m, s = VMap m /\ merge_value s (sliceElemMergePath path) d = Ret r.
Proof.
  unfold MergeMaps.merge_elem. intros Hr. destruct (negb _); [destruct checkType; simplify_eq; auto|].
  destruct s; simplify_eq; auto. right. destruct (merge_value _ _ _) eqn:E; simplify_eq/=. eauto.
Qed.

Lemma merge_elem_absorbed path s d :
  type_of d = type_of s ->
  (forall m, s = VMap m -> merge_value s (sliceElemMergePath path) d = Ret d) ->
  (forall t c, s = VLeaf t c -> d = s) -> (forall l, s = VSlice l -> d = s) ->
  merge_elem path s d = Ret d.
Proof.
  intros E Hm Hl Hs. unfold MergeMaps.merge_elem. rewrite bool_decide_true by done. simpl.
  destruct s; simpl in *; [by destruct d|by rewrite (Hl _ _ eq_refl)| |by rewrite (Hs _ eq_refl)].
  by rewrite (Hm _ eq_refl).
Qed.

Section by_index.
Context (Hindex : forall path, by_key_rule rules path = None).

Lemma merge_self s path : distinct s -> merge_value s path s = Ret s.
Proof.
  revert path. induction s as [| |m IH|l IH] using value_induction; intros path Hd.
  1,2: by apply leaf_same.
  - inversion Hd as [| |? Hnd Hm|]; subst. rewrite merge_value_maps, deepMergeMaps_absorbed; [done|].
    apply Forall_forall. intros [k v] Hin. exists v.
    split; [by apply lookup_NoDup|].
    assert (Hv : v ∈ m.*2) by (apply list_elem_of_fmap; by exists (k, v)).
    rewrite Forall_forall in IH, Hm. by apply (IH _ Hv), (Hm _ Hv).
  - inversion Hd as [| | |? Hl]; subst.
    rewrite merge_value_slices, Hindex, deepMergeSlices_absorbed; [done| |done].
    rewrite take_ge by done. rewrite Forall_forall in IH, Hl.
    apply Forall2_same_length_lookup_2; [done|]. intros i x y Hx Hy. simplify_eq.
    apply merge_elem_absorbed; try done. intros ? _.
    apply IH; [by eapply list_elem_of_lookup_2|]. by eapply Hl, list_elem_of_lookup_2.
Qed.

Lemma merge_elem_self s path : distinct s -> merge_elem path s s = Ret s.
Proof. intros Hd. apply merge_elem_absorbed; try done. intros ? _. by apply merge_self. Qed.

Lemma merge_elem_again s path d r :
  (forall path d r, merge_value s path d = Ret r -> merge_value s path r = Ret r) ->
  distinct s -> merge_elem path s d = Ret r -> merge_elem path s r = Ret r.
Proof.
  intros Hagain Hd [->|(m & -> & Hm)]%merge_elem_value; [by apply merge_elem_self|].
  apply merge_elem_absorbed; try done; [by eapply merge_value_type|].
  intros ? _. by eapply Hagain.
Qed.

Lemma merge_slices_again ss ds path l :
  Forall (fun s => forall path d r, merge_value s path d = Ret r -> merge_value s path r = Ret r) ss ->
  Forall distinct ss -> deepMergeSlicesByIndex ds ss path = Ret l ->
  deepMergeSlicesByIndex l ss path = Ret l.
Proof.
  intros Hf. revert ds l. induction Hf as [|s ss Hs Hf IH]; intros ds l Hd H; [done|].
  apply Forall_cons in Hd as [Hds Hdss]. destruct ds as [|d ds]; simpl in H.
  - simplify_eq. apply deepMergeSlices_absorbed; [|done]. rewrite take_ge by done.
    apply Forall2_same_length_lookup_2; [done|]. intros i x y Hx Hy. simplify_eq.
    apply merge_elem_self. assert (Hall : Forall distinct (s :: ss)) by by constructor.
    rewrite Forall_forall in Hall. by eapply Hall, list_elem_of_lookup_2.
  - apply bind_Ret in H as (e & He & H). apply bind_Ret in H as (es & Hes & [= <-]). simpl.
    rewrite (merge_elem_again _ _ _ _ Hs Hds He). simpl. by rewrite (IH _ _ Hdss Hes).
Qed.

Lemma merge_maps_again sm dm path m :
  Forall (fun s => forall path d r, merge_value s path d = Ret r -> merge_value s path r = Ret r) sm.*2 ->
  NoDup sm.*1 -> Forall distinct sm.*2 -> deepMergeMaps dm sm path = Ret m ->
  deepMergeMaps m sm path = Ret m.
Proof.
  intros Hf Hnd Hd H. apply deepMergeMaps_absorbed, Forall_forall. intros [k v] Hin.
  pose proof (deepMergeMaps_lookup _ _ _ _ Hnd H k) as Hk.
  rewrite (lookup_NoDup k v sm Hnd Hin) in Hk.
  assert (Hv : v ∈ sm.*2) by (apply list_elem_of_fmap; by exists (k, v)).
  rewrite Forall_forall in Hf, Hd. destruct (assoc_lookup k dm) as [d|]; simpl in Hk.
  - destruct Hk as (v' & Hv' & ->). eauto.
  - exists v. split; [done|]. apply merge_self. auto.
Qed.

Lemma merge_again s : distinct s ->
  forall path d r, merge_value s path d = Ret r -> merge_value s path r = Ret r.
Proof.
  induction s as [| |sm IH|ss IH] using value_induction; intros Hd path d r H;
    pose proof (merge_value_case _ _ _ _ H) as Hc; inversion Hc; subst;
    try by apply merge_self.
  - inversion Hd as [| |? Hnd Hm|]; subst. rewrite merge_value_maps.
    erewrite merge_maps_again; [done| |done|done|done].
    apply Forall_forall. intros v Hv. rewrite Forall_forall in IH, Hm.
    exact (IH v Hv (Hm v Hv)).
  - inversion Hd as [| | |? Hl]; subst. rewrite merge_value_slices, Hindex in *.
    erewrite merge_slices_again; [done| |done|done].
    apply Forall_forall. intros v Hv. rewrite Forall_forall in IH, Hl.
    exact (IH v Hv (Hl v Hv)).
Qed.

Lemma deepMergeMaps_total sm dm path :
  checkType = false ->
  Forall (fun s => forall path d, exists r, merge_value s path d = Ret r) sm.*2 ->
  exists m, deepMergeMaps dm sm path = Ret m.
Proof.
  intros Hc. revert dm. induction sm as [|[k v] sm IH]; intros dm Hf; simpl; [by eexists|].
  apply Forall_cons in Hf as [Hv Hf]; simpl in Hv. destruct (assoc_lookup k dm) as [d|]; simpl; [|by apply IH].
  destruct (Hv (joinMergePath path k) d) as [r ->]. by apply IH.
Qed.

Lemma deepMergeSlices_total ss ds path :
  checkType = false ->
  Forall (fun s => forall path d, exists r, merge_value s path d = Ret r) ss ->
  exists l, deepMergeSlicesByIndex ds ss path = Ret l.
Proof.
  intros Hc Hf. revert ds. induction Hf as [|s ss Hs _ IH]; intros [|d ds]; simpl; try by eexists.
  destruct (IH ds) as [l ->]. unfold MergeMaps.merge_elem. rewrite Hc.
  destruct (negb _); [by eexists|]. destruct s; try by eexists.
  destruct (Hs (sliceElemMergePath path) d) as [r Hr]. rewrite Hc in Hr. rewrite Hr. by eexists.
Qed.

Lemma merge_value_total s : checkType = false -> forall path d, exists r, merge_value s path d = Ret r.
Proof.
  intros Hc. induction s as [| |sm IH|ss IH] using value_induction; intros path d.
  all: match goal with |- exists r, MergeMaps.merge_value _ _ ?s _ _ = _ =>
         destruct (decide (type_of d = type_of s)) as [E|E];
           [|exists s; by apply merge_value_other] end.
  1,2: eexists; by apply leaf_same.
  - destruct d as [| |dm|]; try done. destruct (deepMergeMaps_total sm dm path Hc IH) as [m Hm].
    exists (VMap m). by rewrite merge_value_maps, Hm.
  - destruct d as [| | |ds]; try done. destruct (deepMergeSlices_total ss ds path Hc IH) as [l Hl].
    exists (VSlice l). by rewrite merge_value_slices, Hindex, Hl.
Qed.
End by_index.

(** ** Slices merged by key *)

Definition entries (l : keyed) : list value := map (fun '(_, m) => VMap m) l.
Definition keys_ok (rule : SliceMergeRule) (l : keyed) : Prop :=
  Forall (fun '(k, m) => key_of rule m = Some k) l.

Lemma NoDup_keys_snoc k m (res : keyed) :
  NoDup res.*1 -> k ∉ res.*1 -> NoDup (res ++ [(k, m)])%list.*1.
Proof.
  intros Hnd Hk. rewrite fmap_app. apply NoDup_app. repeat split; [done| |apply NoDup_singleton].
  by intros x Hx ->%list_elem_of_singleton.
Qed.

(** An entry of the source in front of the others. *)
Lemma source_entry_cons rule k sm (S : keyed) seen :
  key_of rule sm = Some k -> k ∉ seen -> keys_ok rule S -> NoDup S.*1 ->
  (forall j, j ∈ S.*1 -> j ∉ k :: seen) ->
  (k ∉ S.*1) /\ keys_ok rule ((k, sm) :: S) /\ NoDup ((k, sm) :: S).*1 /\
  (forall j, j ∈ ((k, sm) :: S).*1 -> j ∉ seen).
Proof.
  intros Hk Hseen Hok Hnd Hnew.
  assert (HkS : k ∉ S.*1) by (intros Hin; apply (Hnew k Hin), list_elem_of_here).
  repeat split; [done|by constructor|by constructor|].
  intros j [->|Hj]%elem_of_cons; [done|]. intros ?. by eapply Hnew, list_elem_of_further.
Qed.

Lemma index_dst_spec rule path dst acc res :
  AllowDuplicateKeys (ByKey rule) = false -> NoDup acc.*1 ->
  index_dst rule path dst acc = Ret res ->
  exists D : keyed, dst = entries D /\ res = (acc ++ D)%list /\ keys_ok rule D /\ NoDup res.*1.
Proof.
  intros Ha. revert acc. induction dst as [|d dst IH]; intros acc Hnd H; simpl in H.
  { simplify_eq. exists []. rewrite app_nil_r. by repeat split; try constructor. }
  destruct d as [| |m|]; try done. destruct (key_of rule m) as [k|] eqn:Hk; [|done].
  rewrite Ha in H. destruct (assoc_lookup k acc) eqn:Hl; [done|]. apply lookup_None in Hl.
  destruct (IH _ (NoDup_keys_snoc _ _ _ Hnd Hl) H) as (D & -> & -> & Hf & Hnd'). exists ((k, m) :: D).
  rewrite <- app_assoc in *. repeat split; [by constructor|done].
Qed.

(** What becomes of one entry of the destination, given those of the source. *)
Definition by_key_elem (path : string) (src : keyed) (d r : string * list (string * value)) : Prop :=
  d.1 = r.1 /\
  match assoc_lookup d.1 src with
  | None => r.2 = d.2
  | Some sm => deepMergeMaps d.2 sm (sliceElemMergePath path) = Ret r.2
  end.

Lemma by_key_elem_cons path k sm src d r :
  d.1 <> k -> by_key_elem path ((k, sm) :: src) d r <-> by_key_elem path src d r.
Proof. intros Hne. unfold by_key_elem. simpl. by rewrite decide_False by congruence. Qed.

Lemma by_key_elems_cons path k sm src res M :
  k ∉ res.*1 -> Forall2 (by_key_elem path src) res M ->
  Forall2 (by_key_elem path ((k, sm) :: src)) res M.
Proof.
  intros Hk Hf. induction Hf as [|d r res M Hd _ IH]; constructor.
  - apply by_key_elem_cons; [|done]. intros <-. apply Hk, list_elem_of_here.
  - apply IH. intros ?. by apply Hk, list_elem_of_further.
Qed.

Lemma by_key_elems_set path k sm dm m src res M :
  NoDup res.*1 -> assoc_lookup k res = Some dm ->
  deepMergeMaps dm sm (sliceElemMergePath path) = Ret m -> assoc_lookup k src = None ->
  Forall2 (by_key_elem path src) (set_key k m res) M ->
  Forall2 (by_key_elem path ((k, sm) :: src)) res M.
Proof.
  intros Hnd Hl Hm Hs. revert M Hnd Hl. induction res as [|[j w] res IH]; intros M Hnd Hl Hf; [done|].
  simpl in *. apply NoDup_cons in Hnd as [Hj Hnd]. case_decide as E.
  - subst j. simplify_eq. apply Forall2_cons_inv_l in Hf as ([j' r] & M' & [Hk Hr] & Hf & ->).
    simpl in *. subst j'. rewrite Hs in Hr. subst r. constructor; [|by apply by_key_elems_cons].
    split; simpl; [done|]. by rewrite decide_True.
  - apply Forall2_cons_inv_l in Hf as (r & M' & Hr & Hf & ->).
    constructor; [by apply by_key_elem_cons|by apply IH].
Qed.

Definition unmatched (res src : keyed) : keyed := filter (fun km => km.1 ∉ res.*1) src.

Lemma unmatched_keys (res res' src : keyed) :
  (forall k, k ∈ src.*1 -> k ∈ res.*1 <-> k ∈ res'.*1) -> unmatched res src = unmatched res' src.
Proof.
  unfold unmatched. induction src as [|[k m] src IH]; intros H; [done|].
  rewrite !filter_cons. simpl. specialize (H k (list_elem_of_here _ _)) as Hk.
  rewrite IH by (intros; apply H; by apply list_elem_of_further).
  repeat case_decide; naive_solver.
Qed.

Lemma merge_src_spec rule path src seen res R :
  AllowDuplicateKeys (ByKey rule) = false -> NoDup res.*1 ->
  merge_src rule path src seen res = Ret R ->
  exists S M : keyed,
    src = entries S /\ keys_ok rule S /\ NoDup S.*1 /\ (forall k, k ∈ S.*1 -> k ∉ seen) /\
    Forall2 (by_key_elem path S) res M /\ R = (M ++ unmatched res S)%list /\
    (RejectUnmatchedSrc (ByKey rule) = true -> unmatched res S = []).
Proof.
  intros Ha. revert seen res. induction src as [|s src IH]; intros seen res Hnd H; simpl in H.
  { simplify_eq. exists [], R. repeat split; try done; try constructor.
    - by intros k ?%elem_of_nil.
    - apply Forall2_same_length_lookup_2; [done|]. intros; by simplify_eq.
    - by rewrite app_nil_r. }
  destruct s as [| |sm|]; try done. destruct (key_of rule sm) as [k|] eqn:Hk; [|done].
  rewrite Ha, andb_true_r in H. case_bool_decide as Hseen; [done|].
  destruct (assoc_lookup k res) as [dm|] eqn:Hl.
  - apply bind_Ret in H as (m & Hm & H). apply map_err_Ret in Hm.
    pose proof (set_key_keys k m dm res Hl) as Hkeys.
    destruct (IH (k :: seen) (set_key k m res)) as (S & M & -> & Hok & HndS & Hnew & Hf & -> & Hr);
      [by rewrite Hkeys|done|].
    destruct (source_entry_cons rule k sm S seen) as (HkS & ? & ? & ?); try done.
    assert (Hkr : k ∈ res.*1) by (apply assoc_lookup_elem in Hl; apply list_elem_of_fmap; by exists (k, dm)).
    assert (Hun : unmatched res ((k, sm) :: S) = unmatched (set_key k m res) S).
    { unfold unmatched. rewrite filter_cons_False by naive_solver. by rewrite Hkeys. }
    exists ((k, sm) :: S), M. rewrite Hun. repeat split; try done.
    + by eapply by_key_elems_set; [|done|done|apply lookup_None|].
  - destruct (RejectUnmatchedSrc _) eqn:Hrej; [done|]. pose proof Hl as Hkr. apply lookup_None in Hkr.
    destruct (IH (k :: seen) (res ++ [(k, sm)])%list) as (S & M & -> & Hok & HndS & Hnew & Hf & -> & Hr);
      [by apply NoDup_keys_snoc|done|].
    destruct (source_entry_cons rule k sm S seen) as (HkS & ? & ? & ?); try done.
    apply Forall2_app_inv_l in Hf as (M1 & M2 & Hf1 & Hf2 & ->).
    apply Forall2_cons_inv_l in Hf2 as ([j r] & M3 & [Hj Hjr] & ->%Forall2_nil_inv_l & ->).
    simpl in *. subst j. apply lookup_None in HkS as HkS'. rewrite HkS' in Hjr. subst r.
    exists ((k, sm) :: S), M1. repeat split; try done.
    + by apply by_key_elems_cons.
    + rewrite <- app_assoc. f_equal. unfold unmatched at 2.
      rewrite filter_cons_True by done. simpl. f_equal.
      apply unmatched_keys. intros x Hx. rewrite fmap_app, elem_of_app. simpl. rewrite list_elem_of_singleton.
      split; [by intros [?| ->]|by left].
Qed.

(** The order in which the map iteration of Go visits the source. *)
Lemma deepMergeMaps_order dst src src' path res res' :
  NoDup src.*1 -> src ≡ₚ src' -> deepMergeMaps dst src path = Ret res ->
  deepMergeMaps dst src' path = Ret res' -> forall k, assoc_lookup k res = assoc_lookup k res'.
Proof.
  intros Hnd Hp H H' k. assert (Hnd' : NoDup src'.*1) by by rewrite <- Hp.
  pose proof (deepMergeMaps_lookup _ _ _ _ Hnd H k) as Hk.
  pose proof (deepMergeMaps_lookup _ _ _ _ Hnd' H' k) as Hk'.
  assert (E : assoc_lookup k src = assoc_lookup k src').
  { destruct (assoc_lookup k src) as [v|] eqn:Hl.
    - symmetry. apply lookup_NoDup; [done|]. rewrite <- Hp. by apply assoc_lookup_elem.
    - symmetry. apply lookup_None. rewrite <- Hp. by apply lookup_None. }
  rewrite <- E in Hk'. unfold merged in *.
  destruct (assoc_lookup k dst), (assoc_lookup k src); naive_solver congruence.
Qed.
End facts.

(** ** Properties *)

(** [DeepMergeMaps] follows the merge rules of its comment for every key: a
    key only one map has keeps its value, a key both have gets the merge of the two
    values (rules for nested maps and lists included); and the order in which Go's
    random map iteration visits the source does not show in the result. *)
Theorem DeepMergeMaps_spec checkType rules dst src res :
  NoDup src.*1 -> DeepMergeMaps checkType rules dst src = Ret res ->
  (forall k, match assoc_lookup k dst, assoc_lookup k src with
             | None, s => assoc_lookup k res = s
             | Some d, None => assoc_lookup k res = Some d
             | Some d, Some s => exists v, merge_value checkType rules s k d = Ret v /\
                                           assoc_lookup k res = Some v
             end) /\
  (forall src' res', src ≡ₚ src' -> DeepMergeMaps checkType rules dst src' = Ret res' ->
     forall k, assoc_lookup k res = assoc_lookup k res').
Proof.
  intros Hnd H. split.
  - intros k. pose proof (deepMergeMaps_lookup _ _ _ _ _ _ Hnd H k) as Hk.
    unfold merged in Hk. by destruct (assoc_lookup k dst), (assoc_lookup k src).
  - intros src' res' Hp H'. by eapply deepMergeMaps_order.
Qed.

(** Without a by-key rule and with types not checked, [DeepMergeMaps] always
    succeeds, and merging the same source once more changes nothing. *)
Theorem DeepMergeMaps_idempotent rules dst src :
  (forall path, by_key_rule rules path = None) -> distinct (VMap src) ->
  exists res, DeepMergeMaps false rules dst src = Ret res /\
              DeepMergeMaps false rules res src = Ret res.
Proof.
  intros Hi Hd. destruct (deepMergeMaps_total false rules src dst "" eq_refl) as [res H].
  { apply Forall_forall. intros v _. by apply merge_value_total. }
  exists res. split; [done|]. inversion Hd as [| |? Hnd Hm|]; subst.
  eapply merge_maps_again; [done| |done|done|done].
  apply Forall_forall. intros v Hv. rewrite Forall_forall in Hm. apply merge_again; auto.
Qed.

(** C37: merging two lists by key, duplicate keys not allowed: every element of
    both is a map with a non-empty string key, the keys are distinct on each side,
    and the result is the destination's elements in their order, each one merged
    with the source's element of the same key or kept when there is none, followed
    by the unmatched elements of the source in their order; there are none of these
    when the rule rejects them. *)
Theorem deepMergeSlicesByKey_spec checkType rules rule dst src path res :
  AllowDuplicateKeys (ByKey rule) = false ->
  deepMergeSlicesByKey checkType rules rule dst src path = Ret res ->
  exists D S M : keyed,
    dst = entries D /\ src = entries S /\ keys_ok rule D /\ keys_ok rule S /\
    NoDup D.*1 /\ NoDup S.*1 /\
    Forall2 (by_key_elem checkType rules path S) D M /\
    res = entries (M ++ unmatched D S)%list /\
    (RejectUnmatchedSrc (ByKey rule) = true -> unmatched D S = []).
Proof.
  intros Ha H. apply bind_Ret in H as (R0 & H0 & H). apply bind_Ret in H as (R & HR & [= <-]).
  destruct (index_dst_spec _ _ _ [] _ Ha (NoDup_nil_2) H0) as (D & -> & -> & HD & Hnd).
  destruct (merge_src_spec _ _ _ _ _ _ _ _ Ha Hnd HR) as (S & M & -> & HS & HndS & _ & Hf & -> & Hr).
  by exists D, S, M.
Qed.

(** ** Witnesses *)

Definition leaf (s : string) : value := VLeaf "string" s.
Definition defaults : list (string * value) :=
  [("site", leaf "lab"); ("labels", VMap [("zone", leaf "a"); ("role", leaf "master")]);
   ("dns", VSlice [leaf "10.0.0.1"; leaf "10.0.0.2"])].
Definition input : list (string * value) :=
  [("name", leaf "c1"); ("labels", VMap [("zone", leaf "b")]); ("dns", VSlice [leaf "10.0.0.9"])].
Definition group (name : string) (n : nat) : list (string * value) :=
  [("name", leaf name); ("size", VLeaf "float64" (if n is 0 then "0" else "3"))].
Definition node_rule : SliceMergeRule := mkRule "name" (mkOptions false true).

Lemma DeepMergeMaps_spec_witness :
  exists res, DeepMergeMaps true [] defaults input = Ret res /\
    assoc_lookup "site" res = Some (leaf "lab") /\ assoc_lookup "name" res = Some (leaf "c1") /\
    assoc_lookup "labels" res = Some (VMap [("zone", leaf "b"); ("role", leaf "master")]).
Proof.
  eexists. split; [reflexivity|].
  edestruct (DeepMergeMaps_spec true [] defaults input) as [Hl _];
    [by apply (bool_decide_unpack _); vm_compute|reflexivity|].
  split; [exact (Hl "site")|split; [exact (Hl "name")|]].
  destruct (Hl "labels") as (v & Hv & ->). by vm_compute in Hv; simplify_eq.
Defined.

Lemma DeepMergeMaps_idempotent_witness :
  exists res, DeepMergeMaps false [] defaults input = Ret res /\
              DeepMergeMaps false [] res input = Ret res.
Proof.
  apply (DeepMergeMaps_idempotent [] defaults input); [done|].
  repeat first [apply Forall_nil | apply Forall_cons; split | constructor
               | by apply (bool_decide_unpack _); vm_compute].
Defined.

Lemma deepMergeSlicesByKey_spec_witness :
  exists res, deepMergeSlicesByKey false [] node_rule
      [VMap (group "a" 0); VMap (group "b" 0)] [VMap (group "b" 1)] "nodeGroups" = Ret res /\
    res = [VMap (group "a" 0); VMap (group "b" 1)] /\ exists D S M : keyed, res = entries (M ++ unmatched D S)%list.
Proof.
  eexists. split; [reflexivity|]. split; [reflexivity|].
  edestruct (deepMergeSlicesByKey_spec false [] node_rule [VMap (group "a" 0); VMap (group "b" 0)]
               [VMap (group "b" 1)] "nodeGroups") as (D & S & M & _ & _ & _ & _ & _ & _ & _ & HM & _);
    [reflexivity|reflexivity|]. by exists D, S, M.
Defined.
