(* ===== verification/ReflectorStore.v ===== *)
(** * The reflector store (service/common/async/store.go)

    The store takes the changes a Kubernetes reflector reports and hands them to a
    collector.  Producers call [Add], [Update], [Delete] and [Replace] from the
    reflector's goroutine; [Receive] runs in another one.  The shared state has the
    queue and the [ready] channel of capacity one; [store_step] interleaves the two
    goroutines.  A send on the full channel would hold the mutex forever, which
    [blocked] records. *)
From S2P Require Import Prelude.

Inductive AsyncEventType : Type := Updated | Deleted | SyncComplete.
#[export] Instance AsyncEventType_eq_dec : EqDecision AsyncEventType. Proof. solve_decision. Defined.

(** An object of the reflector is its identity. *)
Definition object : Type := positive.

Record operation := mkOperation { eventType : AsyncEventType; objects : list object }.
#[export] Instance operation_eq_dec : EqDecision operation. Proof. solve_decision. Defined.

(** Where the goroutine of [Receive] stands: in its select, between the receive on
    [ready] and the lock of [handleOperations], in the loop of the latter, returned. *)
Inductive Receiver : Type :=
| Waiting
| Woken
| Handling (operations : list operation)
| Returned
| Panicked.

Record ReflectorStore := mkStore {
  hasSynced : bool;
  queue : list operation;
  ready : bool;
  closed : bool;
  hwm : nat;
  receiver : Receiver;
  blocked : bool;
}.

Definition NewReflectorStore : ReflectorStore := mkStore false [] false false 0 Waiting false.

Definition with_receiver (r : Receiver) (c : ReflectorStore) : ReflectorStore :=
  mkStore (hasSynced c) (queue c) (ready c) (closed c) (hwm c) r (blocked c).

(** ** Producers *)

Definition enqueue (op : operation) (c : ReflectorStore) : ReflectorStore :=
  if closed c then c
  else
    let queue := queue c ++ [op] in
    let count := length queue in
    let signal := (count =? 1)%nat in
    mkStore (if decide (eventType op = SyncComplete) then true else hasSynced c)
      queue (ready c || signal) (closed c)
      (if (hwm c + 10 <=? count)%nat then count else hwm c)
      (receiver c) (blocked c || (signal && ready c)).

Definition Add_op (obj : object) : operation := mkOperation Updated [obj].
Definition Update_op (obj : object) : operation := mkOperation Updated [obj].
Definition Delete_op (obj : object) : operation := mkOperation Deleted [obj].
Definition Replace_op (items : list object) : operation := mkOperation SyncComplete items.

Definition Add (obj : object) : ReflectorStore -> ReflectorStore := enqueue (Add_op obj).
Definition Update (obj : object) : ReflectorStore -> ReflectorStore := enqueue (Update_op obj).
Definition Delete (obj : object) : ReflectorStore -> ReflectorStore := enqueue (Delete_op obj).
Definition Replace (items : list object) : ReflectorStore -> ReflectorStore := enqueue (Replace_op items).

Definition HasSynced (c : ReflectorStore) : bool := hasSynced c.

(** The calls that reach the store. *)
Inductive request : Type :=
| RAdd (obj : object) | RUpdate (obj : object) | RDelete (obj : object) | RReplace (items : list object).

Definition request_op (r : request) : operation :=
  match r with
  | RAdd obj => Add_op obj
  | RUpdate obj => Update_op obj
  | RDelete obj => Delete_op obj
  | RReplace items => Replace_op items
  end.

(** ** The receiver *)

(** What the handler is called with; the keys of [HandleSyncComplete]. *)
Inductive call : Type :=
| HandleAsyncEvent (obj : object) (t : AsyncEventType)
| HandleSyncComplete (keys : list positive).

(** [HandleAsyncEvent] answers with an error, with [uuid.Nil], or with a key. *)
Inductive answer : Type := AnswerError | AnswerNil | AnswerKey (key : positive).

Section handler.
Context (handle : object -> AsyncEventType -> answer).

(** The loop over the objects of a sync. *)
Fixpoint sync_objects (objs : list object) (keys : list positive) : list call * list positive :=
  match objs with
  | [] => ([], keys)
  | obj :: rest =>
      let keys := match handle obj Updated with AnswerKey k => keys ++ [k] | _ => keys end in
      let '(calls, keys) := sync_objects rest keys in
      (HandleAsyncEvent obj Updated :: calls, keys)
  end.

(** One iteration of [handleOperations]; [o.objects[0]] can be out of range. *)
Definition handleOperation (o : operation) : outcome unit (list call) :=
  match eventType o with
  | Updated | Deleted =>
      match objects o with
      | [] => Panic
      | obj :: _ => Ret [HandleAsyncEvent obj (eventType o)]
      end
  | SyncComplete =>
      let '(calls, keys) := sync_objects (objects o) [] in
      Ret (calls ++ [HandleSyncComplete keys])
  end.
End handler.

Definition wake (c : ReflectorStore) : ReflectorStore :=
  mkStore (hasSynced c) (queue c) false (closed c) (hwm c) Woken (blocked c).
Definition take_operations (c : ReflectorStore) : ReflectorStore :=
  mkStore (hasSynced c) [] (ready c) (closed c) (hwm c) (Handling (queue c)) (blocked c).
Definition stop (c : ReflectorStore) : ReflectorStore :=
  mkStore (hasSynced c) (queue c) (ready c) true (hwm c) Returned (blocked c).

(** ** Interleaving *)

Inductive label : Type :=
| LEnqueue (r : request)
| LDrop (r : request)
| LHandle (o : operation) (calls : list call)
| LTau
| LStop.

Inductive store_step : ReflectorStore -> label -> ReflectorStore -> Prop :=
| step_request r c : blocked c = false ->
    store_step c (if closed c then LDrop r else LEnqueue r) (enqueue (request_op r) c)
| step_wake c : receiver c = Waiting -> ready c = true -> store_step c LTau (wake c)
| step_take c : receiver c = Woken -> blocked c = false -> store_step c LTau (take_operations c)
| step_handle handle o ops calls c : receiver c = Handling (o :: ops) ->
    handleOperation handle o = Ret calls ->
    store_step c (LHandle o calls) (with_receiver (Handling ops) c)
| step_panic handle o ops c : receiver c = Handling (o :: ops) ->
    handleOperation handle o = Panic -> store_step c LTau (with_receiver Panicked c)
| step_select c : receiver c = Handling [] -> store_step c LTau (with_receiver Waiting c)
| step_stop c : receiver c = Waiting -> blocked c = false -> store_step c LStop (stop c).

Abbreviation store_exec := (exec store_step).

Definition accepted (tr : list label) : list operation :=
  omap (fun l => match l with LEnqueue r => Some (request_op r) | _ => None end) tr.
Definition handled (tr : list label) : list operation :=
  omap (fun l => match l with LHandle o _ => Some o | _ => None end) tr.

Definition in_flight (c : ReflectorStore) : list operation :=
  match receiver c with Handling ops => ops | _ => [] end.
Definition pending (c : ReflectorStore) : list operation := in_flight c ++ queue c.

(** ** Invariant *)

(** An operation made by [Add], [Update], [Delete] or [Replace]. *)
Definition op_ok (o : operation) : Prop := eventType o = SyncComplete \/ objects o <> [].

Record store_ok (c : ReflectorStore) : Prop := {
  ok_blocked : blocked c = false;
  ok_alive : receiver c <> Panicked;
  ok_ops : Forall op_ok (pending c);
  ok_token : ready c = true -> queue c <> [] /\ receiver c <> Woken;
  ok_signalled : queue c <> [] -> ready c = true \/ receiver c = Woken;
  ok_woken : receiver c = Woken -> queue c <> [];
  ok_closed : closed c = true <-> receiver c = Returned;
}.

Lemma request_op_ok r : op_ok (request_op r).
Proof. destruct r; [right..|left]; done. Qed.

Lemma handleOperation_ok handle o : op_ok o -> handleOperation handle o <> Panic.
Proof.
  unfold handleOperation. intros [E|E]; [rewrite E; by destruct (sync_objects _ _ _)|].
  destruct (eventType o), (objects o); try done; by destruct (sync_objects _ _ _).
Qed.

Lemma enqueue_ok r c : store_ok c -> store_ok (enqueue (request_op r) c).
Proof.
  intros Hok. pose proof Hok as [Hb Ha Ho Ht Hs Hw Hc]. unfold enqueue.
  destruct (closed c) eqn:Hcl; [done|].
  assert (Hsend : queue c = [] -> ready c = false /\ receiver c <> Woken).
  { intros Hq. split; [destruct (ready c); [by destruct Ht|done]|by intros ?%Hw]. }
  constructor; simpl; try done.
  - rewrite Hb. destruct (queue c) as [|o q] eqn:Hq; simpl; [by destruct (Hsend eq_refl) as [-> _]|].
    by destruct q.
  - unfold pending, in_flight in *; simpl. rewrite app_assoc. apply Forall_app. split; [done|].
    constructor; [apply request_op_ok|constructor].
  - intros Hr. split; [by destruct (queue c)|]. destruct (queue c) as [|o q] eqn:Hq; [by apply Hsend|].
    destruct (ready c); [by apply Ht|]. by destruct q.
  - intros _. destruct (queue c) as [|o q] eqn:Hq; [left; by rewrite orb_true_r|].
    destruct (Hs ltac:(done)) as [->|]; auto.
  - intros _. by destruct (queue c).
Qed.

Lemma handling_ok r c :
  store_ok c -> receiver c <> Woken -> receiver c <> Returned ->
  r <> Woken -> r <> Returned -> r <> Panicked ->
  Forall op_ok (pending (with_receiver r c)) -> store_ok (with_receiver r c).
Proof. intros [Hb Ha Ho Ht Hs Hw Hc]. constructor; simpl; naive_solver. Qed.

Lemma store_step_ok c l c' : store_ok c -> store_step c l c' -> store_ok c'.
Proof.
  intros Hok Hstep. pose proof Hok as [Hb Ha Ho Ht Hs Hw Hc].
  destruct Hstep as [r c Hb'|c Hr Hy|c Hr Hb'|handle o ops calls c Hr Hh|handle o ops c Hr Hh|c Hr|c Hr Hb'].
  - by apply enqueue_ok.
  - destruct (Ht Hy) as [Hq _]. constructor; simpl; try done; [|auto|].
    { unfold pending, in_flight in *. by rewrite Hr in Ho. }
    rewrite Hc, Hr. done.
  - assert (Hn : ready c = false) by (destruct (ready c); [by destruct (Ht eq_refl)|done]).
    constructor; simpl; try done; [| |by rewrite Hc, Hr].
    + unfold pending, in_flight in *. rewrite Hr in Ho. simpl in *. by rewrite app_nil_r.
    + by rewrite Hn.
  - apply handling_ok; rewrite ?Hr; try done. unfold pending, in_flight in *. rewrite Hr in Ho.
    by apply Forall_cons in Ho as [_ Ho].
  - destruct (handleOperation_ok handle o); [|done]. unfold pending, in_flight in Ho.
    rewrite Hr in Ho. by apply Forall_cons in Ho as [Ho _].
  - apply handling_ok; rewrite ?Hr; try done. unfold pending, in_flight in *. by rewrite Hr in Ho.
  - constructor; simpl; try done. { unfold pending, in_flight in *. by rewrite Hr in Ho. }
    + intros Hy. by destruct (Ht Hy).
    + intros Hq. destruct (Hs Hq); [by left|congruence].
Qed.

(** ** The history *)

Lemma enqueue_pending r c :
  pending (enqueue (request_op r) c)
  = pending c ++ (if closed c then [] else [request_op r]).
Proof.
  unfold enqueue, pending, in_flight. destruct (closed c); simpl; [by rewrite app_nil_r|].
  by rewrite app_assoc.
Qed.

Lemma store_step_history c l c' :
  store_ok c -> store_step c l c' ->
  pending c ++ accepted [l] = handled [l] ++ pending c' /\
  (hasSynced c' = true <->
   hasSynced c = true \/ exists o, o ∈ accepted [l] /\ eventType o = SyncComplete).
Proof.
  intros Hok Hstep. pose proof (store_step_ok _ _ _ Hok Hstep) as Hok'.
  destruct Hstep as [r c Hb'|c Hr Hy|c Hr Hb'|handle o ops calls c Hr Hh|handle o ops c Hr Hh|c Hr|c Hr Hb'].
  1: { rewrite enqueue_pending. unfold enqueue. destruct (closed c); simpl; (split; [done|]).
       - split; [by left|]. by intros [?|(o & ?%elem_of_nil & _)].
       - case_decide as E; split; try done; [intros _; right; by exists (request_op r); split; [apply list_elem_of_here|]|
           by left|]. intros [?|(o & ->%list_elem_of_singleton & ?)]; done. }
  4: { by destruct Hok'. }
  all: unfold pending, in_flight; rewrite ?Hr; simpl; rewrite ?app_nil_r; (split; [done|]).
  all: split; [by left|by intros [?|(o' & ?%elem_of_nil & _)]].
Qed.

Lemma store_history tr c :
  store_exec NewReflectorStore tr c ->
  store_ok c /\ accepted tr = handled tr ++ pending c /\
  (HasSynced c = true <-> exists o, o ∈ accepted tr /\ eventType o = SyncComplete).
Proof.
  unfold HasSynced. induction 1 as [|tr l c c' _ (Hok & Hh & Hs) Hstep].
  - repeat split; try done; simpl; try constructor; try done. by intros (o & ?%elem_of_nil & _).
  - destruct (store_step_history _ _ _ Hok Hstep) as [Hp Hs'].
    split; [by eapply store_step_ok|]. unfold accepted, handled in *. rewrite !omap_app. split.
    + rewrite Hh, <- app_assoc. rewrite Hp. by rewrite app_assoc.
    + rewrite Hs', Hs. setoid_rewrite elem_of_app. naive_solver.
Qed.

(** ** The receiver catches up *)

Lemma handleOperation_returns handle o : op_ok o -> exists calls, handleOperation handle o = Ret calls.
Proof.
  intros Ho. pose proof (handleOperation_ok handle o Ho). unfold handleOperation in *.
  destruct (eventType o); [| |destruct (sync_objects _ _ _); by eexists];
    destruct (objects o); [done|by eexists|done|by eexists].
Qed.

(** Steps of the receiver only. *)
Definition receiving (l : label) : Prop := match l with LHandle _ _ | LTau => True | _ => False end.

Lemma handle_rest (handle : object -> AsyncEventType -> answer) ops c :
  receiver c = Handling ops -> Forall op_ok ops ->
  exists tr, store_exec c tr (with_receiver Waiting c) /\ Forall receiving tr /\ handled tr = ops.
Proof.
  intros Hr Hf. revert c Hr. induction Hf as [|o ops Ho _ IH]; intros c Hr.
  - exists [LTau]. split; [by apply exec_step, step_select|]. split; [by constructor|done].
  - destruct (handleOperation_returns handle o Ho) as [calls Hc].
    destruct (IH (with_receiver (Handling ops) c) eq_refl) as (tr & Htr & Hrecv & Hh).
    exists (LHandle o calls :: tr). split.
    + by eapply (exec_trans _ _ [_]); [eapply exec_step, step_handle|].
    + split; [by constructor|]. simpl. f_equal. done.
Qed.

Lemma handle_queue (handle : object -> AsyncEventType -> answer) c :
  store_ok c -> receiver c = Waiting -> queue c <> [] ->
  exists tr c', store_exec c tr c' /\ Forall receiving tr /\ handled tr = queue c /\
                pending c' = [] /\ receiver c' = Waiting.
Proof.
  intros [Hb Ha Ho Ht Hs Hw Hc] Hr Hq. destruct (Hs Hq) as [Hy|?]; [|congruence].
  destruct (handle_rest handle (queue c) (take_operations (wake c)) eq_refl) as (tr & Htr & Hrecv & Hh).
  { unfold pending, in_flight in Ho. by rewrite Hr in Ho. }
  exists (LTau :: LTau :: tr), (with_receiver Waiting (take_operations (wake c))).
  split; [|repeat split; try done; by repeat constructor].
  eapply (exec_trans _ _ [_]); [by apply exec_step, step_wake|].
  by eapply (exec_trans _ _ [_]); [by apply exec_step, step_take|].
Qed.

Lemma receiver_catches_up (handle : object -> AsyncEventType -> answer) c :
  store_ok c -> closed c = false ->
  exists tr c', store_exec c tr c' /\ Forall receiving tr /\ handled tr = pending c /\
                pending c' = [] /\ receiver c' = Waiting.
Proof.
  intros Hok Hcl. pose proof Hok as [Hb Ha Ho Ht Hs Hw Hc]. destruct (receiver c) as [| |ops| |] eqn:Hr; try done.
  - unfold pending, in_flight. rewrite Hr. simpl. destruct (decide (queue c = [])) as [Hq|Hq].
    + exists [], c. unfold pending, in_flight. rewrite Hr, Hq. repeat split; constructor.
    + by apply (handle_queue handle).
  - destruct (handle_rest handle (queue c) (take_operations c) eq_refl) as (tr & Htr & Hrecv & Hh).
    { unfold pending, in_flight in Ho. by rewrite Hr in Ho. }
    exists (LTau :: tr), (with_receiver Waiting (take_operations c)).
    split; [by eapply (exec_trans _ _ [_]); [by apply exec_step, step_take|]|].
    unfold pending, in_flight. rewrite Hr. repeat split; try done. by constructor.
  - assert (Hsplit : Forall op_ok ops /\ Forall op_ok (queue c)).
    { unfold pending, in_flight in Ho. rewrite Hr in Ho. by apply Forall_app in Ho. }
    destruct (handle_rest handle ops c Hr (proj1 Hsplit)) as (tr & Htr & Hrecv & Hh).
    assert (Hok' : store_ok (with_receiver Waiting c)).
    { apply handling_ok; rewrite ?Hr; try done. by apply Hsplit. }
    assert (Hpend : pending c = ops ++ queue c) by (unfold pending, in_flight; by rewrite Hr).
    rewrite Hpend. destruct (decide (queue c = [])) as [Hq|Hq].
    + exists tr, (with_receiver Waiting c). rewrite Hq, app_nil_r. by repeat split.
    + destruct (handle_queue handle _ Hok' eq_refl Hq) as (tr' & c' & Htr' & Hrecv' & Hh' & Hp & Hw').
      exists (tr ++ tr'), c'. split; [by eapply exec_trans|].
      split; [by apply Forall_app|]. unfold handled in *. rewrite omap_app, Hh, Hh'. done.
  - destruct Hc as [_ Hc]. by rewrite Hc in Hcl.
Qed.

(** ** The calls of a sync *)

Definition key_of (a : answer) : option positive :=
  match a with AnswerKey k => Some k | _ => None end.

Lemma sync_objects_spec handle objs keys :
  sync_objects handle objs keys
  = (map (fun o => HandleAsyncEvent o Updated) objs, keys ++ omap (fun o => key_of (handle o Updated)) objs).
Proof.
  revert keys. induction objs as [|o objs IH]; intros keys; simpl; [by rewrite app_nil_r|].
  rewrite IH. destruct (handle o Updated); simpl; by rewrite <- ?app_assoc.
Qed.

(** ** Properties *)

(** *** The abstract queue *)

(** An atomic queue that any number of callers may add to until it is closed. *)
Record fifo := mkFifo { items : list operation; synced : bool; open : bool }.

Inductive fifo_step : fifo -> label -> fifo -> Prop :=
| fifo_add r f : open f = true ->
    fifo_step f (LEnqueue r)
      (mkFifo (items f ++ [request_op r])
         (synced f || bool_decide (eventType (request_op r) = SyncComplete)) true)
| fifo_drop r f : open f = false -> fifo_step f (LDrop r) f
| fifo_take handle o ops calls f : items f = o :: ops -> handleOperation handle o = Ret calls ->
    fifo_step f (LHandle o calls) (mkFifo ops (synced f) (open f))
| fifo_close f : open f = true -> fifo_step f LStop (mkFifo (items f) (synced f) false).

#[export] Instance label_tau_dec (l : label) : Decision (l = LTau).
Proof. destruct l; solve [left; reflexivity | right; discriminate]. Defined.

(** The store as a queue: what is being handled, then what waits. *)
Definition store_fifo (c : ReflectorStore) : fifo := mkFifo (pending c) (HasSynced c) (negb (closed c)).

Definition represents (c : ReflectorStore) (f : fifo) : Prop := store_ok c /\ f = store_fifo c.

Lemma enqueue_fifo r c :
  store_fifo (enqueue (request_op r) c) =
  if closed c then store_fifo c
  else mkFifo (pending c ++ [request_op r])
         (HasSynced c || bool_decide (eventType (request_op r) = SyncComplete)) true.
Proof.
  unfold store_fifo. rewrite enqueue_pending. unfold enqueue, HasSynced.
  destruct (closed c) eqn:Hc; simpl; [by rewrite Hc, app_nil_r|]. f_equal.
  case_decide; [by rewrite bool_decide_eq_true_2, orb_true_r|by rewrite bool_decide_eq_false_2, orb_false_r].
Qed.

Lemma store_step_fifo c l c' f :
  represents c f -> store_step c l c' ->
  (l = LTau /\ represents c' f) \/ (l <> LTau /\ exists f', fifo_step f l f' /\ represents c' f').
Proof.
  intros [Hok ->] Hstep. pose proof (store_step_ok _ _ _ Hok Hstep) as Hok'.
  pose proof Hok as [Hb Ha Ho Ht Hs Hw Hc].
  destruct Hstep as [r c Hb'|c Hr Hy|c Hr Hb'|handle o ops calls c Hr Hh|handle o ops c Hr Hh|c Hr|c Hr Hb'].
  1: { right. destruct (closed c) eqn:Hcl; (split; [done|]); exists (store_fifo (enqueue (request_op r) c));
         (split; [|done]); rewrite enqueue_fifo, Hcl.
       - apply fifo_drop. simpl. by rewrite Hcl.
       - apply (fifo_add r (store_fifo c)). simpl. by rewrite Hcl. }
  3: { right. split; [done|]. eexists. split; [|split; [done|]]; [eapply fifo_take; [|done]|].
       - unfold store_fifo, pending, in_flight. simpl. rewrite Hr. reflexivity.
       - done. }
  3: { by destruct Hok'. }
  4: { right. split; [done|]. eexists. split; [apply fifo_close; simpl|split; [done|]].
       - destruct (closed c); [|done]. destruct Hc as [Hc _]. by rewrite Hc in Hr.
       - unfold store_fifo, pending, in_flight. simpl. by rewrite Hr. }
  all: left; (split; [done|split; [done|]]).
  all: unfold store_fifo, pending, in_flight; simpl; by rewrite ?Hr, ?app_nil_r.
Qed.

(** C39: the store refines an atomic queue.  In every interleaving of the reflector's
    goroutine with the receiver's, what can be seen (the requests accepted, or dropped
    once the store is shut down, each operation handled with the calls it makes, and
    the shutdown) is a run of a queue that each request enters and from whose front
    each operation is taken in one atomic step; the queue holds what is being handled
    and what waits, and [HasSynced] tells whether a [Replace] has entered it.  No
    goroutine holds the mutex in a send, and the receiver does not panic. *)
Theorem store_refines_queue tr c :
  store_exec NewReflectorStore tr c ->
  blocked c = false /\ receiver c <> Panicked /\
  exec fifo_step (mkFifo [] false true) (filter (fun l => l <> LTau) tr)
    (mkFifo (in_flight c ++ queue c) (HasSynced c) (negb (closed c))).
Proof.
  intros Hx. destruct (forward_simulation store_step fifo_step (fun l => l = LTau) represents
    (fun c l c' f HR Hs => store_step_fifo c l c' f HR Hs) NewReflectorStore (mkFifo [] false true) tr c)
    as (f & Hf & Hok & ->); [|done|].
  { split; [|done]. by apply (store_history [] NewReflectorStore), exec_nil. }
  split; [apply Hok|]. split; [apply Hok|exact Hf].
Qed.

(** No wake-up is lost: from every reachable state in which the store is not
    shut down, the receiver on its own steps gets to handle everything that is
    pending, in order, whatever the handler answers, and is back in its select. *)
Theorem store_catches_up (handle : object -> AsyncEventType -> answer) tr c :
  store_exec NewReflectorStore tr c -> closed c = false ->
  exists tr' c', store_exec c tr' c' /\ Forall receiving tr' /\
                 handled tr' = in_flight c ++ queue c /\
                 queue c' = [] /\ receiver c' = Waiting.
Proof.
  intros (Hok & _)%store_history Hcl.
  destruct (receiver_catches_up handle c Hok Hcl) as (tr' & c' & Hx & Hr & Hh & Hp & Hw).
  exists tr', c'. repeat split; try done. by apply app_eq_nil in Hp as [_ ?].
Qed.

(** On a sync the handler sees every listed object once, as an update and in
    order, and the keys of [HandleSyncComplete] are those it answered with: an object
    whose handling failed is left out like one that was filtered, and so counts as
    stale for the collector. *)
Theorem sync_calls handle items :
  handleOperation handle (Replace_op items) =
  Ret (map (fun o => HandleAsyncEvent o Updated) items
       ++ [HandleSyncComplete (omap (fun o => key_of (handle o Updated)) items)]).
Proof. unfold handleOperation. simpl. by rewrite sync_objects_spec. Qed.

(** ** Witnesses *)

Definition example_handle (o : object) (t : AsyncEventType) : answer :=
  if (o =? 2)%positive then AnswerError else AnswerKey o.

Definition example_store : ReflectorStore :=
  enqueue (request_op (RDelete 1%positive)) (take_operations (wake
    (enqueue (request_op (RReplace [1; 2; 3]%positive)) NewReflectorStore))).

Lemma example_store_exec :
  store_exec NewReflectorStore [LEnqueue (RReplace [1; 2; 3]%positive); LTau; LTau; LEnqueue (RDelete 1%positive)]
    example_store.
Proof.
  apply (exec_snoc [_; _; _] _ (take_operations (wake
    (enqueue (request_op (RReplace [1; 2; 3]%positive)) NewReflectorStore)))); [|by apply (step_request (RDelete 1%positive))].
  apply (exec_snoc [_; _] _ (wake
    (enqueue (request_op (RReplace [1; 2; 3]%positive)) NewReflectorStore))); [|by apply step_take].
  apply (exec_snoc [_] _ (enqueue (request_op (RReplace [1; 2; 3]%positive)) NewReflectorStore));
    [|by apply step_wake].
  apply exec_step. by apply (step_request (RReplace [1; 2; 3]%positive)).
Qed.

Lemma store_refines_queue_witness :
  exec fifo_step (mkFifo [] false true) [LEnqueue (RReplace [1; 2; 3]%positive); LEnqueue (RDelete 1%positive)]
    (mkFifo [Replace_op [1; 2; 3]%positive; Delete_op 1%positive] true true).
Proof. apply (proj2 (proj2 (store_refines_queue _ _ example_store_exec))). Defined.

Lemma store_catches_up_witness :
  exists tr c, store_exec example_store tr c /\ handled tr = [Replace_op [1; 2; 3]%positive; Delete_op 1%positive] /\
    queue c = [].
Proof.
  destruct (store_catches_up example_handle _ _ example_store_exec eq_refl) as (tr & c & Hx & _ & Hh & Hq & _).
  by exists tr, c.
Defined.
