(* ===== verification/ScaleIn.v ===== *)
(** * Scale-in of nodes, and the deletion of a request
    (hardwaremanager/controller/nodeallocationrequest_controller.go)

    The state is the request with its scale-in annotation, the AllocatedNodes of
    the hub and the nodes of the spoke cluster; [drained] records the hosts that
    were drained.  What API calls answer is an argument.  The nodes are processed
    concurrently in the source, on different objects; here they are processed one
    after the other in an arbitrary order.  Names are ASCII, as Kubernetes names
    are, so [strings.TrimSpace] is that of ASCII. *)
From S2P Require Import Prelude Conditions NodeAllocationRequest NodeAllocationController GoText.
From Stdlib Require Import Ascii.
#[local] Open Scope Z_scope.

Abbreviation Deprovisioned := "Deprovisioned"%string.
Abbreviation NodeDraining := "NodeDraining"%string.

Record AllocatedNode := mkNode { Hostname : string; node_Conditions : list Condition }.

Record World := mkWorld {
  allocated : gmap string AllocatedNode;
  spoke_nodes : gmap string bool;         (* a node of the spoke, and whether it is Ready *)
  drained : list string;
}.

Definition with_node (name : string) (an : AllocatedNode) (w : World) : World :=
  mkWorld (<[name := an]> (allocated w)) (spoke_nodes w) (drained w).
Definition set_deprovisioned (now : Z) (reason : string) (status : ConditionStatus) (message : string)
    (an : AllocatedNode) : AllocatedNode :=
  mkNode (Hostname an)
    (hw_SetStatusCondition now (node_Conditions an) Deprovisioned reason status message).

(** ** One node *)

(** Which calls fail with an error other than NotFound. *)
Record failures := mkFailures {
  get_fails : bool;
  ready_fails : bool;
  mark_fails : bool;
  drain_fails : bool;
  complete_fails : bool;
  spoke_delete_fails : bool;
  delete_fails : bool;
}.

Inductive scaled : Type := Processed | Unfinished | NodeFailed.

(** [nodeOps] and [spokeClient] are both there, or neither ([client]). *)
Section scale_in_node.
Context (now : Z) (f : failures) (client : bool).

(** The node in memory, the world, and whether [nil] is returned. *)
Definition drainIfReady (nodeName : string) (an : AllocatedNode) (w : World)
    : AllocatedNode * World * bool :=
  if ready_fails f then (an, w, false)
  else
    match spoke_nodes w !! Hostname an with
    | None | Some false => (an, w, true)
    | Some true =>
        let an := set_deprovisioned now InProgress ConditionFalse NodeDraining an in
        if mark_fails f then (an, w, false)
        else
          let w := with_node nodeName an w in
          if drain_fails f then (an, w, false)
          else (an, mkWorld (allocated w) (spoke_nodes w) (Hostname an :: drained w), true)
    end.

(** Phase 2. *)
Definition delete_node (nodeName : string) (an : AllocatedNode) (w : World) : World * scaled :=
  let spoke_delete := client && negb (bool_decide (Hostname an = ""%string)) in
  if spoke_delete && spoke_delete_fails f then (w, NodeFailed)
  else
    let spoke := if spoke_delete then delete (Hostname an) (spoke_nodes w) else spoke_nodes w in
    if delete_fails f then (mkWorld (allocated w) spoke (drained w), NodeFailed)
    else (mkWorld (delete nodeName (allocated w)) spoke (drained w), Processed).

Definition to_drain (an : AllocatedNode) : bool :=
  match FindStatusCondition (node_Conditions an) Deprovisioned with
  | None => true
  | Some c => bool_decide (cond_Reason c = InProgress)
  end.

Definition scaleInNode (nodeName : string) (w : World) : World * scaled :=
  if get_fails f then (w, NodeFailed)
  else
    match allocated w !! nodeName with
    | None => (w, Processed)
    | Some an =>
        if to_drain an then
          if client && bool_decide (Hostname an = ""%string) then (w, Unfinished)
          else
            let '(an, w, ok) := if client then drainIfReady nodeName an w else (an, w, true) in
            if negb ok then (w, Unfinished)
            else
              let an := set_deprovisioned now Completed ConditionTrue "Node deprovisioned" an in
              if complete_fails f then (w, NodeFailed)
              else delete_node nodeName an (with_node nodeName an w)
        else delete_node nodeName an w
    end.
End scale_in_node.

(** ** The annotation *)

Definition scale_in_names (nodeList : string) : list string :=
  filter (fun name => name <> ""%string) (map TrimSpace (split_comma nodeList)).

Fixpoint removeFromSlice (s : list string) (val : string) : list string :=
  match s with
  | [] => []
  | v :: rest => if decide (v = val) then rest else v :: removeFromSlice rest val
  end.

(** ** All nodes *)

Record progress_state := mkProgress {
  world : World;
  remainingNodeNames : list string;
  allProcessed : bool;
  failed : bool;
}.

Definition scale_one (now : Z) (client : bool) (p : progress_state) (call : string * failures)
    : progress_state :=
  let '(nodeName, f) := call in
  let '(w, r) := scaleInNode now f client nodeName (world p) in
  match r with
  | NodeFailed => mkProgress w (remainingNodeNames p) (allProcessed p) true
  | Processed => mkProgress w (removeFromSlice (remainingNodeNames p) nodeName) (allProcessed p) (failed p)
  | Unfinished => mkProgress w (remainingNodeNames p) false (failed p)
  end.

(** [tryPopulateNodeHostnames]: the hostnames it managed to persist. *)
Definition populate (found : gmap string string) (w : World) : World :=
  mkWorld (map_imap (fun name an =>
             Some (if decide (Hostname an = ""%string)
                   then mkNode (default ""%string (found !! name)) (node_Conditions an) else an))
             (allocated w))
    (spoke_nodes w) (drained w).

Record scale_in_oracle := mkScaleIn {
  si_now : Z;
  si_spoke : spokeResult;                  (* ensureSpokeClients *)
  si_found : gmap string string;           (* tryPopulateNodeHostnames *)
  si_calls : list (string * failures);     (* the nodes in the order they are processed *)
  si_refetch : bool;
  si_status : bool;
  si_annotation_get : bool;
  si_annotation_patch : bool;
}.

Record request_state := mkRequest {
  request : NAR;
  scale_in_nodes : option string;
  hub : World;
}.

Section scale_in.
Context (o : scale_in_oracle).

Definition handleScaleInNodesAnnotation (st : request_state) : request_state * Requeue * bool :=
  match si_spoke o with
  | SpokeError => (st, RequeueWithMediumInterval, true)
  | SpokeNotReady => (st, RequeueWithShortInterval, false)
  | SpokeReady | SpokeInputError _ =>
      let client := match si_spoke o with SpokeReady => true | _ => false end in
      let p := fold_left (scale_one (si_now o) client) (si_calls o)
                 (mkProgress (populate (si_found o) (hub st)) (NodeNames (request st)) true false) in
      let st := mkRequest (request st) (scale_in_nodes st) (world p) in
      if failed p then (st, DoNotRequeue, true)
      else if negb (allProcessed p) then (st, RequeueWithMediumInterval, false)
      else if negb (si_refetch o && si_status o) then (st, RequeueWithShortInterval, true)
      else
        let st := mkRequest (with_names (remainingNodeNames p) (request st)) (scale_in_nodes st) (hub st) in
        if negb (si_annotation_get o && si_annotation_patch o) then (st, RequeueWithShortInterval, true)
        else (mkRequest (request st) None (hub st), DoNotRequeue, false)
  end.

(** [None] when the annotation is absent: the FSM runs. *)
Definition handleScaleInAnnotations (st : request_state) : option (request_state * Requeue * bool) :=
  match scale_in_nodes st with
  | None => None
  | Some _ => Some (handleScaleInNodesAnnotation st)
  end.
End scale_in.

(** The calls are for the nodes of the annotation, in some order. *)
Definition calls_for (o : scale_in_oracle) (nodeList : string) : Prop :=
  (si_calls o).*1 ≡ₚ scale_in_names nodeList.

(** ** Lemmas *)

Section one_node.
Context (now : Z) (f : failures) (client : bool).

(** What processing a node called [name] on host [host] may change. *)
Record only_node (name host : string) (w w' : World) : Prop := {
  other_nodes : forall n, n <> name -> allocated w' !! n = allocated w !! n;
  still_drained : forall h, h ∈ drained w -> h ∈ drained w';
  other_hosts : forall h, h <> host \/ h = ""%string -> spoke_nodes w' !! h = spoke_nodes w !! h;
}.

#[local] Instance only_node_preorder name host : PreOrder (only_node name host).
Proof.
  split; [by constructor|]. intros w1 w2 w3 [A1 D1 S1] [A2 D2 S2].
  constructor; [intros; by rewrite A2, A1|auto|intros; by rewrite S2, S1].
Qed.

Lemma with_node_only name host an w : only_node name host w (with_node name an w).
Proof. constructor; simpl; try done. intros n Hn. by rewrite lookup_insert_ne. Qed.

Lemma drainIfReady_spec name an w an' w' ok :
  drainIfReady now f name an w = (an', w', ok) ->
  only_node name (Hostname an) w w' /\ Hostname an' = Hostname an /\
  (ok = true -> spoke_nodes w !! Hostname an = Some true -> Hostname an ∈ drained w').
Proof.
  unfold drainIfReady. destruct (ready_fails f); [by intros; simplify_eq|].
  destruct (spoke_nodes w !! Hostname an) as [[]|] eqn:Hs; [|by intros; simplify_eq..].
  destruct (mark_fails f); [by intros; simplify_eq|].
  pose proof (with_node_only name (Hostname an)
                (set_deprovisioned now InProgress ConditionFalse NodeDraining an) w) as Hw.
  destruct (drain_fails f); intros; simplify_eq/=; [by split|].
  split; [|split; [done|intros _ _; apply list_elem_of_here]].
  transitivity (with_node name (set_deprovisioned now InProgress ConditionFalse NodeDraining an) w); [done|].
  constructor; simpl; try done. intros h Hh. by apply list_elem_of_further.
Qed.

Lemma delete_node_spec name an w w' r :
  delete_node f client name an w = (w', r) ->
  only_node name (Hostname an) w w' /\ (r = Processed -> allocated w' !! name = None).
Proof.
  unfold delete_node. destruct (client && _) eqn:Hc; simpl.
  - apply andb_true_iff in Hc as [_ Hh%negb_true_iff%bool_decide_eq_false].
    destruct (spoke_delete_fails f); [by intros; simplify_eq|].
    destruct (delete_fails f); intros; simplify_eq/=; (split; [constructor; simpl; try done|]); try done.
    1,3: intros h [Hne| ->]; by rewrite lookup_delete_ne by done.
    + intros n Hn. by rewrite lookup_delete_ne.
    + intros _. by rewrite lookup_delete_eq.
  - destruct (delete_fails f); intros; simplify_eq/=; (split; [constructor; simpl; try done|]); try done.
    + intros n Hn. by rewrite lookup_delete_ne.
    + intros _. by rewrite lookup_delete_eq.
Qed.

Lemma scaleInNode_spec name w w' r :
  scaleInNode now f client name w = (w', r) ->
  (r = Processed -> allocated w' !! name = None) /\
  match allocated w !! name with
  | None => w' = w
  | Some an =>
      only_node name (Hostname an) w w' /\
      (r = Processed -> client = true -> to_drain an = true ->
         Hostname an <> ""%string /\
         (spoke_nodes w !! Hostname an = Some true -> Hostname an ∈ drained w'))
  end.
Proof.
  unfold scaleInNode. destruct (get_fails f).
  { intros; simplify_eq. split; [done|]. case_match; [split; done|done]. }
  destruct (allocated w !! name) as [an|] eqn:Han; [|by intros; simplify_eq].
  destruct (to_drain an) eqn:Ht.
  - destruct (client && bool_decide (Hostname an = ""%string)) eqn:Hc; [by intros; simplify_eq|].
    destruct (if client then _ else _) as [[an1 w1] ok] eqn:Hd.
    assert (Hw1 : only_node name (Hostname an) w w1 /\ Hostname an1 = Hostname an /\
              (ok = true -> client = true -> spoke_nodes w !! Hostname an = Some true ->
               Hostname an ∈ drained w1)).
    { destruct client; [|by simplify_eq]. apply drainIfReady_spec in Hd. naive_solver. }
    destruct Hw1 as (Ho & Hh & Hdr). destruct ok; [|by intros; simplify_eq/=; split; [|split]]. simpl.
    destruct (complete_fails f); [by intros; simplify_eq/=; split; [|split]|].
    intros [Hdel Hgone]%delete_node_spec. simpl in Hdel. rewrite Hh in Hdel.
    split; [done|]. split.
    + transitivity w1; [done|]. etransitivity; [apply with_node_only|done].
    + intros _ -> _. simpl in Hc. apply bool_decide_eq_false in Hc. split; [done|].
      intros Hs. apply (still_drained _ _ _ _ Hdel). simpl. auto.
  - intros [Hdel Hgone]%delete_node_spec. done.
Qed.
End one_node.

(** AllocatedNodes stand for different hosts. *)
Definition distinct_hosts (w : World) : Prop :=
  forall n1 n2 a1 a2, allocated w !! n1 = Some a1 -> allocated w !! n2 = Some a2 ->
    Hostname a1 = Hostname a2 -> Hostname a1 <> ""%string -> n1 = n2.

(** A node that has to be drained, of a host that is up. *)
Definition drain_needed (w : World) (an : AllocatedNode) : Prop :=
  to_drain an = true /\ spoke_nodes w !! Hostname an = Some true.

Section all_nodes.
Context (now : Z) (client : bool).

Abbreviation scale_all := (fold_left (scale_one now client)).

Lemma scale_one_done p call :
  failed (scale_one now client p call) = false -> allProcessed (scale_one now client p call) = true ->
  failed p = false /\ allProcessed p = true /\
  scaleInNode now call.2 client call.1 (world p) = (world (scale_one now client p call), Processed) /\
  remainingNodeNames (scale_one now client p call) = removeFromSlice (remainingNodeNames p) call.1.
Proof.
  unfold scale_one. destruct call as [name f]; simpl. destruct (scaleInNode now f client name (world p)) as [w []]; done.
Qed.

#[local] Arguments scale_one : simpl never.

Lemma scale_all_done calls p :
  failed (scale_all calls p) = false -> allProcessed (scale_all calls p) = true ->
  failed p = false /\ allProcessed p = true.
Proof.
  revert p. induction calls as [|c calls IH]; intros p; simpl; [done|].
  intros Hf Ha. destruct (IH _ Hf Ha) as [Hf' Ha']. by apply scale_one_done in Hf' as (? & ? & _).
Qed.

Lemma scale_all_spec calls p :
  let p' := scale_all calls p in
  failed p' = false -> allProcessed p' = true ->
  remainingNodeNames p' = fold_left removeFromSlice calls.*1 (remainingNodeNames p) /\
  (forall n, n ∈ calls.*1 -> allocated (world p') !! n = None) /\
  (forall n, n ∉ calls.*1 -> allocated (world p') !! n = allocated (world p) !! n) /\
  (forall h, h ∈ drained (world p) -> h ∈ drained (world p')).
Proof.
  revert p. induction calls as [|[name f] calls IH]; intros p; simpl; intros Hf Ha.
  { repeat split; try done. by intros n ?%elem_of_nil. }
  destruct (scale_all_done _ _ Hf Ha) as [Hf1 Ha1].
  destruct (IH _ Hf Ha) as (Hrem & Hgone & Hkept & Hdr).
  apply scale_one_done in Hf1 as (_ & _ & Hone & Hrem1); [|done]. simpl in *.
  apply scaleInNode_spec in Hone as [Hn Hrest].
  assert (Honly : exists host, only_node name host (world p) (world (scale_one now client p (name, f)))).
  { destruct (allocated (world p) !! name) as [an|]; [eexists; apply Hrest|exists EmptyString; by rewrite Hrest]. }
  destruct Honly as [host [Hother Hstill _]]. split_and!.
  - by rewrite Hrem, Hrem1.
  - intros n Hin. destruct (decide (n ∈ calls.*1)) as [?|Hnot]; [by apply Hgone|].
    rewrite Hkept by done. apply elem_of_cons in Hin as [->|?]; [by apply Hn|done].
  - intros n [Hne Hnot]%not_elem_of_cons. by rewrite Hkept, Hother.
  - auto.
Qed.

(** No host that is up is given away undrained. *)
Lemma scale_all_drains calls p n an :
  let p' := scale_all calls p in
  client = true -> distinct_hosts (world p) ->
  failed p' = false -> allProcessed p' = true ->
  n ∈ calls.*1 -> allocated (world p) !! n = Some an -> drain_needed (world p) an ->
  Hostname an <> ""%string /\ Hostname an ∈ drained (world p').
Proof.
  intros p' Hcl. subst p'. revert p. induction calls as [|[name f] calls IH]; intros p Hd Hf Ha Hin Han Hneed;
    simpl in *; [by apply elem_of_nil in Hin|].
  destruct (scale_all_done _ _ Hf Ha) as [Hf1 Ha1].
  pose proof (scale_all_spec _ _ Hf Ha) as (_ & _ & _ & Hdr).
  apply scale_one_done in Hf1 as (_ & _ & Hone & _); [|done]. simpl in Hone.
  apply scaleInNode_spec in Hone as [Hn Hrest]. destruct Hneed as [Ht Hs].
  destruct (decide (n = name)) as [->|Hne].
  - rewrite Han in Hrest. destruct Hrest as [_ Hrest]. destruct (Hrest eq_refl Hcl Ht) as [Hh Hin'].
    split; [done|]. by apply Hdr, Hin'.
  - apply elem_of_cons in Hin as [?|Hin]; [done|].
    destruct (allocated (world p) !! name) as [an0|] eqn:H0.
    + destruct Hrest as [[Hother _ Hsp] _].
      assert (Hsub : forall m a, allocated (world (scale_one now client p (name, f))) !! m = Some a ->
                 allocated (world p) !! m = Some a).
      { intros m a Hm. destruct (decide (m = name)) as [->|?]; [by rewrite Hn in Hm|by rewrite <- Hother]. }
      apply (IH (scale_one now client p (name, f))); try done.
      * intros n1 n2 a1 a2 H1 H2. apply (Hd n1 n2 a1 a2); by apply Hsub.
      * by rewrite Hother.
      * split; [done|]. rewrite Hsp; [done|].
        destruct (decide (Hostname an = ""%string)) as [?|Hnot]; [by right|left].
        intros E. by apply Hne, (Hd n name an an0).
    + apply (IH (scale_one now client p (name, f))); try done; by rewrite Hrest.
Qed.
End all_nodes.

Lemma removeFromSlice_filter (s : list string) val :
  NoDup s -> removeFromSlice s val = filter (fun v => v <> val) s.
Proof.
  induction s as [|v s IH]; simpl; [done|]. intros [Hv Hnd]%NoDup_cons. rewrite filter_cons.
  case_decide as E; subst.
  - rewrite decide_False by naive_solver. clear IH Hnd. induction s as [|u s IH]; [done|].
    apply not_elem_of_cons in Hv as [Hu Hv]. rewrite filter_cons_True by congruence. by rewrite <- IH.
  - rewrite decide_True by done. by rewrite IH.
Qed.

Lemma removeFromSlice_all (names s : list string) :
  NoDup s -> fold_left removeFromSlice names s = filter (fun v => v ∉ names) s.
Proof.
  revert s. induction names as [|x names IH]; intros s Hnd; simpl.
  - induction s as [|v s IH]; [done|]. apply NoDup_cons in Hnd as [_ Hnd].
    rewrite filter_cons_True by apply not_elem_of_nil. by rewrite <- IH.
  - rewrite removeFromSlice_filter, IH by (try apply NoDup_filter; done).
    rewrite list_filter_filter. apply list_filter_iff. intros v.
    rewrite not_elem_of_cons. naive_solver.
Qed.

(** What scale-in leaves of the request itself: the answer [scale_in] of the
    reconciler's oracle. *)
Lemma scale_in_request o st :
  let st' := (handleScaleInNodesAnnotation o st).1.1 in
  request st' = request st \/ exists names, request st' = with_names names (request st).
Proof.
  unfold handleScaleInNodesAnnotation. destruct (si_spoke o); simpl; try by left.
  all: destruct (failed _); [by left|]; destruct (negb (allProcessed _)); [by left|].
  all: destruct (si_refetch o && si_status o); [|by left]; simpl.
  all: right; destruct (si_annotation_get o && si_annotation_patch o); by eexists.
Qed.

Lemma scale_in_done o st st' :
  handleScaleInNodesAnnotation o st = (st', DoNotRequeue, false) ->
  exists client p,
    (client = true <-> si_spoke o = SpokeReady) /\
    p = fold_left (scale_one (si_now o) client) (si_calls o)
          (mkProgress (populate (si_found o) (hub st)) (NodeNames (request st)) true false) /\
    failed p = false /\ allProcessed p = true /\
    st' = mkRequest (with_names (remainingNodeNames p) (request st)) None (world p).
Proof.
  unfold handleScaleInNodesAnnotation. destruct (si_spoke o); try done.
  all: match goal with |- context [fold_left (scale_one _ ?c) _ _] => set (client := c) end.
  all: set (p := fold_left _ _ _); destruct (failed p) eqn:Hf; [done|].
  all: destruct (allProcessed p) eqn:Ha; [|done]; destruct (si_refetch o && si_status o); [|done]; simpl.
  all: destruct (si_annotation_get o && si_annotation_patch o); [|done]; intros [= <-].
  all: by exists client, p.
Qed.

(** ** Reconcile: deletion of the request *)

Record deletion_oracle := mkDeletion {
  del_cleanup : bool;
  del_children : option (list string);     (* GetChildNodes; None: error *)
  del_finalizer : bool;
}.

(** [None]: an error. *)
Definition handleNodeAllocationRequestDeletion (d : deletion_oracle) : option bool :=
  if del_cleanup d then nodes ← del_children d; Some (bool_decide (nodes = [])) else None.

Definition Reconcile (o : oracle) (d : deletion_oracle) (deleting : bool) (nar : NAR) : reconciled :=
  if deleting then
    if Finalizer nar then
      match handleNodeAllocationRequestDeletion d with
      | None => (nar, RequeueWithShortInterval, true)
      | Some false => (nar, RequeueWithShortInterval, false)
      | Some true =>
          if del_finalizer d then (apply_remove_finalizer nar, DoNotRequeue, false)
          else (nar, RequeueWithShortInterval, false)
      end
    else (nar, DoNotRequeue, false)
  else HandleNodeAllocationRequest o nar.

(** The request goes away only once its nodes are gone. *)
Lemma Reconcile_deletion o d nar :
  Finalizer nar = true -> Finalizer (Reconcile o d true nar).1.1 = false -> del_children d = Some [].
Proof.
  unfold Reconcile, handleNodeAllocationRequestDeletion. intros Hfin. rewrite Hfin.
  destruct (del_cleanup d); simpl; [|congruence].
  destruct (del_children d) as [[|x l]|]; simpl; congruence.
Qed.

(** ** Properties *)

(** When the scale-in of a request completes, its annotation is gone, exactly
    the nodes of the annotation are gone from the hub and from the request's list of
    nodes, whatever the order in which they were processed, and no host of them that
    was up and had not been drained before was given away undrained. *)
Theorem scale_in_completes o nodeList st st' :
  scale_in_nodes st = Some nodeList -> calls_for o nodeList -> NoDup (NodeNames (request st)) ->
  handleScaleInAnnotations o st = Some (st', DoNotRequeue, false) ->
  let names := scale_in_names nodeList in
  let w := populate (si_found o) (hub st) in
  scale_in_nodes st' = None /\
  NodeNames (request st') = filter (fun n => n ∉ names) (NodeNames (request st)) /\
  (forall n, allocated (hub st') !! n = if decide (n ∈ names) then None else allocated w !! n) /\
  (si_spoke o = SpokeReady -> distinct_hosts w ->
   forall n an, n ∈ names -> allocated w !! n = Some an -> drain_needed w an ->
     Hostname an ∈ drained (hub st')).
Proof.
  intros Hst Hcalls Hnd H. unfold handleScaleInAnnotations in H. rewrite Hst in H. simplify_eq.
  apply scale_in_done in H as (client & p & Hcl & Hp & Hf & Ha & ->). simpl. subst p.
  destruct (scale_all_spec _ _ _ _ Hf Ha) as (Hrem & Hgone & Hkept & _). simpl in *.
  assert (Hin : forall n, n ∈ (si_calls o).*1 <-> n ∈ scale_in_names nodeList)
    by (intros n; by rewrite Hcalls).
  split_and!; [done| | |].
  - rewrite Hrem, removeFromSlice_all by done. apply list_filter_iff. intros n. by rewrite Hin.
  - intros n. case_decide as E; [by apply Hgone, Hin|]. apply Hkept. by rewrite Hin.
  - intros Hs Hd n an Hn Han Hneed.
    by eapply (scale_all_drains _ _ _ _ n an); [apply Hcl|..|apply Hin| |].
Qed.

(** ** Witness *)

Definition no_failures : failures := mkFailures false false false false false false false.
Definition example_hub : World :=
  mkWorld {["n1" := mkNode "host1" []; "n2" := mkNode "" []; "n3" := mkNode "host3" []]}%string
    {["host1" := true; "host2" := false; "host3" := true]}%string [].
Definition example_request : request_state :=
  mkRequest (mkNAR 2 0 None false 1 0 [] None ["n1"; "n2"; "n3"]%string true) (Some "n1, n2"%string) example_hub.
Definition example_scale_in : scale_in_oracle :=
  mkScaleIn 100 SpokeReady {["n2" := "host2"]}%string
    [("n2", no_failures); ("n1", no_failures)]%string true true true true.

Definition example_after : request_state :=
  (handleScaleInNodesAnnotation example_scale_in example_request).1.1.

Lemma example_nodes :
  allocated (populate (si_found example_scale_in) example_hub)
  = {["n1" := mkNode "host1" []; "n2" := mkNode "host2" []; "n3" := mkNode "host3" []]}%string.
Proof. vm_compute. reflexivity. Qed.

Lemma example_distinct : distinct_hosts (populate (si_found example_scale_in) example_hub).
Proof.
  intros n1 n2 a1 a2. rewrite example_nodes.
  rewrite !lookup_insert_Some, !lookup_singleton_Some. naive_solver congruence.
Qed.

Lemma scale_in_completes_witness :
  NodeNames (request example_after) = ["n3"]%string /\
  allocated (hub example_after) !! "n1"%string = None /\
  "host1"%string ∈ drained (hub example_after).
Proof.
  destruct (scale_in_completes example_scale_in "n1, n2" example_request example_after)
    as (_ & Hn & Ha & Hd).
  - reflexivity.
  - unfold calls_for. vm_compute. apply Permutation_swap.
  - by apply (bool_decide_unpack _); vm_compute.
  - vm_compute. reflexivity.
  - split; [rewrite Hn; vm_compute; reflexivity|]. split; [rewrite Ha; vm_compute; reflexivity|].
    apply (Hd eq_refl example_distinct "n1"%string (mkNode "host1" [])).
    + vm_compute. apply list_elem_of_here.
    + vm_compute. reflexivity.
    + split; vm_compute; reflexivity.
Defined.
