(* ===== verification/ResourceSelection.v ===== *)
(** * Selection of bare metal hosts (hardwaremanager/controller/resource_selection.go)

    Two filters: labels, evaluated by the API server, and criteria on the
    HardwareData of a host.  A criterion is an entry of the resource selector, a Go
    map: every iteration over it has an order of its own, which is an argument.
    Listing and reading objects are parameters; strings are sequences of runes. *)
From S2P Require Import Prelude GoStrings.
#[local] Open Scope Z_scope.

(** ** Hardware data (metal3), the fields the criteria look at *)

Record NIC := mkNIC { nic_Model : gostring; SpeedGbps : Z }.

Record Storage := mkStorage {
  stg_Name : gostring;
  AlternateNames : list gostring;
  stg_Type : gostring;
  SizeBytes : Z;
  stg_Vendor : gostring;
  stg_Model : gostring;
}.

Record HardwareDetails := mkDetails {
  Manufacturer : gostring;
  ProductName : gostring;
  RAMMebibytes : Z;
  NICs : list NIC;
  Storages : list Storage;
  CPU_Arch : gostring;
  CPU_Model : gostring;
  CPU_Count : Z;
}.

Record BareMetalHost := mkHost {
  bmh_Name : gostring;
  bmh_Namespace : gostring;
  bmh_Labels : gmap gostring gostring;
  provisioning_State : gostring;
}.

Record NodeGroupData := mkGroupData {
  ngd_Name : gostring;
  ResourcePoolId : gostring;
  ResourceSelector : gmap gostring gostring;
}.

(** ** Errors, by their messages *)

Inductive error : Type :=
| InvalidValue (value : gostring)
| AtMostOneQualifier
| InvalidQualifier (qualifier : gostring)
| InvalidOperator (op : gostring)
| ExpectedPresent (value : gostring)
| FailedToEvaluate (criteria : gostring) (err : error)
| FailedToList.

#[export] Instance error_eq_dec : EqDecision error.
Proof. solve_decision. Defined.

(** ** Names *)

Definition HardwareDataPrefix : gostring := lit "hardwaredata/".
Definition LabelPrefixResourceSelector : gostring := lit "resourceselector.clcm.openshift.io/".
Definition LabelResourcePoolName : gostring := lit "resources.clcm.openshift.io/resourcePoolName".
Definition BmhAllocatedLabel : gostring := lit "clcm.openshift.io/allocated".
Definition ValueTrue : gostring := lit "true".
Definition StateAvailable : gostring := lit "available".

Inductive field : Type :=
| FieldCPUArch | FieldCPUModel | FieldNumThreads | FieldRAM
| FieldNIC | FieldStorage | FieldManufacturer | FieldProductName.

Definition field_of (name : gostring) : option field :=
  assoc_lookup name
    [(lit "cpu_arch", FieldCPUArch); (lit "cpu_model", FieldCPUModel);
     (lit "num_threads", FieldNumThreads); (lit "ramMebibytes", FieldRAM);
     (lit "nics", FieldNIC); (lit "storage", FieldStorage);
     (lit "manufacturer", FieldManufacturer); (lit "productname", FieldProductName)].

(** ** The regular expressions *)

(** The prefix, then any runes but the newline. *)
Fixpoint up_to_newline (s : gostring) : gostring :=
  match s with
  | [] => []
  | r :: s' => if r =? 10 then [] else r :: up_to_newline s'
  end.

Fixpoint cut_prefix (s prefix : gostring) : option gostring :=
  match prefix, s with
  | [], _ => Some s
  | p :: prefix', r :: s' => if p =? r then cut_prefix s' prefix' else None
  | _ :: _, [] => None
  end.

Definition REPatternHardwareData (s : gostring) : option gostring :=
  up_to_newline <$> cut_prefix s HardwareDataPrefix.

(** A key without operator runes, an operator, and a value without newlines; the
    first two are not empty and as long as possible. *)
Definition op_rune (r : rune) : bool :=
  (r =? 33) || (r =? 60) || (r =? 62) || (r =? 61) || (r =? 126).

Fixpoint span (f : rune -> bool) (s : gostring) : gostring * gostring :=
  match s with
  | [] => ([], [])
  | r :: s' => if f r then let '(a, b) := span f s' in (r :: a, b) else ([], s)
  end.

Record OpQualifier := mkOpQualifier { Op : gostring; Value : gostring }.

Definition REPatternQualifierOp (s : gostring) : option (gostring * OpQualifier) :=
  let '(key, rest) := span (fun r => negb (op_rune r)) s in
  let '(op, value) := span op_rune rest in
  if negb (bool_decide (key = [])) && negb (bool_decide (op = [])) && forallb (fun r => negb (r =? 10)) value
  then Some (key, mkOpQualifier op value)
  else None.

(** ** Labels: the primary filter *)

(** The requirements given to the API server: the label [allocated] is not in
    the set of the values, and the labels of [MatchingLabels] have these values. *)
Record ListOptions := mkListOptions {
  notIn : gostring * list gostring;
  MatchingLabels : gmap gostring gostring;
}.

Definition fullLabelName (key : gostring) : gostring :=
  if hasPrefix key LabelPrefixResourceSelector then key
  else (LabelPrefixResourceSelector ++ key)%list.

Definition add_selector_label (labels : gmap gostring gostring) (kv : gostring * gostring)
    : gmap gostring gostring :=
  match REPatternHardwareData kv.1 with
  | Some _ => labels
  | None => <[fullLabelName kv.1 := kv.2]> labels
  end.

(** [entries] is the resource selector in the order of this iteration. *)
Definition ResourceSelectionPrimaryFilter (entries : list (gostring * gostring))
    (nodeGroupData : NodeGroupData) : ListOptions :=
  mkListOptions (BmhAllocatedLabel, [ValueTrue])
    (fold_left add_selector_label entries
      (if decide (ResourcePoolId nodeGroupData = []) then ∅
       else {[ LabelResourcePoolName := ResourcePoolId nodeGroupData ]})).

(** How the API server evaluates them. *)
Definition label_matches (opts : ListOptions) (labels : gmap gostring gostring) : Prop :=
  match labels !! (notIn opts).1 with
  | Some v => v ∉ (notIn opts).2
  | None => True
  end /\ MatchingLabels opts ⊆ labels.

#[export] Instance label_matches_dec opts labels : Decision (label_matches opts labels).
Proof. unfold label_matches. apply and_dec; [destruct (labels !! _); apply _|apply _]. Defined.

(** ** Criteria: the secondary filter *)

Section criteria.
Context `{Unicode}.

Definition fold_case (caseSensitive : bool) (s : gostring) : gostring :=
  if caseSensitive then s else toLower s.

Definition checkStringWithQualifiers (qualifiers : list gostring) (value fieldValue : gostring)
    (caseSensitive : bool) : bool :=
  let fieldValue := fold_case caseSensitive fieldValue in
  let value := fold_case caseSensitive value in
  if decide (lit "substring" ∈ qualifiers) then contains fieldValue value
  else bool_decide (fieldValue = value).

Definition checkIntWithQualifiers (qualifiers : list gostring) (value : gostring) (fieldValue : Z)
    : outcome error bool :=
  match atoi value with
  | None => Err (InvalidValue value)
  | Some valueInt =>
      match qualifiers with
      | [] => Ret (fieldValue =? valueInt)
      | [q] =>
          if decide (q ∈ [lit "gt"; lit ">"]) then Ret (valueInt <? fieldValue)
          else if decide (q ∈ [lit "gte"; lit ">="]) then Ret (valueInt <=? fieldValue)
          else if decide (q ∈ [lit "lt"; lit "<"]) then Ret (fieldValue <? valueInt)
          else if decide (q ∈ [lit "lte"; lit "<="]) then Ret (fieldValue <=? valueInt)
          else if decide (q ∈ [lit "eq"; lit "="; lit "=="]) then Ret (fieldValue =? valueInt)
          else if decide (q ∈ [lit "neq"; lit "!="]) then Ret (negb (fieldValue =? valueInt))
          else Err (InvalidQualifier q)
      | _ => Err AtMostOneQualifier
      end
  end.

Definition checkStringWithOpQualifier (op value fieldValue : gostring) (caseSensitive : bool)
    : outcome error bool :=
  let fieldValue := fold_case caseSensitive fieldValue in
  let value := fold_case caseSensitive value in
  if decide (op = lit "!=") then Ret (negb (bool_decide (fieldValue = value)))
  else if decide (op ∈ [lit "="; lit "=="]) then Ret (bool_decide (fieldValue = value))
  else if decide (op = lit "~") then Ret (contains fieldValue value)
  else if decide (op = lit "!~") then Ret (negb (contains fieldValue value))
  else Err (InvalidOperator op).

Definition checkIntWithOpQualifier (op value : gostring) (fieldValue : Z) : outcome error bool :=
  match atoi value with
  | None => Err (InvalidValue value)
  | Some valueInt =>
      if decide (op ∈ [lit "="; lit "=="]) then Ret (fieldValue =? valueInt)
      else if decide (op = lit "!=") then Ret (negb (fieldValue =? valueInt))
      else if decide (op = lit ">") then Ret (valueInt <? fieldValue)
      else if decide (op = lit ">=") then Ret (valueInt <=? fieldValue)
      else if decide (op = lit "<") then Ret (fieldValue <? valueInt)
      else if decide (op = lit "<=") then Ret (fieldValue <=? valueInt)
      else Err (InvalidOperator op)
  end.

(** *** Devices *)

Abbreviation OpQualifierSet := (gmap gostring OpQualifier) (only parsing).

(** A repeated key keeps its last qualifier. *)
Fixpoint add_qualifiers (set : OpQualifierSet) (qualifiers : list gostring)
    : outcome error OpQualifierSet :=
  match qualifiers with
  | [] => Ret set
  | qualifier :: rest =>
      match REPatternQualifierOp qualifier with
      | None => Err (InvalidQualifier qualifier)
      | Some (key, q) => add_qualifiers (<[key := q]> set) rest
      end
  end.

Definition qualifierSetFromQualifiers (qualifiers : list gostring) : outcome error OpQualifierSet :=
  add_qualifiers ∅ qualifiers.

(** [if q, ok := qualifierSet[key]; ok { ... if !rc { continue } }], before the
    rest [next] of the body of the loop. *)
Definition qualified (set : OpQualifierSet) (key : gostring)
    (check : OpQualifier -> outcome error bool) (next : outcome error bool) : outcome error bool :=
  match set !! key with
  | None => next
  | Some q => rc ← check q; if (rc : bool) then next else Ret false
  end.

Section device.
Context (set : OpQualifierSet) (caseSensitive : bool).

Definition on_string (fieldValue : gostring) (q : OpQualifier) : outcome error bool :=
  checkStringWithOpQualifier (Op q) (Value q) fieldValue caseSensitive.

Definition on_int (fieldValue : Z) (q : OpQualifier) : outcome error bool :=
  checkIntWithOpQualifier (Op q) (Value q) fieldValue.

Fixpoint on_any_name (names : list gostring) (q : OpQualifier) : outcome error bool :=
  match names with
  | [] => Ret false
  | itername :: names' =>
      rc ← on_string itername q;
      if (rc : bool) then Ret true else on_any_name names' q
  end.

Definition nic_meets (nic : NIC) : outcome error bool :=
  qualified set (lit "model") (on_string (nic_Model nic))
    (qualified set (lit "speedGbps") (on_int (SpeedGbps nic)) (Ret true)).

Definition storage_meets (s : Storage) : outcome error bool :=
  qualified set (lit "type") (on_string (stg_Type s))
    (qualified set (lit "sizeBytes") (on_int (SizeBytes s))
      (qualified set (lit "name") (on_any_name (AlternateNames s ++ [stg_Name s])%list)
        (qualified set (lit "vendor") (on_string (stg_Vendor s))
          (qualified set (lit "model") (on_string (stg_Model s)) (Ret true))))).
End device.

(** The loop over the devices, then the comparison of the count. *)
Fixpoint countMatching {D} (meets : D -> outcome error bool) (matchingCount : Z) (devices : list D)
    : outcome error Z :=
  match devices with
  | [] => Ret matchingCount
  | d :: rest =>
      rc ← meets d;
      countMatching meets (if (rc : bool) then matchingCount + 1 else matchingCount) rest
  end.

Definition compare_count (set : OpQualifierSet) (matchingCount : Z) : outcome error bool :=
  match set !! lit "count" with
  | Some count => checkIntWithOpQualifier (Op count) (Value count) matchingCount
  | None => Ret (0 <? matchingCount)
  end.

Definition checkDevices {D} (meets : OpQualifierSet -> bool -> D -> outcome error bool)
    (qualifiers : list gostring) (value : gostring) (devices : list D) (caseSensitive : bool)
    : outcome error bool :=
  set ← qualifierSetFromQualifiers qualifiers;
  if decide (value = lit "present") then
    countMatching (meets set caseSensitive) 0 devices ≫= compare_count set
  else Err (ExpectedPresent value).

Definition checkNicsWithQualifiers := checkDevices nic_meets.
Definition checkStorageWithQualifiers := checkDevices storage_meets.

(** *** One criterion *)

Definition check_field (f : field) (qualifiers : list gostring) (value : gostring)
    (details : HardwareDetails) (caseSensitive : bool) : outcome error bool :=
  match f with
  | FieldCPUArch => Ret (checkStringWithQualifiers qualifiers value (CPU_Arch details) caseSensitive)
  | FieldCPUModel => Ret (checkStringWithQualifiers qualifiers value (CPU_Model details) caseSensitive)
  | FieldNumThreads => checkIntWithQualifiers qualifiers value (CPU_Count details)
  | FieldRAM => checkIntWithQualifiers qualifiers value (RAMMebibytes details)
  | FieldNIC => checkNicsWithQualifiers qualifiers value (NICs details) caseSensitive
  | FieldStorage => checkStorageWithQualifiers qualifiers value (Storages details) caseSensitive
  | FieldManufacturer => Ret (checkStringWithQualifiers qualifiers value (Manufacturer details) caseSensitive)
  | FieldProductName => Ret (checkStringWithQualifiers qualifiers value (ProductName details) caseSensitive)
  end.

Definition ResourceSelectionSecondaryFilterHardwareData (key value : gostring)
    (details : HardwareDetails) : outcome error bool :=
  match REPatternHardwareData key with
  | None => Ret true
  | Some rest =>
      match split_on 59 rest with
      | [] => Panic
      | name :: qualifiers =>
          let caseSensitive := bool_decide (lit "icase" ∉ qualifiers) in
          let qualifiers := filter (fun q => q <> lit "icase") qualifiers in
          match field_of name with
          | None => Ret true
          | Some f => check_field f qualifiers value details caseSensitive
          end
      end
  end.

(** *** All criteria, all hosts *)

Fixpoint meets_criteria (entries : list (gostring * gostring)) (details : HardwareDetails)
    : outcome error bool :=
  match entries with
  | [] => Ret true
  | (key, value) :: rest =>
      rc ← map_err (FailedToEvaluate key) (ResourceSelectionSecondaryFilterHardwareData key value details);
      if (rc : bool) then meets_criteria rest details else Ret false
  end.

(** [getHardwareData] is [None] when the object cannot be read and [Some None]
    when it has no details; [order b] is the iteration made for the host [b]. *)
Section secondary.
Context (getHardwareData : BareMetalHost -> option (option HardwareDetails)).
Context (order : BareMetalHost -> list (gostring * gostring)).

Definition include_host (bmh : BareMetalHost) : outcome error bool :=
  if decide (provisioning_State bmh = StateAvailable) then
    match getHardwareData bmh with
    | None | Some None => Ret false
    | Some (Some details) => meets_criteria (order bmh) details
    end
  else Ret false.

Fixpoint ResourceSelectionSecondaryFilter (bmhs : list BareMetalHost) : outcome error (list BareMetalHost) :=
  match bmhs with
  | [] => Ret []
  | bmh :: rest =>
      keep ← include_host bmh;
      filtered ← ResourceSelectionSecondaryFilter rest;
      Ret (if (keep : bool) then bmh :: filtered else filtered)
  end.
End secondary.

(** [fetchBMHList] of baremetalhost_manager.go. *)
Definition fetchBMHList (List : ListOptions -> option (list BareMetalHost))
    (getHardwareData : BareMetalHost -> option (option HardwareDetails))
    (entries : list (gostring * gostring)) (order : BareMetalHost -> list (gostring * gostring))
    (nodeGroupData : NodeGroupData) : outcome error (list BareMetalHost) :=
  match List (ResourceSelectionPrimaryFilter entries nodeGroupData) with
  | None => Err FailedToList
  | Some bmhs => ResourceSelectionSecondaryFilter getHardwareData order bmhs
  end.
End criteria.

(** ** The regular expression of the qualifiers *)

Lemma span_app f s : let '(a, b) := span f s in s = (a ++ b)%list /\ forallb f a = true /\
  match b with [] => True | r :: _ => f r = false end.
Proof.
  induction s as [|r s IH]; simpl; [done|]. destruct (f r) eqn:E; [|simpl; by rewrite E].
  destruct (span f s) as [a b]. destruct IH as (-> & Ha & Hb). simpl. by rewrite E.
Qed.

Lemma span_unique f a b :
  forallb f a = true -> match b with [] => True | r :: _ => f r = false end ->
  span f (a ++ b)%list = (a, b).
Proof.
  intros Ha Hb. induction a as [|r a IH]; simpl in *.
  - destruct b as [|r b]; [done|]. simpl. by rewrite Hb.
  - apply andb_true_iff in Ha as [-> Ha]. by rewrite IH.
Qed.

(** The text of a device qualifier and its parse determine each other.  A
    qualifier is read as key, operator and value exactly when it is their
    concatenation, key and operator are not empty, the key has no operator rune, the
    operator has nothing else and is taken as long as possible, and the value has no
    newline. *)
Theorem REPatternQualifierOp_iff s key q :
  REPatternQualifierOp s = Some (key, q) <->
  s = (key ++ Op q ++ Value q)%list /\ key <> [] /\ Op q <> [] /\
  (forall r, r ∈ key -> op_rune r = false) /\ (forall r, r ∈ Op q -> op_rune r = true) /\
  match Value q with [] => True | r :: _ => op_rune r = false end /\ 10 ∉ Value q.
Proof.
  unfold REPatternQualifierOp. split.
  - pose proof (span_app (fun r => negb (op_rune r)) s) as H1.
    destruct (span _ s) as [k rest]. pose proof (span_app op_rune rest) as H2.
    destruct (span op_rune rest) as [op v]. destruct H1 as (-> & Hk & _), H2 as (-> & Ho & Hv).
    destruct (_ && _) eqn:E; [|by intros [=]]. intros [= -> <-]. simpl. bools.
    split_and!; try done.
    + intros r Hr. eapply forallb_elem in Hk; [|done]. by destruct (op_rune r).
    + intros r Hr. by eapply forallb_elem in Ho.
    + intros H10. match goal with H : forallb _ v = true |- _ => apply (forallb_elem _ _ 10) in H; [done|exact H10] end.
  - intros (-> & Hk & Ho & Hkf & Hof & Hv & Hn). destruct q as [op v]; simpl in *.
    rewrite (span_unique _ key).
    + rewrite (span_unique _ op) by (try done; apply forallb_forall; intros r Hr; apply Hof, list_elem_of_In, Hr).
      rewrite !bool_decide_eq_false_2 by done. simpl.
      assert (forallb (fun r => negb (r =? 10)) v = true) as ->; [|done].
      apply forallb_forall. intros r Hr%list_elem_of_In. apply negb_true_iff, Z.eqb_neq. by intros ->.
    + apply forallb_forall. intros r Hr%list_elem_of_In. by rewrite Hkf.
    + destruct op as [|r op]; [done|]. simpl. rewrite Hof by apply list_elem_of_here. done.
Qed.

(** ** Comparison with an integer *)

(** The relation each spelling of a qualifier of [checkIntWithQualifiers] stands for. *)
Definition int_relations : list (gostring * (Z -> Z -> Prop)) :=
  [(lit "gt", Z.gt); (lit ">", Z.gt); (lit "gte", Z.ge); (lit ">=", Z.ge);
   (lit "lt", Z.lt); (lit "<", Z.lt); (lit "lte", Z.le); (lit "<=", Z.le);
   (lit "eq", eq); (lit "=", eq); (lit "==", eq); (lit "neq", fun a b => a <> b); (lit "!=", fun a b => a <> b)].

Section int_bounds.
Context `{Unicode}.

(** A comparison of a hardware integer with a decimal bound compares the
    numbers themselves as long as the bound fits in 64 bits, whichever spelling the
    qualifier has, and is an error (never a comparison with a wrapped or clamped
    number) when it does not. *)
Theorem checkInt_bounds (q : gostring) (rel : Z -> Z -> Prop) (n fieldValue : Z) :
  (q, rel) ∈ int_relations -> Z.abs n < 10 ^ 20 ->
  if between int_min n int_max
  then exists b, checkIntWithQualifiers [q] (itoa n) fieldValue = Ret b /\ (b = true <-> rel fieldValue n)
  else checkIntWithQualifiers [q] (itoa n) fieldValue = Err (InvalidValue (itoa n)).
Proof.
  intros Hq Hn. unfold checkIntWithQualifiers. rewrite atoi_itoa by done.
  destruct (between int_min n int_max); [|done].
  unfold int_relations in Hq. rewrite !elem_of_cons in Hq. destruct_or! Hq; [..|by apply elem_of_nil in Hq];
    injection Hq as -> ->; (eexists; split; [reflexivity|]); lia.
Qed.

Lemma checkInt_bounds_witness :
  checkIntWithQualifiers [lit ">="] (itoa (2 ^ 63)) 0 = Err (InvalidValue (itoa (2 ^ 63))).
Proof.
  apply (checkInt_bounds (lit ">=") Z.ge (2 ^ 63) 0); [|by vm_compute].
  do 3 apply list_elem_of_further. apply list_elem_of_here.
Defined.
End int_bounds.

(** ** Devices: the loop computes a count *)

Definition says_yes (m : outcome error bool) : bool := bool_decide (m = Ret true).

Section devices.
Context `{Unicode} {D : Type}.

Lemma countMatching_spec (meets : D -> outcome error bool) n ds :
  (forall d, d ∈ ds -> exists b, meets d = Ret b) ->
  countMatching meets n ds = Ret (n + Z.of_nat (length (filter (fun d => says_yes (meets d)) ds))).
Proof.
  revert n; induction ds as [|d ds IH]; intros n Hd; simpl; [f_equal; lia|].
  destruct (Hd d) as [b Hb]; [apply list_elem_of_here|]. rewrite Hb. simpl.
  rewrite IH by (intros; apply Hd; by apply list_elem_of_further).
  rewrite filter_cons. case_decide as Hc; unfold says_yes in Hc; rewrite Hb in Hc;
    destruct b; simpl; try done; f_equal; lia.
Qed.

Lemma checkDevices_spec (meets : gmap gostring OpQualifier -> bool -> D -> outcome error bool) qs set ds cs :
  qualifierSetFromQualifiers qs = Ret set ->
  (forall d, d ∈ ds -> exists b, meets set cs d = Ret b) ->
  checkDevices meets qs (lit "present") ds cs =
    compare_count set (Z.of_nat (length (filter (fun d => says_yes (meets set cs d)) ds))).
Proof.
  intros Hset Hd. unfold checkDevices. rewrite Hset. simpl.
  change (countMatching (meets set cs) 0 ds ≫= compare_count set = compare_count set (Z.of_nat (length (filter (fun d => says_yes (meets set cs d)) ds)))).
  by rewrite countMatching_spec.
Qed.
End devices.

Section device_counts.
Context `{Unicode}.

(** A [nics] criterion counts the interfaces that meet the model and the speed
    qualifiers and compares the count with the [count] qualifier, or with being
    positive when there is none; so neither the order of the interfaces nor that of
    the qualifiers' keys matters.  The same holds for [storage]. *)
Theorem device_criteria_count (qs : list gostring) (set : gmap gostring OpQualifier) (cs : bool)
    (nics : list NIC) (disks : list Storage) :
  qualifierSetFromQualifiers qs = Ret set ->
  ((forall d, d ∈ nics -> exists b, nic_meets set cs d = Ret b) ->
   checkNicsWithQualifiers qs (lit "present") nics cs =
     compare_count set (Z.of_nat (length (filter (fun d => says_yes (nic_meets set cs d)) nics)))) /\
  ((forall d, d ∈ disks -> exists b, storage_meets set cs d = Ret b) ->
   checkStorageWithQualifiers qs (lit "present") disks cs =
     compare_count set (Z.of_nat (length (filter (fun d => says_yes (storage_meets set cs d)) disks)))).
Proof. intros Hset. split; intros Hd; by apply checkDevices_spec. Qed.

(** The operators of a device qualifier that are not errors. *)
Definition string_op (op : gostring) : Prop := op ∈ [lit "="; lit "=="; lit "!="; lit "~"; lit "!~"].
Definition int_op (op : gostring) : Prop :=
  op ∈ [lit "="; lit "=="; lit "!="; lit ">"; lit ">="; lit "<"; lit "<="].

Lemma checkStringWithOp_returns op v f cs : string_op op -> exists b, checkStringWithOpQualifier op v f cs = Ret b.
Proof.
  unfold string_op. rewrite !elem_of_cons. intros Hop. destruct_or! Hop; [..|by apply elem_of_nil in Hop];
    subst op; eexists; reflexivity.
Qed.

Lemma checkIntWithOp_returns op v n f : int_op op -> atoi v = Some n -> exists b, checkIntWithOpQualifier op v f = Ret b.
Proof.
  unfold int_op, checkIntWithOpQualifier. rewrite !elem_of_cons. intros Hop ->.
  destruct_or! Hop; [..|by apply elem_of_nil in Hop]; subst op; eexists; reflexivity.
Qed.

Lemma nic_meets_returns set cs nic :
  (forall q, set !! lit "model" = Some q -> string_op (Op q)) ->
  (forall q, set !! lit "speedGbps" = Some q -> int_op (Op q) /\ is_Some (atoi (Value q))) ->
  exists b, nic_meets set cs nic = Ret b.
Proof.
  intros Hm Hs. unfold nic_meets, qualified.
  assert (exists b, match set !! lit "speedGbps" with
    | Some q => rc ← on_int (SpeedGbps nic) q; if (rc : bool) then Ret true else Ret false
    | None => Ret true end = Ret b) as [b' Hb'].
  { destruct (set !! lit "speedGbps") as [q|] eqn:E; [|by eexists].
    destruct (Hs q eq_refl) as [? [n ?]]. unfold on_int.
    edestruct checkIntWithOp_returns as [b Hb]; [done..|]. rewrite Hb. destruct b; by eexists. }
  destruct (set !! lit "model") as [q|] eqn:E; [|by eexists].
  unfold on_string. destruct (checkStringWithOp_returns (Op q) (Value q) (nic_Model nic) cs) as [b Hb]; [by apply Hm|].
  rewrite Hb. destruct b; simpl; [by eexists|by eexists].
Qed.
End device_counts.

Definition example_qualifiers : list gostring := [lit "model~Intel"; lit "speedGbps>=10"; lit "count>=2"].
Definition example_nics : list NIC := [mkNIC (lit "Intel X710") 25; mkNIC (lit "Intel I350") 1; mkNIC (lit "Intel E810") 100].

Definition example_set : gmap gostring OpQualifier :=
  {[ lit "model" := mkOpQualifier (lit "~") (lit "Intel");
     lit "speedGbps" := mkOpQualifier (lit ">=") (lit "10");
     lit "count" := mkOpQualifier (lit ">=") (lit "2") ]}.

Lemma device_criteria_count_witness :
  @checkNicsWithQualifiers ascii_unicode example_qualifiers (lit "present") example_nics true
  = compare_count example_set 2.
Proof.
  etransitivity.
  - apply (proj1 (@device_criteria_count ascii_unicode example_qualifiers example_set true example_nics []
      ltac:(vm_compute; reflexivity))).
    intros d Hd. exists (says_yes (@nic_meets ascii_unicode example_set true d)).
    repeat (apply elem_of_cons in Hd as [-> |Hd]; [vm_compute; reflexivity|]). by apply elem_of_nil in Hd.
  - vm_compute. reflexivity.
Defined.

(** ** The secondary filter selects *)

Section selection.
Context `{Unicode}.

Definition meets_criterion (key value : gostring) (details : HardwareDetails) : bool :=
  says_yes (ResourceSelectionSecondaryFilterHardwareData key value details).

(** Available, its hardware data known, every criterion met. *)
Definition eligible (selector : gmap gostring gostring)
    (getHardwareData : BareMetalHost -> option (option HardwareDetails)) (bmh : BareMetalHost) : Prop :=
  provisioning_State bmh = StateAvailable /\
  exists details, getHardwareData bmh = Some (Some details) /\
    forall key value, selector !! key = Some value -> meets_criterion key value details = true.

Definition is_eligible (selector : gmap gostring gostring)
    (getHardwareData : BareMetalHost -> option (option HardwareDetails)) (bmh : BareMetalHost) : bool :=
  bool_decide (provisioning_State bmh = StateAvailable) &&
  match getHardwareData bmh with
  | Some (Some details) =>
      forallb (fun kv => meets_criterion kv.1 kv.2 details) (map_to_list selector)
  | _ => false
  end.

Lemma is_eligible_spec selector get bmh : is_eligible selector get bmh = true <-> eligible selector get bmh.
Proof.
  unfold is_eligible, eligible. rewrite andb_true_iff, bool_decide_eq_true.
  destruct (get bmh) as [[d|]|]; [|naive_solver..].
  rewrite forallb_forall. split.
  - intros [? Hf]. split; [done|]. exists d. split; [done|].
    intros k v Hkv. apply (Hf (k, v)), list_elem_of_In, elem_of_map_to_list, Hkv.
  - intros [? (? & [= <-] & Hf)]. split; [done|].
    intros [k v] Hin%list_elem_of_In%elem_of_map_to_list. by apply Hf.
Qed.

Lemma meets_criteria_true entries details :
  meets_criteria entries details = Ret true <->
  forallb (fun kv => meets_criterion kv.1 kv.2 details) entries = true.
Proof.
  unfold meets_criterion, says_yes. induction entries as [|[k v] entries IH]; simpl; [done|].
  destruct (ResourceSelectionSecondaryFilterHardwareData k v details) as [[]|e| |] eqn:E; simpl.
  1: by rewrite IH.
  all: done.
Qed.

Lemma meets_criteria_returns entries details :
  (forall k v, (k, v) ∈ entries -> exists b, ResourceSelectionSecondaryFilterHardwareData k v details = Ret b) ->
  exists b, meets_criteria entries details = Ret b.
Proof.
  induction entries as [|[k v] entries IH]; intros He; simpl; [by eexists|].
  destruct (He k v) as [b Hb]; [apply list_elem_of_here|]. rewrite Hb. simpl.
  destruct b; [|by eexists]. apply IH. intros ???. eapply He. by apply list_elem_of_further.
Qed.

Lemma forallb_perm {A} (f : A -> bool) l l' : l ≡ₚ l' -> forallb f l = forallb f l'.
Proof. induction 1; simpl; [done|congruence|by rewrite !andb_assoc, (andb_comm (f y))|congruence]. Qed.

Section with_order.
Context (selector : gmap gostring gostring)
  (getHardwareData : BareMetalHost -> option (option HardwareDetails))
  (order : BareMetalHost -> list (gostring * gostring))
  (iterates : forall bmh, order bmh ≡ₚ map_to_list selector).

Lemma include_host_spec bmh b :
  include_host getHardwareData order bmh = Ret b -> b = is_eligible selector getHardwareData bmh.
Proof using iterates.
  unfold include_host, is_eligible. case_decide as E.
  - rewrite bool_decide_eq_true_2 by done. simpl.
    destruct (getHardwareData bmh) as [[d|]|]; [|by intros [= <-]..].
    rewrite <- (forallb_perm _ _ _ (iterates bmh)).
    pose proof (meets_criteria_true (order bmh) d) as Hm. intros Hb. destruct b; [by symmetry; apply Hm|].
    destruct (forallb _ _); [|done]. rewrite (proj2 Hm eq_refl) in Hb. done.
  - rewrite bool_decide_eq_false_2 by done. by intros [= <-].
Qed.

Lemma SecondaryFilter_sound bmhs l :
  ResourceSelectionSecondaryFilter getHardwareData order bmhs = Ret l ->
  l = filter (fun b => is_eligible selector getHardwareData b) bmhs.
Proof using iterates.
  revert l; induction bmhs as [|b bmhs IH]; intros l; simpl; [by intros [= <-]|].
  intros (keep & Hk%include_host_spec & (rest & Hr%IH & [= <-])%bind_Ret)%bind_Ret. subst.
  rewrite filter_cons. by destruct (is_eligible _ _ b).
Qed.
End with_order.

(** When the secondary filter succeeds, it returns exactly the eligible hosts
    (available, with hardware data that meets every criterion), in the order of the
    list, whatever order the map of criteria is iterated in for each host; it does
    succeed when no criterion is an error on the hosts it looks at, and it can only
    fail with an error. *)
Theorem SecondaryFilter_selects (selector : gmap gostring gostring)
    (getHardwareData : BareMetalHost -> option (option HardwareDetails))
    (order : BareMetalHost -> list (gostring * gostring)) (bmhs : list BareMetalHost) :
  (forall bmh, order bmh ≡ₚ map_to_list selector) ->
  (forall l, ResourceSelectionSecondaryFilter getHardwareData order bmhs = Ret l ->
    l = filter (fun b => is_eligible selector getHardwareData b) bmhs) /\
  ((forall bmh details key value, bmh ∈ bmhs -> provisioning_State bmh = StateAvailable ->
      getHardwareData bmh = Some (Some details) -> selector !! key = Some value ->
      exists b, ResourceSelectionSecondaryFilterHardwareData key value details = Ret b) ->
    ResourceSelectionSecondaryFilter getHardwareData order bmhs
    = Ret (filter (fun b => is_eligible selector getHardwareData b) bmhs)).
Proof.
  intros Ho. split; [by apply SecondaryFilter_sound|]. intros Hc.
  assert (exists l, ResourceSelectionSecondaryFilter getHardwareData order bmhs = Ret l) as [l Hl].
  { induction bmhs as [|b bmhs IH]; simpl; [by eexists|].
    assert (exists k, include_host getHardwareData order b = Ret k) as [k Hk].
    { unfold include_host. case_decide as E; [|by eexists].
      destruct (getHardwareData b) as [[d|]|] eqn:Ed; [|by eexists..].
      apply meets_criteria_returns. intros key value Hin. rewrite Ho in Hin.
      eapply Hc; [apply list_elem_of_here|done..|by apply elem_of_map_to_list]. }
    rewrite Hk. simpl. destruct IH as [l Hl]; [intros; eapply Hc; [by apply list_elem_of_further|done..]|].
    rewrite Hl. by eexists. }
  rewrite Hl. f_equal. by eapply SecondaryFilter_sound.
Qed.

(** ** The two filters together *)

Lemma hasPrefix_app s p : hasPrefix s p = true <-> exists t, s = (p ++ t)%list.
Proof.
  revert s; induction p as [|r p IH]; intros s; simpl; [destruct s; naive_solver|].
  destruct s as [|r' s]; simpl; [naive_solver|]. rewrite andb_true_iff, IH, Z.eqb_eq. naive_solver.
Qed.

Lemma fullLabelName_prefix key : exists t, fullLabelName key = (LabelPrefixResourceSelector ++ t)%list.
Proof. unfold fullLabelName. case_match eqn:E; [by apply hasPrefix_app in E|by eexists]. Qed.

Lemma fullLabelName_pool key : fullLabelName key <> LabelResourcePoolName.
Proof.
  destruct (fullLabelName_prefix key) as [t ->]. intros E.
  assert (take 10 (LabelPrefixResourceSelector ++ t)%list = take 10 LabelResourcePoolName) as F by congruence.
  vm_compute in F. discriminate F.
Qed.

(** Two label keys of the selector never stand for the same label. *)
Definition distinct_labels (selector : gmap gostring gostring) : Prop :=
  forall k k', k ∈ dom selector -> k' ∈ dom selector ->
    REPatternHardwareData k = None -> REPatternHardwareData k' = None ->
    fullLabelName k = fullLabelName k' -> k = k'.

Lemma add_selector_label_other entries labels l :
  (forall k v, (k, v) ∈ entries -> REPatternHardwareData k = None -> fullLabelName k <> l) ->
  fold_left add_selector_label entries labels !! l = labels !! l.
Proof.
  revert labels; induction entries as [|[k v] entries IH]; intros labels Hl; simpl; [done|].
  rewrite IH by (intros; eapply Hl; [by apply list_elem_of_further|done]).
  unfold add_selector_label; simpl. destruct (REPatternHardwareData k) eqn:E; [done|].
  apply lookup_insert_ne. eapply Hl; [apply list_elem_of_here|done].
Qed.

Lemma selector_labels_set entries labels k v :
  NoDup entries.*1 -> (k, v) ∈ entries -> REPatternHardwareData k = None ->
  (forall k' v', (k', v') ∈ entries -> REPatternHardwareData k' = None -> fullLabelName k' = fullLabelName k -> k' = k) ->
  fold_left add_selector_label entries labels !! fullLabelName k = Some v.
Proof.
  revert labels; induction entries as [|[k' v'] entries IH]; intros labels Hnd Hin Hk Hd; simpl.
  { by apply elem_of_nil in Hin. }
  apply NoDup_cons in Hnd as [Hk' Hnd]. apply elem_of_cons in Hin as [[= -> ->]|Hin].
  - rewrite add_selector_label_other.
    + unfold add_selector_label; simpl. rewrite Hk. apply lookup_insert_eq.
    + intros k2 v2 Hin Hk2 Heq. apply Hk'.
      rewrite <- (Hd k2 v2 (list_elem_of_further _ _ _ Hin) Hk2 Heq). apply list_elem_of_fmap. by exists (k2, v2).
  - apply IH; [done..|]. intros; eapply Hd; [by apply list_elem_of_further|done..].
Qed.

(** Every host that [fetchBMHList] returns is fit for the node group: it does
    not carry the label of an allocated host, it is in the resource pool when the
    group names one, it has every label of the resource selector, it is available
    and its hardware data meets every hardware criterion.  [List] is the API server's
    answer, of which only the meaning of the label selectors is assumed. *)
Theorem fetchBMHList_fits (List : ListOptions -> option (list BareMetalHost))
    (getHardwareData : BareMetalHost -> option (option HardwareDetails))
    (entries : list (gostring * gostring)) (order : BareMetalHost -> list (gostring * gostring))
    (g : NodeGroupData) (l : list BareMetalHost) :
  (forall opts l b, List opts = Some l -> b ∈ l -> label_matches opts (bmh_Labels b)) ->
  entries ≡ₚ map_to_list (ResourceSelector g) ->
  (forall bmh, order bmh ≡ₚ map_to_list (ResourceSelector g)) ->
  distinct_labels (ResourceSelector g) ->
  fetchBMHList List getHardwareData entries order g = Ret l ->
  forall b, b ∈ l ->
    bmh_Labels b !! BmhAllocatedLabel <> Some ValueTrue /\
    (ResourcePoolId g <> [] -> bmh_Labels b !! LabelResourcePoolName = Some (ResourcePoolId g)) /\
    (forall key value, ResourceSelector g !! key = Some value -> REPatternHardwareData key = None ->
      bmh_Labels b !! fullLabelName key = Some value) /\
    eligible (ResourceSelector g) getHardwareData b.
Proof.
  intros Hlist He Ho Hd. unfold fetchBMHList. destruct (List _) as [bmhs|] eqn:El; [|done].
  intros Hl%(SecondaryFilter_sound _ _ _ Ho). subst l. intros b [Hb Hin]%list_elem_of_filter.
  apply Is_true_true_1, is_eligible_spec in Hb.
  destruct (Hlist _ _ _ El Hin) as [Hn Hm]. simpl in Hn, Hm. rewrite map_subseteq_spec in Hm.
  split_and!.
  - intros E. rewrite E in Hn. by apply Hn, list_elem_of_here.
  - intros Hp. apply Hm. rewrite add_selector_label_other by (intros; apply fullLabelName_pool).
    rewrite decide_False by done. apply lookup_singleton_eq.
  - intros k v Hkv Hk. apply Hm. apply selector_labels_set.
    + rewrite He. apply NoDup_fst_map_to_list.
    + rewrite He. by apply elem_of_map_to_list.
    + done.
    + intros k' v' Hin' Hk' Heq. rewrite He in Hin'. apply elem_of_map_to_list in Hin'.
      apply Hd; [by eapply elem_of_dom_2|by eapply elem_of_dom_2|done..].
  - done.
Qed.
End selection.

(** ** Concrete hosts *)

Definition example_selector : gmap gostring gostring :=
  {[ lit "zone" := lit "east"; lit "hardwaredata/num_threads;gte" := lit "64";
     lit "hardwaredata/cpu_model;substring;icase" := lit "xeon" ]}.

Definition example_details (threads : Z) : HardwareDetails :=
  mkDetails (lit "HPE") (lit "ProLiant") 262144 example_nics [] (lit "x86_64") (lit "Intel XEON Gold") threads.

Definition example_host (name : string) : BareMetalHost :=
  mkHost (lit name) (lit "pool")
    {[ lit "resourceselector.clcm.openshift.io/zone" := lit "east"; LabelResourcePoolName := lit "pool1" ]}
    StateAvailable.

Definition example_hosts : list BareMetalHost := [example_host "a"; example_host "b"].

(** Host [a] has 128 threads, any other one 8. *)
Definition example_data (b : BareMetalHost) : option (option HardwareDetails) :=
  Some (Some (example_details (if decide (bmh_Name b = lit "a") then 128 else 8))).

Definition example_order (_ : BareMetalHost) : list (gostring * gostring) := map_to_list example_selector.

Definition example_group : NodeGroupData := mkGroupData (lit "worker") (lit "pool1") example_selector.

(** An API server that evaluates the selectors on the two hosts. *)
Definition example_List (opts : ListOptions) : option (list BareMetalHost) :=
  Some (filter (fun b => label_matches opts (bmh_Labels b)) example_hosts).

Lemma SecondaryFilter_selects_witness :
  [example_host "a"] = filter (fun b => @is_eligible ascii_unicode example_selector example_data b) example_hosts.
Proof.
  apply (proj1 (@SecondaryFilter_selects ascii_unicode example_selector example_data example_order example_hosts
    (fun _ => Permutation_refl _))).
  vm_compute. reflexivity.
Defined.

Lemma example_selector_distinct : distinct_labels example_selector.
Proof.
  intros k k' [v Hk]%elem_of_dom [v' Hk']%elem_of_dom.
  apply elem_of_map_to_list in Hk, Hk'.
  assert (map_to_list example_selector ≡ₚ
    [(lit "zone", lit "east"); (lit "hardwaredata/num_threads;gte", lit "64");
     (lit "hardwaredata/cpu_model;substring;icase", lit "xeon")]) as HP.
  { unfold example_selector. rewrite !map_to_list_insert by (vm_compute; reflexivity).
    rewrite map_to_list_singleton. done. }
  rewrite HP in Hk, Hk'. rewrite !elem_of_cons in Hk, Hk'.
  destruct_or! Hk; try (by apply elem_of_nil in Hk); destruct_or! Hk'; try (by apply elem_of_nil in Hk');
    injection Hk as -> ->; injection Hk' as -> ->; try done;
    intros Hr Hr'; vm_compute in Hr, Hr'; discriminate.
Qed.

Lemma fetchBMHList_fits_witness :
  bmh_Labels (example_host "a") !! fullLabelName (lit "zone") = Some (lit "east").
Proof.
  apply (@fetchBMHList_fits ascii_unicode example_List example_data (map_to_list example_selector)
    example_order example_group [example_host "a"]).
  - intros opts l b [= <-] Hb. by apply list_elem_of_filter in Hb as [? _].
  - done.
  - done.
  - exact example_selector_distinct.
  - vm_compute. reflexivity.
  - apply list_elem_of_here.
  - vm_compute. reflexivity.
  - vm_compute. reflexivity.
Defined.

(** ** What the criteria do not catch *)

Section not_caught.
Context `{Unicode}.

(** The field of the documented criteria on interfaces is [nics]; the spelling of
    the comments of the source is an unknown field, which every host satisfies. *)
Lemma nic_field_ignored value details :
  ResourceSelectionSecondaryFilterHardwareData (lit "hardwaredata/nic;model=Intel;speedGbps>=10") value details
  = Ret true.
Proof. reflexivity. Qed.

(** An invalid criterion is an error or not according to the order of the map: a
    criterion that fails first hides it. *)
Lemma error_depends_on_order details :
  CPU_Arch details = lit "x86_64" ->
  let bad := (lit "hardwaredata/num_threads", lit "many") in
  let arm := (lit "hardwaredata/cpu_arch", lit "arm64") in
  meets_criteria [arm; bad] details = Ret false /\
  meets_criteria [bad; arm] details = Err (FailedToEvaluate bad.1 (InvalidValue (lit "many"))).
Proof.
  intros E. split; [|reflexivity]. unfold meets_criteria.
  assert (ResourceSelectionSecondaryFilterHardwareData (lit "hardwaredata/cpu_arch") (lit "arm64") details = Ret false) as ->;
    [|done].
  change (Ret (checkStringWithQualifiers [] (lit "arm64") (CPU_Arch details) true) = (Ret false : outcome error bool)).
  by rewrite E.
Qed.
End not_caught.
