(* ===== verification/NodeUpdateHandlers.v ===== *)
(** * The hardware update of one node, after installation
    (hardwaremanager/controller/helpers.go, baremetalhost_manager.go,
    hardwaremanager/utils/allocated_node.go)

    The state is the AllocatedNode, the annotations of its BareMetalHost that the
    update uses, and whether the Kubernetes node of the managed cluster accepts
    pods.  A handler is a program of a monad over that state with an error; [Env]
    says what the environment answers: the status of the host and of the cluster,
    the comparison of the profile with the hardware, and which calls fail.  The
    in-memory node and the one in the API server are the same until a write fails,
    after which the handlers do not look at it again. *)
From S2P Require Import Prelude Conditions NodeAllocationRequest NodeAllocationController.
#[local] Open Scope Z_scope.

Abbreviation ConfigUpdatePending := "ConfigurationUpdatePending"%string.
Abbreviation ConfigUpdate := "ConfigurationUpdateRequested"%string.
Abbreviation ConfigSuccess := "Configuration has been applied successfully"%string.
Abbreviation NodeUpdatePending := "Pending for updates evaluation"%string.
Abbreviation NodeDraining := "Draining node"%string.
Abbreviation NodeUpdateRequested := "Update requested"%string.
Abbreviation NodeWaitingBMHServicing := "Waiting for BMH to enter Servicing"%string.
Abbreviation NodeWaitingBMHComplete := "Waiting for BMH completion"%string.
Abbreviation NodeWaitingReady := "BMH update complete, waiting for node to become Ready"%string.
Abbreviation BmhServicingErr := "BMH Servicing Error"%string.
Abbreviation UpdateReasonBIOSSettings := "bios-settings-update"%string.
Abbreviation UpdateReasonFirmware := "firmware-update"%string.

(** ** State *)

Inductive schedulability : Type := Schedulable | Cordoned | Drained.
#[export] Instance schedulability_eq_dec : EqDecision schedulability.
Proof. solve_decision. Defined.

Record NodeState := mkNodeState {
  node_Name : string;
  GroupName : string;
  spec_HwProfile : string;
  status_HwProfile : string;
  node_Hostname : string;
  node_Conditions : list Condition;
  config_annotation : string;              (* ConfigAnnotation; empty when absent *)
  update_abandoned : bool;                 (* UpdateAbandonedAnnotation *)
  bios_needed : bool;                      (* the annotations of the BareMetalHost *)
  firmware_needed : bool;
  reboot_requested : bool;
  error_stamp : option (option Z);         (* its time, None when it cannot be parsed *)
  spoke : schedulability;
}.

Definition with_profile (p : string) (n : NodeState) : NodeState :=
  mkNodeState (node_Name n) (GroupName n) p (status_HwProfile n) (node_Hostname n) (node_Conditions n)
    (config_annotation n) (update_abandoned n) (bios_needed n) (firmware_needed n) (reboot_requested n)
    (error_stamp n) (spoke n).
Definition with_status_profile (p : string) (n : NodeState) : NodeState :=
  mkNodeState (node_Name n) (GroupName n) (spec_HwProfile n) p (node_Hostname n) (node_Conditions n)
    (config_annotation n) (update_abandoned n) (bios_needed n) (firmware_needed n) (reboot_requested n)
    (error_stamp n) (spoke n).
Definition with_node_conditions (cs : list Condition) (n : NodeState) : NodeState :=
  mkNodeState (node_Name n) (GroupName n) (spec_HwProfile n) (status_HwProfile n) (node_Hostname n) cs
    (config_annotation n) (update_abandoned n) (bios_needed n) (firmware_needed n) (reboot_requested n)
    (error_stamp n) (spoke n).
Definition with_config (a : string) (n : NodeState) : NodeState :=
  mkNodeState (node_Name n) (GroupName n) (spec_HwProfile n) (status_HwProfile n) (node_Hostname n)
    (node_Conditions n) a (update_abandoned n) (bios_needed n) (firmware_needed n) (reboot_requested n)
    (error_stamp n) (spoke n).
Definition with_abandoned (b : bool) (n : NodeState) : NodeState :=
  mkNodeState (node_Name n) (GroupName n) (spec_HwProfile n) (status_HwProfile n) (node_Hostname n)
    (node_Conditions n) (config_annotation n) b (bios_needed n) (firmware_needed n) (reboot_requested n)
    (error_stamp n) (spoke n).
Definition with_needed (bios firmware : bool) (n : NodeState) : NodeState :=
  mkNodeState (node_Name n) (GroupName n) (spec_HwProfile n) (status_HwProfile n) (node_Hostname n)
    (node_Conditions n) (config_annotation n) (update_abandoned n) bios firmware (reboot_requested n)
    (error_stamp n) (spoke n).
Definition with_reboot (b : bool) (n : NodeState) : NodeState :=
  mkNodeState (node_Name n) (GroupName n) (spec_HwProfile n) (status_HwProfile n) (node_Hostname n)
    (node_Conditions n) (config_annotation n) (update_abandoned n) (bios_needed n) (firmware_needed n) b
    (error_stamp n) (spoke n).
Definition with_stamp (t : option (option Z)) (n : NodeState) : NodeState :=
  mkNodeState (node_Name n) (GroupName n) (spec_HwProfile n) (status_HwProfile n) (node_Hostname n)
    (node_Conditions n) (config_annotation n) (update_abandoned n) (bios_needed n) (firmware_needed n)
    (reboot_requested n) t (spoke n).
Definition with_spoke (s : schedulability) (n : NodeState) : NodeState :=
  mkNodeState (node_Name n) (GroupName n) (spec_HwProfile n) (status_HwProfile n) (node_Hostname n)
    (node_Conditions n) (config_annotation n) (update_abandoned n) (bios_needed n) (firmware_needed n)
    (reboot_requested n) (error_stamp n) s.

(** ** Environment *)

Inductive operationalStatus : Type := OperationalOK | OperationalError | OperationalServicing | OperationalOther.
Inductive provisioningState : Type := StatePreparing | StateAvailable | StateOther.
#[export] Instance operationalStatus_eq_dec : EqDecision operationalStatus.
Proof. solve_decision. Defined.
#[export] Instance provisioningState_eq_dec : EqDecision provisioningState.
Proof. solve_decision. Defined.

(** An error: whether it is an input error, and its text. *)
Record failure := mkFailure { input_error : bool; error_text : string }.

(** The calls that write, each of which may fail. *)
Inductive call : Type :=
| ClearAbandoned | SetAbandoned | PatchProfile | UpdateStatus (reason message : string)
| ClearConfig | AnnotateConfig | ClearBios | ClearFirmware | AnnotateBios | AnnotateFirmware
| HostUpdatePolicy | AddReboot | AddStamp | ClearStamp | CordonCall | DrainCall | UncordonCall.

Record Env := mkEnv {
  wall_clock : Z;
  call_ok : call -> bool;
  bmh_status : option (operationalStatus * provisioningState);  (* getBMHForNode *)
  profile_check : bool -> failure + bool * bool;  (* the HardwareProfile against the BIOS and the firmware *)
  bios_change : option bool;                 (* isFirmwareSettingsChangeDetectedAndValid *)
  firmware_change : option bool;             (* isHostFirmwareComponentsChangeDetectedAndValid *)
  config_valid : option bool;                (* validateNodeConfiguration *)
  node_ready : option bool;                  (* IsNodeReady *)
  error_type : string;                       (* Status.ErrorType of the host *)
  failed_conflict : bool;                    (* a failing SetNodeFailedStatus fails with a conflict *)
  skipDrain : bool;
}.

(** ** The monad *)

Definition prog (A : Type) : Type := NodeState -> NodeState * (failure + A).

#[export] Instance prog_ret : MRet prog := fun _ a n => (n, inr a).
#[export] Instance prog_bind : MBind prog := fun _ _ k m n =>
  match m n with
  | (n', inl e) => (n', inl e)
  | (n', inr a) => k a n'
  end.

Definition get_state : prog NodeState := fun n => (n, inr n).
Definition raise {A} (e : failure) : prog A := fun n => (n, inl e).
Definition other_error : failure := mkFailure false EmptyString.

(** [if err := m; err != nil { ... }] *)
Definition try {A} (m : prog A) : prog (failure + A) := fun n => let '(n', r) := m n in (n', inr r).

Section handlers.
Context (env : Env).

Definition write (c : call) (f : NodeState -> NodeState) : prog unit := fun n =>
  if call_ok env c then (f n, inr tt) else (n, inl other_error).

(** *** allocated_node.go *)

Definition set_condition (conditionType reason : string) (status : ConditionStatus) (message : string)
    (n : NodeState) : NodeState :=
  with_node_conditions
    (hw_SetStatusCondition (wall_clock env) (node_Conditions n) conditionType reason status message) n.

Definition SetNodeHwProfile (newHwProfile : string) : prog unit :=
  n ← get_state;
  if bool_decide (newHwProfile <> EmptyString) && bool_decide (spec_HwProfile n <> newHwProfile)
  then write PatchProfile (with_profile newHwProfile)
  else mret tt.

Definition SetNodeConditionStatus (conditionType : string) (status : ConditionStatus)
    (reason message : string) : prog unit :=
  write (UpdateStatus reason message) (set_condition conditionType reason status message).

(** [SetNodeConfigUpdatePending] and [SetNodeConfigUpdateRequested]. *)
Definition set_node_config (reason newHwProfile message : string) : prog unit :=
  _ ← SetNodeHwProfile newHwProfile;
  n ← get_state;
  let same := match FindStatusCondition (node_Conditions n) Configured with
              | Some c => bool_decide (cond_Reason c = reason /\ cond_Status c = ConditionFalse
                                       /\ cond_Message c = message)
              | None => false
              end in
  if (same : bool) then mret tt
  else SetNodeConditionStatus Configured ConditionFalse reason message.

Definition SetNodeConfigUpdatePending : string -> string -> prog unit := set_node_config ConfigUpdatePending.
Definition SetNodeConfigUpdateRequested : string -> string -> prog unit := set_node_config ConfigUpdate.

Definition SetNodeConfigApplied (newHwProfile : string) : prog unit :=
  _ ← SetNodeHwProfile newHwProfile;
  write (UpdateStatus ConfigApplied ConfigSuccess) (fun n =>
    set_condition Configured ConfigApplied ConditionTrue ConfigSuccess (with_status_profile newHwProfile n)).

(** *** node_operations.go *)

Definition DrainNode : prog unit :=
  if skipDrain env then mret tt
  else _ ← write CordonCall (with_spoke Cordoned); write DrainCall (with_spoke Drained).

Definition UncordonNode : prog unit :=
  if skipDrain env then mret tt else write UncordonCall (with_spoke Schedulable).

(** *** Annotations *)

Definition clearUpdateAbandonedAnnotation : prog unit :=
  n ← get_state; if update_abandoned n then write ClearAbandoned (with_abandoned false) else mret tt.

Definition clearConfigAnnotationWithPatch : prog unit := write ClearConfig (with_config EmptyString).

(** Both removals are tried; an error of either is an error. *)
Definition clearBMHUpdateAnnotations : prog unit :=
  n ← get_state;
  r1 ← (if bios_needed n
        then try (write ClearBios (fun n => with_needed false (firmware_needed n) n))
        else mret (inr tt));
  r2 ← (if firmware_needed n
        then try (write ClearFirmware (fun n => with_needed (bios_needed n) false n))
        else mret (inr tt));
  match r1, r2 with inr _, inr _ => mret tt | _, _ => raise other_error end.

Definition clearTransientBMHErrorAnnotation : prog unit := write ClearStamp (with_stamp None).

Definition ErrorRetryWindow : Z := 300.

(** For a host in the error state: whether the error is tolerated for now. *)
Definition tolerateAndAnnotateTransientBMHError : prog bool :=
  n ← get_state;
  match error_stamp n with
  | None => _ ← write AddStamp (with_stamp (Some (Some (wall_clock env)))); mret true
  | Some None => raise other_error
  | Some (Some ts) => mret (bool_decide (wall_clock env - ts < ErrorRetryWindow))
  end.

Definition clear_stamp_if_any : prog unit :=
  n ← get_state; match error_stamp n with Some _ => clearTransientBMHErrorAnnotation | None => mret tt end.

Definition getBMHForNode : prog (operationalStatus * provisioningState) :=
  match bmh_status env with Some s => mret s | None => raise other_error end.

(** *** The profile *)

Definition processHwProfile (profileName : string) (postInstall validateOnly : bool) : prog bool :=
  _ ← (if validateOnly then mret tt else clearBMHUpdateAnnotations);
  if decide (profileName = EmptyString) then mret false
  else
    match profile_check env validateOnly with
    | inl e => raise e
    | inr (bios, firmware) =>
        if negb bios && negb firmware then mret false
        else if validateOnly then mret true
        else
          _ ← (if postInstall then write HostUpdatePolicy id else mret tt);
          _ ← (if (bios : bool) then write AnnotateBios (fun n => with_needed true (firmware_needed n) n)
               else mret tt);
          _ ← (if (firmware : bool) then write AnnotateFirmware (fun n => with_needed (bios_needed n) true n)
               else mret tt);
          mret true
    end.

Definition processHwProfileWithHandledError (profileName : string) (postInstall validateOnly : bool) : prog bool :=
  r ← try (processHwProfile profileName postInstall validateOnly);
  match r with
  | inr updateRequired => mret updateRequired
  | inl err =>
      _ ← try (SetNodeConditionStatus (if postInstall then Configured else Provisioned) ConditionFalse
                 (if input_error err then InvalidInput else Failed) (error_text err));
      raise err
  end.

(** *** Starting an update *)

Definition initiateNodeUpdate (newHwProfile : string) : prog Requeue :=
  _ ← clearUpdateAbandonedAnnotation;
  _ ← getBMHForNode;
  updateNeeded ← processHwProfileWithHandledError newHwProfile true true;
  if negb updateNeeded then
    _ ← SetNodeConfigApplied newHwProfile; mret DoNotRequeue
  else
    drained ← (if skipDrain env then mret (inr tt)
               else _ ← SetNodeConfigUpdatePending newHwProfile NodeDraining; try DrainNode);
    match drained with
    | inl _ => mret RequeueWithMediumInterval
    | inr _ =>
        r ← try (processHwProfileWithHandledError newHwProfile true false);
        match r with
        | inl err => _ ← UncordonNode; raise err
        | inr true =>
            _ ← SetNodeConfigUpdateRequested newHwProfile NodeUpdateRequested;
            mret RequeueWithMediumInterval
        | inr false =>
            _ ← UncordonNode;
            _ ← SetNodeConfigApplied newHwProfile;
            mret DoNotRequeue
        end
    end.

(** *** From requested to in progress *)

Definition addRebootAnnotation : prog unit := write AddReboot (with_reboot true).

Definition evaluateCRForReboot : prog unit :=
  n ← get_state;
  let check (needed : bool) (c : option bool) : prog bool :=
    if needed then match c with Some b => mret b | None => raise other_error end else mret true in
  if negb (bios_needed n) && negb (firmware_needed n) then mret tt
  else
    biosChange ← check (bios_needed n) (bios_change env);
    firmwareChange ← check (firmware_needed n) (firmware_change env);
    if biosChange && firmwareChange then addRebootAnnotation else mret tt.

(** The two update cases; [in_memory] is the node as the handler read it. *)
Inductive updateCase : Type := BiosCase | FirmwareCase.

Definition case_pending (uc : updateCase) (n : NodeState) : bool :=
  match uc with BiosCase => bios_needed n | FirmwareCase => firmware_needed n end.
Definition case_reason (uc : updateCase) : string :=
  match uc with BiosCase => UpdateReasonBIOSSettings | FirmwareCase => UpdateReasonFirmware end.
Definition case_remove (uc : updateCase) : prog unit :=
  match uc with
  | BiosCase => write ClearBios (fun n => with_needed false (firmware_needed n) n)
  | FirmwareCase => write ClearFirmware (fun n => with_needed (bios_needed n) false n)
  end.

(** An error that is answered with a requeue and no error. *)
Definition or_requeue (m : prog unit) (next : prog Requeue) : prog Requeue :=
  r ← try m;
  match r with inl _ => mret RequeueWithShortInterval | inr _ => next end.

Definition processBMHUpdateCase (status : operationalStatus * provisioningState) (uc : updateCase)
    (postInstall : bool) : prog Requeue :=
  if decide (status.1 = OperationalError) then
    tolerate ← try tolerateAndAnnotateTransientBMHError;
    match tolerate with
    | inl _ | inr true => mret RequeueWithShortInterval
    | inr false =>
        _ ← (if postInstall then UncordonNode else mret tt);
        _ ← clearConfigAnnotationWithPatch;
        or_requeue clearBMHUpdateAnnotations
          (or_requeue clearTransientBMHErrorAnnotation
            (r ← try (SetNodeConditionStatus (if postInstall then Configured else Provisioned) ConditionFalse
                        Failed ("BMH in error state: " ++ error_type env)%string);
             match r with
             | inr _ => mret RequeueWithMediumInterval
             | inl e => if failed_conflict env then mret RequeueWithShortInterval else raise e
             end))
    end
  else
    or_requeue clear_stamp_if_any
      (n ← get_state;
       let entered := if postInstall then bool_decide (status.1 = OperationalServicing)
                      else bool_decide (status.2 = StatePreparing) in
       if negb entered then
         _ ← (if postInstall then SetNodeConfigUpdateRequested (spec_HwProfile n) NodeWaitingBMHServicing
              else mret tt);
         mret RequeueWithShortInterval
       else
         or_requeue (case_remove uc)
           (if decide (config_annotation n = EmptyString) then
              or_requeue (write AnnotateConfig (with_config (case_reason uc))) (mret RequeueWithShortInterval)
            else mret DoNotRequeue)).

Fixpoint update_cases (status : operationalStatus * provisioningState) (postInstall : bool)
    (cases : list updateCase) : prog Requeue :=
  match cases with
  | [] => mret DoNotRequeue
  | uc :: rest =>
      n ← get_state;
      if case_pending uc n then
        r ← processBMHUpdateCase status uc postInstall;
        match r with
        | DoNotRequeue => update_cases status postInstall rest
        | _ => mret r
        end
      else update_cases status postInstall rest
  end.

Definition handleTransitionNode (postInstall : bool) : prog Requeue :=
  status ← getBMHForNode;
  _ ← (if postInstall then evaluateCRForReboot else mret tt);
  update_cases status postInstall [BiosCase; FirmwareCase].

(** *** From in progress to done *)

Definition handleNodeInProgressUpdate : prog Requeue :=
  status ← getBMHForNode;
  n ← get_state;
  match status.1 with
  | OperationalOK =>
      match config_valid env with
      | None => raise other_error
      | Some false => mret RequeueWithMediumInterval
      | Some true =>
          _ ← clear_stamp_if_any;
          match node_ready env with
          | None => mret RequeueWithMediumInterval
          | Some false =>
              _ ← SetNodeConfigUpdateRequested (spec_HwProfile n) NodeWaitingReady;
              mret RequeueWithMediumInterval
          | Some true =>
              _ ← UncordonNode;
              _ ← SetNodeConfigApplied (spec_HwProfile n);
              _ ← clearConfigAnnotationWithPatch;
              mret RequeueImmediately
          end
      end
  | OperationalError =>
      tolerate ← tolerateAndAnnotateTransientBMHError;
      if (tolerate : bool) then mret RequeueWithMediumInterval
      else
        _ ← UncordonNode;
        _ ← clearConfigAnnotationWithPatch;
        _ ← clearBMHUpdateAnnotations;
        _ ← clearTransientBMHErrorAnnotation;
        _ ← SetNodeConditionStatus Configured ConditionFalse Failed BmhServicingErr;
        raise other_error
  | _ =>
      _ ← SetNodeConfigUpdateRequested (spec_HwProfile n) NodeWaitingBMHComplete;
      mret RequeueWithMediumInterval
  end.

(** *** Giving up a stale update *)

Definition abandonNodeUpdate : prog Requeue :=
  status ← getBMHForNode;
  if bool_decide (status.1 = OperationalServicing) || bool_decide (status.2 = StatePreparing)
  then mret RequeueWithMediumInterval
  else
    _ ← UncordonNode;
    n ← get_state;
    _ ← (if decide (config_annotation n = EmptyString) then mret tt else clearConfigAnnotationWithPatch);
    _ ← clearBMHUpdateAnnotations;
    _ ← write SetAbandoned (with_abandoned true);
    mret RequeueImmediately.
End handlers.

(** ** Frame rules of the monad *)

(** Whatever happens, the state before and after [m] are related. *)
Definition preserves {A} (P : relation NodeState) (m : prog A) : Prop := forall n, P n (m n).1.

Section preserves.
Context {P : relation NodeState} `{!PreOrder P}.

Lemma node_preserves_ret {A} (a : A) : preserves P (mret a).
Proof. intros n. reflexivity. Qed.
Lemma node_preserves_raise {A} e : preserves P (raise e : prog A).
Proof. intros n. reflexivity. Qed.
Lemma node_preserves_get : preserves P get_state.
Proof. intros n. reflexivity. Qed.
Lemma node_preserves_bind {A B} (m : prog A) (k : A -> prog B) :
  preserves P m -> (forall a, preserves P (k a)) -> preserves P (m ≫= k).
Proof.
  intros Hm Hk n. specialize (Hm n). unfold mbind, prog_bind.
  destruct (m n) as [n' [e|a]]; [done|]. etransitivity; [exact Hm|apply Hk].
Qed.
Lemma node_preserves_try {A} (m : prog A) : preserves P m -> preserves P (try m).
Proof. intros Hm n. specialize (Hm n). unfold try. by destruct (m n). Qed.
Lemma preserves_write env c f : (forall n, P n (f n)) -> preserves P (write env c f).
Proof. intros Hf n. unfold write. by destruct (call_ok env c); simpl; [apply Hf|]. Qed.
End preserves.

(** What is known of the parts of a handler. *)
Create HintDb frame.

(** Walk through a handler, leaving the writes. *)
Ltac walk :=
  repeat first
    [ solve [auto with frame nocore] | apply node_preserves_ret | apply node_preserves_raise | apply node_preserves_get
    | apply node_preserves_bind; [|intros ?] | apply node_preserves_try
    | progress case_match ].

(** The identity of a node: no handler touches its name, group or host name. *)
Definition same_identity (n n' : NodeState) : Prop :=
  node_Name n' = node_Name n /\ GroupName n' = GroupName n /\ node_Hostname n' = node_Hostname n.

#[export] Instance same_identity_preorder : PreOrder same_identity.
Proof. split; [by intros n|]. intros a b c (?&?&?) (?&?&?). unfold same_identity. split_and!; congruence. Qed.

Section identity.
Context (env : Env).
Ltac identity :=
  intros; try unfold or_requeue; cbv zeta; walk; try (apply preserves_write; done).

Lemma set_node_config_identity reason p m : preserves same_identity (set_node_config env reason p m).
Proof. unfold set_node_config, SetNodeHwProfile, SetNodeConditionStatus. identity. Qed.
Lemma SetNodeConfigApplied_identity p : preserves same_identity (SetNodeConfigApplied env p).
Proof. unfold SetNodeConfigApplied, SetNodeHwProfile. identity. Qed.
Lemma DrainNode_identity : preserves same_identity (DrainNode env).
Proof. unfold DrainNode. identity. Qed.
Lemma UncordonNode_identity : preserves same_identity (UncordonNode env).
Proof. unfold UncordonNode. identity. Qed.
Lemma clearBMHUpdateAnnotations_identity : preserves same_identity (clearBMHUpdateAnnotations env).
Proof. unfold clearBMHUpdateAnnotations. identity. Qed.
Lemma tolerate_identity : preserves same_identity (tolerateAndAnnotateTransientBMHError env).
Proof. unfold tolerateAndAnnotateTransientBMHError. identity. Qed.
Lemma clear_stamp_if_any_identity : preserves same_identity (clear_stamp_if_any env).
Proof. unfold clear_stamp_if_any, clearTransientBMHErrorAnnotation. identity. Qed.
Lemma getBMHForNode_identity : preserves same_identity (getBMHForNode env).
Proof. unfold getBMHForNode. identity. Qed.
Lemma profile_identity p post v : preserves same_identity (processHwProfileWithHandledError env p post v).
Proof.
  unfold processHwProfileWithHandledError, processHwProfile, SetNodeConditionStatus. identity;
    try apply clearBMHUpdateAnnotations_identity.
Qed.
End identity.

#[local] Hint Resolve set_node_config_identity SetNodeConfigApplied_identity DrainNode_identity
  UncordonNode_identity clearBMHUpdateAnnotations_identity tolerate_identity clear_stamp_if_any_identity
  getBMHForNode_identity profile_identity : frame.

(** The four handlers of [executeNodeUpdates]. *)
Section handler_identity.
Context (env : Env).

Lemma initiateNodeUpdate_identity p : preserves same_identity (initiateNodeUpdate env p).
Proof.
  unfold initiateNodeUpdate, clearUpdateAbandonedAnnotation, SetNodeConfigUpdatePending,
    SetNodeConfigUpdateRequested. walk; by apply preserves_write.
Qed.

Lemma evaluateCRForReboot_identity : preserves same_identity (evaluateCRForReboot env).
Proof. unfold evaluateCRForReboot, addRebootAnnotation. cbv zeta. walk; by apply preserves_write. Qed.

Lemma update_case_identity status uc post : preserves same_identity (processBMHUpdateCase env status uc post).
Proof.
  unfold processBMHUpdateCase, or_requeue, clearConfigAnnotationWithPatch, clearTransientBMHErrorAnnotation,
    SetNodeConditionStatus, case_remove, SetNodeConfigUpdateRequested. cbv zeta.
  walk; by apply preserves_write.
Qed.

Lemma update_cases_identity status post ucs : preserves same_identity (update_cases env status post ucs).
Proof. induction ucs as [|uc ucs IH]; simpl; walk; auto using update_case_identity. Qed.

Lemma handleTransitionNode_identity post : preserves same_identity (handleTransitionNode env post).
Proof.
  unfold handleTransitionNode. apply node_preserves_bind; [walk|intros status].
  apply node_preserves_bind; [destruct post; [apply evaluateCRForReboot_identity|walk]|].
  intros ?. apply update_cases_identity.
Qed.

Lemma handleNodeInProgressUpdate_identity : preserves same_identity (handleNodeInProgressUpdate env).
Proof.
  unfold handleNodeInProgressUpdate, clearConfigAnnotationWithPatch, clearTransientBMHErrorAnnotation,
    SetNodeConditionStatus, SetNodeConfigUpdateRequested. walk; by apply preserves_write.
Qed.

Lemma abandonNodeUpdate_identity : preserves same_identity (abandonNodeUpdate env).
Proof. unfold abandonNodeUpdate, clearConfigAnnotationWithPatch. walk; by apply preserves_write. Qed.
End handler_identity.

(** ** Weakest preconditions *)

Definition wp {A} (m : prog A) (Q : NodeState -> failure + A -> Prop) (n : NodeState) : Prop :=
  Q (m n).1 (m n).2.

Lemma node_wp_bind {A B} (m : prog A) (k : A -> prog B) Q n :
  wp m (fun n' r => match r with inl e => Q n' (inl e) | inr a => wp (k a) Q n' end) n -> wp (m ≫= k) Q n.
Proof. unfold wp, mbind, prog_bind. by destruct (m n) as [n' [e|a]]. Qed.
Lemma node_wp_ret {A} (a : A) (Q : NodeState -> failure + A -> Prop) n : Q n (inr a) -> wp (mret a) Q n.
Proof. done. Qed.
Lemma node_wp_raise {A} e (Q : NodeState -> failure + A -> Prop) n : Q n (inl e) -> wp (raise e) Q n.
Proof. done. Qed.
Lemma node_wp_get (Q : NodeState -> failure + NodeState -> Prop) n : Q n (inr n) -> wp get_state Q n.
Proof. done. Qed.
Lemma node_wp_try {A} (m : prog A) Q n : wp m (fun n' r => Q n' (inr r)) n -> wp (try m) Q n.
Proof. unfold wp, try. by destruct (m n). Qed.
Lemma wp_write env c f Q n :
  (call_ok env c = true -> Q (f n) (inr tt)) -> (call_ok env c = false -> Q n (inl other_error)) ->
  wp (write env c f) Q n.
Proof. unfold wp, write. destruct (call_ok env c); auto. Qed.
Lemma wp_write_ok env c f (Q : NodeState -> failure + unit -> Prop) n :
  call_ok env c = true -> Q (f n) (inr tt) -> wp (write env c f) Q n.
Proof. intros Hc HQ. by apply wp_write; [done|rewrite Hc]. Qed.

(** ** What the update asks of a node *)

(** The [Configured] condition says that an update was requested. *)
Definition requested_in (conditions : list Condition) : bool :=
  match FindStatusCondition conditions Configured with
  | Some c => bool_decide (cond_Status c = ConditionFalse) && bool_decide (cond_Reason c = ConfigUpdate)
  | None => false
  end.
Arguments requested_in : simpl never.

Definition update_requested (n : NodeState) : bool := requested_in (node_Conditions n).

(** A host with changes waiting for its reboot. *)
Definition awaiting_reboot (n : NodeState) : Prop :=
  update_requested n = true /\ config_annotation n = EmptyString /\ (bios_needed n = true \/ firmware_needed n = true).

(** A host that waits for a reboot is drained, and an abandoned one has no changes
    left. *)
Definition reboot_safe (n : NodeState) : Prop :=
  (awaiting_reboot n -> spoke n = Drained) /\
  (update_abandoned n = true -> bios_needed n = false /\ firmware_needed n = false).

Lemma requested_after now cs reason status message :
  requested_in (hw_SetStatusCondition now cs Configured reason status message)
  = bool_decide (status = ConditionFalse) && bool_decide (reason = ConfigUpdate).
Proof. unfold requested_in. by destruct (hw_Find_eq now cs Configured reason status message) as (t & -> & _). Qed.

(** The calls to the hub go through; those to the managed cluster may fail. *)
Definition hub_calls_ok (env : Env) : Prop :=
  forall c, c <> CordonCall -> c <> DrainCall -> c <> UncordonCall -> call_ok env c = true.

Section reboot.
Context (env : Env) (Hhub : hub_calls_ok env) (Hdrain : skipDrain env = false).

Ltac wp_step :=
  cbv beta iota zeta;
  lazymatch goal with
  | |- wp (mret _) _ _ => apply node_wp_ret
  | |- wp (raise _) _ _ => apply node_wp_raise
  | |- wp get_state _ _ => apply node_wp_get
  | |- wp (_ ≫= _) _ _ => apply node_wp_bind
  | |- wp (try _) _ _ => apply node_wp_try
  | |- wp (write _ _ _) _ _ => first [apply wp_write_ok; [by apply Hhub|] | apply wp_write; intros ?]
  | |- wp (match ?x with _ => _ end) _ _ => destruct x eqn:?
  end.

(** What [reboot_safe] looks at. *)
Definition view (n : NodeState) : string * bool * bool * bool * schedulability * bool :=
  (config_annotation n, bios_needed n, firmware_needed n, update_abandoned n, spoke n, update_requested n).

Definition safe_view (v : string * bool * bool * bool * schedulability * bool) : Prop :=
  let '(config, bios, firmware, abandoned, s, requested) := v in
  (requested = true -> config = EmptyString -> bios = true \/ firmware = true -> s = Drained) /\
  (abandoned = true -> bios = false /\ firmware = false).

Lemma reboot_safe_view n : reboot_safe n <-> safe_view (view n).
Proof. unfold reboot_safe, awaiting_reboot, safe_view, view. naive_solver. Qed.

Ltac settle := unfold view, update_requested in *; simpl in *; rewrite ?requested_after; try done; try congruence.

(** The parts of a handler, by what they leave of the view. *)
Lemma wp_set_node_config reason p m Q n c b f a s r :
  view n = (c, b, f, a, s, r) ->
  (forall n', view n' = (c, b, f, a, s, bool_decide (reason = ConfigUpdate)) -> Q n' (inr tt)) ->
  wp (set_node_config env reason p m) Q n.
Proof using Hhub.
  intros Hv HQ. unfold set_node_config, SetNodeHwProfile, SetNodeConditionStatus.
  repeat wp_step; apply HQ; injection Hv as <- <- <- <- <- <-; settle.
  all: unfold requested_in; simpl in *;
    repeat match goal with H : match ?x with _ => _ end = true |- _ => destruct x eqn:?; [|done] end;
    apply bool_decide_eq_true in Heqb1 as (-> & -> & _); by rewrite bool_decide_eq_true_2.
Qed.

Lemma wp_SetNodeConfigApplied p Q n c b f a s r :
  view n = (c, b, f, a, s, r) ->
  (forall n', view n' = (c, b, f, a, s, false) -> Q n' (inr tt)) ->
  wp (SetNodeConfigApplied env p) Q n.
Proof using Hhub.
  intros Hv HQ. unfold SetNodeConfigApplied, SetNodeHwProfile.
  repeat wp_step; apply HQ; injection Hv as <- <- <- <- <- <-; settle.
Qed.

Lemma wp_failed reason message Q n c b f a s r :
  view n = (c, b, f, a, s, r) -> reason <> ConfigUpdate ->
  (forall n', view n' = (c, b, f, a, s, false) -> Q n' (inr tt)) ->
  wp (SetNodeConditionStatus env Configured ConditionFalse reason message) Q n.
Proof using Hhub.
  intros Hv Hr HQ. unfold SetNodeConditionStatus.
  repeat wp_step; apply HQ; injection Hv as <- <- <- <- <- <-; settle.
  by rewrite (bool_decide_eq_false_2 (reason = ConfigUpdate)).
Qed.

Lemma wp_clearBMHUpdateAnnotations Q n c b f a s r :
  view n = (c, b, f, a, s, r) ->
  (forall n', view n' = (c, false, false, a, s, r) -> Q n' (inr tt)) ->
  wp (clearBMHUpdateAnnotations env) Q n.
Proof using Hhub.
  intros Hv HQ. unfold clearBMHUpdateAnnotations.
  repeat wp_step; apply HQ; injection Hv as <- <- <- <- <- <-; settle.
Qed.

(** Validation only reads; a failure is recorded in the condition. *)
Lemma wp_validate p Q n c b f a s r :
  view n = (c, b, f, a, s, r) ->
  (forall n' e, view n' = (c, b, f, a, s, false) -> Q n' (inl e)) ->
  (forall needed, Q n (inr needed)) ->
  wp (processHwProfileWithHandledError env p true true) Q n.
Proof using Hhub.
  intros Hv He HQ. unfold processHwProfileWithHandledError, processHwProfile.
  repeat wp_step; try apply HQ.
  all: eapply wp_failed; [exact Hv|by destruct (input_error _)|]; intros; repeat wp_step; by apply He.
Qed.

(** Applying starts from a clean state: after an error nothing is left to do. *)
Lemma wp_apply p Q n c b f a s r :
  view n = (c, b, f, a, s, r) ->
  (forall n' e, view n' = (c, false, false, a, s, false) -> Q n' (inl e)) ->
  (forall n', view n' = (c, false, false, a, s, r) -> Q n' (inr false)) ->
  (forall n' b' f', view n' = (c, b', f', a, s, r) -> Q n' (inr true)) ->
  wp (processHwProfileWithHandledError env p true false) Q n.
Proof using Hhub.
  intros Hv He Hf Ht. unfold processHwProfileWithHandledError, processHwProfile.
  do 3 wp_step. eapply wp_clearBMHUpdateAnnotations; [exact Hv|]. intros n1 H1.
  repeat wp_step; try by apply Hf.
  1: eapply wp_failed; [exact H1|by destruct (input_error _)|]; intros; repeat wp_step; by apply He.
  all: injection H1 as <- _ _ <- <- <-; eapply Ht; settle.
Qed.

Lemma wp_Uncordon Q n c b f a s r :
  view n = (c, b, f, a, s, r) ->
  (forall n', view n' = (c, b, f, a, Schedulable, r) -> Q n' (inr tt)) -> Q n (inl other_error) ->
  wp (UncordonNode env) Q n.
Proof using Hdrain.
  intros Hv HQ He. unfold UncordonNode. rewrite Hdrain. wp_step; [|done].
  apply HQ. injection Hv as <- <- <- <- <- <-. settle.
Qed.

Lemma wp_Drain Q n c b f a s r :
  view n = (c, b, f, a, s, r) ->
  (forall n', view n' = (c, b, f, a, Drained, r) -> Q n' (inr tt)) ->
  (forall n' s' e, view n' = (c, b, f, a, s', r) -> Q n' (inl e)) ->
  wp (DrainNode env) Q n.
Proof using Hdrain.
  intros Hv HQ He. unfold DrainNode. rewrite Hdrain. repeat wp_step; injection Hv as <- <- <- <- <- <-.
  - apply HQ. settle.
  - eapply He. settle.
  - eapply He. settle.
Qed.

Lemma view_preorder : PreOrder (fun n n' => view n' = view n).
Proof. split; [done|]. intros ???; congruence. Qed.

#[local] Existing Instance view_preorder.

Lemma tolerate_view : preserves (fun n n' => view n' = view n) (tolerateAndAnnotateTransientBMHError env).
Proof. unfold tolerateAndAnnotateTransientBMHError. walk. by apply preserves_write. Qed.

Lemma clear_stamp_view : preserves (fun n n' => view n' = view n) (clear_stamp_if_any env).
Proof. unfold clear_stamp_if_any, clearTransientBMHErrorAnnotation. walk. by apply preserves_write. Qed.

Lemma wp_same_view {A} (m : prog A) Q n :
  preserves (fun n n' => view n' = view n) m -> (forall n' x, view n' = view n -> Q n' x) -> wp m Q n.
Proof. intros Hm HQ. apply HQ, Hm. Qed.

(** The outcome of [getBMHForNode] does not change the node. *)
Ltac read_host := unfold getBMHForNode; wp_step; destruct (bmh_status env) as [st|]; repeat wp_step.

Lemma initiate_safe p n :
  reboot_safe n -> update_requested n = false \/ update_abandoned n = true ->
  wp (initiateNodeUpdate env p) (fun n' _ => reboot_safe n') n.
Proof using Hhub Hdrain.
  intros HJ Hreq. unfold initiateNodeUpdate. rewrite Hdrain.
  assert (exists n1, clearUpdateAbandonedAnnotation env n = (n1, inr tt) /\ reboot_safe n1 /\
    update_abandoned n1 = false) as (n1 & Hclear & Hsafe & Habandoned).
  { unfold clearUpdateAbandonedAnnotation, get_state, mbind, prog_bind, write.
    destruct (update_abandoned n) eqn:Ea; [|by exists n].
    rewrite Hhub by done. eexists. split; [done|]. split; [|done].
    destruct HJ as [_ HK]. destruct (HK Ea) as [Hb Hf].
    split; [|done]. unfold awaiting_reboot. simpl. rewrite Hb, Hf. naive_solver. }
  apply node_wp_bind. unfold wp at 1. rewrite Hclear. simpl. clear Hclear HJ Hreq n. rename n1 into n.
  destruct (view n) as [[[[[c b] f] a] s] r] eqn:Hv.
  assert (a = false) as -> by (unfold view in Hv; congruence).
  assert (forall n', reboot_safe n' \/ (exists s' c' b' f', view n' = (c', b', f', false, s', false)) -> reboot_safe n') as Hdone.
  { intros n' [?|(s' & c' & b' & f' & Hv')]; [done|]. apply reboot_safe_view. by rewrite Hv'. }
  read_host; [|by apply Hdone; left]. eapply wp_validate; [exact Hv|..].
  - intros n' e Hv'. apply Hdone. eauto 10.
  - intros []; simpl; repeat wp_step.
    2: { eapply wp_SetNodeConfigApplied; [exact Hv|]. intros n' Hv'. repeat wp_step. apply Hdone. eauto 10. }
    eapply wp_set_node_config; [exact Hv|]. intros n2 H2. repeat wp_step.
    eapply wp_Drain; [exact H2| |intros n3 s3 e H3; repeat wp_step; apply Hdone; eauto 10].
    intros n3 H3. repeat wp_step. eapply wp_apply; [exact H3|..].
    + intros n4 e H4. repeat wp_step. eapply wp_Uncordon; [exact H4|intros n5 H5|]; repeat wp_step; apply Hdone; eauto 10.
    + intros n4 H4. repeat wp_step. eapply wp_Uncordon; [exact H4|intros n5 H5|].
      * repeat wp_step. eapply wp_SetNodeConfigApplied; [exact H5|]. intros n6 H6. repeat wp_step. apply Hdone. eauto 10.
      * apply Hdone; eauto 10.
    + intros n4 b' f' H4. repeat wp_step. eapply wp_set_node_config; [exact H4|]. intros n5 H5.
      repeat wp_step. apply reboot_safe_view. by rewrite H5.
Qed.

Lemma wp_ClearConfig Q n c b f a s r :
  view n = (c, b, f, a, s, r) ->
  (forall n', view n' = (EmptyString, b, f, a, s, r) -> Q n' (inr tt)) -> wp (clearConfigAnnotationWithPatch env) Q n.
Proof using Hhub.
  intros Hv HQ. unfold clearConfigAnnotationWithPatch. wp_step. apply HQ.
  injection Hv as _ <- <- <- <- <-. settle.
Qed.

Lemma or_requeue_inr (m : prog unit) next Q n :
  wp m (fun n' r => match r with
                    | inl _ => Q n' (inr RequeueWithShortInterval)
                    | inr _ => wp next Q n' end) n -> wp (or_requeue m next) Q n.
Proof. intros Hm. unfold or_requeue. repeat wp_step. unfold wp in *. by destruct (m n) as [n' [|]]. Qed.

(** The work on one kind of change of a node that waits for its reboot. *)
Lemma case_safe st uc n :
  reboot_safe n -> update_requested n = true -> update_abandoned n = false -> config_annotation n = EmptyString ->
  wp (processBMHUpdateCase env st uc true) (fun n' r => reboot_safe n' /\ r <> inr DoNotRequeue) n.
Proof using Hhub Hdrain.
  intros HJ Hr Ha Hc. apply reboot_safe_view in HJ.
  destruct (view n) as [[[[[c b] f] a] s] r] eqn:Hv.
  assert (c = EmptyString /\ a = false /\ r = true) as (-> & -> & ->) by (unfold view in Hv; split_and!; congruence).
  assert (forall n' s' c' b' f', view n' = (c', b', f', false, s', false) -> reboot_safe n') as Hdone.
  { intros n' s' c' b' f' Hv'. apply reboot_safe_view. by rewrite Hv'. }
  assert (forall n', view n' = view n -> reboot_safe n') as Hsame.
  { intros n' Hv'. apply reboot_safe_view. by rewrite Hv', Hv. }
  unfold processBMHUpdateCase. wp_step.
  - repeat wp_step. apply wp_same_view; [apply tolerate_view|]. intros n1 x H1. rewrite Hv in H1.
    destruct x as [err|[]]; repeat wp_step; try (split; [apply Hsame; congruence|done]).
    eapply wp_Uncordon; [exact H1|intros n2 H2|split; [apply Hsame; congruence|done]].
    repeat wp_step. eapply wp_ClearConfig; [exact H2|]. intros n3 H3. repeat wp_step.
    apply or_requeue_inr. eapply wp_clearBMHUpdateAnnotations; [exact H3|]. intros n4 H4.
    apply or_requeue_inr. unfold clearTransientBMHErrorAnnotation. repeat wp_step.
    eapply (wp_failed _ _ _ (with_stamp None n4)); [exact H4|done|]. intros n5 H5. repeat wp_step.
    split; [by eapply Hdone|done].
  - apply or_requeue_inr. apply wp_same_view; [apply clear_stamp_view|]. intros n1 x H1. rewrite Hv in H1.
    destruct x; [split; [apply Hsame; congruence|done]|]. repeat wp_step.
    + eapply wp_set_node_config; [exact H1|]. intros n2 H2. repeat wp_step.
      split; [apply Hsame; by rewrite H2, Hv|done].
    + assert (config_annotation n1 = EmptyString /\ update_abandoned n1 = false) as [Hc1 Ha1]
        by (unfold view in H1; split; congruence).
      apply or_requeue_inr. unfold case_remove. repeat wp_step; try congruence;
        apply or_requeue_inr; repeat wp_step; (split; [|done]);
        (split; [intros (_ & Hne & _); discriminate Hne|simpl; congruence]).
Qed.

Lemma update_cases_safe st ucs n :
  reboot_safe n -> update_requested n = true -> update_abandoned n = false -> config_annotation n = EmptyString ->
  wp (update_cases env st true ucs) (fun n' _ => reboot_safe n') n.
Proof using Hhub Hdrain.
  intros HJ Hr Ha Hc. induction ucs as [|uc ucs IH]; simpl; repeat wp_step; try done.
  pose proof (case_safe st uc n HJ Hr Ha Hc) as Hcase. unfold wp in *.
  destruct (processBMHUpdateCase env st uc true n) as [n' [|[]]]; simpl in *; naive_solver.
Qed.

Lemma evaluate_view : preserves (fun n n' => view n' = view n) (evaluateCRForReboot env).
Proof. unfold evaluateCRForReboot, addRebootAnnotation. cbv zeta. walk; by apply preserves_write. Qed.

Lemma transition_safe n :
  reboot_safe n -> update_requested n = true -> update_abandoned n = false -> config_annotation n = EmptyString ->
  wp (handleTransitionNode env true) (fun n' _ => reboot_safe n') n.
Proof using Hhub Hdrain.
  intros HJ Hr Ha Hc. unfold handleTransitionNode. read_host; [|done].
  apply wp_same_view; [apply evaluate_view|]. intros n1 x H1.
  assert (reboot_safe n1) by (apply reboot_safe_view; rewrite H1; by apply reboot_safe_view).
  destruct x; [done|]. unfold view in H1. apply update_cases_safe; congruence.
Qed.

Lemma in_progress_safe n :
  reboot_safe n -> update_requested n = true -> update_abandoned n = false -> config_annotation n <> EmptyString ->
  wp (handleNodeInProgressUpdate env) (fun n' _ => reboot_safe n') n.
Proof using Hhub Hdrain.
  intros HJ Hr Ha Hc. apply reboot_safe_view in HJ.
  destruct (view n) as [[[[[c b] f] a] s] r] eqn:Hv.
  assert (c <> EmptyString /\ a = false /\ r = true) as (? & -> & ->) by (unfold view in Hv; split_and!; congruence).
  assert (forall n' s' c' b' f', view n' = (c', b', f', false, s', false) -> reboot_safe n') as Hdone.
  { intros n' s' c' b' f' Hv'. apply reboot_safe_view. by rewrite Hv'. }
  assert (forall n' s', view n' = (c, b, f, false, s', true) -> reboot_safe n') as Hsame.
  { intros n' s' Hv'. apply reboot_safe_view. by rewrite Hv'. }
  unfold handleNodeInProgressUpdate. read_host; try by eapply Hsame.
  - apply wp_same_view; [apply clear_stamp_view|]. intros n1 x H1. rewrite Hv in H1.
    destruct x; [by eapply Hsame|]. repeat wp_step; try by eapply Hsame.
    + eapply wp_Uncordon; [exact H1|intros n2 H2|by eapply Hsame]. repeat wp_step.
      eapply wp_SetNodeConfigApplied; [exact H2|]. intros n3 H3. repeat wp_step.
      eapply wp_ClearConfig; [exact H3|]. intros n4 H4. repeat wp_step. by eapply Hdone.
    + eapply wp_set_node_config; [exact H1|]. intros n2 H2. repeat wp_step. by eapply Hsame.
  - apply wp_same_view; [apply tolerate_view|]. intros n1 x H1. rewrite Hv in H1.
    destruct x as [|[]]; repeat wp_step; try by eapply Hsame.
    eapply wp_Uncordon; [exact H1|intros n2 H2|by eapply Hsame]. repeat wp_step.
    eapply wp_ClearConfig; [exact H2|]. intros n3 H3. repeat wp_step.
    eapply wp_clearBMHUpdateAnnotations; [exact H3|]. intros n4 H4. unfold clearTransientBMHErrorAnnotation.
    repeat wp_step. eapply (wp_failed _ _ _ (with_stamp None n4)); [exact H4|done|]. intros n5 H5. repeat wp_step.
    by eapply Hdone.
  - eapply wp_set_node_config; [exact Hv|]. intros n2 H2. repeat wp_step. by eapply Hsame.
  - eapply wp_set_node_config; [exact Hv|]. intros n2 H2. repeat wp_step. by eapply Hsame.
Qed.

Lemma abandon_safe n :
  reboot_safe n -> wp (abandonNodeUpdate env) (fun n' _ => reboot_safe n') n.
Proof using Hhub Hdrain.
  intros HJ. destruct (view n) as [[[[[c b] f] a] s] r] eqn:Hv.
  assert (forall n' v, view n' = v -> safe_view v -> reboot_safe n') as Hdone.
  { intros n' v Hv' ?. apply reboot_safe_view. by rewrite Hv'. }
  unfold abandonNodeUpdate. read_host; try done.
  eapply wp_Uncordon; [exact Hv|intros n1 H1|done]. repeat wp_step.
  - eapply wp_clearBMHUpdateAnnotations; [exact H1|]. intros n2 H2. repeat wp_step.
    eapply (Hdone _ (c, false, false, true, Schedulable, r)); [|by simpl; naive_solver].
    unfold view, update_requested in *; simpl in *. congruence.
  - eapply wp_ClearConfig; [exact H1|]. intros n2 H2. repeat wp_step.
    eapply wp_clearBMHUpdateAnnotations; [exact H2|]. intros n3 H3. repeat wp_step.
    eapply (Hdone _ (EmptyString, false, false, true, Schedulable, r)); [|by simpl; naive_solver].
    unfold view, update_requested in *; simpl in *. congruence.
Qed.
End reboot.

(** ** Only a host with changes is rebooted *)

Definition same_reboot (n n' : NodeState) : Prop := reboot_requested n' = reboot_requested n.
#[export] Instance same_reboot_preorder : PreOrder same_reboot.
Proof. unfold same_reboot. split; [done|]. intros ???; congruence. Qed.

Section only_reboot.
Context (env : Env).

Lemma update_cases_reboot st post ucs : preserves same_reboot (update_cases env st post ucs).
Proof.
  induction ucs as [|uc ucs IH]; simpl; [apply node_preserves_ret|].
  unfold processBMHUpdateCase, or_requeue, clearConfigAnnotationWithPatch, clearTransientBMHErrorAnnotation,
    SetNodeConditionStatus, case_remove, SetNodeConfigUpdateRequested, set_node_config, SetNodeHwProfile,
    SetNodeConditionStatus, clear_stamp_if_any, clearTransientBMHErrorAnnotation, clearBMHUpdateAnnotations,
    UncordonNode, tolerateAndAnnotateTransientBMHError. cbv zeta.
  walk; try done; by apply preserves_write.
Qed.

Lemma transition_reboot post n :
  reboot_requested (handleTransitionNode env post n).1 = true ->
  reboot_requested n = true \/ post = true /\ (bios_needed n = true \/ firmware_needed n = true).
Proof.
  change (wp (handleTransitionNode env post) (fun n' _ => reboot_requested n' = true ->
    reboot_requested n = true \/ post = true /\ (bios_needed n = true \/ firmware_needed n = true)) n).
  assert (forall n1 st (Q : NodeState -> failure + Requeue -> Prop),
    (forall n' r, same_reboot n1 n' -> Q n' r) -> wp (update_cases env st post [BiosCase; FirmwareCase]) Q n1) as Hcases.
  { intros n1 st Q HQ. apply HQ, update_cases_reboot. }
  unfold handleTransitionNode, getBMHForNode. apply node_wp_bind. destruct (bmh_status env) as [st|]; [|unfold wp; simpl; auto].
  apply node_wp_ret, node_wp_bind. destruct post.
  - apply (fun H => H : wp (evaluateCRForReboot env) _ n). unfold wp.
    destruct (evaluateCRForReboot env n) as [n1 r] eqn:E. simpl.
    assert (reboot_requested n1 = true -> reboot_requested n = true \/ bios_needed n = true \/ firmware_needed n = true) as H1.
    { unfold evaluateCRForReboot, addRebootAnnotation, get_state, mbind, prog_bind, mret, prog_ret, raise, write in E.
      destruct (bios_needed n), (firmware_needed n); auto. injection E as <- _. auto. }
    destruct r; [naive_solver|]. intros Hn.
    change (reboot_requested (update_cases env st true [BiosCase; FirmwareCase] n1).1 = true) in Hn.
    rewrite (update_cases_reboot st true _ n1) in Hn. naive_solver.
  - apply node_wp_ret, Hcases. intros n' r Hs Hn. left. by rewrite Hs in Hn.
Qed.

(** The other handlers do not ask for a reboot. *)
Lemma initiate_no_reboot p : preserves same_reboot (initiateNodeUpdate env p).
Proof.
  unfold initiateNodeUpdate, clearUpdateAbandonedAnnotation, getBMHForNode, processHwProfileWithHandledError,
    processHwProfile, clearBMHUpdateAnnotations, SetNodeConfigApplied, SetNodeConfigUpdatePending,
    SetNodeConfigUpdateRequested, set_node_config, SetNodeHwProfile, SetNodeConditionStatus, DrainNode,
    UncordonNode. cbv zeta. walk; by apply preserves_write.
Qed.

Lemma in_progress_no_reboot : preserves same_reboot (handleNodeInProgressUpdate env).
Proof.
  unfold handleNodeInProgressUpdate, getBMHForNode, clearConfigAnnotationWithPatch, clearTransientBMHErrorAnnotation,
    SetNodeConditionStatus, SetNodeConfigUpdateRequested, set_node_config, SetNodeHwProfile, SetNodeConditionStatus,
    clear_stamp_if_any, clearTransientBMHErrorAnnotation, clearBMHUpdateAnnotations, SetNodeConfigApplied,
    SetNodeHwProfile, UncordonNode, tolerateAndAnnotateTransientBMHError. cbv zeta.
  walk; by apply preserves_write.
Qed.

Lemma abandon_no_reboot : preserves same_reboot (abandonNodeUpdate env).
Proof.
  unfold abandonNodeUpdate, getBMHForNode, clearConfigAnnotationWithPatch, clearBMHUpdateAnnotations, UncordonNode.
  cbv zeta. walk; by apply preserves_write.
Qed.
End only_reboot.
