(* ===== verification/NodeUpdates.v ===== *)
(** * Rolling hardware updates of the nodes of a request
    (hardwaremanager/controller/helpers.go, node_operations.go)

    One reconcile marks the nodes whose profile differs from their group's, picks
    the nodes to work on group by group, control plane first and at most
    [maxUnavailable] at a time, and runs their handlers.  The handlers run
    concurrently in the source, each on its own node, host and environment. *)
From S2P Require Import Prelude Conditions NodeAllocationRequest NodeAllocationController NodeUpdateHandlers.
From Stdlib Require Import Ascii.
#[local] Open Scope Z_scope.

(** ** Node groups *)

Record NodeGroup := mkNodeGroup {
  grp_Name : string;
  Role : string;
  grp_HwProfile : string;
  Size : Z;
}.

Definition to_lower_ascii (c : ascii) : ascii :=
  let n := nat_of_ascii c in
  if ((65 <=? n) && (n <=? 90))%nat then ascii_of_nat (n + 32) else c.

(** [strings.ToLower] on ASCII. *)
Fixpoint ToLower (s : string) : string :=
  match s with
  | EmptyString => EmptyString
  | String c s' => String (to_lower_ascii c) (ToLower s')
  end.

Definition NodeRoleMaster : string := "master".

Definition is_master (g : NodeGroup) : bool := bool_decide (ToLower (Role g) = NodeRoleMaster).

Definition groupPriority (role : string) : Z := if decide (ToLower role = NodeRoleMaster) then 0 else 1.

(** [sort.SliceStable], as an insertion sort. *)
Section stable_sort.
Context {A : Type} (less : A -> A -> bool).

Fixpoint stable_insert (x : A) (l : list A) : list A :=
  match l with
  | [] => [x]
  | y :: l' => if less y x then y :: stable_insert x l' else x :: y :: l'
  end.

Fixpoint stable_sort (l : list A) : list A :=
  match l with [] => [] | x :: l' => stable_insert x (stable_sort l') end.
End stable_sort.

Definition getGroupsSortedByRole (groups : list NodeGroup) : list NodeGroup :=
  stable_sort (fun a b => groupPriority (Role a) <? groupPriority (Role b)) groups.

Definition filterNodesByGroup (nodes : list NodeState) (groupName : string) : list NodeState :=
  filter (fun n => GroupName n = groupName) nodes.

Fixpoint getNewHwProfileForNode (groups : list NodeGroup) (n : NodeState) : string :=
  match groups with
  | [] => spec_HwProfile n
  | g :: rest => if decide (grp_Name g = GroupName n) then grp_HwProfile g else getNewHwProfileForNode rest n
  end.

(** [hasNodeGroupHwProfileChanges], [hasNodeGroupSizeIncreases] and
    [isNodeAllocationRequestFullyAllocated], on the child nodes listed. *)
Definition hasNodeGroupHwProfileChanges (groups : list NodeGroup) (nodes : list NodeState) : bool :=
  existsb (fun g => negb (bool_decide (grp_HwProfile g = EmptyString)) &&
    existsb (fun n => bool_decide (GroupName n = grp_Name g) &&
                      negb (bool_decide (spec_HwProfile n = grp_HwProfile g))) nodes) groups.

Definition allocatedCount (nodes : list NodeState) (groupName : string) : Z :=
  Z.of_nat (length (filterNodesByGroup nodes groupName)).

Definition hasNodeGroupSizeIncreases (groups : list NodeGroup) (nodes : list NodeState) : bool :=
  existsb (fun g => allocatedCount nodes (grp_Name g) <? Size g) groups.

Definition isNodeAllocationRequestFullyAllocated (groups : list NodeGroup) (nodes : list NodeState) : bool :=
  forallb (fun g => Size g <=? allocatedCount nodes (grp_Name g)) groups.

(** ** maxUnavailable *)

Inductive intOrString : Type := IntVal (i : Z) | StrVal (s : string).

(** The MachineConfigPool of the group, in the managed cluster. *)
Inductive mcpResult : Type := McpNotFound | McpError | McpFound (maxUnavailable : option intOrString).

Definition DefaultMaxUnavailable : Z := 1.

Section rollout.
Context (GetScaledValueFromIntOrPercent : intOrString -> Z -> bool -> option Z).

Definition GetMaxUnavailable (mcp : mcpResult) (totalNodes : Z) : option Z :=
  if totalNodes =? 1 then Some DefaultMaxUnavailable
  else
    match mcp with
    | McpNotFound => Some DefaultMaxUnavailable
    | McpError => None
    | McpFound None => Some DefaultMaxUnavailable
    | McpFound (Some v) =>
        match GetScaledValueFromIntOrPercent v totalNodes false with
        | None => None
        | Some m => Some (if m <? 1 then DefaultMaxUnavailable else m)
        end
    end.

(** ** Marking *)

Definition mark_node (env : Env) (newHwProfile : string) (n : NodeState) : NodeState * (failure + unit) :=
  if decide (spec_HwProfile n = newHwProfile) then (n, inr tt)
  else if update_requested n && negb (update_abandoned n) then (n, inr tt)
  else SetNodeConfigUpdatePending env newHwProfile NodeUpdatePending n.

(** The nodes of one group; the loop stops at the first error. *)
Fixpoint mark_group (envs : string -> Env) (g : NodeGroup) (nodes : list NodeState) : list NodeState * bool :=
  match nodes with
  | [] => ([], true)
  | n :: rest =>
      if decide (GroupName n = grp_Name g) then
        let '(n', r) := mark_node (envs (node_Name n)) (grp_HwProfile g) n in
        match r with
        | inl _ => (n' :: rest, false)
        | inr _ => let '(rest', ok) := mark_group envs g rest in (n' :: rest', ok)
        end
      else let '(rest', ok) := mark_group envs g rest in (n :: rest', ok)
  end.

Fixpoint markPendingNodesForUpdate (envs : string -> Env) (groups : list NodeGroup) (nodes : list NodeState)
    : list NodeState * bool :=
  match groups with
  | [] => (nodes, true)
  | g :: rest =>
      match mark_group envs g nodes with
      | (nodes', false) => (nodes', false)
      | (nodes', true) => markPendingNodesForUpdate envs rest nodes'
      end
  end.

(** ** Host names *)

(** [hostMap] is [None] when the ProvisioningRequest cannot be read, [patch_ok]
    says whether the patch of a node goes through. *)
Definition with_hostname (h : string) (n : NodeState) : NodeState :=
  mkNodeState (node_Name n) (GroupName n) (spec_HwProfile n) (status_HwProfile n) h (node_Conditions n)
    (config_annotation n) (update_abandoned n) (bios_needed n) (firmware_needed n) (reboot_requested n)
    (error_stamp n) (spoke n).

Fixpoint populate_from (hostMap : gmap string string) (patch_ok : string -> bool) (nodes : list NodeState)
    : list NodeState * bool :=
  match nodes with
  | [] => ([], true)
  | n :: rest =>
      if decide (node_Hostname n = EmptyString) then
        let hostname := default EmptyString (hostMap !! node_Name n) in
        if bool_decide (hostname = EmptyString) || negb (patch_ok (node_Name n)) then (n :: rest, false)
        else let '(rest', ok) := populate_from hostMap patch_ok rest in (with_hostname hostname n :: rest', ok)
      else let '(rest', ok) := populate_from hostMap patch_ok rest in (n :: rest', ok)
  end.

Definition populateNodeHostnames (hostMap : option (gmap string string)) (patch_ok : string -> bool)
    (nodes : list NodeState) : list NodeState * bool :=
  if forallb (fun n => negb (bool_decide (node_Hostname n = EmptyString))) nodes then (nodes, true)
  else match hostMap with None => (nodes, false) | Some m => populate_from m patch_ok nodes end.

(** ** Classification *)

Record nodeClassification := mkClassification {
  DoneNodes : list NodeState;
  InProgressNodes : list NodeState;
  FailedNodes : list NodeState;
  notReadyNodes : list NodeState;
  abandonedNodes : list NodeState;
  PendingNodes : list NodeState;
}.

Definition PriorityNodes (nc : nodeClassification) : list NodeState :=
  (notReadyNodes nc ++ abandonedNodes nc)%list.

Definition is_done (newHwProfile : string) (n : NodeState) : bool :=
  bool_decide (spec_HwProfile n = newHwProfile) &&
  match FindStatusCondition (node_Conditions n) Configured with
  | None => true
  | Some c => bool_decide (cond_Status c = ConditionTrue) && bool_decide (cond_Reason c = ConfigApplied)
  end.

Definition in_progress (n : NodeState) : bool := update_requested n && negb (update_abandoned n).

Definition is_failed (n : NodeState) : bool :=
  match FindStatusCondition (node_Conditions n) Configured with
  | Some c => bool_decide (cond_Status c = ConditionFalse) &&
              (bool_decide (cond_Reason c = Failed) || bool_decide (cond_Reason c = InvalidInput))
  | None => false
  end.

(** An error of [IsNodeReady] counts as not ready. *)
Definition is_ready (envs : string -> Env) (n : NodeState) : bool :=
  default false (node_ready (envs (node_Name n))).

Definition classify_one (envs : string -> Env) (newHwProfile : string) (nc : nodeClassification) (n : NodeState)
    : nodeClassification :=
  let '(mkClassification d p f r a q) := nc in
  if is_done newHwProfile n then mkClassification (d ++ [n]) p f r a q
  else if in_progress n then mkClassification d (p ++ [n]) f r a q
  else if is_failed n then mkClassification d p (f ++ [n]) r a q
  else if negb (is_ready envs n) then mkClassification d p f (r ++ [n]) a q
  else if update_abandoned n then mkClassification d p f r (a ++ [n]) q
  else mkClassification d p f r a (q ++ [n]).

Definition classifyNodes (envs : string -> Env) (newHwProfile : string) (nodes : list NodeState)
    : nodeClassification :=
  fold_left (classify_one envs newHwProfile) nodes (mkClassification [] [] [] [] [] []).

(** ** Selection *)

Inductive nodeActionType : Type := actionInitiate | actionTransition | actionInProgressUpdate.
#[export] Instance nodeActionType_eq_dec : EqDecision nodeActionType.
Proof. solve_decision. Defined.

Record nodeAction := mkAction { action_node : NodeState; actionType : nodeActionType }.

(** The loop over the candidates, with what is left of the capacity. *)
Fixpoint initiate_candidates (capacity : Z) (candidates : list NodeState) : list nodeAction :=
  match candidates with
  | [] => []
  | n :: rest =>
      if capacity <=? 0 then [] else mkAction n actionInitiate :: initiate_candidates (capacity - 1) rest
  end.

Definition continue_action (n : NodeState) : nodeAction :=
  mkAction n (if decide (config_annotation n = EmptyString) then actionTransition else actionInProgressUpdate).

Definition group_actions (maxUnavailable : Z) (nc : nodeClassification) : list nodeAction :=
  let unavailable := Z.of_nat (length (InProgressNodes nc)) + Z.of_nat (length (FailedNodes nc)) in
  let capacity := Z.max (maxUnavailable - unavailable) 0 in
  (initiate_candidates capacity (PriorityNodes nc ++ PendingNodes nc)
   ++ map continue_action (InProgressNodes nc))%list.

(** [None] when maxUnavailable cannot be found out. *)
Fixpoint select_groups (envs : string -> Env) (mcps : string -> mcpResult) (nodes : list NodeState)
    (groups : list NodeGroup) : option (list nodeAction) :=
  match groups with
  | [] => Some []
  | g :: rest =>
      match filterNodesByGroup nodes (grp_Name g) with
      | [] => select_groups envs mcps nodes rest
      | nodesInGroup =>
          let nc := classifyNodes envs (grp_HwProfile g) nodesInGroup in
          if decide (length (DoneNodes nc) = length nodesInGroup) then select_groups envs mcps nodes rest
          else
            match GetMaxUnavailable (mcps (grp_Name g)) (Z.of_nat (length nodesInGroup)) with
            | None => None
            | Some maxUnavailable =>
                let actions := group_actions maxUnavailable nc in
                if is_master g then Some actions
                else (fun rest => (actions ++ rest)%list) <$> select_groups envs mcps nodes rest
            end
      end
  end.

Definition selectNodesToProcess (envs : string -> Env) (mcps : string -> mcpResult) (groups : list NodeGroup)
    (nodes : list NodeState) : option (list nodeAction) :=
  select_groups envs mcps nodes (getGroupsSortedByRole groups).

(** ** Execution *)

Definition run_action (envs : string -> Env) (groups : list NodeGroup) (a : nodeAction)
    : NodeState * (failure + Requeue) :=
  let n := action_node a in
  let env := envs (node_Name n) in
  let newHwProfile := getNewHwProfileForNode groups n in
  let stale := negb (bool_decide (spec_HwProfile n = newHwProfile)) in
  match actionType a with
  | actionInitiate => initiateNodeUpdate env newHwProfile n
  | actionTransition => if stale then abandonNodeUpdate env n else handleTransitionNode env true n
  | actionInProgressUpdate => if stale then abandonNodeUpdate env n else handleNodeInProgressUpdate env n
  end.

Definition replace_node (n' : NodeState) (nodes : list NodeState) : list NodeState :=
  map (fun n => if decide (node_Name n = node_Name n') then n' else n) nodes.

(** The interval of a result, in seconds; an immediate requeue counts as one. *)
Definition interval (r : Requeue) : Z :=
  match r with DoNotRequeue => 0 | RequeueImmediately => 1 | RequeueAfter s => s end.

Definition shortest (minRequeue : Z) (r : Requeue) : Z :=
  let i := interval r in
  if i <=? 0 then minRequeue else if (minRequeue =? 0) || (i <? minRequeue) then i else minRequeue.

(** The nodes afterwards, whether a handler failed, and the shortest interval. *)
Fixpoint executeNodeUpdates (envs : string -> Env) (groups : list NodeGroup) (actions : list nodeAction)
    (acc : list NodeState * bool * Z) : list NodeState * bool * Z :=
  match actions with
  | [] => acc
  | a :: rest =>
      let '(nodes, failed, minRequeue) := acc in
      let '(n', r) := run_action envs groups a in
      executeNodeUpdates envs groups rest
        (replace_node n' nodes,
         match r with inl _ => true | inr _ => failed end,
         match r with inl _ => minRequeue | inr r => shortest minRequeue r end)
  end.

(** Draining is skipped for a single node. *)
Definition with_skip_drain (b : bool) (env : Env) : Env :=
  mkEnv (wall_clock env) (call_ok env) (bmh_status env) (profile_check env) (bios_change env)
    (firmware_change env) (config_valid env) (node_ready env) (error_type env) (failed_conflict env) b.

(** [handleNodeAllocationRequestConfiguring]: the nodes, the result, and whether an
    error is returned. *)
Definition handleNodeAllocationRequestConfiguring (envs : string -> Env) (mcps : string -> mcpResult)
    (hostMap : option (gmap string string)) (patch_ok : string -> bool) (groups : list NodeGroup)
    (nodes : list NodeState) : list NodeState * Requeue * bool :=
  match markPendingNodesForUpdate envs groups nodes with
  | (nodes, false) => (nodes, DoNotRequeue, true)
  | (nodes, true) =>
      match populateNodeHostnames hostMap patch_ok nodes with
      | (nodes, false) => (nodes, DoNotRequeue, true)
      | (nodes, true) =>
          let envs name := with_skip_drain (bool_decide (length nodes = 1%nat)) (envs name) in
          match selectNodesToProcess envs mcps groups nodes with
          | None => (nodes, DoNotRequeue, true)
          | Some actions =>
              let '(nodes, failed, minRequeue) := executeNodeUpdates envs groups actions (nodes, false, 0) in
              if (failed : bool) then (nodes, DoNotRequeue, true)
              else (nodes, if 0 <? minRequeue then RequeueAfter minRequeue else DoNotRequeue, false)
          end
      end
  end.
End rollout.

(** ** Lists *)

Definition countb {A} (f : A -> bool) (l : list A) : nat := length (filter (fun x => f x) l).

Lemma countb_cons {A} (f : A -> bool) x l : countb f (x :: l) = ((if f x then 1 else 0) + countb f l)%nat.
Proof. unfold countb. rewrite filter_cons. by destruct (f x). Qed.

Lemma countb_app {A} (f : A -> bool) l k : countb f (l ++ k) = (countb f l + countb f k)%nat.
Proof. induction l as [|x l IH]; [done|]. simpl. rewrite !countb_cons, IH. lia. Qed.

Lemma countb_mono {A} (f g : A -> bool) l k :
  Forall2 (fun x y => g y = true -> f x = true) l k -> (countb g k <= countb f l)%nat.
Proof.
  induction 1 as [|x y l k H _ IH]; [done|]. rewrite !countb_cons.
  destruct (g y); [rewrite H by done|destruct (f x)]; lia.
Qed.

Lemma countb_Permutation {A} (f : A -> bool) l k : l ≡ₚ k -> countb f l = countb f k.
Proof. intros H. unfold countb. by rewrite H. Qed.

Lemma submseteq_NoDup {A} (l k : list A) : l ⊆+ k -> NoDup k -> NoDup l.
Proof. intros (r & ->)%submseteq_Permutation Hk. by apply NoDup_app in Hk as [? _]. Qed.

Lemma filter_length_all {A} (P : A -> Prop) `{!forall x, Decision (P x)} l :
  length (filter P l) = length l -> forall x, x ∈ l -> P x.
Proof.
  induction l as [|y l IH]; intros Hlen x; [by intros ?%elem_of_nil|].
  rewrite filter_cons in Hlen. pose proof (length_filter P l). case_decide; simpl in Hlen; [|lia].
  intros [->|?]%elem_of_cons; [done|]. apply IH; [lia|done].
Qed.

Lemma filter_all {A} (P : A -> Prop) `{!forall x, Decision (P x)} (l : list A) : (forall x, x ∈ l -> P x) -> filter P l = l.
Proof.
  induction l as [|x l IH]; intros HP; [done|]. rewrite filter_cons, decide_True by (apply HP, list_elem_of_here).
  f_equal. apply IH. intros; apply HP. by apply list_elem_of_further.
Qed.

(** ** Masters come first *)

Lemma stable_insert_low {A} (less : A -> A -> bool) x l :
  (forall y, y ∈ l -> less y x = false) -> stable_insert less x l = x :: l.
Proof. destruct l as [|y l]; intros H; simpl; [done|]. by rewrite H by apply list_elem_of_here. Qed.

Lemma stable_insert_high {A} (less : A -> A -> bool) x l k :
  (forall y, y ∈ l -> less y x = true) -> (forall y, y ∈ k -> less y x = false) ->
  stable_insert less x (l ++ k) = (l ++ x :: k)%list.
Proof.
  intros Hl Hk. induction l as [|y l IH]; simpl; [by apply stable_insert_low|].
  rewrite Hl by apply list_elem_of_here. f_equal. apply IH. intros; apply Hl. by apply list_elem_of_further.
Qed.

Lemma sorted_groups groups :
  getGroupsSortedByRole groups =
    (filter (fun g => is_master g) groups ++ filter (fun g => negb (is_master g)) groups)%list.
Proof.
  assert (forall g, groupPriority (Role g) = if is_master g then 0 else 1) as Hp.
  { intros g. unfold groupPriority, is_master. case_decide; [by rewrite bool_decide_eq_true_2|by rewrite bool_decide_eq_false_2]. }
  unfold getGroupsSortedByRole. induction groups as [|g groups IH]; [done|]. simpl. rewrite IH, !filter_cons.
  destruct (is_master g) eqn:E; simpl.
  - apply stable_insert_low. intros y _. rewrite !Hp, E. by destruct (is_master y).
  - apply stable_insert_high; intros y [Hy _]%list_elem_of_filter; rewrite !Hp, E; by destruct (is_master y).
Qed.

(** ** Classification is a partition *)

Inductive nodeClass : Type := ClassDone | ClassInProgress | ClassFailed | ClassNotReady | ClassAbandoned | ClassPending.
#[export] Instance nodeClass_eq_dec : EqDecision nodeClass.
Proof. solve_decision. Defined.

Definition class_of (envs : string -> Env) (newHwProfile : string) (n : NodeState) : nodeClass :=
  if is_done newHwProfile n then ClassDone
  else if in_progress n then ClassInProgress
  else if is_failed n then ClassFailed
  else if negb (is_ready envs n) then ClassNotReady
  else if update_abandoned n then ClassAbandoned
  else ClassPending.

Definition of_class (envs : string -> Env) (p : string) (c : nodeClass) (nodes : list NodeState) : list NodeState :=
  filter (fun n => class_of envs p n = c) nodes.

Lemma classify_one_class envs p nc n :
  classify_one envs p nc n =
    let '(mkClassification d i f r a q) := nc in
    match class_of envs p n with
    | ClassDone => mkClassification (d ++ [n]) i f r a q
    | ClassInProgress => mkClassification d (i ++ [n]) f r a q
    | ClassFailed => mkClassification d i (f ++ [n]) r a q
    | ClassNotReady => mkClassification d i f (r ++ [n]) a q
    | ClassAbandoned => mkClassification d i f r (a ++ [n]) q
    | ClassPending => mkClassification d i f r a (q ++ [n])
    end.
Proof.
  destruct nc. unfold classify_one, class_of.
  destruct (is_done p n), (in_progress n), (is_failed n), (is_ready envs n), (update_abandoned n); done.
Qed.

Lemma of_class_cons envs p c n nodes :
  of_class envs p c (n :: nodes) =
    if decide (class_of envs p n = c) then n :: of_class envs p c nodes else of_class envs p c nodes.
Proof. unfold of_class. by rewrite filter_cons. Qed.

Lemma classifyNodes_spec envs p nodes :
  classifyNodes envs p nodes =
    mkClassification (of_class envs p ClassDone nodes) (of_class envs p ClassInProgress nodes)
      (of_class envs p ClassFailed nodes) (of_class envs p ClassNotReady nodes)
      (of_class envs p ClassAbandoned nodes) (of_class envs p ClassPending nodes).
Proof.
  unfold classifyNodes.
  assert (forall d i f r a q, fold_left (classify_one envs p) nodes (mkClassification d i f r a q) =
    mkClassification (d ++ of_class envs p ClassDone nodes) (i ++ of_class envs p ClassInProgress nodes)
      (f ++ of_class envs p ClassFailed nodes) (r ++ of_class envs p ClassNotReady nodes)
      (a ++ of_class envs p ClassAbandoned nodes) (q ++ of_class envs p ClassPending nodes)) as H; [|by apply H].
  induction nodes as [|n nodes IH]; intros; cbn [fold_left].
  - by rewrite !app_nil_r.
  - rewrite classify_one_class, !of_class_cons.
    destruct (class_of envs p n); rewrite IH; simpl; by rewrite <- ?app_assoc.
Qed.

Lemma class_partition envs p nodes :
  nodes ≡ₚ (of_class envs p ClassDone nodes ++ of_class envs p ClassInProgress nodes ++
    of_class envs p ClassFailed nodes ++ of_class envs p ClassNotReady nodes ++
    of_class envs p ClassAbandoned nodes ++ of_class envs p ClassPending nodes)%list.
Proof.
  induction nodes as [|n nodes IH]; [done|]. rewrite !of_class_cons.
  destruct (class_of envs p n); simpl; rewrite IH at 1; solve_Permutation.
Qed.

Lemma done_not_in_progress p n : is_done p n = true -> in_progress n = false.
Proof.
  unfold is_done, in_progress, update_requested, requested_in. intros [_ H]%andb_true_iff.
  destruct (FindStatusCondition _ _) as [c|]; [|done]. bools.
  match goal with H : cond_Status c = _ |- _ => by rewrite H end.
Qed.

Lemma class_in_progress envs p n : class_of envs p n = ClassInProgress <-> in_progress n = true.
Proof.
  unfold class_of. destruct (is_done p n) eqn:E; [|destruct (in_progress n); [done|]; repeat case_match; done].
  rewrite (done_not_in_progress p) by done. done.
Qed.

(** ** The actions of one group *)

Lemma initiate_candidates_take capacity candidates :
  initiate_candidates capacity candidates = map (fun n => mkAction n actionInitiate) (take (Z.to_nat capacity) candidates).
Proof.
  revert capacity; induction candidates as [|n rest IH]; intros capacity; simpl; [by rewrite take_nil|].
  destruct (Z.leb_spec capacity 0).
  - by replace (Z.to_nat capacity) with 0%nat by lia.
  - replace (Z.to_nat capacity) with (S (Z.to_nat (capacity - 1))) by lia. simpl. by rewrite IH.
Qed.

Definition is_initiate (a : nodeAction) : bool := bool_decide (actionType a = actionInitiate).

Section group_actions.
Context (envs : string -> Env) (p : string) (nodes : list NodeState) (maxUnavailable : Z).

Abbreviation nc := (classifyNodes envs p nodes).
Abbreviation capacity :=
  (Z.max (maxUnavailable - (Z.of_nat (length (InProgressNodes nc)) + Z.of_nat (length (FailedNodes nc)))) 0).
Abbreviation candidates := (PriorityNodes nc ++ PendingNodes nc)%list.

Lemma group_actions_nodes :
  map action_node (group_actions maxUnavailable nc) = (take (Z.to_nat capacity) candidates ++ InProgressNodes nc)%list.
Proof.
  unfold group_actions. rewrite initiate_candidates_take, map_app, !map_map. simpl. by rewrite !map_id.
Qed.

Lemma group_actions_submseteq : map action_node (group_actions maxUnavailable nc) ⊆+ nodes.
Proof.
  rewrite group_actions_nodes. generalize (Z.to_nat capacity) as k. intros k. rewrite classifyNodes_spec.
  unfold PriorityNodes. simpl. set (D := of_class envs p ClassDone nodes). set (I := of_class envs p ClassInProgress nodes).
  set (F := of_class envs p ClassFailed nodes). set (R := of_class envs p ClassNotReady nodes).
  set (B := of_class envs p ClassAbandoned nodes). set (Q := of_class envs p ClassPending nodes).
  etransitivity; [apply submseteq_app; [apply sublist_submseteq, sublist_take|reflexivity]|].
  etransitivity; [|apply Permutation_submseteq; symmetry; apply (class_partition envs p nodes)].
  fold D I F R B Q. etransitivity; [|apply submseteq_inserts_l; reflexivity].
  etransitivity; [|apply submseteq_app; [reflexivity|apply submseteq_inserts_l; reflexivity]].
  apply Permutation_submseteq. solve_Permutation.
Qed.

Lemma in_progress_length : length (InProgressNodes nc) = countb in_progress nodes.
Proof.
  rewrite classifyNodes_spec. simpl. unfold of_class, countb. f_equal. apply list_filter_iff.
  intros n. rewrite class_in_progress. symmetry. apply Is_true_true.
Qed.

Lemma group_actions_initiated :
  Z.of_nat (countb is_initiate (group_actions maxUnavailable nc)) <=
  Z.max (maxUnavailable - Z.of_nat (countb in_progress nodes)) 0.
Proof.
  unfold group_actions. rewrite countb_app, initiate_candidates_take, in_progress_length.
  assert (forall l, countb is_initiate (map continue_action l) = 0%nat) as ->.
  { induction l as [|n l IH]; [done|]. simpl. rewrite countb_cons, IH. unfold is_initiate, continue_action. simpl.
    by case_decide. }
  assert (forall l, countb is_initiate (map (fun n => mkAction n actionInitiate) l) = length l) as ->.
  { induction l as [|n l IH]; [done|]. simpl. by rewrite countb_cons, IH. }
  rewrite length_take. lia.
Qed.

Lemma group_actions_continued a :
  a ∈ group_actions maxUnavailable nc -> is_initiate a = false ->
  in_progress (action_node a) = true /\
  (actionType a = actionTransition <-> config_annotation (action_node a) = EmptyString).
Proof.
  unfold group_actions. rewrite initiate_candidates_take, elem_of_app, !list_elem_of_fmap.
  intros [(n & -> & _)|(n & -> & Hn)]; [done|]. rewrite classifyNodes_spec in Hn. simpl in Hn.
  apply list_elem_of_filter in Hn as [Hn _]. apply class_in_progress in Hn. simpl.
  intros _. split; [done|]. case_decide; naive_solver.
Qed.

Lemma group_actions_started a :
  a ∈ group_actions maxUnavailable nc -> is_initiate a = true -> in_progress (action_node a) = false.
Proof.
  unfold group_actions. rewrite initiate_candidates_take, elem_of_app, !list_elem_of_fmap.
  intros [(n & -> & Hn)|(n & -> & _)].
  - intros _. apply elem_of_take in Hn as (i & Hn & _). apply list_elem_of_lookup_2 in Hn.
    rewrite classifyNodes_spec in Hn. unfold PriorityNodes in Hn. simpl in *.
    destruct (in_progress n) eqn:E; [|done]. apply (class_in_progress envs p) in E.
    rewrite !elem_of_app in Hn. unfold of_class in Hn. rewrite !list_elem_of_filter in Hn.
    destruct_or! Hn; destruct Hn; congruence.
  - unfold is_initiate, continue_action. simpl. by case_decide.
Qed.
Lemma group_actions_undone a :
  a ∈ group_actions maxUnavailable nc -> is_done p (action_node a) = false.
Proof.
  unfold group_actions. rewrite initiate_candidates_take, elem_of_app, !list_elem_of_fmap, classifyNodes_spec.
  assert (forall n c, n ∈ of_class envs p c nodes -> c <> ClassDone -> is_done p n = false) as Hc.
  { intros n c [<- _]%list_elem_of_filter. unfold class_of. by destruct (is_done p n). }
  unfold PriorityNodes. cbn [InProgressNodes notReadyNodes abandonedNodes PendingNodes].
  intros [(n & -> & Hn)|(n & -> & Hn)]; [|by apply (Hc n ClassInProgress)].
  apply elem_of_take in Hn as (i & Hn & _). apply list_elem_of_lookup_2 in Hn. rewrite !elem_of_app in Hn.
  destruct_or! Hn; by eapply Hc.
Qed.

(** With room in the group and no failed node, something is done about a group that is
    not done. *)
Lemma group_actions_nil :
  1 <= maxUnavailable -> (forall n, n ∈ nodes -> class_of envs p n <> ClassFailed) ->
  group_actions maxUnavailable nc = [] -> forall n, n ∈ nodes -> is_done p n = true.
Proof.
  intros Hm Hf. unfold group_actions. rewrite classifyNodes_spec. unfold PriorityNodes. simpl.
  assert (of_class envs p ClassFailed nodes = []) as ->.
  { destruct (of_class envs p ClassFailed nodes) as [|n l] eqn:E; [done|].
    assert (n ∈ of_class envs p ClassFailed nodes) as [Hn ?]%list_elem_of_filter by (rewrite E; apply list_elem_of_here).
    by destruct (Hf n). }
  intros [H HI%map_eq_nil]%app_nil. rewrite HI in H. rewrite initiate_candidates_take in H. apply map_eq_nil in H.
  replace (Z.to_nat _) with (S (Z.to_nat (maxUnavailable - 1))) in H by (simpl; lia).
  intros n Hn. destruct (is_done p n) eqn:E; [done|exfalso].
  assert (forall c, class_of envs p n = c -> n ∈ of_class envs p c nodes) as Hin by (intros; by apply list_elem_of_filter).
  assert (n ∈ ((of_class envs p ClassNotReady nodes ++ of_class envs p ClassAbandoned nodes) ++
    of_class envs p ClassPending nodes)) as Hc.
  { specialize (Hf n Hn). rewrite !elem_of_app. destruct (class_of envs p n) eqn:Ec; auto; try done.
    - unfold class_of in Ec. rewrite E in Ec. repeat case_match; done.
    - specialize (Hin _ eq_refl). rewrite HI in Hin. by apply elem_of_nil in Hin. }
  destruct (_ ++ _) as [|x l]; [by apply elem_of_nil in Hc|done].
Qed.
End group_actions.

(** ** The actions of a reconcile *)

Section selection.
Context (GetScaled : intOrString -> Z -> bool -> option Z).
Context (envs : string -> Env) (mcps : string -> mcpResult) (nodes : list NodeState).

Definition in_group (g : string) (n : NodeState) : bool := bool_decide (GroupName n = g).

(** What [maxUnavailable] is for a group. *)
Definition group_limit (g : string) : option Z :=
  GetMaxUnavailable GetScaled (mcps g) (Z.of_nat (length (filterNodesByGroup nodes g))).

(** The actions chosen for a list of groups with different names. *)
Record selected (groups : list NodeGroup) (actions : list nodeAction) : Prop := {
  sel_nodes : map action_node actions ⊆+ nodes;
  sel_groups : forall a, a ∈ actions -> GroupName (action_node a) ∈ map grp_Name groups;
  sel_continued : forall a, a ∈ actions -> is_initiate a = false ->
    in_progress (action_node a) = true /\
    (actionType a = actionTransition <-> config_annotation (action_node a) = EmptyString);
  sel_started : forall a, a ∈ actions -> is_initiate a = true -> in_progress (action_node a) = false;
  sel_limit : forall g m, group_limit g = Some m ->
    Z.of_nat (countb (fun a => is_initiate a && in_group g (action_node a)) actions) <=
    Z.max (m - Z.of_nat (countb (fun n => in_group g n && in_progress n) nodes)) 0;
  sel_known : forall a, a ∈ actions -> is_Some (group_limit (GroupName (action_node a)));
  sel_undone : forall a, a ∈ actions -> exists g, g ∈ groups /\ grp_Name g = GroupName (action_node a) /\
    is_done (grp_HwProfile g) (action_node a) = false;
}.

Lemma countb_group g f : countb f (filterNodesByGroup nodes g) = countb (fun n => in_group g n && f n) nodes.
Proof.
  unfold filterNodesByGroup, in_group. induction nodes as [|n l IH]; [done|].
  rewrite filter_cons, !countb_cons. case_decide as E.
  - rewrite countb_cons, IH, bool_decide_eq_true_2 by done. done.
  - rewrite IH, bool_decide_eq_false_2 by done. done.
Qed.

Lemma group_selected g p m :
  group_limit g = Some m -> forall role size,
  selected [mkNodeGroup g role p size] (group_actions m (classifyNodes envs p (filterNodesByGroup nodes g))).
Proof.
  intros Hm role size. set (acts := group_actions _ _).
  assert (map action_node acts ⊆+ filterNodesByGroup nodes g) as Hsub by apply group_actions_submseteq.
  assert (forall a, a ∈ acts -> GroupName (action_node a) = g) as Hg.
  { intros a Ha. assert (action_node a ∈ map action_node acts) as Hin by (by apply list_elem_of_fmap_2).
    eapply elem_of_submseteq in Hin; [|exact Hsub]. by apply list_elem_of_filter in Hin as [? _]. }
  constructor.
  - etransitivity; [exact Hsub|]. apply sublist_submseteq, sublist_filter.
  - intros a Ha. rewrite (Hg a Ha). apply list_elem_of_here.
  - intros a Ha. by eapply group_actions_continued.
  - intros a Ha. by eapply group_actions_started.
  - intros g' m' Hm'. destruct (decide (g' = g)) as [->|Hne].
    + assert (m' = m) as -> by congruence. rewrite <- countb_group.
      etransitivity; [|apply group_actions_initiated]. apply inj_le, countb_mono. fold acts.
      apply Forall_Forall2_diag, Forall_true. intros a. simpl. by intros [? _]%andb_true_iff.
    + replace (countb _ acts) with 0%nat; [lia|]. symmetry.
      assert (forall a, a ∈ acts -> in_group g' (action_node a) = false) as Hno.
      { intros a Ha. unfold in_group. rewrite (Hg a Ha). by rewrite bool_decide_eq_false_2. }
      clear -Hno. induction acts as [|a acts IH]; [done|]. rewrite countb_cons, Hno, andb_false_r by apply list_elem_of_here.
      apply IH. intros; apply Hno. by apply list_elem_of_further.
  - intros a Ha. rewrite (Hg a Ha). by exists m.
  - intros a Ha. exists (mkNodeGroup g role p size). split_and!; [apply list_elem_of_here|by rewrite Hg|].
    by eapply group_actions_undone.
Qed.

Lemma countb_none {A} (f : A -> bool) l : (forall x, x ∈ l -> f x = false) -> countb f l = 0%nat.
Proof.
  intros Hf. induction l as [|x l IH]; [done|]. rewrite countb_cons, Hf by apply list_elem_of_here.
  apply IH. intros; apply Hf. by apply list_elem_of_further.
Qed.

Lemma countb_zero {A} (f : A -> bool) l : countb f l = 0%nat -> forall x, x ∈ l -> f x = false.
Proof.
  induction l as [|y l IH]; [by intros _ ? ?%elem_of_nil|]. rewrite countb_cons. intros H x [->|Hx]%elem_of_cons.
  - by destruct (f y).
  - apply IH; [lia|done].
Qed.

Lemma countb_nonzero {A} (f : A -> bool) l : countb f l <> 0%nat -> exists x, x ∈ l /\ f x = true.
Proof.
  induction l as [|y l IH]; [done|]. rewrite countb_cons. destruct (f y) eqn:E.
  - exists y. split; [apply list_elem_of_here|done].
  - intros (x & ? & ?)%IH. exists x. split; [by apply list_elem_of_further|done].
Qed.

Lemma action_group_names groups actions a :
  selected groups actions -> a ∈ actions -> GroupName (action_node a) ∈ map grp_Name groups.
Proof. intros [] ?; auto. Qed.

Lemma selected_app g groups a1 a2 :
  NoDup nodes -> grp_Name g ∉ map grp_Name groups ->
  selected [g] a1 -> selected groups a2 -> selected (g :: groups) (a1 ++ a2).
Proof.
  intros Hnd Hg H1 H2.
  assert (forall a, a ∈ a1 -> GroupName (action_node a) = grp_Name g) as Hg1.
  { intros a Ha. pose proof (action_group_names _ _ _ H1 Ha) as H. simpl in H. by apply list_elem_of_singleton in H. }
  assert (forall a, a ∈ a2 -> GroupName (action_node a) <> grp_Name g) as Hg2.
  { intros a Ha E. apply Hg. rewrite <- E. eapply action_group_names; done. }
  destruct H1 as [N1 G1 C1 S1 L1 K1 U1], H2 as [N2 G2 C2 S2 L2 K2 U2].
  assert (forall a, a ∈ a1 ++ a2 -> a ∈ a1 \/ a ∈ a2) as Hin by (intros a; by rewrite elem_of_app).
  constructor.
  - rewrite map_app. apply NoDup_submseteq.
    + apply NoDup_app. split_and!; [eapply submseteq_NoDup; eassumption| |eapply submseteq_NoDup; eassumption].
      intros n (x & -> & Hx)%list_elem_of_fmap (y & E & Hy)%list_elem_of_fmap.
      apply (Hg2 y Hy). rewrite <- E. by apply Hg1.
    + intros n [Hn|Hn]%elem_of_app; eapply elem_of_submseteq; eassumption.
  - intros a [Ha|Ha]%Hin; simpl; [rewrite (Hg1 a Ha); apply list_elem_of_here|apply list_elem_of_further; auto].
  - intros a [Ha|Ha]%Hin; auto.
  - intros a [Ha|Ha]%Hin; auto.
  - intros g' m Hm. rewrite countb_app. specialize (L1 g' m Hm). specialize (L2 g' m Hm).
    destruct (decide (g' = grp_Name g)) as [->|Hne].
    + rewrite (countb_none _ a2); [lia|]. intros a Ha. unfold in_group.
      by rewrite (bool_decide_eq_false_2 _ (Hg2 a Ha)), andb_false_r.
    + rewrite (countb_none _ a1); [lia|]. intros a Ha. unfold in_group.
      rewrite (Hg1 a Ha), bool_decide_eq_false_2 by congruence. by rewrite andb_false_r.
  - intros a [Ha|Ha]%Hin; auto.
  - intros a [Ha|Ha]%Hin; [destruct (U1 a Ha) as (g' & ->%list_elem_of_singleton & ?)|destruct (U2 a Ha) as (g' & ? & ?)];
      [exists g|exists g']; (split; [set_solver|done]).
Qed.

Lemma selected_nil : selected [] [].
Proof. constructor; simpl; try by intros ? ?%elem_of_nil. - apply submseteq_nil_l. - intros. unfold countb at 1. simpl. lia. Qed.

Lemma selected_more g groups actions : selected groups actions -> selected (g :: groups) actions.
Proof.
  intros [N G C S L K U]. constructor; auto; intros a Ha; [apply list_elem_of_further; auto|].
  destruct (U a Ha) as (g' & ? & ?). exists g'. split; [by apply list_elem_of_further|done].
Qed.

(** Every action of a reconcile. *)
Lemma select_groups_selected groups actions :
  NoDup nodes -> NoDup (map grp_Name groups) ->
  select_groups GetScaled envs mcps nodes groups = Some actions -> selected groups actions.
Proof.
  intros Hnd. revert actions; induction groups as [|g groups IH]; intros actions; simpl.
  { intros _ [= <-]. apply selected_nil. }
  intros [Hg Hgs]%NoDup_cons. specialize (fun a => IH a Hgs).
  destruct (filterNodesByGroup nodes (grp_Name g)) as [|n0 rest] eqn:Ef; [intros; by apply selected_more, IH|].
  assert (group_limit (grp_Name g) = GetMaxUnavailable GetScaled (mcps (grp_Name g)) (Z.of_nat (S (length rest)))) as Hlim
    by (unfold group_limit; by rewrite Ef).
  rewrite <- Ef. case_decide; [intros; by apply selected_more, IH|]. rewrite <- Hlim.
  destruct (group_limit (grp_Name g)) as [m|] eqn:Em; [|done].
  pose proof (group_selected (grp_Name g) (grp_HwProfile g) m Em (Role g) (Size g)) as Hsel.
  assert (mkNodeGroup (grp_Name g) (Role g) (grp_HwProfile g) (Size g) = g) as Eg by (by destruct g).
  rewrite Eg in Hsel. destruct (is_master g).
  - intros [= <-]. destruct Hsel as [N G C S L K U]. constructor; auto; intros a Ha.
    + specialize (G a Ha). simpl in *. apply list_elem_of_singleton in G as ->. apply list_elem_of_here.
    + destruct (U a Ha) as (g' & ->%list_elem_of_singleton & ?). exists g. split; [apply list_elem_of_here|done].
  - intros (rest' & Hr & ->)%fmap_Some. by apply selected_app; [..|apply IH].
Qed.

Definition group_done (g : NodeGroup) : Prop :=
  forall n, n ∈ nodes -> GroupName n = grp_Name g -> is_done (grp_HwProfile g) n = true.

Lemma all_done g : length (DoneNodes (classifyNodes envs (grp_HwProfile g) (filterNodesByGroup nodes (grp_Name g))))
  = length (filterNodesByGroup nodes (grp_Name g)) -> group_done g.
Proof.
  rewrite classifyNodes_spec. simpl. intros Hlen n Hn Hg.
  assert (n ∈ filterNodesByGroup nodes (grp_Name g)) as Hin by (by apply list_elem_of_filter).
  apply (filter_length_all _ _ Hlen) in Hin. unfold class_of in Hin.
  by destruct (is_done _ n); [|repeat case_match].
Qed.

Lemma select_groups_total groups :
  (forall g, is_Some (group_limit g)) -> is_Some (select_groups GetScaled envs mcps nodes groups).
Proof.
  intros Hl. induction groups as [|g groups IH]; simpl; [done|].
  destruct (filterNodesByGroup nodes (grp_Name g)) as [|n0 rest] eqn:Ef; [done|]. case_decide; [done|].
  destruct (Hl (grp_Name g)) as [m Hm]. unfold group_limit in Hm. rewrite Ef in Hm. simpl in Hm. rewrite Hm.
  destruct (is_master g); [done|]. by apply fmap_is_Some.
Qed.

Lemma GetMaxUnavailable_positive mcp total m : GetMaxUnavailable GetScaled mcp total = Some m -> 1 <= m.
Proof.
  unfold GetMaxUnavailable, DefaultMaxUnavailable. intros H. repeat case_match; simplify_eq; bools; lia.
Qed.

(** A reconcile selects nothing only when all is done (or a node failed). *)
Lemma select_groups_nil groups :
  (forall n g, n ∈ nodes -> g ∈ groups -> GroupName n = grp_Name g ->
     class_of envs (grp_HwProfile g) n <> ClassFailed) ->
  select_groups GetScaled envs mcps nodes groups = Some [] -> forall g, g ∈ groups -> group_done g.
Proof.
  intros Hf. induction groups as [|g groups IH]; simpl; [by intros _ ? ?%elem_of_nil|].
  assert (group_done g -> select_groups GetScaled envs mcps nodes groups = Some [] ->
    forall g', g' ∈ g :: groups -> group_done g') as Hnext.
  { intros Hd Hs g' [->|Hg']%elem_of_cons; [done|]. apply IH; [|done..]. intros; apply Hf; [done|by apply list_elem_of_further|done]. }
  destruct (filterNodesByGroup nodes (grp_Name g)) as [|n0 rest] eqn:Ef.
  { apply Hnext. intros n Hn Hg. assert (n ∈ filterNodesByGroup nodes (grp_Name g)) as Hin by (by apply list_elem_of_filter).
    rewrite Ef in Hin. by apply elem_of_nil in Hin. }
  rewrite <- Ef. case_decide as Ed; [apply Hnext, all_done; etransitivity; [exact Ed|by rewrite Ef]|].
  destruct (GetMaxUnavailable _ _ _) as [m|] eqn:Em; [|done]. apply GetMaxUnavailable_positive in Em.
  assert (group_actions m (classifyNodes envs (grp_HwProfile g) (filterNodesByGroup nodes (grp_Name g))) = [] ->
    group_done g) as Hnil.
  { intros H n Hn Hg. eapply group_actions_nil; [exact Em| |exact H|by apply list_elem_of_filter].
    intros n' [? Hn']%list_elem_of_filter. apply Hf; [done|apply list_elem_of_here|done]. }
  destruct (is_master g).
  - intros [= H]. exfalso. apply Ed. transitivity (length (filterNodesByGroup nodes (grp_Name g))); [|by rewrite Ef].
    rewrite classifyNodes_spec. simpl. unfold of_class. f_equal.
    apply filter_all. intros n [Hg Hn]%list_elem_of_filter. unfold class_of. by rewrite (Hnil H n Hn Hg).
  - intros (rest' & Hr & [H ->]%symmetry%app_nil)%fmap_Some. by apply Hnext; [apply Hnil|].
Qed.

(** While a control-plane group has work, nothing else is selected. *)
Lemma masters_block masters others actions :
  (forall g, g ∈ masters -> is_master g = true) ->
  select_groups GetScaled envs mcps nodes (masters ++ others) = Some actions ->
  (forall a, a ∈ actions -> exists g, g ∈ masters /\ GroupName (action_node a) = grp_Name g) \/
  (forall g, g ∈ masters -> group_done g).
Proof.
  intros Hm. induction masters as [|g masters IH]; simpl; [intros _; right; by intros ? ?%elem_of_nil|].
  assert (forall g, g ∈ masters -> is_master g = true) as Hm' by (intros; apply Hm; by apply list_elem_of_further).
  specialize (IH Hm').
  assert (group_done g -> select_groups GetScaled envs mcps nodes (masters ++ others) = Some actions ->
    (forall a, a ∈ actions -> exists g', g' ∈ g :: masters /\ GroupName (action_node a) = grp_Name g') \/
    (forall g', g' ∈ g :: masters -> group_done g')) as Hnext.
  { intros Hd [Hl|Hr]%IH; [left|right].
    - intros a Ha. destruct (Hl a Ha) as (g' & ? & ?). exists g'. split; [by apply list_elem_of_further|done].
    - intros g' [->|?]%elem_of_cons; auto. }
  destruct (filterNodesByGroup nodes (grp_Name g)) as [|n0 rest] eqn:Ef.
  { apply Hnext. intros n Hn Hg. assert (n ∈ filterNodesByGroup nodes (grp_Name g)) as Hin by (by apply list_elem_of_filter).
    rewrite Ef in Hin. by apply elem_of_nil in Hin. }
  assert (group_limit (grp_Name g) = GetMaxUnavailable GetScaled (mcps (grp_Name g)) (Z.of_nat (S (length rest)))) as Hlim
    by (unfold group_limit; by rewrite Ef).
  rewrite <- Ef. case_decide as Ed; [apply Hnext, all_done; etransitivity; [exact Ed|by rewrite Ef]|]. rewrite <- Hlim.
  destruct (group_limit (grp_Name g)) as [m|] eqn:Em; [|done].
  rewrite Hm by apply list_elem_of_here. intros [= <-]. left. intros a Ha. exists g.
  split; [apply list_elem_of_here|].
  pose proof (action_group_names _ _ _ (group_selected (grp_Name g) (grp_HwProfile g) m Em (Role g) (Size g)) Ha) as H.
  by apply list_elem_of_singleton in H.
Qed.
End selection.

(** ** Running the actions *)

Lemma run_action_identity envs groups a : same_identity (action_node a) (run_action envs groups a).1.
Proof.
  unfold run_action. destruct (actionType a); try case_match;
    [apply initiateNodeUpdate_identity|apply abandonNodeUpdate_identity|apply handleTransitionNode_identity
    |apply abandonNodeUpdate_identity|apply handleNodeInProgressUpdate_identity].
Qed.

Abbreviation names := (map node_Name).

Lemma replace_names n' nodes : names (replace_node n' nodes) = names nodes.
Proof. induction nodes as [|n nodes IH]; [done|]. simpl. case_decide as E; simpl; congruence. Qed.

Lemma replace_absent n' nodes : node_Name n' ∉ names nodes -> replace_node n' nodes = nodes.
Proof.
  induction nodes as [|n nodes IH]; [done|]. simpl. rewrite not_elem_of_cons. intros [Hn Hi].
  rewrite decide_False by congruence. f_equal. auto.
Qed.

Lemma replace_other n n' nodes : n ∈ nodes -> node_Name n <> node_Name n' -> n ∈ replace_node n' nodes.
Proof.
  intros Hn Hne. apply list_elem_of_fmap. exists n. split; [|done]. by rewrite decide_False.
Qed.

Lemma replace_count (f : NodeState -> bool) n n' nodes :
  NoDup (names nodes) -> n ∈ nodes -> node_Name n' = node_Name n ->
  (countb f (replace_node n' nodes) + (if f n then 1 else 0) = countb f nodes + (if f n' then 1 else 0))%nat.
Proof.
  induction nodes as [|m nodes IH]; simpl; [by intros _ ?%elem_of_nil|].
  intros [Hm Hnd]%NoDup_cons [->|Hn]%elem_of_cons Hname; rewrite !countb_cons.
  - rewrite decide_True by done. rewrite replace_absent by (by rewrite Hname). lia.
  - rewrite decide_False.
    + specialize (IH Hnd Hn Hname). lia.
    + intros E. apply Hm. rewrite E, Hname. by apply list_elem_of_fmap_2.
Qed.

Lemma replace_sum (f : NodeState -> nat) n n' nodes :
  NoDup (names nodes) -> n ∈ nodes -> node_Name n' = node_Name n ->
  (sum_list_with f (replace_node n' nodes) + f n = sum_list_with f nodes + f n')%nat.
Proof.
  induction nodes as [|m nodes IH]; simpl; [by intros _ ?%elem_of_nil|].
  intros [Hm Hnd]%NoDup_cons [->|Hn]%elem_of_cons Hname.
  - rewrite decide_True by done. rewrite replace_absent by (by rewrite Hname). lia.
  - rewrite decide_False.
    + specialize (IH Hnd Hn Hname). lia.
    + intros E. apply Hm. rewrite E, Hname. by apply list_elem_of_fmap_2.
Qed.

Section execution.
Context (envs : string -> Env) (groups : list NodeGroup).

Definition executed (actions : list nodeAction) (acc : list NodeState * bool * Z) : list NodeState :=
  (executeNodeUpdates envs groups actions acc).1.1.

Lemma executed_cons a rest nodes b q :
  exists b' q', executed (a :: rest) (nodes, b, q) = executed rest (replace_node (run_action envs groups a).1 nodes, b', q').
Proof. unfold executed. simpl. destruct (run_action envs groups a) as [n' r]. eauto. Qed.

(** One handler at a time: what holds of every node the handlers leave, and of
    every node they do not touch. *)
Lemma executed_related (R : relation NodeState) actions nodes b q :
  (forall n, R n n) -> NoDup (names nodes) -> (forall a, a ∈ actions -> action_node a ∈ nodes) ->
  NoDup (names (map action_node actions)) ->
  (forall a, a ∈ actions -> R (action_node a) (run_action envs groups a).1) ->
  Forall2 R nodes (executed actions (nodes, b, q)).
Proof.
  intros Hrefl Hnd Hin Ha HR.
  assert (forall cur, names cur = names nodes -> Forall2 R nodes cur ->
    (forall a, a ∈ actions -> action_node a ∈ cur) ->
    forall b q, Forall2 R nodes (executed actions (cur, b, q))) as H.
  { clear b q. induction actions as [|a rest IH]; intros cur Hcur Hf Hc b q; [done|].
    destruct (executed_cons a rest cur b q) as (b' & q' & ->). simpl in Ha. apply NoDup_cons in Ha as [Ha Hrest].
    destruct (run_action_identity envs groups a) as (Hname & _ & _).
    apply IH; [intros; apply Hin; by apply list_elem_of_further|done|intros; apply HR; by apply list_elem_of_further
      |by rewrite replace_names| |].
    - assert (action_node a ∈ nodes) as Han by (apply Hin, list_elem_of_here).
      specialize (HR a (list_elem_of_here _ _)). set (n' := (run_action envs groups a).1) in *.
      apply Forall2_same_length_lookup. split; [unfold replace_node; rewrite length_map; by eapply Forall2_length|].
      intros i x y Hx Hy. unfold replace_node in Hy. rewrite list_lookup_fmap in Hy.
      destruct (cur !! i) as [z|] eqn:Ez; [|done]. injection Hy as <-. case_decide as E.
      + assert (x = action_node a) as ->; [|done].
        assert (node_Name z = node_Name x) as Hzx.
        { assert (names cur !! i = Some (node_Name z)) as H1 by (rewrite list_lookup_fmap, Ez; done).
          rewrite Hcur, list_lookup_fmap, Hx in H1. by injection H1. }
        apply list_elem_of_lookup in Han as [j Hj].
        assert (i = j) as ->; [|congruence].
        eapply NoDup_lookup; [exact Hnd|rewrite list_lookup_fmap, Hx; reflexivity|].
        rewrite list_lookup_fmap, Hj. simpl. congruence.
      + rewrite Forall2_same_length_lookup in Hf. destruct Hf as [_ Hf]. by eapply Hf.
    - intros a' Ha'. apply replace_other; [apply Hc; by apply list_elem_of_further|].
      rewrite Hname. intros E. apply Ha. rewrite <- E. by apply list_elem_of_fmap_2, list_elem_of_fmap_2. }
  apply H; [done|apply Forall_Forall2_diag, Forall_true; done|done].
Qed.

Lemma executed_in_progress g actions nodes b q :
  NoDup (names nodes) -> (forall a, a ∈ actions -> action_node a ∈ nodes) ->
  NoDup (names (map action_node actions)) ->
  (forall a, a ∈ actions -> is_initiate a = false -> in_progress (action_node a) = true) ->
  (countb (fun n => in_group g n && in_progress n) (executed actions (nodes, b, q)) <=
   countb (fun n => in_group g n && in_progress n) nodes +
   countb (fun a => is_initiate a && in_group g (action_node a)) actions)%nat.
Proof.
  revert nodes b q; induction actions as [|a rest IH]; intros nodes b q Hnd Hin Ha Hc; [unfold executed; simpl; lia|].
  destruct (executed_cons a rest nodes b q) as (b' & q' & ->). simpl in Ha. apply NoDup_cons in Ha as [Ha Hrest].
  destruct (run_action_identity envs groups a) as (Hname & Hgroup & _). set (n' := (run_action envs groups a).1) in *.
  etransitivity; [apply IH|].
  - by rewrite replace_names.
  - intros a' Ha'. apply replace_other; [apply Hin; by apply list_elem_of_further|].
    rewrite Hname. intros E. apply Ha. rewrite <- E. by apply list_elem_of_fmap_2, list_elem_of_fmap_2.
  - done.
  - intros; apply Hc; [by apply list_elem_of_further|done].
  - pose proof (replace_count (fun n => in_group g n && in_progress n) (action_node a) n' nodes Hnd
      (Hin a (list_elem_of_here _ _)) Hname) as Hr.
    rewrite countb_cons. specialize (Hc a (list_elem_of_here _ _)).
    assert (in_group g n' = in_group g (action_node a)) as Eg by (unfold in_group; by rewrite Hgroup).
    simpl in Hr. rewrite Eg in Hr.
    destruct (is_initiate a), (in_group g (action_node a)), (in_progress n'), (in_progress (action_node a));
      simpl in *; try lia; by discriminate Hc.
Qed.

(** When every handler that runs brings its node nearer to the end, the rollout as a
    whole gets nearer. *)
Lemma executed_measure (f : NodeState -> nat) actions nodes b q :
  NoDup (names nodes) -> (forall a, a ∈ actions -> action_node a ∈ nodes) ->
  NoDup (names (map action_node actions)) ->
  (forall a, a ∈ actions -> (f (run_action envs groups a).1 < f (action_node a))%nat) ->
  (sum_list_with f (executed actions (nodes, b, q)) + length actions <= sum_list_with f nodes)%nat.
Proof.
  revert nodes b q; induction actions as [|a rest IH]; intros nodes b q Hnd Hin Ha Hf; [unfold executed; simpl; lia|].
  destruct (executed_cons a rest nodes b q) as (b' & q' & ->). simpl in Ha. apply NoDup_cons in Ha as [Ha Hrest].
  destruct (run_action_identity envs groups a) as (Hname & _). set (n' := (run_action envs groups a).1) in *.
  assert (sum_list_with f (executed rest (replace_node n' nodes, b', q')) + length rest <=
    sum_list_with f (replace_node n' nodes))%nat.
  { apply IH; [by rewrite replace_names| |done|intros; apply Hf; by apply list_elem_of_further].
    intros a' Ha'. apply replace_other; [apply Hin; by apply list_elem_of_further|].
    rewrite Hname. intros E. apply Ha. rewrite <- E. by apply list_elem_of_fmap_2, list_elem_of_fmap_2. }
  pose proof (replace_sum f (action_node a) n' nodes Hnd (Hin a (list_elem_of_here _ _)) Hname).
  specialize (Hf a (list_elem_of_here _ _)). fold n' in Hf. simpl. lia.
Qed.
End execution.
