(* ===== verification/NodeRollout.v ===== *)
(** * The rollout of hardware updates, over all reconciles

    Reconciles alternate with edits of the node groups, with the clean-up after a
    configuration timeout, with hosts that come up again after a reboot (metal3
    removes the reboot annotation), and with nodes that are allocated and released.
    What the hosts and the cluster answer, the MachineConfigPools among it, and which
    calls fail, changes from one reconcile to the next. *)
From S2P Require Import Prelude Conditions NodeAllocationRequest NodeAllocationController NodeUpdateHandlers.
From S2P Require Import NodeUpdates.
#[local] Open Scope Z_scope.

(** [clearConfigAnnotationForAllocatedNodes]: a node that fails is left alone. *)
Definition clearConfigAnnotationForAllocatedNodes (envs : string -> Env) (nodes : list NodeState) : list NodeState :=
  map (fun n => (clearConfigAnnotationWithPatch (envs (node_Name n)) n).1) nodes.

(** [clearBMHUpdateAnnotationsForNAR]: every node is tried; an error of one is an
    error. *)
Definition clear_host (envs : string -> Env) (n : NodeState) : NodeState * (failure + unit) :=
  (_ ← getBMHForNode (envs (node_Name n)); clearBMHUpdateAnnotations (envs (node_Name n))) n.

Definition clearBMHUpdateAnnotationsForNAR (envs : string -> Env) (nodes : list NodeState) : list NodeState * bool :=
  (map (fun n => (clear_host envs n).1) nodes,
   forallb (fun n => match (clear_host envs n).2 with inl _ => false | inr _ => true end) nodes).

Section reconcile.
Context (GetScaled : intOrString -> Z -> bool -> option Z) (mcps : string -> mcpResult).

Abbreviation configure := (handleNodeAllocationRequestConfiguring GetScaled).

(** ** What each part of a reconcile does to a node *)

Definition not_started (n n' : NodeState) : Prop :=
  node_Name n' = node_Name n /\ GroupName n' = GroupName n /\
  (in_progress n' = true -> in_progress n = true) /\
  (reboot_safe n -> reboot_safe n') /\
  reboot_requested n' = reboot_requested n /\ spoke n' = spoke n.

#[export] Instance not_started_preorder : PreOrder not_started.
Proof.
  unfold not_started. split; [by intros n; split_and!|].
  intros a b c (?&?&?&?&?&?) (?&?&?&?&?&?). split_and!; try congruence; auto.
Qed.

Lemma not_started_calm n n' :
  node_Name n' = node_Name n -> GroupName n' = GroupName n -> config_annotation n' = config_annotation n ->
  bios_needed n' = bios_needed n -> firmware_needed n' = firmware_needed n ->
  update_abandoned n' = update_abandoned n -> reboot_requested n' = reboot_requested n -> spoke n' = spoke n ->
  (update_requested n' = true -> update_requested n = true) -> not_started n n'.
Proof.
  intros ? ? Hc Hb Hf Ha ? Hs Hr. unfold not_started, in_progress, reboot_safe, awaiting_reboot.
  rewrite Hc, Hb, Hf, Ha, Hs. split_and!; try done; [intros [? ->]%andb_true_iff|naive_solver].
  by rewrite Hr.
Qed.

Lemma mark_node_not_started env p n : not_started n (mark_node env p n).1.
Proof.
  unfold mark_node. case_decide; [done|]. case_match; [done|].
  revert n H H0. intros n _ _. revert n. change (preserves not_started (SetNodeConfigUpdatePending env p NodeUpdatePending)).
  unfold SetNodeConfigUpdatePending, set_node_config, SetNodeHwProfile, SetNodeConditionStatus. cbv zeta.
  walk; apply preserves_write; intros m; apply not_started_calm; try done;
    unfold update_requested; simpl; by rewrite requested_after.
Qed.

Lemma mark_group_not_started envs g nodes : Forall2 not_started nodes (mark_group envs g nodes).1.
Proof.
  assert (forall l, Forall2 not_started l l) as Hrefl by (intros; apply Forall_Forall2_diag, Forall_true; reflexivity).
  induction nodes as [|n rest IH]; simpl; [constructor|].
  destruct (mark_group envs g rest) as [rest' b] eqn:E; simpl in IH. case_decide.
  - pose proof (mark_node_not_started (envs (node_Name n)) (grp_HwProfile g) n) as Hn.
    destruct (mark_node _ _ n) as [n' [e|[]]]; simpl in *; constructor; auto.
  - simpl. constructor; [reflexivity|done].
Qed.

Lemma mark_not_started envs groups nodes : Forall2 not_started nodes (markPendingNodesForUpdate envs groups nodes).1.
Proof.
  revert nodes; induction groups as [|g groups IH]; intros nodes; simpl.
  { apply Forall_Forall2_diag, Forall_true. reflexivity. }
  pose proof (mark_group_not_started envs g nodes) as Hg. destruct (mark_group envs g nodes) as [nodes' []]; [|done].
  simpl in Hg. by etransitivity; [exact Hg|apply IH].
Qed.

Lemma populate_not_started hostMap patch_ok nodes : Forall2 not_started nodes (populateNodeHostnames hostMap patch_ok nodes).1.
Proof.
  assert (forall l, Forall2 not_started l l) as Hrefl by (intros; apply Forall_Forall2_diag, Forall_true; reflexivity).
  unfold populateNodeHostnames. case_match; [done|]. destruct hostMap as [m|]; [|done]. clear.
  induction nodes as [|n rest IH]; simpl; [constructor|].
  destruct (populate_from m patch_ok rest) as [rest' b]; simpl in IH. case_decide; [|simpl; constructor; [reflexivity|done]].
  case_match; simpl; constructor; try done.
Qed.

Lemma not_started_names l k : Forall2 not_started l k -> names k = names l.
Proof. induction 1 as [|n n' l k (Hn & _) _ IH]; simpl; [done|]. by rewrite Hn, IH. Qed.

Lemma not_started_count g l k : Forall2 not_started l k ->
  (countb (fun n => in_group g n && in_progress n) k <= countb (fun n => in_group g n && in_progress n) l)%nat.
Proof.
  intros H. apply countb_mono. eapply Forall2_impl; [exact H|]. intros n n' (_ & Hg & Hp & _).
  unfold in_group. rewrite Hg. intros [-> Hi]%andb_true_iff. simpl. auto.
Qed.

(** Membership of the groups does not change. *)
Definition same_group (n n' : NodeState) : Prop := node_Name n' = node_Name n /\ GroupName n' = GroupName n.

#[export] Instance same_group_preorder : PreOrder same_group.
Proof. unfold same_group. split; [done|]. intros a b c [??] [??]. split; congruence. Qed.

Lemma same_group_limit l k g : Forall2 same_group l k ->
  group_limit GetScaled mcps k g = group_limit GetScaled mcps l g.
Proof.
  intros H. unfold group_limit. do 2 f_equal. unfold filterNodesByGroup.
  induction H as [|n n' l k [_ Hg] _ IH]; [done|]. rewrite !filter_cons, Hg. by case_decide; simpl; rewrite ?IH.
Qed.

Lemma not_started_same_group l k : Forall2 not_started l k -> Forall2 same_group l k.
Proof. intros H. eapply Forall2_impl; [exact H|]. by intros n n' (? & ? & _). Qed.

(** ** One reconcile *)

Lemma sorted_Permutation groups : getGroupsSortedByRole groups ≡ₚ groups.
Proof.
  rewrite sorted_groups. induction groups as [|g groups IH]; [done|]. rewrite !filter_cons.
  destruct (is_master g); simpl; rewrite <- ?Permutation_middle; by constructor.
Qed.

(** A reconcile only marks nodes, or marks them and runs the selected actions. *)
Lemma configure_cases envs hostMap patch_ok groups nodes :
  NoDup (map grp_Name groups) -> NoDup (names nodes) ->
  exists marked, Forall2 not_started nodes marked /\
    ((configure envs mcps hostMap patch_ok groups nodes).1.1 = marked \/
     exists actions envs', envs' = (fun name => with_skip_drain (bool_decide (length nodes = 1%nat)) (envs name)) /\
       selectNodesToProcess GetScaled envs' mcps groups marked = Some actions /\
       selected GetScaled mcps marked (getGroupsSortedByRole groups) actions /\
       (configure envs mcps hostMap patch_ok groups nodes).1.1 = executed envs' groups actions (marked, false, 0)).
Proof.
  intros Hg Hn. unfold handleNodeAllocationRequestConfiguring.
  pose proof (mark_not_started envs groups nodes) as H1.
  destruct (markPendingNodesForUpdate envs groups nodes) as [nodes1 []]; [|by exists nodes1; auto]. simpl in H1.
  pose proof (populate_not_started hostMap patch_ok nodes1) as H2.
  destruct (populateNodeHostnames hostMap patch_ok nodes1) as [nodes2 []]; simpl in H2;
    (assert (Forall2 not_started nodes nodes2) as H by (by etransitivity; [exact H1|exact H2])); [|by exists nodes2; auto].
  assert (length nodes2 = length nodes) as Hlen by (symmetry; by eapply Forall2_length).
  rewrite Hlen. set (envs' := fun name => with_skip_drain (bool_decide (length nodes = 1%nat)) (envs name)).
  exists nodes2. split; [done|].
  destruct (selectNodesToProcess GetScaled envs' mcps groups nodes2) as [actions|] eqn:Es; [|by left].
  right. exists actions, envs'. split_and!; try done.
  - eapply select_groups_selected; [| |exact Es].
    + eapply (NoDup_fmap_1 node_Name). change (NoDup (names nodes2)). by rewrite (not_started_names _ _ H).
    + rewrite sorted_Permutation. done.
  - unfold executed. destruct (executeNodeUpdates envs' groups actions (nodes2, false, 0)) as [[? []] ?]; done.
Qed.

(** What [selected] gives to the execution of the actions. *)
Lemma selected_actions gs marked actions : NoDup (names marked) -> selected GetScaled mcps marked gs actions ->
  (forall a, a ∈ actions -> action_node a ∈ marked) /\ NoDup (names (map action_node actions)).
Proof.
  intros Hn [Hs _ _ _ _]. split.
  - intros a Ha. eapply elem_of_submseteq; [|exact Hs]. by apply list_elem_of_fmap_2.
  - eapply submseteq_NoDup; [|exact Hn]. by apply fmap_submseteq.
Qed.

Lemma same_group_names l k : Forall2 same_group l k -> names k = names l.
Proof. induction 1 as [|n n' l k (Hn & _) _ IH]; simpl; [done|]. by rewrite Hn, IH. Qed.

Lemma executed_same_group envs groups actions marked b q :
  NoDup (names marked) -> (forall a, a ∈ actions -> action_node a ∈ marked) ->
  NoDup (names (map action_node actions)) -> Forall2 same_group marked (executed envs groups actions (marked, b, q)).
Proof.
  intros Hn Hin Ha. apply executed_related; try done.
  intros a _. destruct (run_action_identity envs groups a) as (? & ? & _). done.
Qed.

(** ** The rolling ceiling *)

Abbreviation updating g nodes := (countb (fun n => in_group g n && in_progress n) nodes).

(** No update of a node of the group is started. *)
Definition none_started (g : string) (n n' : NodeState) : Prop :=
  same_group n n' /\ (GroupName n = g -> in_progress n' = true -> in_progress n = true).

#[export] Instance none_started_preorder g : PreOrder (none_started g).
Proof.
  unfold none_started. split; [done|]. intros a b c [Hab Ha] [Hbc Hb].
  split; [by etransitivity|]. destruct Hab as [_ E]. rewrite E in Hb. auto.
Qed.

Lemma none_started_count g l k : Forall2 (none_started g) l k -> (updating g k <= updating g l)%nat.
Proof.
  intros H. apply countb_mono. eapply Forall2_impl; [exact H|]. intros n n' [[_ Hg] Hp].
  unfold in_group in *. rewrite Hg. intros [E Hi]%andb_true_iff.
  apply bool_decide_eq_true in E as ?. rewrite E. simpl. auto.
Qed.

(** When a reconcile starts an update in a group, what is then in progress in the
    group is within the limit of the group. *)
Lemma configure_ceiling envs hostMap patch_ok groups nodes g :
  NoDup (map grp_Name groups) -> NoDup (names nodes) ->
  let nodes' := (configure envs mcps hostMap patch_ok groups nodes).1.1 in
  Forall2 same_group nodes nodes' /\
  ((exists m, group_limit GetScaled mcps nodes g = Some m /\ Z.of_nat (updating g nodes') <= m) \/
   Forall2 (none_started g) nodes nodes').
Proof.
  intros Hg Hn. simpl.
  destruct (configure_cases envs hostMap patch_ok groups nodes Hg Hn) as (marked & Hm & Hcase).
  assert (NoDup (names marked)) as Hnm by (by rewrite (not_started_names _ _ Hm)).
  assert (Forall2 (none_started g) nodes marked) as Hnone.
  { eapply Forall2_impl; [exact Hm|]. intros n n' (? & ? & Hp & _). split; [done|auto]. }
  pose proof (not_started_same_group _ _ Hm) as Hsame.
  destruct Hcase as [->|(actions & envs' & _ & _ & Hsel & ->)]; [by split; [|right]|].
  destruct (selected_actions _ _ _ Hnm Hsel) as [Hin Hna].
  split; [etransitivity; [exact Hsame|by apply executed_same_group]|].
  destruct Hsel as [_ _ Hc _ Hlim Hknown].
  set (started := fun a => is_initiate a && in_group g (action_node a)) in *.
  destruct (decide (countb started actions = 0%nat)) as [H0|Hne]; [right|left].
  - etransitivity; [exact Hnone|]. apply executed_related; try done.
    intros a Ha. destruct (run_action_identity envs' groups a) as (? & ? & _). split; [done|].
    intros Hga _. apply (Hc a Ha). apply (countb_zero _ _ H0) in Ha. unfold started, in_group in Ha.
    rewrite (bool_decide_eq_true_2 _ Hga), andb_true_r in Ha. done.
  - destruct (countb_nonzero _ _ Hne) as (a & Ha & [Hi Hga]%andb_true_iff).
    apply bool_decide_eq_true in Hga. destruct (Hknown a Ha) as [m Hm']. rewrite Hga in Hm'.
    exists m. rewrite (same_group_limit _ _ g Hsame) in Hm'. split; [done|].
    pose proof (executed_in_progress envs' groups g actions marked false 0 Hnm Hin Hna
      (fun a Ha Hi => proj1 (Hc a Ha Hi))).
    rewrite <- (same_group_limit _ _ g Hsame) in Hm'. specialize (Hlim g m Hm'). fold started in H, Hlim. lia.
Qed.

Lemma timeout_not_started envs nodes :
  Forall2 (fun n n' => same_group n n' /\ (in_progress n' = true -> in_progress n = true)) nodes
    (clearBMHUpdateAnnotationsForNAR envs (clearConfigAnnotationForAllocatedNodes envs nodes)).1.
Proof.
  simpl. unfold clearConfigAnnotationForAllocatedNodes. rewrite map_map.
  induction nodes as [|n nodes IH]; simpl; constructor; [|exact IH]. clear.
  set (n1 := (clearConfigAnnotationWithPatch _ n).1).
  assert (same_group n n1 /\ (in_progress n1 = true -> in_progress n = true)) as [H1 H2].
  { subst n1. unfold clearConfigAnnotationWithPatch, write. by destruct (call_ok _ _). }
  assert (same_group n1 (clear_host envs n1).1 /\ (in_progress (clear_host envs n1).1 = true -> in_progress n1 = true)) as [H3 H4].
  { clear. unfold clear_host, getBMHForNode, clearBMHUpdateAnnotations, get_state, try, write, mbind, prog_bind, mret,
      prog_ret, raise.
    destruct (bmh_status _); [|done]. destruct (bios_needed n1), (firmware_needed n1); simpl;
      repeat case_match; simplify_eq/=; done. }
  destruct H1, H3. split; [split; congruence|auto].
Qed.

End reconcile.

Abbreviation updating g nodes := (countb (fun n => in_group g n && in_progress n) nodes).

(** ** Sequences of reconciles *)

Section rollout.
Context (GetScaled : intOrString -> Z -> bool -> option Z).

(** [up] restricts what may be answered, [ok] the MachineConfigPools and the nodes
    of a reconcile. *)
Context (up : (string -> Env) -> Prop) (ok : (string -> mcpResult) -> list NodeState -> Prop).

Abbreviation state := (list NodeGroup * list NodeState)%type.
Abbreviation configure := (handleNodeAllocationRequestConfiguring GetScaled).

(** A node on which no update was started and no changes are pending. *)
Definition fresh (n : NodeState) : Prop :=
  in_progress n = false /\ update_abandoned n = false /\ bios_needed n = false /\ firmware_needed n = false.

Inductive rollout_step : relation state :=
| step_reconcile envs mcps hostMap patch_ok groups nodes :
    up envs -> ok mcps nodes ->
    rollout_step (groups, nodes) (groups, (configure envs mcps hostMap patch_ok groups nodes).1.1)
| step_edit groups groups' nodes :
    NoDup (map grp_Name groups') -> rollout_step (groups, nodes) (groups', nodes)
| step_timeout envs groups nodes :
    up envs ->
    rollout_step (groups, nodes)
      (groups, (clearBMHUpdateAnnotationsForNAR envs (clearConfigAnnotationForAllocatedNodes envs nodes)).1)
| step_rebooted groups before n after :
    rollout_step (groups, before ++ n :: after)%list (groups, before ++ with_reboot false n :: after)%list
| step_allocated groups before n after :
    fresh n -> node_Name n ∉ names (before ++ after) ->
    rollout_step (groups, before ++ after)%list (groups, before ++ n :: after)%list
| step_released groups before n after :
    rollout_step (groups, before ++ n :: after)%list (groups, before ++ after)%list.

(** Before the first update: names are unique, nothing is in progress and no host
    has changes. *)
Definition rollout_init (st : state) : Prop :=
  NoDup (map grp_Name st.1) /\ NoDup (names st.2) /\ forall n, n ∈ st.2 -> fresh n.

(** An invariant of single nodes, that a reconcile and a timeout keep. *)
Lemma rollout_nodes (P : NodeState -> Prop) st :
  (forall n, fresh n -> P n) -> (forall n, P n -> P (with_reboot false n)) ->
  (forall envs mcps hostMap patch_ok groups nodes,
     up envs -> ok mcps nodes -> NoDup (map grp_Name groups) -> NoDup (names nodes) ->
     (forall n, n ∈ nodes -> P n) ->
     forall n, n ∈ (configure envs mcps hostMap patch_ok groups nodes).1.1 -> P n) ->
  (forall envs nodes, up envs -> (forall n, n ∈ nodes -> P n) ->
     forall n, n ∈ (clearBMHUpdateAnnotationsForNAR envs (clearConfigAnnotationForAllocatedNodes envs nodes)).1 -> P n) ->
  reachable rollout_init rollout_step st ->
  NoDup (map grp_Name st.1) /\ NoDup (names st.2) /\ forall n, n ∈ st.2 -> P n.
Proof.
  intros Hfresh Hreboot Hconf Htime.
  apply (reachable_invariant _ _ (fun st => NoDup (map grp_Name st.1) /\ NoDup (names st.2) /\ forall n, n ∈ st.2 -> P n)).
  - intros [groups nodes] (Hg & Hn & Hi). simpl in *. split_and!; auto.
  - intros s s' (Hg & Hn & HP) Hstep.
    destruct Hstep as [envs mcps hostMap patch_ok groups nodes Hup Hok|groups groups' nodes E|envs groups nodes Hup
      |groups before n after|groups before n after Hf Hnew|groups before n after]; simpl in *.
    + split_and!; [done| |by eapply Hconf].
      destruct (configure_ceiling GetScaled mcps envs hostMap patch_ok groups nodes EmptyString Hg Hn) as [H _].
      simpl in H. by rewrite (same_group_names _ _ H).
    + done.
    + split_and!; [done| |by eapply Htime].
      rewrite (same_group_names nodes); [done|]. eapply Forall2_impl; [apply timeout_not_started|]. by intros ? ? [? _].
    + split_and!; [done|by rewrite map_app in *|]. intros n'. rewrite elem_of_app, elem_of_cons.
      intros [?|[->|?]]; [|apply Hreboot|]; apply HP; set_solver.
    + split_and!; [done| |].
      * eapply NoDup_Permutation_proper; [apply fmap_Permutation; symmetry; apply Permutation_middle|]. by constructor.
      * intros n'. rewrite elem_of_app, elem_of_cons. intros [?|[->|?]]; [apply HP; set_solver|auto|apply HP; set_solver].
    + split_and!; [done| |intros; apply HP; set_solver].
      eapply NoDup_Permutation_proper in Hn; [|apply fmap_Permutation, Permutation_middle]. by apply NoDup_cons in Hn as [_ ?].
Qed.

Lemma rollout_unique st : reachable rollout_init rollout_step st -> NoDup (map grp_Name st.1) /\ NoDup (names st.2).
Proof. intros H. apply (rollout_nodes (fun _ => True)) in H as (? & ? & _); done. Qed.
End rollout.

(** ** The theorems *)

(** The pools of the managed cluster never let more than [limit] nodes of the group
    be unavailable. *)
Definition limited (GetScaled : intOrString -> Z -> bool -> option Z) (g : string) (limit : Z)
    (mcps : string -> mcpResult) (nodes : list NodeState) : Prop :=
  forall m, group_limit GetScaled mcps nodes g = Some m -> m <= limit.

Lemma updating_app g l k : updating g (l ++ k) = (updating g l + updating g k)%nat.
Proof. apply countb_app. Qed.

Lemma reachable_limited GetScaled g limit st :
  0 <= limit -> reachable rollout_init (rollout_step GetScaled (fun _ => True) (limited GetScaled g limit)) st ->
  Z.of_nat (updating g st.2) <= limit.
Proof.
  intros H0 [s0 [Hi Hs]]. assert (forall s, rtc (rollout_step GetScaled (fun _ => True) (limited GetScaled g limit)) s0 s ->
    NoDup (map grp_Name s.1) /\ NoDup (names s.2)) as Hu.
  { intros s Hs'. eapply rollout_unique. by exists s0. }
  revert st Hs. apply rtc_ind_r; [|intros s s' Hs Hstep IH].
  { destruct Hi as (_ & _ & Hf). rewrite countb_none; [done|]. intros n Hn. destruct (Hf n Hn) as [-> _]. apply andb_false_r. }
  destruct (Hu s Hs) as [Hg Hn].
  destruct Hstep as [envs mcps hostMap patch_ok groups nodes _ Hok|?|envs groups nodes _|groups before n after
    |groups before n after Hf _|groups before n after]; simpl in *; try done.
  - destruct (configure_ceiling GetScaled mcps envs hostMap patch_ok groups nodes g Hg Hn) as [_ [(m & Hm & ?)|H]]; simpl in *.
    + specialize (Hok m Hm). lia.
    + apply none_started_count in H. lia.
  - etransitivity; [|exact IH]. apply inj_le, (none_started_count g).
    eapply Forall2_impl; [apply timeout_not_started|]. intros n n' [? ?]. by split; [|auto].
  - by rewrite !updating_app, !countb_cons in *.
  - rewrite !updating_app, !countb_cons in *. destruct Hf as [-> _]. by rewrite andb_false_r.
  - rewrite !updating_app, !countb_cons in *. lia.
Qed.

(** C30: the rolling ceiling.  Whatever the hosts, the managed cluster and the failing
    calls do, however the user edits the groups in the middle of an update, and
    whichever nodes come and go: when a reconcile starts the update of any node of a
    group, the nodes of the group with an update in progress afterwards are at most
    the [maxUnavailable] that the group's MachineConfigPool says then (one when the
    pool is missing, does not say, or says less); so, as long as the pool never lets
    more than [limit] nodes be unavailable, there are never more than [limit]. *)
Theorem rollout_ceiling (GetScaled : intOrString -> Z -> bool -> option Z) (groups : list NodeGroup)
    (nodes : list NodeState) (g : string) :
  reachable rollout_init (rollout_step GetScaled (fun _ => True) (fun _ _ => True)) (groups, nodes) ->
  (forall envs mcps hostMap patch_ok,
     let nodes' := (handleNodeAllocationRequestConfiguring GetScaled envs mcps hostMap patch_ok groups nodes).1.1 in
     (exists i n n', nodes !! i = Some n /\ nodes' !! i = Some n' /\ GroupName n = g /\
        in_progress n = false /\ in_progress n' = true) ->
     exists m, GetMaxUnavailable GetScaled (mcps g) (Z.of_nat (length (filterNodesByGroup nodes g))) = Some m /\
       Z.of_nat (length (filter (fun n => in_progress n) (filterNodesByGroup nodes' g))) <= m) /\
  (forall limit, 0 <= limit ->
     reachable rollout_init (rollout_step GetScaled (fun _ => True) (limited GetScaled g limit)) (groups, nodes) ->
     Z.of_nat (length (filter (fun n => in_progress n) (filterNodesByGroup nodes g))) <= limit).
Proof.
  intros [Hg Hn]%rollout_unique.
  assert (forall l, length (filter (fun n => in_progress n) (filterNodesByGroup l g)) = updating g l) as E
    by (intros; by rewrite <- countb_group).
  split.
  - intros envs mcps hostMap patch_ok nodes' (i & n & n' & Hi & Hi' & Hgn & Hp & Hp'). rewrite E.
    destruct (configure_ceiling GetScaled mcps envs hostMap patch_ok groups nodes g Hg Hn) as [_ [H|H]]; [exact H|].
    rewrite Forall2_same_length_lookup in H. destruct H as [_ H].
    destruct (H i n n' Hi Hi') as [_ Hno]. rewrite Hno in Hp; done.
  - intros limit H0 Hr. rewrite E. by apply (reachable_limited _ _ _ _ H0 Hr).
Qed.

(** The control plane is updated first.  When a reconcile selects any node of a
    worker group, for a new update or to go on with one, every node of every
    control-plane group is done: it has the profile of its group and its
    configuration was applied, or it never needed one. *)
Theorem control_plane_first (GetScaled : intOrString -> Z -> bool -> option Z) (mcps : string -> mcpResult)
    (envs : string -> Env) (groups : list NodeGroup) (nodes : list NodeState) (actions : list nodeAction)
    (a : nodeAction) (worker master : NodeGroup) :
  NoDup (map grp_Name groups) ->
  selectNodesToProcess GetScaled envs mcps groups nodes = Some actions ->
  a ∈ actions -> worker ∈ groups -> is_master worker = false -> GroupName (action_node a) = grp_Name worker ->
  master ∈ groups -> is_master master = true -> group_done nodes master.
Proof.
  intros Hg Hs Ha Hw Hwm Hname Hm Hmm. unfold selectNodesToProcess in Hs. rewrite sorted_groups in Hs.
  apply masters_block in Hs as [Hl|Hr].
  - destruct (Hl a Ha) as (g & [Hgm Hgin]%list_elem_of_filter & Hgn). exfalso.
    assert (g = worker) as ->; [|by rewrite Hwm in Hgm].
    apply list_elem_of_lookup in Hgin as [i Hi], Hw as [j Hj].
    assert (i = j) as ->; [|congruence].
    eapply NoDup_lookup; [exact Hg|rewrite list_lookup_fmap, Hi; reflexivity|].
    rewrite list_lookup_fmap, Hj. simpl. congruence.
  - apply Hr, list_elem_of_filter. by rewrite Hmm.
  - intros g [Hgm _]%list_elem_of_filter. by apply Is_true_true.
Qed.

(** ** Reboots *)



Section reboots.
Context (GetScaled : intOrString -> Z -> bool -> option Z).






End reboots.


(** ** A rollout that meets no obstacle *)


Section completes.
Context (p : string) (Hp : p <> EmptyString).














End completes.

(** *** The stages of the update of a node *)

Inductive stage : Type := StageWaiting | StageRequested | StageRebooting | StageConfiguring | StageFinished.
#[export] Instance stage_eq_dec : EqDecision stage.
Proof. solve_decision. Defined.

Definition stage_of (p : string) (n : NodeState) : stage :=
  if is_done p n then StageFinished
  else if in_progress n then
    if decide (config_annotation n = EmptyString)
    then if reboot_requested n then StageRebooting else StageRequested
    else StageConfiguring
  else StageWaiting.

(** How many reconciles the node is away from its end, at most. *)
Definition remaining (p : string) (n : NodeState) : nat :=
  match stage_of p n with
  | StageWaiting => 4 | StageRequested => 3 | StageRebooting => 2 | StageConfiguring => 1 | StageFinished => 0
  end.

Definition on_track (p : string) (n : NodeState) : Prop :=
  p <> EmptyString /\ node_Hostname n <> EmptyString /\
  match stage_of p n with
  | StageWaiting => config_annotation n = EmptyString /\ is_failed n = false
  | StageRequested | StageRebooting =>
      spec_HwProfile n = p /\ spoke n = Drained /\ bios_needed n || firmware_needed n = true
  | StageConfiguring => spec_HwProfile n = p
  | StageFinished => config_annotation n = EmptyString /\ status_HwProfile n = p /\ spoke n = Schedulable
  end.








(** *** Whole reconciles *)

Section smooth.
Context (GetScaled : intOrString -> Z -> bool -> option Z) (groups : list NodeGroup).
Context (Hgroups : NoDup (map grp_Name groups)).

Abbreviation target := (getNewHwProfileForNode groups).













Definition total (nodes : list NodeState) : nat := sum_list_with (fun n => remaining (target n) n) nodes.

(** Still on track, with the same identity. *)
Definition tracked (n n' : NodeState) : Prop := same_identity n n' /\ target n' = target n /\ on_track (target n) n'.




Lemma total_tracked l k :
  Forall2 tracked l k -> total k = sum_list_with id (zip_with (fun n n' => remaining (target n) n') l k).
Proof.
  unfold total. induction 1 as [|n n' l k (_ & E & _) _ IH]; simpl; [done|]. by rewrite E, IH.
Qed.














End smooth.



(** ** Concrete rollouts *)

(** Every call goes through; the host is in state [st], the cluster is fine. *)
Definition good_env (st : operationalStatus) : Env :=
  mkEnv 1000 (fun _ => true) (Some (st, StateOther)) (fun _ => inr (true, false)) (Some true) (Some true)
    (Some true) (Some true) EmptyString false false.

Definition example_node (name group profile : string) : NodeState :=
  mkNodeState name group profile profile name [] EmptyString false false false false None Schedulable.

Definition example_groups (profile : string) : list NodeGroup :=
  [mkNodeGroup "worker" "worker" profile 2; mkNodeGroup "master" "master" profile 1].

Definition example_nodes : list NodeState :=
  [example_node "w1" "worker" "v1"; example_node "w2" "worker" "v1"; example_node "m1" "master" "v1"].

Definition example_mcps (_ : string) : mcpResult := McpFound (Some (IntVal 1)).
Definition example_scaled (v : intOrString) (_ : Z) (_ : bool) : option Z :=
  match v with IntVal i => Some i | StrVal _ => None end.

Definition example_configure_to (profile : string) (st : operationalStatus) (nodes : list NodeState) : list NodeState :=
  (handleNodeAllocationRequestConfiguring example_scaled (fun _ => good_env st) example_mcps None
     (fun _ => true) (example_groups profile) nodes).1.1.
Abbreviation example_configure := (example_configure_to "v2").

(** The states of the rollout of [v2]: masters, then the first worker. *)
Definition example_rollout : list NodeState :=
  example_configure OperationalServicing (example_configure OperationalOK
    (example_configure OperationalOK (example_configure OperationalServicing
      (example_configure OperationalOK example_nodes)))).

Lemma example_init groups : map grp_Name groups = ["worker"; "master"] ->
  rollout_init (groups, example_nodes).
Proof.
  intros Hg. split_and!.
  - simpl. rewrite Hg. by apply (bool_decide_unpack _).
  - by apply (bool_decide_unpack _).
  - intros n Hn. simpl in Hn. repeat (apply elem_of_cons in Hn as [-> |Hn]; [done|]). by apply elem_of_nil in Hn.
Qed.


Lemma example_step (up : (string -> Env) -> Prop) (ok : (string -> mcpResult) -> list NodeState -> Prop) profile st nodes :
  up (fun _ => good_env st) -> ok example_mcps nodes ->
  rollout_step example_scaled up ok (example_groups profile, nodes)
    (example_groups profile, example_configure_to profile st nodes).
Proof. apply step_reconcile. Qed.

Lemma example_reachable (ok : (string -> mcpResult) -> list NodeState -> Prop) :
  (forall nodes, ok example_mcps nodes) ->
  reachable rollout_init (rollout_step example_scaled (fun _ => True) ok) (example_groups "v2", example_rollout).
Proof.
  intros Hok. unfold example_rollout.
  repeat (eapply reachable_step; [|by apply example_step]). apply reachable_init. by apply example_init.
Qed.

(** One worker is being updated: the bound holds, and the next reconcile, which meets
    a pool that lets two nodes be unavailable, starts the other one. *)
Definition example_pools (_ : string) : mcpResult := McpFound (Some (IntVal 2)).

Definition example_next : list NodeState :=
  (handleNodeAllocationRequestConfiguring example_scaled (fun _ => good_env OperationalOK) example_pools None
     (fun _ => true) (example_groups "v2") example_rollout).1.1.

Lemma rollout_ceiling_witness :
  (exists m, GetMaxUnavailable example_scaled (example_pools "worker")
               (Z.of_nat (length (filterNodesByGroup example_rollout "worker"))) = Some m /\
     Z.of_nat (length (filter (fun n => in_progress n) (filterNodesByGroup example_next "worker"))) <= m) /\
  Z.of_nat (length (filter (fun n => in_progress n) (filterNodesByGroup example_rollout "worker"))) <= 1.
Proof.
  pose proof (rollout_ceiling example_scaled (example_groups "v2") example_rollout "worker") as H.
  destruct H as [Hstart Hbound]; [by apply example_reachable|]. split.
  - cbv zeta in Hstart; apply (Hstart (fun _ => good_env OperationalOK) example_pools None (fun _ => true)).
    eexists 1%nat, _, _. split; [vm_compute; reflexivity|]. split; [vm_compute; reflexivity|].
    split_and!; vm_compute; reflexivity.
  - apply (Hbound 1); [lia|]. apply example_reachable. intros nodes m. unfold group_limit, GetMaxUnavailable. simpl.
    destruct (_ =? 1); by intros [= <-].
Defined.

(** The control plane is done, the workers are pending. *)
Definition example_masters_done : list NodeState :=
  example_configure OperationalOK (example_configure OperationalServicing
    (example_configure OperationalOK example_nodes)).

Definition example_worker : NodeGroup := mkNodeGroup "worker" "worker" "v2" 2.
Definition example_master : NodeGroup := mkNodeGroup "master" "master" "v2" 1.

Definition example_actions : list nodeAction :=
  default [] (selectNodesToProcess example_scaled (fun _ => good_env OperationalOK) example_mcps
    (example_groups "v2") example_masters_done).

Lemma control_plane_first_witness : group_done example_masters_done example_master.
Proof.
  assert (exists a rest, example_actions = a :: rest /\ GroupName (action_node a) = "worker"%string) as (a & rest & Ea & Eg).
  { eexists _, _. split; [vm_compute; reflexivity|]. reflexivity. }
  apply (control_plane_first example_scaled example_mcps (fun _ => good_env OperationalOK) (example_groups "v2")
    example_masters_done example_actions a example_worker example_master).
  - by apply (bool_decide_unpack _).
  - vm_compute. reflexivity.
  - rewrite Ea. apply list_elem_of_here.
  - apply list_elem_of_here.
  - reflexivity.
  - exact Eg.
  - apply list_elem_of_further, list_elem_of_here.
  - reflexivity.
Defined.








(** A cluster that cooperates: a host is being serviced while it is asked to reboot. *)
Definition example_cluster (nodes : list NodeState) (name : string) : Env :=
  good_env (if existsb (fun n => bool_decide (node_Name n = name) &&
                 bool_decide (stage_of (getNewHwProfileForNode (example_groups "v2") n) n = StageRebooting)) nodes
            then OperationalServicing else OperationalOK).

Definition example_reconcile (nodes : list NodeState) : list NodeState :=
  (handleNodeAllocationRequestConfiguring example_scaled (example_cluster nodes) example_mcps None
     (fun _ => true) (example_groups "v2") nodes).1.1.




(** The last reconcile of the twelve is needed. *)
Example example_not_done_before :
  forallb (fun n => is_done "v2" n) (Nat.iter 11 example_reconcile example_nodes) = false /\
  forallb (fun n => is_done "v2" n) (Nat.iter 12 example_reconcile example_nodes) = true.
Proof. vm_compute. done. Qed.

(** ** Where the rollout leaves a node behind *)

(** The drain of the node fails after the node was cordoned; then its hardware is
    found to match the profile: the node is done, and stays cordoned. *)
Lemma no_update_leaves_cordoned :
  let fails c := match c with DrainCall => false | _ => true end in
  let e1 := mkEnv 1000 fails (Some (OperationalOK, StateOther)) (fun _ => inr (true, false)) None None None (Some true)
              EmptyString false false in
  let e2 := mkEnv 2000 (fun _ => true) (Some (OperationalOK, StateOther)) (fun _ => inr (false, false)) None None None
              (Some true) EmptyString false false in
  let n1 := (initiateNodeUpdate e1 "v2" (example_node "w1" "worker" "v1")).1 in
  let '(n2, r2) := initiateNodeUpdate e2 "v2" n1 in
  spoke n1 = Cordoned /\ r2 = inr DoNotRequeue /\ is_done "v2" n2 = true /\ spoke n2 = Cordoned.
Proof. vm_compute. done. Qed.

(** A host whose error outlasts the retry window is uncordoned first; when the next
    write then fails, the node still waits for its reboot, and gets it while it runs
    pods. *)
Lemma failed_cleanup_reboots_schedulable :
  let fails c := match c with ClearConfig => false | _ => true end in
  let e1 := mkEnv 1000 fails (Some (OperationalError, StateOther)) (fun _ => inr (true, false)) (Some false) None None
              (Some true) EmptyString false false in
  let e2 := good_env OperationalOK in
  let n0 := with_stamp (Some (Some 0)) (initiateNodeUpdate e2 "v2" (example_node "w1" "worker" "v1")).1 in
  let '(n1, r1) := handleTransitionNode e1 true n0 in
  let '(n2, r2) := handleTransitionNode e2 true n1 in
  spoke n0 = Drained /\ r1 = inl other_error /\ in_progress n1 = true /\ spoke n1 = Schedulable /\
  reboot_requested n1 = false /\ reboot_requested n2 = true.
Proof. vm_compute. done. Qed.

(** Of two kinds of changes only the annotation of the first is removed. *)
Lemma second_change_left :
  let e st := mkEnv 1000 (fun _ => true) (Some (st, StateOther)) (fun _ => inr (true, true)) (Some true) (Some true)
                (Some true) (Some true) EmptyString false false in
  let n1 := (initiateNodeUpdate (e OperationalOK) "v2" (example_node "w1" "worker" "v1")).1 in
  let n2 := (handleTransitionNode (e OperationalServicing) true n1).1 in
  let n3 := (handleNodeInProgressUpdate (e OperationalOK) n2).1 in
  is_done "v2" n3 = true /\ bios_needed n3 = false /\ firmware_needed n3 = true.
Proof. vm_compute. done. Qed.
