(* ===== verification/NodeStatus.v ===== *)
(** * The status of a request from the status of its nodes
    (hardwaremanager/controller/helpers.go, nodeallocationrequest_controller.go)

    The [Configured] condition of a NodeAllocationRequest is derived from the nodes
    as they are read again from the API server; [fetch] is the answer for each name,
    an error with its text on the left. *)
From S2P Require Import Prelude Conditions NodeAllocationRequest NodeUpdateHandlers NodeUpdates.
From stdpp Require Import pretty.
#[local] Open Scope Z_scope.

Abbreviation ConfigUpToDate := "Configuration is up to date"%string.
Abbreviation ConfigInProgress := "Configuration update in progress"%string.
Abbreviation ConfigFailed := "Configuration update failed"%string.

Abbreviation derived_status := (ConditionStatus * string * string)%type.

Section derive.
Context (fetch : string -> string + NodeState) (groups : list NodeGroup).

Definition could_not_be_fetched (name err : string) : derived_status :=
  (ConditionFalse, InProgress, ("AllocatedNode " ++ name ++ " could not be fetched: " ++ err)%string).

(** ** One node *)

Definition deriveNARStatusFromSingleNode (node : NodeState) : derived_status :=
  match fetch (node_Name node) with
  | inl err => could_not_be_fetched (node_Name node) err
  | inr updated =>
      let in_progress_status : derived_status :=
        (ConditionFalse, InProgress, (ConfigInProgress ++ " (AllocatedNode " ++ node_Name node ++ ")")%string) in
      match FindStatusCondition (node_Conditions updated) Configured with
      | None =>
          if decide (spec_HwProfile updated = getNewHwProfileForNode groups updated)
          then (ConditionTrue, ConfigApplied, ConfigUpToDate) else in_progress_status
      | Some c =>
          if decide (cond_Status c = ConditionTrue /\ cond_Reason c = ConfigApplied)
          then (ConditionTrue, ConfigApplied, ConfigSuccess)
          else if decide (cond_Status c = ConditionFalse /\ (cond_Reason c = InvalidInput \/ cond_Reason c = Failed))
          then (ConditionFalse, Failed,
                (ConfigFailed ++ " (AllocatedNode " ++ node_Name node ++ ": " ++ cond_Message c ++ ")")%string)
          else in_progress_status
      end
  end.

(** ** Several nodes *)

Record groupCounts := mkCounts { completed : Z; failed : Z; total : Z }.

Definition zero_counts : groupCounts := mkCounts 0 0 0.

Inductive nodeOutcome : Type := NodeCompleted | NodeFailed | NodeUnfinished.
#[export] Instance nodeOutcome_eq_dec : EqDecision nodeOutcome.
Proof. solve_decision. Defined.

Definition node_outcome (updated : NodeState) : nodeOutcome :=
  match FindStatusCondition (node_Conditions updated) Configured with
  | None => if decide (spec_HwProfile updated = getNewHwProfileForNode groups updated) then NodeCompleted else NodeUnfinished
  | Some c =>
      if decide (cond_Status c = ConditionTrue /\ cond_Reason c = ConfigApplied) then NodeCompleted
      else if decide (cond_Status c = ConditionFalse /\ (cond_Reason c = InvalidInput \/ cond_Reason c = Failed)) then NodeFailed
      else NodeUnfinished
  end.

Definition missing_configured (updated : NodeState) : bool :=
  match FindStatusCondition (node_Conditions updated) Configured with None => true | Some _ => false end.

Definition count_outcome (o : nodeOutcome) (c : groupCounts) : groupCounts :=
  match o with
  | NodeCompleted => mkCounts (completed c + 1) (failed c) (total c + 1)
  | NodeFailed => mkCounts (completed c) (failed c + 1) (total c + 1)
  | NodeUnfinished => mkCounts (completed c) (failed c) (total c + 1)
  end.

(** [groupStats] and [allNodesMissingConfigured] after the loop, or the status it
    returns early. *)
Fixpoint count_nodes (groupStats : gmap string groupCounts) (allMissing : bool) (nodes : list NodeState)
    : derived_status + gmap string groupCounts * bool :=
  match nodes with
  | [] => inr (groupStats, allMissing)
  | node :: rest =>
      match fetch (node_Name node) with
      | inl err => inl (could_not_be_fetched (node_Name node) err)
      | inr updated =>
          let groupCount := default zero_counts (groupStats !! GroupName node) in
          count_nodes (<[GroupName node := count_outcome (node_outcome updated) groupCount]> groupStats)
            (allMissing && missing_configured updated) rest
      end
  end.

Fixpoint join (sep : string) (parts : list string) : string :=
  match parts with
  | [] => EmptyString
  | [p] => p
  | p :: rest => (p ++ sep ++ join sep rest)%string
  end.

Definition group_detail (groupStats : gmap string groupCounts) (g : NodeGroup) : option string :=
  match groupStats !! grp_Name g with
  | None => None
  | Some c =>
      if total c =? 0 then None
      else
        let '(n, what) := if 0 <? failed c then (failed c, " failed"%string) else (completed c, " completed"%string) in
        Some ("group " ++ grp_Name g ++ ": " ++ pretty n ++ "/" ++ pretty (total c) ++ what)%string
  end.

Definition buildGroupDetail (groupStats : gmap string groupCounts) : string :=
  join ", " (omap (group_detail groupStats) (getGroupsSortedByRole groups)).

(** The sums over the map, whose order does not matter. *)
Definition overall (f : groupCounts -> Z) (groupStats : gmap string groupCounts) : Z :=
  map_fold (fun _ c acc => acc + f c) 0 groupStats.

Definition deriveNARStatusFromMultipleNodes (nodes : list NodeState) : derived_status :=
  match count_nodes ∅ true nodes with
  | inl status => status
  | inr (groupStats, allMissing) =>
      if overall completed groupStats =? Z.of_nat (length nodes) then
        (ConditionTrue, ConfigApplied, if (allMissing : bool) then ConfigUpToDate else ConfigSuccess)
      else if 0 <? overall failed groupStats then
        (ConditionFalse, Failed, (ConfigFailed ++ " (" ++ buildGroupDetail groupStats ++ ")")%string)
      else (ConditionFalse, InProgress, (ConfigInProgress ++ " (" ++ buildGroupDetail groupStats ++ ")")%string)
  end.

(** The status [updateConfiguredFromNodes] writes. *)
Definition derive (nodes : list NodeState) : derived_status :=
  match nodes with
  | [node] => deriveNARStatusFromSingleNode node
  | _ => deriveNARStatusFromMultipleNodes nodes
  end.

(** ** The counts *)

Lemma overall_empty f : overall f ∅ = 0.
Proof. apply map_fold_empty. Qed.

Lemma overall_insert f stats k c :
  f zero_counts = 0 ->
  overall f (<[k := c]> stats) = overall f stats - f (default zero_counts (stats !! k)) + f c.
Proof.
  intros Hz. unfold overall.
  assert (forall m : gmap string groupCounts, m !! k = None -> map_fold (fun _ c acc => acc + f c) 0 (<[k := c]> m)
    = map_fold (fun _ c acc => acc + f c) 0 m + f c) as Hins.
  { intros m Hm. rewrite map_fold_insert_L; [done|intros; lia|done]. }
  destruct (stats !! k) as [c0|] eqn:E; simpl.
  - rewrite <- insert_delete_eq, Hins by apply lookup_delete_eq.
    rewrite (map_fold_delete_L _ _ k c0 stats); [lia|intros; lia|done].
  - rewrite Hins, Hz by done. lia.
Qed.

Definition outcome_is (o : nodeOutcome) (node : NodeState) : bool :=
  match fetch (node_Name node) with inl _ => false | inr updated => bool_decide (node_outcome updated = o) end.

Definition fetch_fails (node : NodeState) : bool :=
  match fetch (node_Name node) with inl _ => true | inr _ => false end.

Lemma count_nodes_spec stats allMissing nodes :
  match count_nodes stats allMissing nodes with
  | inl status => existsb fetch_fails nodes = true /\ status.1 = (ConditionFalse, InProgress)
  | inr (stats', _) =>
      existsb fetch_fails nodes = false /\
      overall completed stats' = overall completed stats + Z.of_nat (countb (outcome_is NodeCompleted) nodes) /\
      overall failed stats' = overall failed stats + Z.of_nat (countb (outcome_is NodeFailed) nodes)
  end.
Proof.
  revert stats allMissing; induction nodes as [|node rest IH]; intros stats allMissing; simpl.
  { unfold countb. simpl. split_and!; [done|lia|lia]. }
  unfold fetch_fails at 1 3. rewrite !countb_cons. unfold outcome_is at 1 3.
  destruct (fetch (node_Name node)) as [err|updated]; [done|]. simpl.
  match goal with |- context [count_nodes ?s ?b rest] => specialize (IH s b) end.
  destruct (count_nodes _ _ rest) as [st|[stats' b']]; [done|]. destruct IH as (Hf & -> & ->).
  split; [done|]. rewrite !overall_insert by done.
  destruct (node_outcome updated); simpl; lia.
Qed.

(** ** The verdict *)

(** In progress when a node cannot be read; applied when every node is; failed when
    one is; in progress otherwise. *)
Definition verdict (nodes : list NodeState) : ConditionStatus * string :=
  if existsb fetch_fails nodes then (ConditionFalse, InProgress)
  else if forallb (outcome_is NodeCompleted) nodes then (ConditionTrue, ConfigApplied)
  else if existsb (outcome_is NodeFailed) nodes then (ConditionFalse, Failed)
  else (ConditionFalse, InProgress).

Lemma countb_forallb {A} (f : A -> bool) l : countb f l = length l <-> forallb f l = true.
Proof.
  induction l as [|x l IH]; [done|]. rewrite countb_cons. simpl.
  assert (countb f l <= length l)%nat by (unfold countb; apply length_filter).
  destruct (f x); simpl; [rewrite <- IH; lia|]. split; [lia|done].
Qed.

Lemma countb_existsb {A} (f : A -> bool) l : (0 < countb f l)%nat <-> existsb f l = true.
Proof.
  induction l as [|x l IH]; [split; [unfold countb; simpl; lia|done]|]. rewrite countb_cons. simpl.
  destruct (f x); simpl; [split; [done|lia]|exact IH].
Qed.

Lemma multiple_verdict nodes : (deriveNARStatusFromMultipleNodes nodes).1 = verdict nodes.
Proof.
  unfold deriveNARStatusFromMultipleNodes, verdict. pose proof (count_nodes_spec ∅ true nodes) as H.
  destruct (count_nodes ∅ true nodes) as [status|[stats b]]; [by destruct H as [-> ->]|].
  destruct H as (-> & -> & ->). rewrite !overall_empty, !Z.add_0_l.
  destruct (forallb _ nodes) eqn:Ea.
  - apply countb_forallb in Ea. by rewrite Ea, Z.eqb_refl.
  - destruct (Z.eqb_spec (Z.of_nat (countb (outcome_is NodeCompleted) nodes)) (Z.of_nat (length nodes))) as [E|_].
    + apply Nat2Z.inj, countb_forallb in E. congruence.
    + destruct (existsb _ nodes) eqn:Ef.
      * apply countb_existsb in Ef. by rewrite (proj2 (Z.ltb_lt _ _)) by lia.
      * destruct (Z.ltb_spec 0 (Z.of_nat (countb (outcome_is NodeFailed) nodes))) as [Hl|_]; [|done].
        rewrite (proj1 (countb_existsb _ _)) in Ef by lia. done.
Qed.

Lemma single_verdict node : (deriveNARStatusFromSingleNode node).1 = verdict [node].
Proof.
  unfold deriveNARStatusFromSingleNode, verdict, fetch_fails, outcome_is, node_outcome. simpl.
  destruct (fetch (node_Name node)) as [err|updated]; [done|]. simpl.
  destruct (FindStatusCondition _ _) as [c|]; repeat case_decide; done.
Qed.
End derive.

(** The status and the reason written for a request follow from its nodes alone.
    For a single node or for several: in progress while some node cannot be read;
    otherwise applied exactly when every node has applied its configuration (or never
    had one to apply and has the profile of its group), failed when one of the others
    failed, in progress when none did; the order of the nodes and of the map of groups
    does not matter. *)
Theorem derived_verdict (fetch : string -> string + NodeState) (groups : list NodeGroup) (nodes nodes' : list NodeState) :
  nodes ≡ₚ nodes' ->
  (derive fetch groups nodes).1 = verdict fetch groups nodes /\
  (derive fetch groups nodes').1 = (derive fetch groups nodes).1.
Proof.
  assert (forall l, (derive fetch groups l).1 = verdict fetch groups l) as Hd.
  { intros l. unfold derive. destruct l as [|n [|n' l]]; [apply multiple_verdict|apply single_verdict|apply multiple_verdict]. }
  intros Hp. split; [done|]. rewrite !Hd. unfold verdict.
  assert (forall f, existsb f nodes' = existsb f nodes) as He.
  { intros f. apply eq_true_iff_eq. by rewrite <- !countb_existsb, (countb_Permutation f _ _ Hp). }
  assert (forall f, forallb f nodes' = forallb f nodes) as Ha.
  { intros f. apply eq_true_iff_eq. by rewrite <- !countb_forallb, (countb_Permutation f _ _ Hp), Hp. }
  by rewrite !He, Ha.
Qed.

Lemma derived_verdict_witness :
  let failed := with_node_conditions [mkCondition Configured ConditionFalse NodeAllocationRequest.Failed "x" 0 0]
                  (mkNodeState "w1" "worker" "v2" "v1" "w1" [] EmptyString false false false false None Schedulable) in
  let ready := mkNodeState "w2" "worker" "v2" "v1" "w2" [] EmptyString false false false false None Schedulable in
  let fetch name := if decide (name = "w1"%string) then inr failed else inr ready in
  let groups := [mkNodeGroup "worker" "worker" "v2" 2] in
  (derive fetch groups [failed; ready]).1 = (ConditionFalse, NodeAllocationRequest.Failed) /\
  (derive fetch groups [failed; ready]).2 = "Configuration update failed (group worker: 1/2 failed)"%string.
Proof.
  intros failed ready fetch groups. split; [|vm_compute; reflexivity].
  etransitivity; [apply (derived_verdict fetch groups [failed; ready] [ready; failed]); constructor|].
  vm_compute. reflexivity.
Defined.
