(* ===== verification/NodeNames.v ===== *)
(** * Names of AllocatedNodes (hardwaremanager/utils/allocated_node.go)

    The name of the AllocatedNode of a host is made from the cluster and the host.
    The SHA-1 UUID of names that do not fit is a parameter, of which only the
    canonical format is assumed. *)
From S2P Require Import Prelude GoStrings.
#[local] Open Scope Z_scope.

Definition c_hyphen : rune := 45.

Definition name_alnum (r : rune) : bool := between 97 r 122 || between 48 r 57.
Definition name_rune (r : rune) : bool := name_alnum r || (r =? c_hyphen).

(** [regexp] "-+" replaced by a hyphen. *)
Fixpoint collapse (s : gostring) : gostring :=
  match s with
  | [] => []
  | r :: s' =>
      match s' with
      | r' :: _ => if (r =? c_hyphen) && (r' =? c_hyphen) then collapse s' else r :: collapse s'
      | [] => [r]
      end
  end.

(** Without the longest prefix, or suffix, that is not alphanumeric. *)
Fixpoint trim_start (s : gostring) : gostring :=
  match s with
  | [] => []
  | r :: s' => if name_alnum r then s else trim_start s'
  end.

Fixpoint trim_end (s : gostring) : gostring :=
  match s with
  | [] => []
  | r :: s' =>
      match trim_end s' with
      | [] => if name_alnum r then [r] else []
      | t => r :: t
      end
  end.

Section names.
Context `{Unicode}.

Definition sanitizeKubernetesName (name : gostring) : gostring :=
  let result := toLower name in
  let result := map (fun r => if name_rune r then r else c_hyphen) result in
  let result := collapse result in
  let result := trim_start result in
  trim_end result.

(** [nodeHash clusterID (bmhNamespace/bmhName)] is the UUID as a string. *)
Context (nodeHash : gostring -> gostring -> gostring).

Definition GenerateNodeName (clusterID bmhNamespace bmhName : gostring) : gostring :=
  let baseName := (clusterID ++ [c_hyphen] ++ bmhNamespace ++ [c_hyphen] ++ bmhName)%list in
  let sanitizedName := sanitizeKubernetesName baseName in
  if bool_decide (sanitizedName = []) || (253 <? Z.of_nat (length sanitizedName))
  then take 10 (nodeHash clusterID (bmhNamespace ++ [47] ++ bmhName)%list)
  else sanitizedName.
End names.

(** ** Kubernetes names *)

(** An RFC 1123 label: alphanumeric runes and hyphens, alphanumeric at both ends;
    and no longer than an object's name may be. *)
Definition valid_name (s : gostring) : Prop :=
  (forall r, r ∈ s -> name_rune r = true) /\
  (exists a t, s = a :: t /\ name_alnum a = true) /\
  (exists t z, s = (t ++ [z])%list /\ name_alnum z = true) /\
  Z.of_nat (length s) <= 253.

(** The canonical form of a UUID, as far as its first ten runes go. *)
Definition hex_rune (r : rune) : bool := between 97 r 102 || between 48 r 57.
Definition uuid_prefix (s : gostring) : Prop :=
  exists h t x, s = (h ++ c_hyphen :: x :: t)%list /\ length h = 8%nat /\
    (forall r, r ∈ h -> hex_rune r = true) /\ hex_rune x = true.

Lemma hex_alnum r : hex_rune r = true -> name_alnum r = true.
Proof. unfold hex_rune, name_alnum, between. rewrite !orb_true_iff, !andb_true_iff. lia. Qed.

Lemma uuid_prefix_valid s : uuid_prefix s -> valid_name (take 10 s).
Proof.
  intros (h & t & x & -> & Hlen & Hh & Hx).
  assert (take 10 (h ++ c_hyphen :: x :: t) = h ++ [c_hyphen; x])%list as ->.
  { rewrite take_app_ge by lia. rewrite Hlen. done. }
  split_and!.
  - intros r Hr. unfold name_rune. apply orb_true_iff.
    rewrite elem_of_app, !elem_of_cons in Hr. destruct_or! Hr; [left; by apply hex_alnum, Hh|right; by subst|
      left; subst; by apply hex_alnum|by apply elem_of_nil in Hr].
  - destruct h as [|a h]; [done|]. exists a, (h ++ [c_hyphen; x])%list. split; [done|].
    apply hex_alnum, Hh, list_elem_of_here.
  - exists (h ++ [c_hyphen])%list, x. split; [by rewrite <- app_assoc|by apply hex_alnum].
  - rewrite length_app. simpl. lia.
Qed.

(** *** The passes of the sanitizer *)

Lemma elem_of_collapse r s : r ∈ collapse s -> r ∈ s.
Proof.
  induction s as [|a s IH]; [done|]. destruct s as [|b s]; [done|]. simpl collapse.
  destruct ((a =? c_hyphen) && (b =? c_hyphen)); [intros; apply list_elem_of_further; auto|].
  intros [->|?]%elem_of_cons; [apply list_elem_of_here|apply list_elem_of_further; auto].
Qed.

Lemma elem_of_trim_start r s : r ∈ trim_start s -> r ∈ s.
Proof.
  induction s as [|a s IH]; [done|]. simpl. destruct (name_alnum a); [done|].
  intros; apply list_elem_of_further; auto.
Qed.

Lemma elem_of_trim_end r s : r ∈ trim_end s -> r ∈ s.
Proof.
  induction s as [|a s IH]; [done|]. simpl. destruct (trim_end s) as [|b t] eqn:E.
  - destruct (name_alnum a); [|by intros ?%elem_of_nil]. intros ->%list_elem_of_singleton. apply list_elem_of_here.
  - intros [->|?]%elem_of_cons; [apply list_elem_of_here|apply list_elem_of_further; auto].
Qed.

Lemma trim_start_head s : trim_start s = [] \/ exists a t, trim_start s = a :: t /\ name_alnum a = true.
Proof. induction s as [|a s IH]; simpl; [by left|]. destruct (name_alnum a) eqn:E; [right; by exists a, s|done]. Qed.

Lemma trim_end_last s : trim_end s = [] \/ exists t z, trim_end s = (t ++ [z])%list /\ name_alnum z = true.
Proof.
  induction s as [|a s IH]; simpl; [by left|]. destruct (trim_end s) as [|b t] eqn:E.
  - destruct (name_alnum a) eqn:Ea; [right; by exists [], a|by left].
  - destruct IH as [?|(u & z & Hu & Hz)]; [done|]. right. exists (a :: u), z. by rewrite Hu.
Qed.

(** Trimming the end keeps an alphanumeric head. *)
Lemma trim_end_head a s : name_alnum a = true -> exists t, trim_end (a :: s) = a :: t.
Proof. intros Ha. simpl. rewrite Ha. destruct (trim_end s) as [|b t]; by eexists. Qed.

Section valid.
Context `{Unicode}.

Lemma sanitize_runes name r : r ∈ sanitizeKubernetesName name -> name_rune r = true.
Proof.
  unfold sanitizeKubernetesName.
  intros (c & -> & _)%elem_of_trim_end%elem_of_trim_start%elem_of_collapse%list_elem_of_fmap.
  by destruct (name_rune c) eqn:E.
Qed.

Lemma sanitize_valid name :
  sanitizeKubernetesName name <> [] -> Z.of_nat (length (sanitizeKubernetesName name)) <= 253 ->
  valid_name (sanitizeKubernetesName name).
Proof.
  intros Hne Hlen. split_and!; [apply sanitize_runes| | |done].
  - unfold sanitizeKubernetesName in *. set (s := collapse _) in *.
    destruct (trim_start_head s) as [E|(a & t & E & Ha)]; rewrite E in *; [done|].
    destruct (trim_end_head a t Ha) as [u ->]. by exists a, u.
  - unfold sanitizeKubernetesName in *. by destruct (trim_end_last (trim_start (collapse
      (map (fun r => if name_rune r then r else c_hyphen) (toLower name))))).
Qed.

(** C40: the name generated for an AllocatedNode is always a legal object name:
    whatever the cluster is called, it is not empty, has lower case alphanumeric runes
    and hyphens only, begins and ends with an alphanumeric one, and has at most 253
    runes, all ASCII. *)
Theorem GenerateNodeName_valid (nodeHash : gostring -> gostring -> gostring) (clusterID bmhNamespace bmhName : gostring) :
  (forall c n, uuid_prefix (nodeHash c n)) ->
  valid_name (GenerateNodeName nodeHash clusterID bmhNamespace bmhName).
Proof.
  intros Hhash. unfold GenerateNodeName. destruct (bool_decide _ || _) eqn:E; [by apply uuid_prefix_valid|].
  bools. by apply sanitize_valid.
Qed.

End valid.

(** A hash that gives a constant UUID. *)
Definition zero_hash (_ _ : gostring) : gostring := lit "00000000-0000-0000-0000-000000000000".

Lemma zero_hash_uuid c n : uuid_prefix (zero_hash c n).
Proof.
  exists (lit "00000000"), (lit "000-0000-0000-000000000000"), 48. split_and!; try (vm_compute; reflexivity).
  intros r Hr. vm_compute in Hr. repeat (apply elem_of_cons in Hr as [-> |Hr]; [vm_compute; reflexivity|]).
  by apply elem_of_nil in Hr.
Defined.

Lemma GenerateNodeName_valid_witness :
  valid_name (@GenerateNodeName ascii_unicode zero_hash (lit "Site_7 Cluster") (lit "pool--1") (lit "dell.r740-")).
Proof. apply (@GenerateNodeName_valid ascii_unicode). exact zero_hash_uuid. Defined.

(** The name does not determine the host: the hyphens that join its parts also occur
    in them.  Two hosts of a cluster with the same name: *)
Lemma two_hosts_one_name :
  @GenerateNodeName ascii_unicode zero_hash (lit "c1") (lit "site-a") (lit "node1") =
  @GenerateNodeName ascii_unicode zero_hash (lit "c1") (lit "site") (lit "a-node1").
Proof. reflexivity. Qed.
