(* ===== verification/NodeAllocation.v ===== *)
(** * Allocation of hosts to a request (hardwaremanager/controller/helpers.go)

    The hub has hosts and AllocatedNodes.  A reconcile allocates, group by group, as
    many hosts as the group lacks among those [fetchBMHList] selects; the hosts of one
    group are handled concurrently in the source, each with its own objects, here in
    the order of the list.  Listing is a parameter, and which call on a host fails is
    an argument. *)
From S2P Require Import Prelude GoStrings ResourceSelection NodeNames.
#[local] Open Scope Z_scope.

(** A host is identified by its namespace and name. *)
Abbreviation host_id := (gostring * gostring)%type.
Definition id_of (b : BareMetalHost) : host_id := (bmh_Namespace b, bmh_Name b).

Record AllocatedNode := mkAllocated {
  an_Name : gostring;
  an_Request : gostring;                    (* Spec.NodeAllocationRequest *)
  an_Group : gostring;
  an_HwProfile : gostring;
  an_Host : host_id;                        (* Spec.HwMgrNodeNs, Spec.HwMgrNodeId *)
}.

Record NodeGroup := mkNodeGroup {
  grp_Data : NodeGroupData;
  grp_HwProfile : gostring;
  grp_Size : Z;
}.

Record Request := mkRequest {
  req_Name : gostring;
  ClusterId : gostring;
  NodeGroups : list NodeGroup;
  req_NodeNames : list gostring;            (* Status.Properties.NodeNames *)
}.

Record Hub := mkHub { hosts : list BareMetalHost; nodes : list AllocatedNode }.

Definition AllocatedNodeLabel : gostring := lit "clcm.openshift.io/allocated-node".

(** The calls made for one host. *)
Inductive alloc_call : Type :=
| LabelHost | GetNode | CreateNode | SetBootMACAddress | ProcessHwProfile | MarkBMHAllocated
| SaveOrigNetworkData | AllowHostManagement | BuildInterfaces | UpdateNodeStatus.

Definition set_host_label (id : host_id) (key value : gostring) (hub : Hub) : Hub :=
  mkHub (map (fun b => if decide (id_of b = id)
                       then mkHost (bmh_Name b) (bmh_Namespace b) (<[key := value]> (bmh_Labels b)) (provisioning_State b)
                       else b) (hosts hub))
    (nodes hub).

Definition isBMHAllocated (b : BareMetalHost) : bool :=
  bool_decide (bmh_Labels b !! BmhAllocatedLabel = Some ValueTrue).

Definition find_node (name : gostring) (hub : Hub) : option AllocatedNode :=
  List.find (fun n => bool_decide (an_Name n = name)) (nodes hub).

Section allocation.
Context `{Unicode}.
Context (nodeHash : gostring -> gostring -> gostring).
Context (call_ok : host_id -> alloc_call -> bool).

(** [createNode]: a node that exists is kept as it is. *)
Definition createNode (node : AllocatedNode) (hub : Hub) : Hub * bool :=
  if negb (call_ok (an_Host node) GetNode) then (hub, false)
  else
    match find_node (an_Name node) hub with
    | Some _ => (hub, true)
    | None =>
        if call_ok (an_Host node) CreateNode then (mkHub (hosts hub) (nodes hub ++ [node]), true)
        else (hub, false)
    end.

(** The hub afterwards, and whether the name of the node is returned. *)
Definition allocateBMHToNodeAllocationRequest (req : Request) (group : NodeGroup) (bmh : BareMetalHost) (hub : Hub)
    : Hub * option gostring :=
  let id := id_of bmh in
  let nodeName := GenerateNodeName nodeHash (ClusterId req) (bmh_Namespace bmh) (bmh_Name bmh) in
  let labelled := bool_decide (default [] (bmh_Labels bmh !! AllocatedNodeLabel) = nodeName) in
  if negb labelled && negb (call_ok id LabelHost) then (hub, None)
  else
    let hub := if labelled then hub else set_host_label id AllocatedNodeLabel nodeName hub in
    let '(hub, created) :=
      createNode (mkAllocated nodeName (req_Name req) (ngd_Name (grp_Data group)) (grp_HwProfile group) id) hub in
    if negb created then (hub, None)
    else if negb (call_ok id SetBootMACAddress) then (hub, None)
    else if negb (call_ok id ProcessHwProfile) then (hub, None)
    else if negb (isBMHAllocated bmh) && negb (call_ok id MarkBMHAllocated) then (hub, None)
    else
      let hub := if isBMHAllocated bmh then hub else set_host_label id BmhAllocatedLabel ValueTrue hub in
      if negb (call_ok id SaveOrigNetworkData) then (hub, None)
      else if negb (call_ok id AllowHostManagement) then (hub, None)
      else if negb (call_ok id BuildInterfaces) then (hub, None)
      else if negb (call_ok id UpdateNodeStatus) then (hub, None)
      else (hub, Some nodeName).

(** All the hosts chosen for a group; the errors are collected. *)
Fixpoint allocate_all (req : Request) (group : NodeGroup) (bmhs : list BareMetalHost) (hub : Hub)
    : Hub * list gostring * bool :=
  match bmhs with
  | [] => (hub, [], false)
  | bmh :: rest =>
      let '(hub, name) := allocateBMHToNodeAllocationRequest req group bmh hub in
      let '(hub, names, failed) := allocate_all req group rest hub in
      match name with
      | Some n => (hub, n :: names, failed)
      | None => (hub, names, true)
      end
  end.

(** ** A reconcile *)

(** [GetChildNodesUncached], [filterNodesByGroup]. *)
Definition child_nodes (req : Request) (hub : Hub) : list AllocatedNode :=
  filter (fun n => an_Request n = req_Name req) (nodes hub).
Definition nodes_of_group (group : gostring) (l : list AllocatedNode) : list AllocatedNode :=
  filter (fun n => an_Group n = group) l.

Context (fetch : list BareMetalHost -> NodeGroupData -> outcome error (list BareMetalHost)).

(** [None] for the return in the middle of the loop: no host could be listed, or
    there is none. *)
Fixpoint allocate_groups (req : Request) (childNodes : list AllocatedNode) (groups : list NodeGroup) (hub : Hub)
    (allocatedNames : list gostring) (failed : bool) : Hub * option (list gostring * bool) :=
  match groups with
  | [] => (hub, Some (allocatedNames, failed))
  | g :: rest =>
      let pending := grp_Size g - Z.of_nat (length (nodes_of_group (ngd_Name (grp_Data g)) childNodes)) in
      if (grp_Size g =? 0) || (pending <=? 0) then allocate_groups req childNodes rest hub allocatedNames failed
      else
        match fetch (hosts hub) (grp_Data g) with
        | Ret [] => (hub, None)
        | Ret unallocated =>
            let '(hub, names, f) := allocate_all req g (take (Z.to_nat pending) unallocated) hub in
            allocate_groups req childNodes rest hub (allocatedNames ++ names) (failed || f)
        | _ => (hub, None)
        end
  end.

Fixpoint add_names (names : list gostring) (nodeNames : list gostring) : list gostring :=
  match names with
  | [] => nodeNames
  | name :: rest => add_names rest (if decide (name ∈ nodeNames) then nodeNames else nodeNames ++ [name])
  end.

(** The hub, the request with its node names, and whether [nil] is returned. *)
Definition processNodeAllocationRequestAllocation (properties_ok : bool) (req : Request) (hub : Hub)
    : Hub * Request * bool :=
  match allocate_groups req (child_nodes req hub) (NodeGroups req) hub [] false with
  | (hub, None) => (hub, req, false)
  | (hub, Some (names, failed)) =>
      let req' := mkRequest (req_Name req) (ClusterId req) (NodeGroups req) (add_names names (req_NodeNames req)) in
      (hub, (if properties_ok then req' else req), properties_ok && negb failed)
  end.

(** [processNewNodeAllocationRequest]: the error, by the name of the first group
    without enough hosts. *)
Fixpoint processNewNodeAllocationRequest (groups : list NodeGroup) (hub : Hub) : option gostring :=
  match groups with
  | [] => None
  | g :: rest =>
      if grp_Size g =? 0 then processNewNodeAllocationRequest rest hub
      else
        match fetch (hosts hub) (grp_Data g) with
        | Ret free =>
            if Z.of_nat (length free) <? grp_Size g then Some (ngd_Name (grp_Data g))
            else processNewNodeAllocationRequest rest hub
        | _ => Some (ngd_Name (grp_Data g))
        end
  end.

(** [isNodeAllocationRequestFullyAllocated]. *)
Definition isFullyAllocated (req : Request) (hub : Hub) : bool :=
  forallb (fun g => grp_Size g <=? Z.of_nat (length (nodes_of_group (ngd_Name (grp_Data g)) (child_nodes req hub))))
    (NodeGroups req).
End allocation.

(** ** Labels *)

Lemma find_node_None name hub : find_node name hub = None -> name ∉ map an_Name (nodes hub).
Proof.
  unfold find_node. intros Hf (n & -> & Hn)%list_elem_of_fmap.
  apply list_elem_of_In, (find_none _ _ Hf) in Hn. by rewrite bool_decide_eq_true_2 in Hn.
Qed.

Definition marked (hub : Hub) (id : host_id) : Prop :=
  forall b, b ∈ hosts hub -> id_of b = id -> isBMHAllocated b = true.
Definition free (hub : Hub) (id : host_id) : Prop :=
  exists b, b ∈ hosts hub /\ id_of b = id /\ isBMHAllocated b = false.

Lemma marked_not_free hub id : marked hub id -> free hub id -> False.
Proof. intros Hm (b & Hb & Hid & Hf). by rewrite (Hm b) in Hf. Qed.

Lemma set_host_label_hosts id key value hub b' :
  b' ∈ hosts (set_host_label id key value hub) ->
  exists b, b ∈ hosts hub /\ id_of b' = id_of b /\
    (id_of b <> id -> b' = b) /\ (id_of b = id -> bmh_Labels b' = <[key := value]> (bmh_Labels b)).
Proof.
  intros (b & -> & Hb)%list_elem_of_fmap. exists b. split; [done|]. case_decide; split_and!; done.
Qed.

Lemma set_host_label_elem id key value hub b :
  b ∈ hosts hub -> exists b', b' ∈ hosts (set_host_label id key value hub) /\ id_of b' = id_of b /\
    (id_of b <> id -> b' = b) /\ (id_of b = id -> bmh_Labels b' = <[key := value]> (bmh_Labels b)).
Proof.
  intros Hb. eexists. split; [by apply list_elem_of_fmap_2|]. simpl. case_decide; split_and!; done.
Qed.

Lemma label_marked id id' key value hub :
  key <> BmhAllocatedLabel \/ value = ValueTrue -> marked hub id' -> marked (set_host_label id key value hub) id'.
Proof.
  intros Hkv Hm b' Hb' Hid. apply set_host_label_hosts in Hb' as (b & Hb & Hid' & Hne & Heq).
  assert (isBMHAllocated b = true) as Ha by (apply Hm; congruence).
  destruct (decide (id_of b = id)) as [E|E]; [|by rewrite Hne]. unfold isBMHAllocated in *. rewrite Heq by done.
  apply bool_decide_eq_true. apply bool_decide_eq_true in Ha.
  destruct (decide (key = BmhAllocatedLabel)) as [->|Hk]; [rewrite lookup_insert_eq; naive_solver|by rewrite lookup_insert_ne].
Qed.

Lemma label_free id id' key value hub :
  key <> BmhAllocatedLabel \/ id <> id' -> free hub id' -> free (set_host_label id key value hub) id'.
Proof.
  intros Hk (b & Hb & Hid & Ha). destruct (set_host_label_elem id key value hub b Hb) as (b' & Hb' & Hid' & Hne & Heq).
  exists b'. split_and!; [done|congruence|].
  destruct (decide (id_of b = id)) as [E|E]; [|by rewrite Hne]. unfold isBMHAllocated in *. rewrite Heq by done.
  destruct Hk as [Hk|Hk]; [by rewrite lookup_insert_ne|congruence].
Qed.

Lemma label_now_marked id hub : marked (set_host_label id BmhAllocatedLabel ValueTrue hub) id.
Proof.
  intros b' Hb' Hid. apply set_host_label_hosts in Hb' as (b & _ & Hid' & _ & Heq).
  unfold isBMHAllocated. rewrite Heq by congruence. apply bool_decide_eq_true. apply lookup_insert_eq.
Qed.

Lemma AllocatedNodeLabel_ne : AllocatedNodeLabel <> BmhAllocatedLabel.
Proof. intros E. vm_compute in E. discriminate E. Qed.

(** ** New nodes *)

(** At most [k] nodes were added, all for the group [g] of [req]. *)
Definition grows (req : Request) (g : NodeGroup) (k : nat) (hub hub' : Hub) : Prop :=
  exists new, nodes hub' = (nodes hub ++ new)%list /\ (length new <= k)%nat /\
    forall n, n ∈ new -> an_Request n = req_Name req /\ an_Group n = ngd_Name (grp_Data g).

Lemma grows_refl req g k hub hub' : nodes hub' = nodes hub -> grows req g k hub hub'.
Proof. intros E. exists []. rewrite app_nil_r. split_and!; [done|simpl; lia|by intros ? ?%elem_of_nil]. Qed.

Lemma grows_trans req g j k hub1 hub2 hub3 :
  grows req g j hub1 hub2 -> grows req g k hub2 hub3 -> grows req g (j + k) hub1 hub3.
Proof.
  intros (n1 & E1 & L1 & H1) (n2 & E2 & L2 & H2). exists (n1 ++ n2)%list.
  rewrite E2, E1, app_assoc, length_app. split_and!; [done|lia|]. intros n [?|?]%elem_of_app; auto.
Qed.

Lemma grows_more req g j k hub hub' : (j <= k)%nat -> grows req g j hub hub' -> grows req g k hub hub'.
Proof. intros ? (n & ? & ? & ?). exists n. split_and!; [done|lia|done]. Qed.

Section allocation_facts.
Context `{Unicode}.
Context (nodeHash : gostring -> gostring -> gostring).
Context (call_ok : host_id -> alloc_call -> bool).

Lemma allocate_grows req g bmh hub :
  grows req g 1 hub (allocateBMHToNodeAllocationRequest nodeHash call_ok req g bmh hub).1.
Proof.
  unfold allocateBMHToNodeAllocationRequest, createNode. set (name := GenerateNodeName _ _ _ _).
  destruct (negb _ && negb _); [by apply grows_refl|].
  set (hub1 := if bool_decide _ then hub else _).
  assert (nodes hub1 = nodes hub) as E1 by (by subst hub1; case_match).
  simpl. destruct (negb (call_ok (id_of bmh) GetNode)); [by apply grows_refl|].
  assert (forall hub2, nodes hub2 = nodes hub1 \/
      nodes hub2 = (nodes hub1 ++ [mkAllocated name (req_Name req) (ngd_Name (grp_Data g)) (grp_HwProfile g) (id_of bmh)])%list ->
    grows req g 1 hub hub2) as Hok.
  { intros hub2 [E|E]; [apply grows_refl; congruence|]. exists [mkAllocated name (req_Name req) (ngd_Name (grp_Data g)) (grp_HwProfile g) (id_of bmh)].
    rewrite E, E1. split_and!; [done|simpl; lia|]. by intros n ->%list_elem_of_singleton. }
  destruct (find_node name hub1); [|destruct (call_ok (id_of bmh) CreateNode)]; simpl;
    repeat case_match; simpl; apply Hok; auto.
Qed.

Lemma allocate_all_grows req g bmhs hub :
  grows req g (length bmhs) hub (allocate_all nodeHash call_ok req g bmhs hub).1.1.
Proof.
  revert hub; induction bmhs as [|bmh rest IH]; intros hub; simpl; [by apply grows_refl|].
  pose proof (allocate_grows req g bmh hub) as H1.
  destruct (allocateBMHToNodeAllocationRequest _ _ req g bmh hub) as [hub1 name]. simpl in H1.
  specialize (IH hub1). destruct (allocate_all _ _ req g rest hub1) as [[hub2 names] failed]. simpl in IH.
  destruct name; simpl; by apply (grows_trans req g 1 (length rest) hub hub1 hub2).
Qed.
End allocation_facts.

Definition group_count (req : Request) (group : gostring) (hub : Hub) : Z :=
  Z.of_nat (length (nodes_of_group group (child_nodes req hub))).

Lemma grows_count req g k hub hub' group :
  grows req g k hub hub' ->
  group_count req group hub' <=
    group_count req group hub + (if decide (group = ngd_Name (grp_Data g)) then Z.of_nat k else 0).
Proof.
  intros (new & E & Hlen & Hnew). unfold group_count, child_nodes, nodes_of_group.
  rewrite E, !filter_app, length_app.
  pose proof (length_filter (fun n => an_Group n = group) (filter (fun n => an_Request n = req_Name req) new)).
  pose proof (length_filter (fun n => an_Request n = req_Name req) new).
  case_decide as Eg; [lia|].
  replace (filter (fun n => an_Group n = group) (filter (fun n => an_Request n = req_Name req) new)) with ([] : list AllocatedNode).
  { simpl. lia. }
  symmetry. apply list_elem_of_nil_inv || apply elem_of_nil_inv. intros n [Hn [_ Hin]%list_elem_of_filter]%list_elem_of_filter.
  destruct (Hnew n Hin) as [_ Hg]. congruence.
Qed.

(** ** The size of a group bounds what it gets *)

(** Only nodes of [req] are added. *)
Definition adds_for (req : Request) (hub hub' : Hub) : Prop :=
  exists new, nodes hub' = (nodes hub ++ new)%list /\ forall n, n ∈ new -> an_Request n = req_Name req.

#[export] Instance adds_for_preorder req : PreOrder (adds_for req).
Proof.
  split.
  - intros hub. exists []. rewrite app_nil_r. split; [done|by intros ? ?%elem_of_nil].
  - intros hub1 hub2 hub3 (n1 & E1 & H1) (n2 & E2 & H2). exists (n1 ++ n2)%list.
    rewrite E2, E1, app_assoc. split; [done|]. intros n [?|?]%elem_of_app; auto.
Qed.

Lemma grows_adds req g k hub hub' : grows req g k hub hub' -> adds_for req hub hub'.
Proof. intros (new & E & _ & Hnew). exists new. split; [done|]. intros n Hn. by apply Hnew. Qed.

Section bounded.
Context `{Unicode}.
Context (nodeHash : gostring -> gostring -> gostring).
Context (call_ok : host_id -> alloc_call -> bool).
Context (fetch : list BareMetalHost -> NodeGroupData -> outcome error (list BareMetalHost)).
Context (req : Request) (childNodes : list AllocatedNode).

Definition pending (g : NodeGroup) : Z :=
  grp_Size g - Z.of_nat (length (nodes_of_group (ngd_Name (grp_Data g)) childNodes)).
Definition group_names (groups : list NodeGroup) : list gostring := map (fun g => ngd_Name (grp_Data g)) groups.

(** One group of the loop: nothing changes, the loop goes on after at most [pending]
    new nodes, or it is left. *)
Lemma allocate_groups_cons g rest hub names failed :
  exists hub' names' failed', grows req g (Z.to_nat (Z.max 0 (pending g))) hub hub' /\
    (allocate_groups nodeHash call_ok fetch req childNodes (g :: rest) hub names failed =
       allocate_groups nodeHash call_ok fetch req childNodes rest hub' names' failed' \/
     allocate_groups nodeHash call_ok fetch req childNodes (g :: rest) hub names failed = (hub', None)).
Proof.
  simpl. fold (pending g). destruct ((grp_Size g =? 0) || (pending g <=? 0)) eqn:E.
  { exists hub, names, failed. split; [by apply grows_refl|by left]. }
  destruct (fetch (hosts hub) (grp_Data g)) as [[|b free]| | |];
    try (exists hub, names, failed; split; [by apply grows_refl|by right]).
  pose proof (allocate_all_grows nodeHash call_ok req g (take (Z.to_nat (pending g)) (b :: free)) hub) as Hg.
  destruct (allocate_all _ _ req g _ hub) as [[hub' got] f].
  exists hub', (names ++ got)%list, (failed || f). split; [|by left].
  eapply grows_more; [|exact Hg]. rewrite length_take. lia.
Qed.

Lemma allocate_groups_count groups hub names failed :
  let hub' := (allocate_groups nodeHash call_ok fetch req childNodes groups hub names failed).1 in
  adds_for req hub hub' /\
  (forall group, group ∉ group_names groups -> group_count req group hub' <= group_count req group hub) /\
  (NoDup (group_names groups) -> forall g, g ∈ groups ->
    group_count req (ngd_Name (grp_Data g)) hub' <=
      group_count req (ngd_Name (grp_Data g)) hub + Z.max 0 (pending g)).
Proof.
  revert hub names failed; induction groups as [|g rest IH]; intros hub names failed; cbv zeta.
  { split_and!; [done|by intros; simpl|]. by intros _ g ?%elem_of_nil. }
  destruct (allocate_groups_cons g rest hub names failed) as (hub1 & names1 & failed1 & Hg & E).
  set (hub' := (allocate_groups _ _ _ _ _ (g :: rest) hub names failed).1).
  assert (adds_for req hub1 hub' /\
    (forall group, group ∉ group_names rest -> group_count req group hub' <= group_count req group hub1) /\
    (NoDup (group_names rest) -> forall g', g' ∈ rest ->
      group_count req (ngd_Name (grp_Data g')) hub' <=
        group_count req (ngd_Name (grp_Data g')) hub1 + Z.max 0 (pending g'))) as (Ha & Hout & Hin).
  { destruct E as [E|E]; subst hub'; rewrite E; [apply IH|]. split_and!; [done|done|]. simpl. lia. }
  clearbody hub'. clear IH E. unfold group_names in *. simpl. split_and!.
  - etransitivity; [by eapply grows_adds|done].
  - intros group [Hne Hr]%not_elem_of_cons. specialize (Hout group Hr).
    pose proof (grows_count _ _ _ _ _ group Hg) as Hc. rewrite decide_False in Hc by done. lia.
  - intros [Hnot Hd]%NoDup_cons g' Hg'.
    pose proof (grows_count _ _ _ _ _ (ngd_Name (grp_Data g')) Hg) as Hc. apply elem_of_cons in Hg' as [-> |Hg'].
    + specialize (Hout _ Hnot). rewrite decide_True in Hc by done. lia.
    + specialize (Hin Hd g' Hg'). rewrite decide_False in Hc; [lia|].
      intros Eq. apply Hnot. rewrite <- Eq. by apply (list_elem_of_fmap_2 (fun g => ngd_Name (grp_Data g))).
Qed.
End bounded.

(** ** No host is shared *)

(** Each node has its own host, which carries the label of an allocated host; and
    no two hosts have the same name. *)
Record exclusive (hub : Hub) : Prop := mkExclusive {
  ex_hosts : NoDup (map id_of (hosts hub));
  ex_nodes : NoDup (map an_Host (nodes hub));
  ex_marked : forall n, n ∈ nodes hub -> marked hub (an_Host n);
}.

Lemma set_host_label_ids id key value hub : map id_of (hosts (set_host_label id key value hub)) = map id_of (hosts hub).
Proof. unfold set_host_label. simpl. rewrite map_map. apply map_ext. intros b. by case_decide. Qed.

Lemma label_exclusive id key value hub :
  key <> BmhAllocatedLabel \/ value = ValueTrue -> exclusive hub -> exclusive (set_host_label id key value hub).
Proof.
  intros Hkv [Hh Hn Hm]. split; [by rewrite set_host_label_ids|done|].
  intros n Hin. apply label_marked; [done|]. by apply Hm.
Qed.

(** The calls that come between the creation of a node and the label of its host. *)
Definition allocation_calls_ok (call_ok : host_id -> alloc_call -> bool) : Prop :=
  forall id, call_ok id SetBootMACAddress = true /\ call_ok id ProcessHwProfile = true /\
    call_ok id MarkBMHAllocated = true.

(** The hosts that are listed exist, are free, and are listed once. *)
Definition lists_free (fetch : list BareMetalHost -> NodeGroupData -> outcome error (list BareMetalHost)) : Prop :=
  forall hs g l, fetch hs g = Ret l ->
    (NoDup (map id_of hs) -> NoDup (map id_of l)) /\ forall b, b ∈ l -> b ∈ hs /\ isBMHAllocated b = false.

Section exclusive.
Context `{Unicode}.
Context (nodeHash : gostring -> gostring -> gostring).
Context (call_ok : host_id -> alloc_call -> bool).
Context (Hok : allocation_calls_ok call_ok).

(** [createNode] either fails, without a change, or the node with this name exists
    afterwards, as the one that was there or as the last of the list. *)
Lemma createNode_cases node hub :
  createNode call_ok node hub = (hub, false) \/ createNode call_ok node hub = (hub, true) \/
  createNode call_ok node hub = (mkHub (hosts hub) (nodes hub ++ [node]), true).
Proof. unfold createNode. repeat case_match; auto. Qed.

Lemma allocate_exclusive req g bmh hub :
  exclusive hub -> free hub (id_of bmh) -> isBMHAllocated bmh = false ->
  let hub' := (allocateBMHToNodeAllocationRequest nodeHash call_ok req g bmh hub).1 in
  exclusive hub' /\ (forall id, id <> id_of bmh -> free hub id -> free hub' id).
Proof.
  intros Hex Hfree Hb. destruct (Hok (id_of bmh)) as (Hboot & Hprofile & Hmark). cbv zeta.
  unfold allocateBMHToNodeAllocationRequest. set (name := GenerateNodeName _ _ _ _).
  destruct (negb _ && negb _); [done|]. set (hub1 := if bool_decide _ then hub else _).
  assert (exclusive hub1 /\ forall id, free hub id -> free hub1 id) as [Hex1 Hfree1].
  { subst hub1. case_match; [done|]. split; [apply label_exclusive|intros id; apply label_free]; auto using AllocatedNodeLabel_ne. }
  clearbody hub1. simpl. set (node := mkAllocated _ _ _ _ _).
  destruct (createNode_cases node hub1) as [E|[E|E]]; rewrite E; clear E; simpl.
  { split; auto. }
  all: rewrite Hboot, Hprofile, Hmark, Hb; simpl; match goal with |- context [set_host_label _ _ _ ?h] =>
    set (hub2 := h); cut (exclusive (set_host_label (id_of bmh) BmhAllocatedLabel ValueTrue hub2) /\
      forall id, id <> id_of bmh -> free hub id -> free (set_host_label (id_of bmh) BmhAllocatedLabel ValueTrue hub2) id);
    [by intros; repeat case_match|] end.
  - split; [apply label_exclusive; auto|intros id Hne Hf; apply label_free; auto].
  - split; [|intros id Hne Hf; apply label_free; auto; exact (Hfree1 id Hf)].
    split; [rewrite set_host_label_ids; apply Hex1| |].
    + simpl. rewrite map_app. apply NoDup_app. split_and!; [apply Hex1| |apply NoDup_singleton].
      intros id (n & -> & Hn)%list_elem_of_fmap Hin%list_elem_of_singleton.
      apply (marked_not_free hub1 (an_Host n)); [by apply Hex1|]. rewrite Hin. by apply Hfree1.
    + intros n [Hn| ->%list_elem_of_singleton]%elem_of_app; [|apply label_now_marked].
      apply label_marked; [by right|]. exact (ex_marked _ Hex1 n Hn).
Qed.

Lemma allocate_all_exclusive req g bmhs hub :
  exclusive hub -> NoDup (map id_of bmhs) ->
  (forall b, b ∈ bmhs -> free hub (id_of b) /\ isBMHAllocated b = false) ->
  exclusive (allocate_all nodeHash call_ok req g bmhs hub).1.1.
Proof.
  revert hub; induction bmhs as [|bmh rest IH]; intros hub Hex Hd Hf; simpl; [done|].
  apply NoDup_cons in Hd as [Hnot Hd].
  destruct (Hf bmh) as [Hfree Hb]; [apply list_elem_of_here|].
  destruct (allocate_exclusive req g bmh hub Hex Hfree Hb) as [Hex1 Hfree1].
  destruct (allocateBMHToNodeAllocationRequest _ _ req g bmh hub) as [hub1 name]. simpl in *.
  assert (exclusive (allocate_all nodeHash call_ok req g rest hub1).1.1) as Hrest.
  { apply IH; [done|done|]. intros b Hin. destruct (Hf b) as [? ?]; [by apply list_elem_of_further|].
    split; [|done]. apply Hfree1; [|done]. intros E. apply Hnot. rewrite <- E. by apply list_elem_of_fmap_2. }
  destruct (allocate_all _ _ req g rest hub1) as [[hub2 names] failed]. by destruct name.
Qed.

Context (fetch : list BareMetalHost -> NodeGroupData -> outcome error (list BareMetalHost)).
Context (Hfetch : lists_free fetch).

Lemma allocate_groups_exclusive req childNodes groups hub names failed :
  exclusive hub -> exclusive (allocate_groups nodeHash call_ok fetch req childNodes groups hub names failed).1.
Proof.
  revert hub names failed; induction groups as [|g rest IH]; intros hub names failed Hex; simpl; [done|].
  destruct (_ || _); [by apply IH|].
  destruct (fetch (hosts hub) (grp_Data g)) as [[|b0 l]| | |] eqn:E; try done.
  set (n := Z.to_nat _). destruct (Hfetch _ _ _ E) as [Hd Hl].
  assert (exclusive (allocate_all nodeHash call_ok req g (take n (b0 :: l)) hub).1.1) as Hex1.
  { apply allocate_all_exclusive; [done| |].
    - assert (map id_of (take n (b0 :: l)) = take n (map id_of (b0 :: l))) as -> by (symmetry; apply firstn_map).
      eapply sublist_NoDup; [apply Hd, Hex|apply sublist_take].
    - intros b Hb%(subseteq_take n). destruct (Hl b Hb) as [? ?]. split; [by exists b|done]. }
  destruct (allocate_all _ _ req g _ hub) as [[hub1 got] f]. by apply IH.
Qed.
End exclusive.

Section allocation_properties.
Context `{Unicode}.

(** C34: a reconcile never gives a node group more nodes than its size: the groups
    of a request, whose names are distinct, have, afterwards, at most the larger of their size and the nodes
    they already had, whatever is listed and whichever calls fail; nodes are only
    added, at the end, and only for this request, whose other groups do not change. *)
Theorem allocation_bounded (nodeHash : gostring -> gostring -> gostring)
    (call_ok : host_id -> alloc_call -> bool)
    (fetch : list BareMetalHost -> NodeGroupData -> outcome error (list BareMetalHost))
    (properties_ok : bool) (req : Request) (hub : Hub) :
  NoDup (group_names (NodeGroups req)) ->
  let hub' := (processNodeAllocationRequestAllocation nodeHash call_ok fetch properties_ok req hub).1.1 in
  adds_for req hub hub' /\
  (forall g, g ∈ NodeGroups req ->
    group_count req (ngd_Name (grp_Data g)) hub' <=
      Z.max (grp_Size g) (group_count req (ngd_Name (grp_Data g)) hub)) /\
  (forall group, group ∉ group_names (NodeGroups req) -> group_count req group hub' <= group_count req group hub).
Proof.
  intros Hd. cbv zeta. unfold processNodeAllocationRequestAllocation.
  pose proof (allocate_groups_count nodeHash call_ok fetch req (child_nodes req hub) (NodeGroups req) hub [] false)
    as (Ha & Hout & Hin).
  destruct (allocate_groups _ _ _ _ _ _ _ _ _) as [hub' [[names failed]|]]; simpl in *;
    (split_and!; [done| |done]); intros g Hg; specialize (Hin Hd g Hg); unfold pending in Hin;
    change (Z.of_nat (length (nodes_of_group (ngd_Name (grp_Data g)) (child_nodes req hub))))
      with (group_count req (ngd_Name (grp_Data g)) hub) in Hin; lia.
Qed.

(** C32: no host is given to two nodes.  Whatever requests are reconciled, in
    whatever order and how often, if every node has a host of its own that is labelled
    as allocated then so it is afterwards, as long as the calls between the creation
    of a node and the label of its host succeed; [fetch] lists hosts that exist and
    are not labelled. *)
Theorem hosts_not_shared (nodeHash : gostring -> gostring -> gostring)
    (call_ok : host_id -> alloc_call -> bool)
    (fetch : list BareMetalHost -> NodeGroupData -> outcome error (list BareMetalHost))
    (reconciles : list (bool * Request)) (hub : Hub) :
  allocation_calls_ok call_ok -> lists_free fetch -> exclusive hub ->
  exclusive (foldl (fun hub r =>
    (processNodeAllocationRequestAllocation nodeHash call_ok fetch r.1 r.2 hub).1.1) hub reconciles).
Proof.
  intros Hok Hfetch. revert hub; induction reconciles as [|[ok req] rest IH]; intros hub Hex; simpl; [done|].
  apply IH. unfold processNodeAllocationRequestAllocation.
  pose proof (allocate_groups_exclusive nodeHash call_ok Hok fetch Hfetch req (child_nodes req hub) (NodeGroups req) hub
    [] false Hex) as Hg.
  by destruct (allocate_groups _ _ _ _ _ _ _ _ _) as [hub' [[names failed]|]].
Qed.
End allocation_properties.

(** ** With the selection of hosts *)

(** The API server evaluates the selectors on the hosts of the hub. *)
Definition selected_hosts `{Unicode} (getHardwareData : BareMetalHost -> option (option HardwareDetails))
    (hs : list BareMetalHost) (g : NodeGroupData) : outcome error (list BareMetalHost) :=
  fetchBMHList (fun opts => Some (filter (fun b => label_matches opts (bmh_Labels b)) hs)) getHardwareData
    (map_to_list (ResourceSelector g)) (fun _ => map_to_list (ResourceSelector g)) g.

(** What is selected exists, is free and is selected once. *)
Lemma selected_hosts_free `{Unicode} getHardwareData : lists_free (selected_hosts getHardwareData).
Proof.
  intros hs g l. unfold selected_hosts, fetchBMHList. set (opts := ResourceSelectionPrimaryFilter _ _).
  intros Hl%(SecondaryFilter_sound (ResourceSelector g) _ _ (fun _ => Permutation_refl _)). subst l. split.
  - intros Hd. eapply sublist_NoDup; [exact Hd|]. apply fmap_sublist.
    etransitivity; apply sublist_filter.
  - intros b [_ [[Hm _] Hb]%list_elem_of_filter]%list_elem_of_filter. split; [done|].
    unfold isBMHAllocated. apply bool_decide_eq_false. intros E. simpl in Hm. rewrite E in Hm.
    by apply Hm, list_elem_of_here.
Qed.

(** ** Concrete hubs *)

Definition no_hash (_ _ : gostring) : gostring := [].
Definition every_call (_ : host_id) (_ : alloc_call) : bool := true.
Definition large_data (_ : BareMetalHost) : option (option HardwareDetails) := Some (Some (example_details 128)).

Definition example_fetch := @selected_hosts ascii_unicode large_data.

Definition group_of (name : string) (size : Z) : NodeGroup :=
  mkNodeGroup (mkGroupData (lit name) (lit "pool1") example_selector) (lit "v1") size.
Definition request_of (name : string) (groups : list NodeGroup) : Request := mkRequest (lit name) (lit name) groups [].

Definition hub_of (names : list string) : Hub := mkHub (map example_host names) [].

Definition reconcile (call_ok : host_id -> alloc_call -> bool) (req : Request) (hub : Hub) : Hub * Request * bool :=
  @processNodeAllocationRequestAllocation ascii_unicode no_hash call_ok example_fetch true req hub.

Lemma allocation_bounded_witness :
  let req := request_of "r" [group_of "worker" 2; group_of "infra" 1] in
  let hub := hub_of ["a"; "b"; "c"; "d"] in
  group_count req (lit "worker") (reconcile every_call req hub).1.1 <= 2 /\
  map an_Group (nodes (reconcile every_call req hub).1.1) = [lit "worker"; lit "worker"; lit "infra"].
Proof.
  cbv zeta. split; [|vm_compute; reflexivity].
  apply (proj1 (proj2 (@allocation_bounded ascii_unicode no_hash every_call example_fetch true
    (request_of "r" [group_of "worker" 2; group_of "infra" 1]) (hub_of ["a"; "b"; "c"; "d"])
    ltac:(apply (bool_decide_unpack _); vm_compute; exact I))) (group_of "worker" 2)).
  apply list_elem_of_here.
Defined.

Lemma hosts_not_shared_witness :
  exclusive (foldl (fun hub r => (@processNodeAllocationRequestAllocation ascii_unicode no_hash every_call
      example_fetch r.1 r.2 hub).1.1) (hub_of ["a"; "b"])
    [(true, request_of "r" [group_of "worker" 1]); (true, request_of "s" [group_of "worker" 1])]).
Proof.
  refine (@hosts_not_shared ascii_unicode no_hash every_call example_fetch _ (hub_of ["a"; "b"]) _ _ _).
  - done.
  - apply selected_hosts_free.
  - split; [apply (bool_decide_unpack _); vm_compute; exact I|constructor|by intros n ?%elem_of_nil].
Defined.

(** ** What can go wrong *)

(** The names of the nodes of the groups that came before are lost when a group has
    no host, and with them for good: the next reconcile sees the nodes, so it does not
    allocate, and does not name, them again. *)
Lemma names_lost :
  let req := request_of "r" [group_of "worker" 1; group_of "infra" 1] in
  let '(hub, req, ok) := reconcile every_call req (hub_of ["a"]) in
  ok = false /\ length (nodes hub) = 1%nat /\ req_NodeNames req = [] /\
  let '(hub, req, ok) := reconcile every_call req (mkHub (hosts hub ++ [example_host "b"]) (nodes hub)) in
  ok = true /\ isFullyAllocated req hub = true /\ length (nodes hub) = 2%nat /\ length (req_NodeNames req) = 1%nat.
Proof. vm_compute. repeat split. Qed.

(** When the hardware profile of a host cannot be processed, its node exists but the
    host is not labelled: another request gets the same host. *)
Lemma host_given_twice :
  let call_ok (_ : host_id) (c : alloc_call) := match c with ProcessHwProfile => false | _ => true end in
  let hub := (reconcile call_ok (request_of "r" [group_of "worker" 1]) (hub_of ["a"])).1.1 in
  let hub := (reconcile every_call (request_of "s" [group_of "worker" 1]) hub).1.1 in
  map (fun n => (an_Request n, an_Host n)) (nodes hub) =
    [(lit "r", (lit "pool", lit "a")); (lit "s", (lit "pool", lit "a"))].
Proof. vm_compute. reflexivity. Qed.

(** The check of a new request looks at each group alone: two groups are both
    promised the only host. *)
Lemma one_host_for_two_groups :
  processNewNodeAllocationRequest example_fetch [group_of "worker" 1; group_of "infra" 1]
    (hub_of ["a"]) = None.
Proof. vm_compute. reflexivity. Qed.
