(* ===== verification/Firmware.v ===== *)
(** * BIOS settings and firmware of a host (hardwaremanager/controller:
    hostfirmwaresettings_manager.go, hostfirmwarecomponents_manager.go,
    hostupdatepolicy_manager.go, and the validation of helpers.go)

    What a hardware profile asks for is compared with the HostFirmwareSettings (HFS)
    and the HostFirmwareComponents (HFC) that metal3 keeps for a host, twice: to decide
    on an update and what it installs, and afterwards to see that it is done.  The
    errors of the calls and the parsing of URLs are parameters. *)
From S2P Require Import Prelude GoStrings.
#[local] Open Scope Z_scope.

(** ** Data *)

Inductive IntOrString : Type := IntVal (i : Z) | StrVal (s : gostring).

Definition IntOrString_String (v : IntOrString) : gostring :=
  match v with IntVal i => itoa i | StrVal s => s end.

Record Firmware := mkFirmware { Version : gostring; URL : gostring }.

Record HardwareProfileSpec := mkProfile {
  Bios_Attributes : option (gmap gostring IntOrString);     (* [None]: a nil map *)
  BiosFirmware : Firmware;
  BmcFirmware : Firmware;
  NicFirmware : list Firmware;
}.

Record FirmwareComponent := mkComponent { Component : gostring; CurrentVersion : gostring }.
Record FirmwareUpdate := mkUpdate { upd_Component : gostring; upd_URL : gostring }.

Record HFC := mkHFC { hfc_Updates : list FirmwareUpdate; Components : list FirmwareComponent }.
Record HFS := mkHFS {
  hfs_Settings : gmap gostring IntOrString;                 (* Spec.Settings *)
  status_Settings : gmap gostring gostring;                 (* Status.Settings *)
  FirmwareSchema : option (gostring * gostring);            (* name and namespace *)
}.

Inductive UpdatePolicy : Type := PolicyNone | PolicyOnReboot.
#[export] Instance UpdatePolicy_eq_dec : EqDecision UpdatePolicy.
Proof. solve_decision. Defined.
Record HUP := mkHUP { hup_Settings : UpdatePolicy; hup_Updates : UpdatePolicy }.
#[export] Instance HUP_eq_dec : EqDecision HUP.
Proof. solve_decision. Defined.

(** The objects of one host. *)
Record HostObjects := mkObjects { hfc_of : option HFC; hfs_of : option HFS; hup_of : option HUP }.

Inductive fw_call : Type :=
| GetProfile | GetHFC | CreateHFC | UpdateHFC | GetHFS | CreateHFS | UpdateHFS | GetSchema
| GetHUP | CreateHUP | UpdateHUP.

(** Input errors, which the user has to correct, and the others. *)
Inductive fw_error : Type :=
| MissingURL (what : gostring) (index : option Z)
| InvalidURL (what : gostring) (index : option Z)
| MissingComponent (what : gostring)
| TooFewNICs (required found : Z)
| InvalidBiosSettings
| NoSchema
| CallFailed (c : fw_call).

Definition is_input_error (e : fw_error) : bool :=
  match e with CallFailed _ | NoSchema => false | _ => true end.

Definition componentBIOS : gostring := lit "bios".
Definition componentBMC : gostring := lit "bmc".
Definition componentNIC : gostring := lit "nic:".

Definition Firmware_IsEmpty (fm : Firmware) : bool := bool_decide (Version fm = []) && bool_decide (URL fm = []).

Definition is_nic (c : FirmwareComponent) : bool := hasPrefix (Component c) componentNIC.

(** [nic.Version != "" && nic.URL != ""] *)
Definition nic_wanted (nic : Firmware) : bool :=
  negb (bool_decide (Version nic = [])) && negb (bool_decide (URL nic = [])).

(** ** The firmware the profile asks for *)

Section spec.
(** Scheme and host of an absolute URL. *)
Context (ParseRequestURI : gostring -> option (gostring * gostring)).

Definition IsValidURL (u : gostring) : bool :=
  match ParseRequestURI u with
  | Some (scheme, host) => negb (bool_decide (scheme = [])) && negb (bool_decide (host = []))
  | None => false
  end.

Definition check_url (what : gostring) (index : option Z) (fm : Firmware) : outcome fw_error unit :=
  if decide (Version fm = []) then Ret tt
  else if decide (URL fm = []) then Err (MissingURL what index)
  else if IsValidURL (URL fm) then Ret tt else Err (InvalidURL what index).

Fixpoint check_nics (i : Z) (nics : list Firmware) : outcome fw_error unit :=
  match nics with
  | [] => Ret tt
  | nic :: rest => _ ← check_url componentNIC (Some i) nic; check_nics (i + 1) rest
  end.

Definition validateFirmwareUpdateSpec (spec : HardwareProfileSpec) : outcome fw_error unit :=
  _ ← check_url componentBIOS None (BiosFirmware spec);
  _ ← check_url componentBMC None (BmcFirmware spec);
  check_nics 0 (NicFirmware spec).
End spec.

Definition convertToFirmwareUpdates (spec : HardwareProfileSpec) : list FirmwareUpdate :=
  (if decide (URL (BiosFirmware spec) = []) then [] else [mkUpdate componentBIOS (URL (BiosFirmware spec))]) ++
  (if decide (URL (BmcFirmware spec) = []) then [] else [mkUpdate componentBMC (URL (BmcFirmware spec))]).

Definition has_component (name : gostring) (cs : list FirmwareComponent) : bool :=
  existsb (fun c => bool_decide (Component c = name)) cs.

Definition validateHFCHasRequiredComponents (cs : list FirmwareComponent) (spec : HardwareProfileSpec)
    : outcome fw_error unit :=
  let nicCount := Z.of_nat (length (filter is_nic cs)) in
  let requiredNicCount := Z.of_nat (length (filter nic_wanted (NicFirmware spec))) in
  if negb (Firmware_IsEmpty (BiosFirmware spec)) && negb (has_component componentBIOS cs)
  then Err (MissingComponent componentBIOS)
  else if negb (Firmware_IsEmpty (BmcFirmware spec)) && negb (has_component componentBMC cs)
  then Err (MissingComponent componentBMC)
  else if (0 <? requiredNicCount) && (nicCount =? 0) then Err (MissingComponent componentNIC)
  else if nicCount <? requiredNicCount then Err (TooFewNICs requiredNicCount nicCount)
  else Ret tt.

Definition firmwareMap (spec : HardwareProfileSpec) (name : gostring) : option Firmware :=
  if decide (name = componentBIOS) then Some (BiosFirmware spec)
  else if decide (name = componentBMC) then Some (BmcFirmware spec)
  else None.

(** The update of one component that is not a NIC. *)
Definition component_update (spec : HardwareProfileSpec) (c : FirmwareComponent) : option FirmwareUpdate :=
  match firmwareMap spec (Component c) with
  | Some fw =>
      if Firmware_IsEmpty fw then None
      else if decide (CurrentVersion c = Version fw) then None
      else Some (mkUpdate (Component c) (URL fw))
  | None => None
  end.

(** A NIC that has the version already. *)
Definition nic_with_version (version : gostring) (cs : list FirmwareComponent) : option FirmwareComponent :=
  List.find (fun c => is_nic c && bool_decide (CurrentVersion c = version)) cs.

(** The first NIC that was not used before. *)
Definition free_nic (usedComponents : list gostring) (cs : list FirmwareComponent) : option FirmwareComponent :=
  List.find (fun c => is_nic c && negb (bool_decide (Component c ∈ usedComponents))) cs.

Fixpoint nic_updates (cs : list FirmwareComponent) (usedComponents : list gostring) (nics : list Firmware)
    : list FirmwareUpdate :=
  match nics with
  | [] => []
  | nic :: rest =>
      if negb (nic_wanted nic) then nic_updates cs usedComponents rest
      else
        match nic_with_version (Version nic) cs with
        | Some c => nic_updates cs (Component c :: usedComponents) rest
        | None =>
            match free_nic usedComponents cs with
            | Some c => mkUpdate (Component c) (URL nic) :: nic_updates cs (Component c :: usedComponents) rest
            | None => nic_updates cs usedComponents rest
            end
        end
  end.

(** The updates; one is required when there is any. *)
Definition isVersionChangeDetected (cs : list FirmwareComponent) (spec : HardwareProfileSpec)
    : list FirmwareUpdate * bool :=
  let updates := (omap (component_update spec) cs ++ nic_updates cs [] (NicFirmware spec))%list in
  (updates, negb (bool_decide (updates = []))).
Arguments isVersionChangeDetected : simpl never.

(** ** A call on the objects of the host *)

Section calls.
Context (ParseRequestURI : gostring -> option (gostring * gostring)).
Context (call_ok : fw_call -> bool).

(** [Create] finds that metal3 has created the object meanwhile. *)
Context (already_exists : fw_call -> bool).

Definition calling (c : fw_call) : outcome fw_error unit := if call_ok c then Ret tt else Err (CallFailed c).

Definition IsFirmwareUpdateRequired (spec : HardwareProfileSpec) (validateOnly : bool) (objs : HostObjects)
    : HostObjects * outcome fw_error bool :=
  match validateFirmwareUpdateSpec ParseRequestURI spec with
  | Ret _ =>
      if negb (call_ok GetHFC) then (objs, Err (CallFailed GetHFC))
      else
        match hfc_of objs with
        | None =>
            if validateOnly then (objs, Ret true)
            else if already_exists CreateHFC then (objs, Ret true)
            else if call_ok CreateHFC
            then (mkObjects (Some (mkHFC (convertToFirmwareUpdates spec) [])) (hfs_of objs) (hup_of objs), Ret true)
            else (objs, Err (CallFailed CreateHFC))
        | Some hfc =>
            match validateHFCHasRequiredComponents (Components hfc) spec with
            | Ret _ =>
                let '(updates, updateRequired) := isVersionChangeDetected (Components hfc) spec in
                if negb updateRequired then (objs, Ret false)
                else if validateOnly then (objs, Ret true)
                else if call_ok UpdateHFC
                then (mkObjects (Some (mkHFC updates (Components hfc))) (hfs_of objs) (hup_of objs), Ret true)
                else (objs, Err (CallFailed UpdateHFC))
            | Err e => (objs, Err e)
            | _ => (objs, Panic)
            end
        end
  | Err e => (objs, Err e)
  | _ => (objs, Panic)
  end.

(** *** BIOS settings *)

(** [schema.ValidateSetting], of the schema the HFS refers to. *)
Context (ValidateSetting : gostring -> IntOrString -> bool).

(** No setting is reported. *)
Definition validSettings (hfs : HFS) (newSettings : gmap gostring IntOrString) : bool :=
  bool_decide (map_Forall (fun name val =>
    is_Some (status_Settings hfs !! name) /\ ValidateSetting name val = true) newSettings).

Definition validateBiosSettings (hfs : HFS) (newSettings : gmap gostring IntOrString) : outcome fw_error unit :=
  match FirmwareSchema hfs with
  | None => Err NoSchema
  | Some (name, namespace) =>
      if bool_decide (name = []) || bool_decide (namespace = []) then Err NoSchema
      else if negb (call_ok GetSchema) then Err (CallFailed GetSchema)
      else if validSettings hfs newSettings then Ret tt else Err InvalidBiosSettings
  end.

Definition isChangeDetected (a : gmap gostring IntOrString) (b : gmap gostring gostring) : bool :=
  negb (bool_decide (map_Forall (fun k v => b !! k = Some (IntOrString_String v)) a)).

Definition IsBiosUpdateRequired (settings : gmap gostring IntOrString) (validateOnly : bool) (objs : HostObjects)
    : HostObjects * outcome fw_error bool :=
  if negb (call_ok GetHFS) then (objs, Err (CallFailed GetHFS))
  else
    match hfs_of objs with
    | None =>
        if validateOnly then (objs, Ret true)
        else if already_exists CreateHFS then (objs, Ret true)
        else if call_ok CreateHFS
        then (mkObjects (hfc_of objs) (Some (mkHFS settings ∅ None)) (hup_of objs), Ret true)
        else (objs, Err (CallFailed CreateHFS))
    | Some hfs =>
        match validateBiosSettings hfs settings with
        | Ret _ =>
            if negb (isChangeDetected settings (status_Settings hfs)) then (objs, Ret false)
            else if validateOnly then (objs, Ret true)
            else if call_ok UpdateHFS
            then (mkObjects (hfc_of objs) (Some (mkHFS settings (status_Settings hfs) (FirmwareSchema hfs))) (hup_of objs),
                  Ret true)
            else (objs, Err (CallFailed UpdateHFS))
        | Err e => (objs, Err e)
        | _ => (objs, Panic)
        end
    end.

(** *** The policy of the updates *)

Definition desired_policy (firmwareUpdateRequired biosUpdateRequired : bool) : HUP :=
  mkHUP (if biosUpdateRequired then PolicyOnReboot else PolicyNone)
    (if firmwareUpdateRequired then PolicyOnReboot else PolicyNone).

Definition createOrUpdateHostUpdatePolicy (firmwareUpdateRequired biosUpdateRequired : bool) (objs : HostObjects)
    : HostObjects * outcome fw_error unit :=
  let desired := desired_policy firmwareUpdateRequired biosUpdateRequired in
  let written := mkObjects (hfc_of objs) (hfs_of objs) (Some desired) in
  if negb (call_ok GetHUP) then (objs, Err (CallFailed GetHUP))
  else
    match hup_of objs with
    | None => if call_ok CreateHUP then (written, Ret tt) else (objs, Err (CallFailed CreateHUP))
    | Some hup =>
        if decide (hup = desired) then (objs, Ret tt)
        else if call_ok UpdateHUP then (written, Ret tt) else (objs, Err (CallFailed UpdateHUP))
    end.

(** *** Both checks *)

(** The part of [processHwProfile] between the annotations: whether BIOS settings and
    whether firmware is to be updated.  [None] for a profile that is not found. *)
Definition check_profile (profile : option HardwareProfileSpec) (validateOnly : bool) (objs : HostObjects)
    : HostObjects * outcome fw_error (bool * bool) :=
  match profile with
  | None => (objs, Err (CallFailed GetProfile))
  | Some spec =>
      let '(objs, bios) :=
        match Bios_Attributes spec with
        | None => (objs, Ret false)
        | Some settings => IsBiosUpdateRequired settings validateOnly objs
        end in
      match bios with
      | Ret bios =>
          let '(objs, firmware) := IsFirmwareUpdateRequired spec validateOnly objs in
          (objs, pair bios <$> firmware)
      | Err e => (objs, Err e)
      | _ => (objs, Panic)
      end
  end.
End calls.

(** ** Is the update done? *)

Section validation.
Context `{Unicode}.

Fixpoint trim_left (s : gostring) : gostring :=
  match s with
  | [] => []
  | r :: s' => if isSpace r then trim_left s' else s
  end.

Fixpoint trim_right (s : gostring) : gostring :=
  match s with
  | [] => []
  | r :: s' =>
      match trim_right s' with
      | [] => if isSpace r then [] else [r]
      | t => r :: t
      end
  end.

Definition TrimSpace (s : gostring) : gostring := trim_right (trim_left s).

Definition normalizeVersion (v : gostring) : gostring :=
  match TrimSpace (toLower v) with
  | 118 :: d :: rest => if between 48 d 57 then d :: rest else 118 :: d :: rest
  | v => v
  end.

(** The entry of [expected], by the trimmed version. *)
Definition expected_version (name : gostring) (fm : Firmware) : list (gostring * gostring) :=
  let v := TrimSpace (Version fm) in
  if decide (v = []) then [] else [(name, normalizeVersion v)].

Definition index_component (actual : gmap gostring gostring) (c : FirmwareComponent) : gmap gostring gostring :=
  <[toLower (TrimSpace (Component c)) := normalizeVersion (CurrentVersion c)]> actual.

Context (call_ok : fw_call -> bool).

Definition validateFirmwareVersions (profile : option HardwareProfileSpec) (objs : HostObjects)
    : outcome fw_error bool :=
  match profile with
  | None => Err (CallFailed GetProfile)
  | Some spec =>
      let expected := (expected_version componentBIOS (BiosFirmware spec) ++
                       expected_version componentBMC (BmcFirmware spec))%list in
      if decide (expected = []) then Ret true
      else if negb (call_ok GetHFC) then Err (CallFailed GetHFC)
      else
        match hfc_of objs with
        | None => Ret false
        | Some hfc =>
            let actual := fold_left index_component (Components hfc) ∅ in
            Ret (forallb (fun kv => bool_decide (actual !! kv.1 = Some kv.2)) expected)
        end
  end.

Definition equalIntOrStringWithString (expected : IntOrString) (actual : gostring) : bool :=
  equalFold (TrimSpace (IntOrString_String expected)) (TrimSpace actual).

Definition setting_applied (actual : gmap gostring gostring) (k : gostring) (expected : IntOrString) : Prop :=
  match actual !! k with
  | Some v => equalIntOrStringWithString expected v = true
  | None => False
  end.

#[export] Instance setting_applied_dec actual k e : Decision (setting_applied actual k e).
Proof. unfold setting_applied. destruct (actual !! k); apply _. Defined.

Definition nicVersions (cs : list FirmwareComponent) : list gostring :=
  map (fun c => normalizeVersion (CurrentVersion c))
    (filter (fun c => is_nic c && negb (bool_decide (CurrentVersion c = []))) cs).

Definition nics_applied (cs : list FirmwareComponent) (nics : list Firmware) : bool :=
  forallb (fun nic => bool_decide (Version nic = []) || bool_decide (normalizeVersion (Version nic) ∈ nicVersions cs)) nics.

Definition validateAppliedBiosSettings (profile : option HardwareProfileSpec) (objs : HostObjects)
    : outcome fw_error bool :=
  match profile with
  | None => Err (CallFailed GetProfile)
  | Some spec =>
      let attributes := default ∅ (Bios_Attributes spec) in
      if decide (attributes = ∅) then Ret true
      else if negb (call_ok GetHFS) then Err (CallFailed GetHFS)
      else
        match hfs_of objs with
        | None => Ret false
        | Some hfs =>
            if negb (bool_decide (map_Forall (setting_applied (status_Settings hfs)) attributes)) then Ret false
            else if decide (NicFirmware spec = []) then Ret true
            else if negb (call_ok GetHFC) then Err (CallFailed GetHFC)
            else
              match hfc_of objs with
              | None => Ret false
              | Some hfc => Ret (nics_applied (Components hfc) (NicFirmware spec))
              end
        end
  end.

Definition validateNodeConfiguration (profile : option HardwareProfileSpec) (objs : HostObjects)
    : outcome fw_error bool :=
  firmwareValid ← validateFirmwareVersions profile objs;
  if negb firmwareValid then Ret false
  else
    biosValid ← validateAppliedBiosSettings profile objs;
    Ret biosValid.
End validation.

(** ** What the host does with an update *)

(** [installs url] is the version in the file at [url]. *)
Definition apply_updates (installs : gostring -> gostring) (updates : list FirmwareUpdate)
    (cs : list FirmwareComponent) : list FirmwareComponent :=
  map (fun c =>
    match List.find (fun u => bool_decide (upd_Component u = Component c)) updates with
    | Some u => mkComponent (Component c) (installs (upd_URL u))
    | None => c
    end) cs.

(** ** Trimming and normal forms *)

Section trimming.
Context `{Unicode}.

Lemma trim_left_head s : trim_left s = [] \/ exists a t, trim_left s = a :: t /\ isSpace a = false.
Proof. induction s as [|r s IH]; simpl; [by left|]. destruct (isSpace r) eqn:E; [done|right; by exists r, s]. Qed.

Lemma trim_right_idem s : trim_right (trim_right s) = trim_right s.
Proof.
  induction s as [|r s IH]; simpl; [done|]. destruct (trim_right s) as [|b t] eqn:E.
  - destruct (isSpace r) eqn:Er; simpl; by rewrite ?Er.
  - cbn [trim_right] in *. by rewrite IH.
Qed.

Lemma TrimSpace_idem s : TrimSpace (TrimSpace s) = TrimSpace s.
Proof.
  unfold TrimSpace. destruct (trim_left_head s) as [E|(a & t & E & Ha)]; rewrite E; [done|].
  assert (exists u, trim_right (a :: t) = a :: u) as [u Hu].
  { simpl. rewrite Ha. destruct (trim_right t); by eexists. }
  rewrite Hu. simpl. rewrite Ha, <- Hu. apply trim_right_idem.
Qed.

Lemma trim_map f s :
  (forall r, isSpace (f r) = isSpace r) -> TrimSpace (map f s) = map f (TrimSpace s).
Proof.
  intros Hf. unfold TrimSpace.
  assert (forall l, trim_left (map f l) = map f (trim_left l)) as ->.
  { induction l as [|r l IH]; simpl; [done|]. rewrite Hf. by destruct (isSpace r). }
  generalize (trim_left s). intros l. induction l as [|r l IH]; simpl; [done|].
  rewrite IH. destruct (trim_right l); simpl; [|done]. rewrite Hf. by destruct (isSpace r).
Qed.

Context {HU : UnicodeLaws}.

Lemma lower_space r : isSpace (toLowerRune r) = isSpace r.
Proof using HU.
  unfold toLowerRune. destruct (Z.leb_spec r 127); [|apply uni_lower_space; lia].
  destruct (between 65 r 90) eqn:E; [|done]. unfold between in E. unfold isSpace. bools. 
  destruct (Z.leb_spec (r + 32) 255); [|lia]. destruct (Z.leb_spec r 255); [|lia]. lia.
Qed.

(** Versions are compared up to surrounding white space. *)
Lemma normalize_trim v : normalizeVersion (TrimSpace v) = normalizeVersion v.
Proof using HU.
  unfold normalizeVersion, toLower. rewrite !trim_map by apply lower_space. by rewrite TrimSpace_idem.
Qed.
End trimming.

(** ** NICs: what the loop chooses *)

Abbreviation comp_names := (map Component).

Lemma nic_with_version_elem v cs c :
  nic_with_version v cs = Some c -> c ∈ cs /\ is_nic c = true /\ CurrentVersion c = v.
Proof.
  unfold nic_with_version. intros [Hin Hc]%find_some. apply list_elem_of_In in Hin. bools. done.
Qed.

Lemma nic_with_version_some c cs :
  c ∈ cs -> is_nic c = true -> is_Some (nic_with_version (CurrentVersion c) cs).
Proof.
  intros Hin Hn. unfold nic_with_version. destruct (List.find _ cs) as [c'|] eqn:E; [by eexists|].
  apply list_elem_of_In in Hin. pose proof (find_none _ _ E c Hin) as Hc. simpl in Hc.
  rewrite Hn, bool_decide_eq_true_2 in Hc; done.
Qed.

Lemma free_nic_elem used cs c :
  free_nic used cs = Some c -> c ∈ cs /\ is_nic c = true /\ Component c ∉ used.
Proof.
  unfold free_nic. intros [Hin Hc]%find_some. apply list_elem_of_In in Hin. bools. done.
Qed.

(** Entries that are not wanted are passed over. *)
Lemma nic_updates_wanted cs used nics : nic_updates cs used nics = nic_updates cs used (filter nic_wanted nics).
Proof.
  revert used; induction nics as [|nic nics IH]; intros used; simpl; [done|].
  rewrite filter_cons. destruct (nic_wanted nic) eqn:E; simpl; [|apply IH]. rewrite E. simpl.
  repeat case_match; by rewrite IH.
Qed.

Definition present (cs : list FirmwareComponent) (nic : Firmware) : bool :=
  bool_decide (is_Some (nic_with_version (Version nic) cs)).

(** The components that the entries found present occupy. *)
Definition occupied (cs : list FirmwareComponent) (nics : list Firmware) (used : list gostring) : list gostring :=
  foldl (fun used nic =>
    match nic_with_version (Version nic) cs with Some c => Component c :: used | None => used end) used nics.

Lemma nic_updates_present cs used a b :
  Forall (fun nic => nic_wanted nic = true /\ present cs nic = true) a ->
  nic_updates cs used (a ++ b) = nic_updates cs (occupied cs a used) b.
Proof.
  revert used; induction a as [|nic a IH]; intros used Ha; simpl; [done|].
  apply Forall_cons in Ha as [[Hw Hp] Ha]. unfold present in Hp. bools. rewrite Hw. simpl.
  match goal with H : is_Some _ |- _ => destruct H as [c ->] end. by apply IH.
Qed.

Lemma nic_updates_none cs nics :
  Forall (fun nic => nic_wanted nic = true -> present cs nic = true) nics -> nic_updates cs [] nics = [].
Proof.
  intros Hn. rewrite nic_updates_wanted. rewrite <- (app_nil_r (filter _ _)), nic_updates_present; [done|].
  apply Forall_forall. intros nic [Hw Hin]%list_elem_of_filter. apply Is_true_true_1 in Hw.
  rewrite Forall_forall in Hn. auto.
Qed.

Lemma occupied_length cs a used : (length (occupied cs a used) <= length used + length a)%nat.
Proof.
  revert used; induction a as [|nic a IH]; intros used; simpl; [lia|].
  specialize (IH (match nic_with_version (Version nic) cs with Some c => Component c :: used | None => used end)).
  destruct (nic_with_version (Version nic) cs); simpl in *; lia.
Qed.

Lemma occupied_more cs a used x : x ∈ used -> x ∈ occupied cs a used.
Proof.
  revert used; induction a as [|nic a IH]; intros used Hx; simpl; [done|]. apply IH.
  destruct (nic_with_version (Version nic) cs); [by apply list_elem_of_further|done].
Qed.

Lemma occupied_elem cs a used nic c :
  nic ∈ a -> nic_with_version (Version nic) cs = Some c -> Component c ∈ occupied cs a used.
Proof.
  revert used; induction a as [|nic' a IH]; intros used; [by intros ?%elem_of_nil|]. simpl.
  intros [-> |Hin]%elem_of_cons Hc; [|by apply IH]. rewrite Hc. apply occupied_more, list_elem_of_here.
Qed.

(** *** There is a NIC left for every entry *)

Definition free_nics (used : list gostring) (cs : list FirmwareComponent) : list FirmwareComponent :=
  filter (fun c => is_nic c && negb (bool_decide (Component c ∈ used))) cs.

Lemma free_nics_cons x used cs :
  NoDup (comp_names cs) -> (length (free_nics used cs) <= S (length (free_nics (x :: used) cs)))%nat.
Proof.
  unfold free_nics. induction cs as [|c cs IH]; simpl; [lia|]. intros [Hnot Hd]%NoDup_cons.
  rewrite !filter_cons. destruct (decide (Component c = x)) as [E|E].
  - assert (filter (fun c => is_nic c && negb (bool_decide (Component c ∈ x :: used))) cs =
            filter (fun c => is_nic c && negb (bool_decide (Component c ∈ used))) cs) as Heq.
    { apply filter_iff_elem. intros c' Hin.
      assert (bool_decide (Component c' ∈ x :: used) = bool_decide (Component c' ∈ used)) as ->; [|done].
      apply bool_decide_ext. rewrite elem_of_cons. split; [intros [E'|]; [|done]|auto]. exfalso. apply Hnot.
      rewrite E, <- E'. by apply list_elem_of_fmap_2. }
    rewrite Heq. repeat case_decide; simpl; lia.
  - specialize (IH Hd).
    assert (bool_decide (Component c ∈ x :: used) = bool_decide (Component c ∈ used)) as ->
      by (apply bool_decide_ext; rewrite elem_of_cons; tauto).
    case_decide; simpl; lia.
Qed.

Lemma free_nics_length used cs :
  NoDup (comp_names cs) -> (length (filter is_nic cs) <= length used + length (free_nics used cs))%nat.
Proof.
  intros Hd. induction used as [|x used IH]; simpl.
  - unfold free_nics. apply Nat.eq_le_incl. f_equal. apply list_filter_iff. intros c.
    by rewrite bool_decide_eq_false_2, andb_true_r by apply not_elem_of_nil.
  - pose proof (free_nics_cons x used cs Hd). lia.
Qed.

Lemma free_nic_some used cs : (0 < length (free_nics used cs))%nat -> is_Some (free_nic used cs).
Proof.
  intros Hl. unfold free_nic. destruct (List.find _ cs) as [c|] eqn:E; [by eexists|].
  destruct (free_nics used cs) as [|c l] eqn:Ef; [simpl in Hl; lia|].
  assert (c ∈ free_nics used cs) as [Hc Hin]%list_elem_of_filter by (rewrite Ef; apply list_elem_of_here).
  apply list_elem_of_In in Hin. pose proof (find_none _ _ E c Hin) as Hn. simpl in Hn. by rewrite Hn in Hc.
Qed.

(** Each component gets at most one update, and none that was used before. *)
Lemma nic_updates_components cs used nics :
  NoDup (map upd_Component (nic_updates cs used nics)) /\
  forall u, u ∈ nic_updates cs used nics ->
    (upd_Component u ∉ used) /\ (exists c, c ∈ cs /\ is_nic c = true /\ Component c = upd_Component u).
Proof.
  revert used; induction nics as [|nic nics IH]; intros used; simpl.
  { split; [constructor|by intros u ?%elem_of_nil]. }
  destruct (negb (nic_wanted nic)); [apply IH|].
  destruct (nic_with_version (Version nic) cs) as [c|].
  { destruct (IH (Component c :: used)) as [Hd Hu]. split; [done|]. intros u Hin.
    destruct (Hu u Hin) as [Hn ?]. split; [|done]. intros ?. by apply Hn, list_elem_of_further. }
  destruct (free_nic used cs) as [c|] eqn:E; [|apply IH].
  apply free_nic_elem in E as (Hc & Hnic & Hnot). destruct (IH (Component c :: used)) as [Hd Hu]. simpl. split.
  - apply NoDup_cons. split; [|done]. intros (u & Eu & Hin)%list_elem_of_fmap.
    destruct (Hu u Hin) as [Hn _]. apply Hn. rewrite <- Eu. apply list_elem_of_here.
  - intros u [-> |Hin]%elem_of_cons; [split; [done|by exists c]|].
    destruct (Hu u Hin) as [Hn ?]. split; [|done]. intros ?. by apply Hn, list_elem_of_further.
Qed.

(** With a NIC for each of them, the entries that no NIC has are all installed. *)
Lemma nic_updates_absent cs used b :
  NoDup (comp_names cs) -> Forall (fun nic => nic_wanted nic = true /\ present cs nic = false) b ->
  (length b <= length (free_nics used cs))%nat ->
  map upd_URL (nic_updates cs used b) = map URL b.
Proof.
  intros Hd. revert used; induction b as [|nic b IH]; intros used Hb Hlen; simpl in *; [done|].
  apply Forall_cons in Hb as [[Hw Hp] Hb]. rewrite Hw. simpl. unfold present in Hp. bools.
  destruct (nic_with_version (Version nic) cs) as [c|]; [exfalso; eauto|].
  destruct (free_nic_some used cs) as [c ->]; [lia|]. simpl. f_equal. apply IH; [done|].
  pose proof (free_nics_cons (Component c) used cs Hd). lia.
Qed.

(** With a NIC for each of them, no update means that all of them are there. *)
Lemma nic_updates_nil cs used nics :
  NoDup (comp_names cs) -> (length used + length (filter nic_wanted nics) <= length (filter is_nic cs))%nat ->
  nic_updates cs used nics = [] -> Forall (fun nic => nic_wanted nic = true -> present cs nic = true) nics.
Proof.
  intros Hd. revert used; induction nics as [|nic nics IH]; intros used; simpl; [intros; constructor|].
  rewrite filter_cons. destruct (nic_wanted nic) eqn:Hw; simpl; intros Hlen Hn.
  2: { constructor; [by rewrite Hw|]. by apply (IH used). }
  destruct (nic_with_version (Version nic) cs) as [c|] eqn:E.
  - constructor; [unfold present; rewrite E; done|]. apply (IH (Component c :: used)); [simpl; lia|done].
  - destruct (free_nic_some used cs) as [c Hc]; [|by rewrite Hc in Hn].
    pose proof (free_nics_length used cs Hd). lia.
Qed.

(** ** Updates and their components *)

Lemma nic_not_firmware name : hasPrefix name componentNIC = true -> name <> componentBIOS /\ name <> componentBMC.
Proof. intros Hn. split; intros ->; vm_compute in Hn; discriminate. Qed.

Lemma firmwareMap_nic spec c : is_nic c = true -> component_update spec c = None.
Proof.
  intros [Hb Hm]%nic_not_firmware. unfold component_update, firmwareMap. by rewrite !decide_False by done.
Qed.

Lemma component_update_name spec c u : component_update spec c = Some u -> upd_Component u = Component c.
Proof.
  unfold component_update. destruct (firmwareMap spec (Component c)); [|done].
  destruct (Firmware_IsEmpty f); [done|]. case_decide; [done|]. by intros [= <-].
Qed.

Definition update_of (name : gostring) (us : list FirmwareUpdate) : option FirmwareUpdate :=
  List.find (fun u => bool_decide (upd_Component u = name)) us.

Lemma update_of_None name us : update_of name us = None <-> name ∉ map upd_Component us.
Proof.
  unfold update_of. induction us as [|u us IH]; simpl; [split; [intros _; apply not_elem_of_nil|done]|].
  rewrite not_elem_of_cons. case_bool_decide; [split; [done|intros [? _]; congruence]|].
  rewrite IH. split; [intros; split; [congruence|done]|tauto].
Qed.

Lemma update_of_Some name us u : NoDup (map upd_Component us) -> u ∈ us -> upd_Component u = name -> update_of name us = Some u.
Proof.
  unfold update_of. induction us as [|u' us IH]; simpl; [by intros _ ?%elem_of_nil|].
  intros [Hnot Hd]%NoDup_cons [-> |Hin]%elem_of_cons Hu; [by rewrite bool_decide_eq_true_2|].
  rewrite bool_decide_eq_false_2; [by apply IH|]. intros E. apply Hnot. rewrite E, <- Hu. by apply list_elem_of_fmap_2.
Qed.

Lemma update_of_app name us us' :
  update_of name (us ++ us') = match update_of name us with Some u => Some u | None => update_of name us' end.
Proof. unfold update_of. induction us as [|u us IH]; simpl; [done|]. by case_bool_decide. Qed.

(** The update of a component by its name: its own, as the names are distinct. *)
Lemma update_of_component spec cs c :
  NoDup (comp_names cs) -> c ∈ cs -> update_of (Component c) (omap (component_update spec) cs) = component_update spec c.
Proof.
  induction cs as [|c' cs IH]; simpl; [by intros _ ?%elem_of_nil|].
  intros [Hnot Hd]%NoDup_cons [-> |Hin]%elem_of_cons.
  - destruct (component_update spec c') as [u|] eqn:E.
    + unfold update_of. simpl. apply component_update_name in E. by rewrite bool_decide_eq_true_2.
    + apply update_of_None. intros (u & Eu & (c & Hc & Hin)%list_elem_of_omap)%list_elem_of_fmap.
      apply component_update_name in Hin. apply Hnot. rewrite Eu, Hin. by apply list_elem_of_fmap_2.
  - destruct (component_update spec c') as [u|] eqn:E; [|by apply IH].
    apply component_update_name in E. unfold update_of. simpl. rewrite bool_decide_eq_false_2; [by apply IH|].
    intros E'. apply Hnot. rewrite <- E, E'. by apply list_elem_of_fmap_2.
Qed.

Lemma apply_updates_names installs us cs : comp_names (apply_updates installs us cs) = comp_names cs.
Proof. unfold apply_updates. rewrite map_map. apply map_ext. intros c. by case_match. Qed.

(** ** After the updates *)

Section after.
Context (installs : gostring -> gostring) (spec : HardwareProfileSpec) (cs : list FirmwareComponent).

(** The files install the versions they are listed with, BIOS and BMC have a version
    with their URL, and the NIC versions that are there come before those that are not. *)
Record installable : Prop := mkInstallable {
  inst_versions : forall fm, fm ∈ BiosFirmware spec :: BmcFirmware spec :: NicFirmware spec ->
    Version fm <> [] -> installs (URL fm) = Version fm;
  inst_named : forall fm, fm ∈ [BiosFirmware spec; BmcFirmware spec] -> URL fm <> [] -> Version fm <> [];
  inst_order : exists a b, filter nic_wanted (NicFirmware spec) = (a ++ b)%list /\
    (forall nic, nic ∈ a -> present cs nic = true) /\ (forall nic, nic ∈ b -> present cs nic = false);
}.

Definition updated : list FirmwareComponent := apply_updates installs (isVersionChangeDetected cs spec).1 cs.

Context (distinct : NoDup (comp_names cs)).
Context (required : validateHFCHasRequiredComponents cs spec = Ret tt).

Lemma has_component_names name l l' : comp_names l = comp_names l' -> has_component name l = has_component name l'.
Proof.
  revert l'; induction l as [|c l IH]; intros [|c' l']; simpl; try done. intros [= E1 E2]. rewrite E1. f_equal. auto.
Qed.

Lemma nic_count_names l l' : comp_names l = comp_names l' -> length (filter is_nic l) = length (filter is_nic l').
Proof.
  revert l'; induction l as [|c l IH]; intros [|c' l']; try done. intros [= E1 E2]. rewrite !filter_cons.
  assert (is_nic c = is_nic c') as -> by (unfold is_nic; congruence). case_decide; simpl; auto.
Qed.

(** The required components do not depend on the versions. *)
Lemma required_names l l' :
  comp_names l = comp_names l' -> validateHFCHasRequiredComponents l spec = validateHFCHasRequiredComponents l' spec.
Proof.
  intros E. unfold validateHFCHasRequiredComponents.
  by rewrite !(has_component_names _ _ _ E), (nic_count_names _ _ E).
Qed.

Lemma required_spec :
  (Firmware_IsEmpty (BiosFirmware spec) = false -> has_component componentBIOS cs = true) /\
  (Firmware_IsEmpty (BmcFirmware spec) = false -> has_component componentBMC cs = true) /\
  (length (filter nic_wanted (NicFirmware spec)) <= length (filter is_nic cs))%nat.
Proof using required.
  unfold validateHFCHasRequiredComponents in required.
  destruct (Firmware_IsEmpty (BiosFirmware spec)), (has_component componentBIOS cs); try discriminate required;
    destruct (Firmware_IsEmpty (BmcFirmware spec)), (has_component componentBMC cs); try discriminate required;
    simpl in required; repeat case_match; try discriminate required; bools; (split_and!; [done|done|lia]).
Qed.

(** The component that is updated is the one that was. *)
Lemma updated_elem c' : c' ∈ updated ->
  exists c, c ∈ cs /\ Component c' = Component c /\
    CurrentVersion c' = match update_of (Component c) (isVersionChangeDetected cs spec).1 with
                        | Some u => installs (upd_URL u)
                        | None => CurrentVersion c
                        end.
Proof.
  unfold updated, apply_updates. intros (c & -> & Hin)%list_elem_of_fmap. exists c. split; [done|].
  unfold update_of. by case_match.
Qed.

Lemma updated_in c : c ∈ cs ->
  mkComponent (Component c) (match update_of (Component c) (isVersionChangeDetected cs spec).1 with
                             | Some u => installs (upd_URL u)
                             | None => CurrentVersion c
                             end) ∈ updated.
Proof.
  intros Hin. apply list_elem_of_fmap. exists c. split; [|done]. unfold update_of.
  by destruct (List.find _ _); destruct c.
Qed.

Lemma update_of_nic c :
  c ∈ cs -> is_nic c = true ->
  update_of (Component c) (isVersionChangeDetected cs spec).1 = update_of (Component c) (nic_updates cs [] (NicFirmware spec)).
Proof using distinct.
  intros Hin Hn. unfold isVersionChangeDetected. simpl. by rewrite update_of_app, update_of_component, firmwareMap_nic.
Qed.

Lemma update_of_firmware c :
  c ∈ cs -> is_nic c = false -> update_of (Component c) (isVersionChangeDetected cs spec).1 = component_update spec c.
Proof using distinct.
  intros Hin Hn. unfold isVersionChangeDetected. simpl. rewrite update_of_app, update_of_component by done.
  destruct (component_update spec c) eqn:E; [done|]. apply update_of_None. intros (u & Eu & Hu)%list_elem_of_fmap.
  destruct (nic_updates_components cs [] (NicFirmware spec)) as [_ Hc].
  destruct (Hc u Hu) as [_ (c' & _ & Hnic & Ec)]. unfold is_nic in *. congruence.
Qed.

Context (inst : installable).

(** Neither BIOS nor BMC is updated again. *)
Lemma updated_firmware c' : c' ∈ updated -> component_update spec c' = None.
Proof using distinct required inst.
  intros (c & Hin & En & Ev)%updated_elem. destruct (is_nic c) eqn:Hn.
  { apply firmwareMap_nic. unfold is_nic in *. congruence. }
  rewrite update_of_firmware in Ev by done. unfold component_update in *. rewrite En.
  destruct (firmwareMap spec (Component c)) as [fw|] eqn:Ef; [|done].
  destruct (Firmware_IsEmpty fw) eqn:Ee; [done|].
  destruct (decide (CurrentVersion c = Version fw)) as [E|E]; [by rewrite decide_True by congruence|].
  rewrite decide_True; [done|]. rewrite Ev. simpl.
  assert (fw ∈ [BiosFirmware spec; BmcFirmware spec]) as Hfw.
  { unfold firmwareMap in Ef. repeat case_decide; simplify_eq; set_solver. }
  apply (inst_versions inst); [set_solver|]. intros Hv. unfold Firmware_IsEmpty in Ee.
  apply andb_false_iff in Ee as [Ee|Ee]; apply bool_decide_eq_false in Ee; [done|]. by apply (inst_named inst fw Hfw Ee).
Qed.

(** Every NIC version of the profile is there. *)
Lemma updated_nics nic : nic ∈ NicFirmware spec -> nic_wanted nic = true -> present updated nic = true.
Proof using distinct required inst.
  intros Hin Hw. destruct inst as [Hv _ (a & b & Eab & Ha & Hb)].
  assert (Forall (fun nic => nic_wanted nic = true) (a ++ b)) as Hwanted.
  { rewrite <- Eab. apply Forall_forall. by intros n [?%Is_true_true_1 _]%list_elem_of_filter. }
  apply Forall_app in Hwanted as [Hwa Hwb]. rewrite Forall_forall in Hwa, Hwb.
  assert (nic_updates cs [] (NicFirmware spec) = nic_updates cs (occupied cs a []) b) as Eu.
  { rewrite nic_updates_wanted, Eab. apply nic_updates_present, Forall_forall. auto. }
  destruct (nic_updates_components cs (occupied cs a []) b) as [Hd Hc].
  assert (forall c, c ∈ cs -> is_nic c = true ->
    match update_of (Component c) (nic_updates cs (occupied cs a []) b) with
    | Some u => installs (upd_URL u) | None => CurrentVersion c end = Version nic ->
    present updated nic = true) as Hpresent.
  { intros c Hcin Hnic Hver. pose proof (updated_in c Hcin) as Hup. rewrite update_of_nic, Eu, Hver in Hup by done.
    unfold present. apply bool_decide_eq_true. by apply (nic_with_version_some _ _ Hup). }
  assert (nic ∈ (a ++ b)%list) as [Hna|Hnb]%elem_of_app.
  { rewrite <- Eab. apply list_elem_of_filter. split; [by apply Is_true_true_2|done]. }
  - specialize (Ha nic Hna). unfold present in Ha. apply bool_decide_eq_true in Ha as [c Hcv].
    pose proof (nic_with_version_elem _ _ _ Hcv) as (Hcin & Hnic & Hver). apply (Hpresent c Hcin Hnic).
    rewrite (proj2 (update_of_None _ _)); [done|]. intros (u & Ecu & Hu)%list_elem_of_fmap.
    apply (Hc u Hu). rewrite <- Ecu. by apply (occupied_elem cs a [] nic).
  - assert (URL nic ∈ map upd_URL (nic_updates cs (occupied cs a []) b)) as (u & Euu & Hu)%list_elem_of_fmap.
    { rewrite nic_updates_absent; [by apply list_elem_of_fmap_2|done|apply Forall_forall; auto|].
      destruct required_spec as (_ & _ & Hen). rewrite Eab, length_app in Hen.
      pose proof (occupied_length cs a []). pose proof (free_nics_length (occupied cs a []) cs distinct). simpl in *. lia. }
    destruct (Hc u Hu) as [_ (c & Hcin & Hnic & Ec)]. apply (Hpresent c Hcin Hnic).
    rewrite (update_of_Some _ _ u) by done. rewrite <- Euu. apply Hv; [do 2 apply list_elem_of_further; done|].
    unfold nic_wanted in Hw. by bools.
Qed.

Lemma updated_no_change : isVersionChangeDetected updated spec = ([], false).
Proof using distinct required inst.
  unfold isVersionChangeDetected.
  assert (omap (component_update spec) updated = []) as ->.
  { apply elem_of_nil_inv. intros u (c & Hc & Hu)%list_elem_of_omap. by rewrite updated_firmware in Hu. }
  rewrite nic_updates_none; [done|]. apply Forall_forall. intros nic Hin Hw. by apply updated_nics.
Qed.
End after.

(** ** The two comparisons agree *)

Section agree.
Context `{Unicode} {HU : UnicodeLaws}.

(** The key of a component in the index of the validation. *)
Definition index_key (c : FirmwareComponent) : gostring := toLower (TrimSpace (Component c)).

Lemma index_lookup cs m c :
  NoDup (map index_key cs) -> c ∈ cs ->
  fold_left index_component cs m !! index_key c = Some (normalizeVersion (CurrentVersion c)).
Proof.
  assert (forall l m k, k ∉ map index_key l -> fold_left index_component l m !! k = m !! k) as Hother.
  { induction l as [|a l IH]; intros m' k; simpl; [done|]. intros [Hne Hl]%not_elem_of_cons.
    rewrite IH by done. unfold index_component. by rewrite lookup_insert_ne. }
  revert m; induction cs as [|a cs IH]; intros m; simpl; [by intros _ ?%elem_of_nil|].
  intros [Hnot Hd]%NoDup_cons [-> |Hin]%elem_of_cons; [|by apply IH].
  rewrite Hother by done. apply lookup_insert_eq.
Qed.

Lemma names_of_keys cs : NoDup (map index_key cs) -> NoDup (comp_names cs).
Proof.
  intros Hd. apply (NoDup_fmap_1 (fun n => toLower (TrimSpace n))).
  change (NoDup (map (fun n => toLower (TrimSpace n)) (map Component cs))). by rewrite map_map.
Qed.

Lemma has_component_elem name cs : has_component name cs = true -> exists c, c ∈ cs /\ Component c = name.
Proof. intros (c & Hin & Hc)%existsb_exists. exists c. split; [by apply list_elem_of_In|by bools]. Qed.

(** A firmware that is present and is not updated has the version of the profile. *)
Lemma firmware_applied spec cs name fm kv :
  NoDup (map index_key cs) -> firmwareMap spec name = Some fm -> toLower (TrimSpace name) = name ->
  (Firmware_IsEmpty fm = false -> has_component name cs = true) -> omap (component_update spec) cs = [] ->
  kv ∈ expected_version name fm ->
  fold_left index_component cs ∅ !! kv.1 = Some kv.2.
Proof using HU.
  intros Hd Hfm Hname Hhas Hnone. unfold expected_version. case_decide as Hv; [by intros ?%elem_of_nil|].
  intros ->%list_elem_of_singleton. simpl.
  assert (Firmware_IsEmpty fm = false) as He.
  { unfold Firmware_IsEmpty. rewrite bool_decide_eq_false_2; [done|]. intros E. by rewrite E in Hv. }
  destruct (has_component_elem _ _ (Hhas He)) as (c & Hc & Ec).
  assert (component_update spec c = None) as Hcu.
  { destruct (component_update spec c) as [u|] eqn:E; [|done]. exfalso.
    assert (u ∈ omap (component_update spec) cs) as Hu by (apply list_elem_of_omap; by exists c).
    rewrite Hnone in Hu. by apply elem_of_nil in Hu. }
  unfold component_update in Hcu. rewrite Ec, Hfm, He in Hcu. case_decide as Hcv; [|done].
  pose proof (index_lookup cs ∅ c Hd Hc) as Hl. unfold index_key in Hl. rewrite Ec, Hname in Hl. rewrite Hl.
  by rewrite Hcv, normalize_trim.
Qed.

Lemma no_change_applied call_ok spec hfc objs :
  hfc_of objs = Some hfc -> call_ok GetHFC = true -> NoDup (map index_key (Components hfc)) ->
  validateHFCHasRequiredComponents (Components hfc) spec = Ret tt ->
  isVersionChangeDetected (Components hfc) spec = ([], false) ->
  validateFirmwareVersions call_ok (Some spec) objs = Ret true /\
  (forall nic, nic ∈ NicFirmware spec -> nic_wanted nic = true -> present (Components hfc) nic = true).
Proof using HU.
  unfold isVersionChangeDetected. intros Hobj Hok Hd Hreq [= Hnone%app_eq_nil _]. destruct Hnone as [Hfw Hnic]. split.
  - unfold validateFirmwareVersions. case_decide; [done|]. rewrite Hok, Hobj. simpl. f_equal.
    apply forallb_forall. intros kv Hkv%list_elem_of_In. apply bool_decide_eq_true.
    destruct (required_spec _ _ Hreq) as (Hbios & Hbmc & _).
    apply elem_of_app in Hkv as [Hkv|Hkv];
      [apply (firmware_applied spec _ componentBIOS (BiosFirmware spec))
      |apply (firmware_applied spec _ componentBMC (BmcFirmware spec))]; done || (vm_compute; reflexivity).
  - intros nic Hin Hw. pose proof (nic_updates_nil (Components hfc) [] (NicFirmware spec) (names_of_keys _ Hd)) as Hn.
    rewrite Forall_forall in Hn. apply Hn; try done. simpl. by destruct (required_spec _ _ Hreq) as (_ & _ & ?).
Qed.

(** A NIC version that is there is accepted by the validation. *)
Lemma nics_accepted cs nics :
  (forall nic, nic ∈ nics -> Version nic <> [] -> present cs nic = true) -> nics_applied cs nics = true.
Proof.
  intros Hn. apply forallb_forall. intros nic Hin%list_elem_of_In. destruct (decide (Version nic = [])) as [E|E].
  { by rewrite bool_decide_eq_true_2. }
  rewrite bool_decide_eq_false_2 by done. simpl. apply bool_decide_eq_true.
  specialize (Hn nic Hin E). unfold present in Hn. apply bool_decide_eq_true in Hn as [c Hc].
  apply nic_with_version_elem in Hc as (Hc & Hnic & Hv). unfold nicVersions. rewrite <- Hv.
  apply (list_elem_of_fmap_2 (fun c => normalizeVersion (CurrentVersion c))). apply list_elem_of_filter. split; [|done].
  rewrite Hnic, bool_decide_eq_false_2 by congruence. done.
Qed.

(** A version without a URL is an error, so every version is wanted. *)
Lemma check_nics_wanted parse i nics nic :
  check_nics parse i nics = Ret tt -> nic ∈ nics -> Version nic <> [] -> nic_wanted nic = true.
Proof.
  revert i; induction nics as [|n nics IH]; intros i; simpl; [by intros _ ?%elem_of_nil|].
  intros ([] & Hn & Hr)%bind_Ret [-> |Hin]%elem_of_cons Hv; [|by eapply IH].
  unfold check_url in Hn. rewrite decide_False in Hn by done. case_decide; [done|].
  unfold nic_wanted. by rewrite !bool_decide_eq_false_2.
Qed.

Lemma checked_wanted parse spec nic :
  validateFirmwareUpdateSpec parse spec = Ret tt -> nic ∈ NicFirmware spec -> Version nic <> [] -> nic_wanted nic = true.
Proof.
  unfold validateFirmwareUpdateSpec. intros ([] & _ & ([] & _ & Hn)%bind_Ret)%bind_Ret. by eapply check_nics_wanted.
Qed.
End agree.

(** ** What is promised of an update *)

Section firmware_properties.
Context `{Unicode} {HU : UnicodeLaws}.
Context (ParseRequestURI : gostring -> option (gostring * gostring)).

(** The decision on the firmware when the HFC is there. *)
Lemma required_inv call_ok exists_ spec vo objs objs' hfc b :
  hfc_of objs = Some hfc ->
  IsFirmwareUpdateRequired ParseRequestURI call_ok exists_ spec vo objs = (objs', Ret b) ->
  validateFirmwareUpdateSpec ParseRequestURI spec = Ret tt /\
  validateHFCHasRequiredComponents (Components hfc) spec = Ret tt /\
  (isVersionChangeDetected (Components hfc) spec).2 = b /\
  objs' = (if b && negb vo
           then mkObjects (Some (mkHFC (isVersionChangeDetected (Components hfc) spec).1 (Components hfc))) (hfs_of objs) (hup_of objs)
           else objs).
Proof using.
  intros Ho. unfold IsFirmwareUpdateRequired. rewrite Ho.
  destruct (validateFirmwareUpdateSpec ParseRequestURI spec) as [[]| | |]; try done.
  destruct (negb (call_ok GetHFC)); [done|].
  destruct (validateHFCHasRequiredComponents (Components hfc) spec) as [[]| | |]; try done.
  destruct (isVersionChangeDetected (Components hfc) spec) as [us []]; simpl; [|by intros [= <- <-]].
  destruct vo; [by intros [= <- <-]|]. destruct (call_ok UpdateHFC); [|done]. by intros [= <- <-].
Qed.

(** C35: a firmware update settles in one round.  When the update of the BIOS, the BMC
    and the NICs has been decided and the host has installed what was written to its
    HFC, no further update is required, and the validation that ends the update
    accepts the versions of BIOS, BMC and of every NIC; provided that the files
    install the versions they are listed with, and that the profile lists the NIC
    versions the host already has before those that it lacks. *)
Theorem firmware_converges (call_ok already_exists : fw_call -> bool) (installs : gostring -> gostring)
    (spec : HardwareProfileSpec) (objs objs1 : HostObjects) (hfc : HFC) :
  (forall c, call_ok c = true) -> hfc_of objs = Some hfc -> NoDup (map index_key (Components hfc)) ->
  installable installs spec (Components hfc) ->
  IsFirmwareUpdateRequired ParseRequestURI call_ok already_exists spec false objs = (objs1, Ret true) ->
  exists us, hfc_of objs1 = Some (mkHFC us (Components hfc)) /\
    let cs := apply_updates installs us (Components hfc) in
    let objs2 := mkObjects (Some (mkHFC us cs)) (hfs_of objs1) (hup_of objs1) in
    (forall vo, IsFirmwareUpdateRequired ParseRequestURI call_ok already_exists spec vo objs2 = (objs2, Ret false)) /\
    validateFirmwareVersions call_ok (Some spec) objs2 = Ret true /\ nics_applied cs (NicFirmware spec) = true.
Proof using HU.
  intros Hok Ho Hd Hi Hr. destruct (required_inv _ _ _ _ _ _ _ _ Ho Hr) as (Hs & Hreq & _ & ->).
  exists (isVersionChangeDetected (Components hfc) spec).1. split; [reflexivity|]. cbv zeta.
  change (apply_updates installs _ (Components hfc)) with (updated installs spec (Components hfc)).
  set (cs := updated installs spec (Components hfc)). set (objs2 := mkObjects _ _ _). pose proof (names_of_keys _ Hd) as Hn.
  assert (comp_names cs = comp_names (Components hfc)) as Ec by apply apply_updates_names.
  assert (NoDup (map index_key cs)) as Hd'.
  { unfold index_key. rewrite <- (map_map Component (fun n => toLower (TrimSpace n))), Ec, map_map. done. }
  assert (isVersionChangeDetected cs spec = ([], false)) as Hnone by by apply updated_no_change.
  rewrite <- (required_names spec _ _ Ec) in Hreq.
  destruct (no_change_applied call_ok spec (mkHFC (isVersionChangeDetected (Components hfc) spec).1 cs) objs2) as [Hv Hp];
    try done. split_and!; [|done|].
  - intros vo. unfold IsFirmwareUpdateRequired. rewrite Hs, Hok. subst objs2.
    cbn [negb hfc_of Components]. by rewrite Hreq, Hnone.
  - apply nics_accepted. intros nic Hin Hne. apply Hp; [done|]. by eapply checked_wanted.
Qed.

(** Nothing to change in the BIOS settings means that they are applied. *)
Lemma settings_applied call_ok already_exists VS settings vo objs objs' :
  IsBiosUpdateRequired call_ok already_exists VS settings vo objs = (objs', Ret false) ->
  exists hfs, hfs_of objs = Some hfs /\ call_ok GetHFS = true /\ objs' = objs /\
    map_Forall (setting_applied (status_Settings hfs)) settings.
Proof using.
  unfold IsBiosUpdateRequired. destruct (call_ok GetHFS); [|done]. simpl.
  destruct (hfs_of objs) as [hfs|]; [|by repeat case_match].
  destruct (validateBiosSettings _ _ _ _) as [[]| | |]; try done.
  destruct (isChangeDetected settings (status_Settings hfs)) eqn:E; simpl; [by repeat case_match|].
  intros [= <-]. exists hfs. split_and!; try done. unfold isChangeDetected in E. bools.
  intros k v Hk. unfold setting_applied. match goal with H : map_Forall _ _ |- _ => rewrite (H k v Hk) end.
  unfold equalIntOrStringWithString. generalize (TrimSpace (IntOrString_String v)). intros s.
  induction s as [|a s IH]; simpl; [done|]. unfold fold_rune. by rewrite Z.eqb_refl.
Qed.

(** The decision that a profile needs no update and the validation that an update
    is complete agree: when the BIOS settings and the firmware of a host are found to
    need no change, the validation, which compares them again by other rules (trimmed,
    case-insensitive, normalized), accepts the host, so no update is waited for that
    was not made. *)
Theorem no_update_means_valid (call_ok already_exists : fw_call -> bool)
    (ValidateSetting : gostring -> IntOrString -> bool) (spec : HardwareProfileSpec) (vo : bool)
    (objs objs' : HostObjects) :
  (forall hfc, hfc_of objs = Some hfc -> NoDup (map index_key (Components hfc))) ->
  check_profile ParseRequestURI call_ok already_exists ValidateSetting (Some spec) vo objs = (objs', Ret (false, false)) ->
  validateNodeConfiguration call_ok (Some spec) objs = Ret true /\ objs' = objs.
Proof using HU.
  intros Hd Hc. unfold check_profile in Hc.
  assert (exists hfc, hfc_of objs = Some hfc /\ call_ok GetHFC = true /\
    IsFirmwareUpdateRequired ParseRequestURI call_ok already_exists spec vo objs = (objs', Ret false) /\
    validateAppliedBiosSettings call_ok (Some spec) objs =
      (if decide (default ∅ (Bios_Attributes spec) = ∅) then Ret true
       else Ret (bool_decide (NicFirmware spec = []) || nics_applied (Components hfc) (NicFirmware spec))))
    as (hfc & Ho & Hget & Hf & Hb).
  { assert (forall o, IsFirmwareUpdateRequired ParseRequestURI call_ok already_exists spec vo o = (objs', Ret false) ->
      exists hfc, hfc_of o = Some hfc /\ call_ok GetHFC = true) as Hhfc.
    { intros o. unfold IsFirmwareUpdateRequired. destruct (validateFirmwareUpdateSpec _ _); try done.
      destruct (call_ok GetHFC); [|done]. simpl. destruct (hfc_of o) as [hfc|]; [by exists hfc|]. by repeat case_match. }
    destruct (Bios_Attributes spec) as [settings|] eqn:Ea.
    - destruct (IsBiosUpdateRequired _ _ _ settings vo objs) as [o1 r] eqn:Eb. destruct r as [b| | |]; try done.
      destruct (IsFirmwareUpdateRequired _ _ _ spec vo o1) as [o2 r] eqn:Ef. destruct r as [f| | |]; try done.
      injection Hc as -> -> ->. destruct (settings_applied _ _ _ _ _ _ _ Eb) as (hfs & Hs & Hgs & -> & Happ).
      destruct (Hhfc _ Ef) as (hfc & Ho & Hg). exists hfc. split_and!; try done.
      unfold validateAppliedBiosSettings. rewrite Ea. simpl. case_decide; [done|].
      rewrite Hgs, Hs, Hg, Ho. simpl. rewrite bool_decide_eq_true_2 by done. simpl.
      by case_decide; [rewrite bool_decide_eq_true_2|rewrite bool_decide_eq_false_2].
    - destruct (IsFirmwareUpdateRequired _ _ _ spec vo objs) as [o2 r] eqn:Ef. destruct r as [f| | |]; try done.
      injection Hc as -> ->. destruct (Hhfc _ Ef) as (hfc & Ho & Hg). exists hfc. split_and!; try done.
      unfold validateAppliedBiosSettings. by rewrite Ea. }
  destruct (required_inv _ _ _ _ _ _ _ _ Ho Hf) as (Hs & Hreq & Hch & ->).
  assert (isVersionChangeDetected (Components hfc) spec = ([], false)) as Hnone.
  { unfold isVersionChangeDetected in *. simpl in Hch. bools. match goal with H : _ = [] |- _ => by rewrite H end. }
  destruct (no_change_applied call_ok spec hfc objs Ho Hget (Hd _ Ho) Hreq Hnone) as [Hv Hp].
  split; [|done]. unfold validateNodeConfiguration. rewrite Hv, Hb.
  rewrite (nics_accepted (Components hfc)), orb_true_r; [by case_decide|].
  intros nic Hin Hne. apply Hp; [done|]. by eapply checked_wanted.
Qed.

(** The evaluation of a profile before the node is drained tells what applying it
    will do: it writes nothing, and unless a write fails it has the same answer, error
    or not, as the evaluation that writes. *)
Theorem validate_only_agrees (call_ok already_exists : fw_call -> bool)
    (ValidateSetting : gostring -> IntOrString -> bool) (profile : option HardwareProfileSpec) (objs : HostObjects) :
  (forall c, c ∈ [CreateHFC; UpdateHFC; CreateHFS; UpdateHFS] -> call_ok c = true) ->
  (check_profile ParseRequestURI call_ok already_exists ValidateSetting profile true objs).1 = objs /\
  (check_profile ParseRequestURI call_ok already_exists ValidateSetting profile true objs).2 =
  (check_profile ParseRequestURI call_ok already_exists ValidateSetting profile false objs).2.
Proof using.
  intros Hw.
  assert (call_ok CreateHFC = true /\ call_ok UpdateHFC = true /\ call_ok CreateHFS = true /\ call_ok UpdateHFS = true)
    as (Hw1 & Hw2 & Hw3 & Hw4) by (split_and!; apply Hw; rewrite !elem_of_cons; auto 6). clear Hw.
  assert (forall spec o o', hfc_of o' = hfc_of o ->
    (IsFirmwareUpdateRequired ParseRequestURI call_ok already_exists spec true o).1 = o /\
    (IsFirmwareUpdateRequired ParseRequestURI call_ok already_exists spec true o).2 =
    (IsFirmwareUpdateRequired ParseRequestURI call_ok already_exists spec false o').2) as Hf.
  { intros spec o o' E. unfold IsFirmwareUpdateRequired. rewrite E, Hw1, Hw2. by repeat case_match. }
  assert (forall settings,
    (IsBiosUpdateRequired call_ok already_exists ValidateSetting settings true objs).1 = objs /\
    (IsBiosUpdateRequired call_ok already_exists ValidateSetting settings true objs).2 =
    (IsBiosUpdateRequired call_ok already_exists ValidateSetting settings false objs).2 /\
    hfc_of (IsBiosUpdateRequired call_ok already_exists ValidateSetting settings false objs).1 = hfc_of objs) as Hb.
  { intros settings. unfold IsBiosUpdateRequired. rewrite Hw3, Hw4. by repeat case_match. }
  unfold check_profile. destruct profile as [spec|]; [|done]. destruct (Bios_Attributes spec) as [settings|].
  - destruct (Hb settings) as (E1 & E2 & E3).
    destruct (IsBiosUpdateRequired _ _ _ settings true objs) as [o1 r1], (IsBiosUpdateRequired _ _ _ settings false objs) as [o2 r2].
    simpl in *. subst o1 r2. destruct r1 as [b| | |]; try done. destruct (Hf spec objs o2 E3) as [E4 E5].
    destruct (IsFirmwareUpdateRequired _ _ _ spec true objs) as [o3 r3], (IsFirmwareUpdateRequired _ _ _ spec false o2) as [o4 r4].
    simpl in *. by subst.
  - destruct (Hf spec objs objs eq_refl) as [E4 E5].
    destruct (IsFirmwareUpdateRequired _ _ _ spec true objs) as [o3 r3], (IsFirmwareUpdateRequired _ _ _ spec false objs) as [o4 r4].
    simpl in *. by subst.
Qed.
End firmware_properties.

(** ** A concrete host *)

(** Any text that is not empty is a URL, and installs the version named in it. *)
Definition any_url (u : gostring) : option (gostring * gostring) := Some (u, u).
Definition calls_fine (_ : fw_call) : bool := true.
Definition no_race (_ : fw_call) : bool := false.
Definition named_in_url (url : gostring) : gostring := drop 5 url.

Definition firmware_of (v : string) : Firmware := mkFirmware (lit v) (lit "http:" ++ lit v)%list.
Definition no_firmware : Firmware := mkFirmware [] [].

Definition example_hfc : HFC :=
  mkHFC [] [mkComponent (lit "bios") (lit "U30"); mkComponent (lit "bmc") (lit "v2.7");
            mkComponent (lit "nic:1") (lit "22.1"); mkComponent (lit "nic:2") (lit "20.0")].
Definition example_profile : HardwareProfileSpec :=
  mkProfile None (firmware_of "U32") (firmware_of "v2.7") [firmware_of "22.1"; firmware_of "23.0"].
Definition example_objects : HostObjects := mkObjects (Some example_hfc) None None.

Lemma example_installable : installable named_in_url example_profile (Components example_hfc).
Proof.
  split.
  - intros fm Hfm _. simpl in Hfm. repeat (apply elem_of_cons in Hfm as [-> |Hfm]; [vm_compute; reflexivity|]).
    by apply elem_of_nil in Hfm.
  - intros fm Hfm _. simpl in Hfm. repeat (apply elem_of_cons in Hfm as [-> |Hfm]; [vm_compute; discriminate|]).
    by apply elem_of_nil in Hfm.
  - exists [firmware_of "22.1"], [firmware_of "23.0"]. split; [vm_compute; reflexivity|].
    split; intros nic ->%list_elem_of_singleton; vm_compute; reflexivity.
Qed.

Lemma firmware_converges_witness :
  exists us, us = [mkUpdate (lit "bios") (lit "http:U32"); mkUpdate (lit "nic:2") (lit "http:23.0")] /\
    @validateFirmwareVersions ascii_unicode calls_fine (Some example_profile)
      (mkObjects (Some (mkHFC us (apply_updates named_in_url us (Components example_hfc)))) None None) = Ret true.
Proof.
  destruct (@firmware_converges ascii_unicode ascii_unicode_laws any_url calls_fine no_race named_in_url example_profile
    example_objects (IsFirmwareUpdateRequired any_url calls_fine no_race example_profile false example_objects).1
    example_hfc) as (us & Hus & _ & Hv & _).
  - done.
  - done.
  - apply (bool_decide_unpack _). vm_compute. exact I.
  - exact example_installable.
  - vm_compute. reflexivity.
  - exists us. split; [|exact Hv]. vm_compute in Hus. injection Hus as Hus. rewrite <- Hus. vm_compute. reflexivity.
Defined.

Lemma no_update_means_valid_witness :
  @validateNodeConfiguration ascii_unicode calls_fine
    (Some (mkProfile (Some ∅) (firmware_of "U30") no_firmware [firmware_of "20.0"]))
    (mkObjects (Some example_hfc) (Some (mkHFS ∅ ∅ (Some (lit "schema", lit "ns")))) None) = Ret true.
Proof.
  apply (@no_update_means_valid ascii_unicode ascii_unicode_laws any_url calls_fine no_race (fun _ _ => true)
    (mkProfile (Some ∅) (firmware_of "U30") no_firmware [firmware_of "20.0"]) true
    (mkObjects (Some example_hfc) (Some (mkHFS ∅ ∅ (Some (lit "schema", lit "ns")))) None)
    (mkObjects (Some example_hfc) (Some (mkHFS ∅ ∅ (Some (lit "schema", lit "ns")))) None)).
  - intros hfc [= <-]. apply (bool_decide_unpack _). vm_compute. exact I.
  - vm_compute. reflexivity.
Defined.

Lemma validate_only_agrees_witness :
  (check_profile any_url calls_fine no_race (fun _ _ => true) (Some example_profile) true example_objects).2 =
  Ret (false, true).
Proof.
  rewrite (proj2 (validate_only_agrees any_url calls_fine no_race (fun _ _ => true) (Some example_profile)
    example_objects (fun _ _ => eq_refl))).
  vm_compute. reflexivity.
Defined.

(** ** Where it does not settle *)

(** A NIC version that is missing and listed before one that is there overwrites the
    NIC that has it: when the host has done everything it was told, the validation
    finds a version missing, and nothing tells the host to install it. *)
Lemma nic_order_lost :
  let nics := [firmware_of "23.0"; firmware_of "22.1"] in
  let spec := mkProfile None no_firmware no_firmware nics in
  let us := (isVersionChangeDetected (Components example_hfc) spec).1 in
  us = [mkUpdate (lit "nic:1") (lit "http:23.0")] /\
  @nics_applied ascii_unicode (apply_updates named_in_url us (Components example_hfc)) nics = false.
Proof. vm_compute. done. Qed.

(** The NICs are only looked at when the profile has BIOS attributes. *)
Lemma nics_not_validated :
  let spec := mkProfile None no_firmware no_firmware [firmware_of "23.0"] in
  @validateNodeConfiguration ascii_unicode calls_fine (Some spec) example_objects = Ret true /\
  @nics_applied ascii_unicode (Components example_hfc) (NicFirmware spec) = false.
Proof. vm_compute. done. Qed.

(** A version with a leading v that the host reports without it is installed again
    each time the profile is applied, and was valid all along. *)
Lemma prefix_updates_again :
  let spec := mkProfile None no_firmware (firmware_of "2.7") [] in
  (IsFirmwareUpdateRequired any_url calls_fine no_race spec true example_objects).2 = Ret true /\
  @validateFirmwareVersions ascii_unicode calls_fine (Some spec) example_objects = Ret true.
Proof. vm_compute. done. Qed.
