(* ===== verification/Unstructured.v ===== *)
(** * Dynamic objects of the API (apimachinery's unstructured package, as the
      controllers use it)

    The spec of a ClusterInstance is a [value]; a type assertion on it is a match. *)
From S2P Require Import Prelude GoText MergeMaps.
#[local] Open Scope string_scope.

Abbreviation object_map := (list (string * value)).

Definition VStr (s : string) : value := VLeaf "string" s.

(** [m[key].(string)]: [None] when the assertion fails. *)
Definition string_field (key : string) (m : object_map) : option string :=
  match assoc_lookup key m with
  | Some (VLeaf "string" s) => Some s
  | _ => None
  end.

(** The string, or the empty string: [s, _ := m[key].(string)], and
    [unstructured.NestedString] without its error. *)
Definition string_or_empty (key : string) (m : object_map) : string :=
  match string_field key m with Some s => s | None => "" end.

Definition map_field (key : string) (m : object_map) : option object_map :=
  match assoc_lookup key m with Some (VMap m') => Some m' | _ => None end.
Definition slice_field (key : string) (m : object_map) : option (list value) :=
  match assoc_lookup key m with Some (VSlice l) => Some l | _ => None end.

(** [unstructured.NestedSlice(obj, key1, key2)]: the slice and whether it is there, or
    [None] when a value on the way has another type. *)
Definition NestedSlice2 (key1 key2 : string) (m : object_map) : option (option (list value)) :=
  match assoc_lookup key1 m with
  | None => Some None
  | Some VNil => Some None
  | Some (VMap m') =>
      match assoc_lookup key2 m' with
      | None => Some None
      | Some (VSlice l) => Some (Some l)
      | Some _ => None
      end
  | Some _ => None
  end.

(** The object of a resource with this spec. *)
Definition with_spec (spec : value) : object_map := [("spec", spec)].

(** [spec["nodes"].([]any)], after [obj["spec"].(map[string]any)]. *)
Definition spec_nodes (spec : value) : option (list value) :=
  match spec with VMap m => slice_field "nodes" m | _ => None end.

Definition node_hostname (m : object_map) : string := string_or_empty "hostName" m.

(** provisioningrequest_clusterinstall.go [getNodeRolesByHostname]: a later node with
    the same name wins. *)
Definition add_role (roles : gmap string string) (node : value) : gmap string string :=
  match node with
  | VMap m =>
      let hostname := node_hostname m in
      let role := string_or_empty "role" m in
      if bool_decide (hostname = "") || bool_decide (role = "") then roles else <[hostname := role]> roles
  | _ => roles
  end.

Definition getNodeRolesByHostname (spec : value) : gmap string string :=
  match spec_nodes spec with Some nodes => fold_left add_role nodes ∅ | None => ∅ end.

(** [len] of the map. *)
Definition node_count (spec : value) : Z := Z.of_nat (size (getNodeRolesByHostname spec)).

(** [unstructured.SetNestedSlice(obj, nodes, "spec", "nodes")] *)
Definition set_nodes (nodes : list value) (spec : value) : value :=
  match spec with VMap m => VMap (set_key "nodes" (VSlice nodes) m) | _ => VMap [("nodes", VSlice nodes)] end.

Lemma spec_nodes_set nodes m : spec_nodes (set_nodes nodes (VMap m)) = Some nodes.
Proof. unfold spec_nodes, set_nodes, slice_field. by rewrite lookup_set_key_eq. Qed.
