(* ===== verification/Handler.v ===== *)
(** * Handlers: programs over a state that may fail or panic

    The reconcilers of the controllers are methods on a task: they change its fields,
    call the API server, and return early on errors.  A handler is such a method: a
    function of the state to the state it leaves (also when it fails) and an outcome. *)
From S2P Require Import Prelude.

Definition handler (S E A : Type) : Type := S -> S * outcome E A.

Section handler.
Context {S E : Type}.

#[export] Instance handler_ret : MRet (handler S E) := fun _ a s => (s, Ret a).
#[export] Instance handler_bind : MBind (handler S E) := fun _ _ k m s =>
  match m s with
  | (s', Ret a) => k a s'
  | (s', Err e) => (s', Err e)
  | (s', Panic) => (s', Panic)
  | (s', NoFuel) => (s', NoFuel)
  end.

Definition get_state : handler S E S := fun s => (s, Ret s).
Definition modify (f : S -> S) : handler S E unit := fun s => (f s, Ret tt).
Definition raise {A} (e : E) : handler S E A := fun s => (s, Err e).
Definition panic {A} : handler S E A := fun s => (s, Panic).

(** [if err := m; err != nil { ... }]: the error is a value. *)
Definition try {A} (m : handler S E A) : handler S E (E + A) := fun s =>
  match m s with
  | (s', Ret a) => (s', Ret (inr a))
  | (s', Err e) => (s', Ret (inl e))
  | (s', Panic) => (s', Panic)
  | (s', NoFuel) => (s', NoFuel)
  end.

(** [if b { m }] *)
Definition when (b : bool) (m : handler S E unit) : handler S E unit := if b then m else mret tt.

(** [for _, x := range l { f(x) }], left at the first error. *)
Fixpoint for_each {A} (l : list A) (f : A -> handler S E unit) : handler S E unit :=
  match l with
  | [] => mret tt
  | x :: l' => _ ← f x; for_each l' f
  end.

(** ** Weakest preconditions *)

(** After [m], the state and the outcome satisfy [Q]. *)
Definition wp {A} (m : handler S E A) (Q : S -> outcome E A -> Prop) (s : S) : Prop := Q (m s).1 (m s).2.

(** A postcondition that passes errors and panics on. *)
Definition through {A B} (k : A -> S -> Prop) (Q : S -> outcome E B -> Prop) (s : S) (r : outcome E A) : Prop :=
  match r with
  | Ret a => k a s
  | Err e => Q s (Err e)
  | Panic => Q s Panic
  | NoFuel => Q s NoFuel
  end.

Lemma wp_bind {A B} (m : handler S E A) (k : A -> handler S E B) Q s :
  wp m (through (fun a => wp (k a) Q) Q) s -> wp (m ≫= k) Q s.
Proof. unfold wp, through, mbind, handler_bind. by destruct (m s) as [s' []]. Qed.

Lemma wp_ret {A} (a : A) (Q : S -> outcome E A -> Prop) s : Q s (Ret a) -> wp (mret a) Q s.
Proof. done. Qed.
Lemma wp_raise {A} e (Q : S -> outcome E A -> Prop) s : Q s (Err e) -> wp (raise e) Q s.
Proof. done. Qed.
Lemma wp_get (Q : S -> outcome E S -> Prop) s : Q s (Ret s) -> wp get_state Q s.
Proof. done. Qed.
Lemma wp_modify f (Q : S -> outcome E unit -> Prop) s : Q (f s) (Ret tt) -> wp (modify f) Q s.
Proof. done. Qed.

Lemma wp_try {A} (m : handler S E A) Q s :
  wp m (fun s' r => match r with
                    | Ret a => Q s' (Ret (inr a))
                    | Err e => Q s' (Ret (inl e))
                    | Panic => Q s' Panic
                    | NoFuel => Q s' NoFuel
                    end) s -> wp (try m) Q s.
Proof. unfold wp, try. by destruct (m s) as [s' []]. Qed.

Lemma wp_mono {A} (m : handler S E A) (P Q : S -> outcome E A -> Prop) s :
  wp m P s -> (forall s' r, P s' r -> Q s' r) -> wp m Q s.
Proof. unfold wp. auto. Qed.

Lemma wp_and {A} (m : handler S E A) (P Q : S -> outcome E A -> Prop) s :
  wp m P s -> wp m Q s -> wp m (fun s' r => P s' r /\ Q s' r) s.
Proof. unfold wp. auto. Qed.

(** ** Frames: whatever a handler returns, the states before and after it are related *)

Section frame.
Context {R : relation S} `{!PreOrder R}.

Definition preserves (R : relation S) {A} (m : handler S E A) : Prop := forall s, R s (m s).1.

Lemma preserves_ret {A} (a : A) : preserves R (mret a).
Proof. intros s. reflexivity. Qed.
Lemma preserves_raise {A} e : preserves R (raise e : handler S E A).
Proof. intros s. reflexivity. Qed.
Lemma preserves_panic {A} : preserves R (panic : handler S E A).
Proof. intros s. reflexivity. Qed.
Lemma preserves_get : preserves R get_state.
Proof. intros s. reflexivity. Qed.
Lemma preserves_modify f : (forall s, R s (f s)) -> preserves R (modify f).
Proof. by intros Hf s. Qed.
Lemma preserves_bind {A B} (m : handler S E A) (k : A -> handler S E B) :
  preserves R m -> (forall a, preserves R (k a)) -> preserves R (m ≫= k).
Proof.
  intros Hm Hk s. specialize (Hm s). unfold mbind, handler_bind.
  destruct (m s) as [s' []]; try done. etransitivity; [exact Hm|apply Hk].
Qed.
Lemma preserves_try {A} (m : handler S E A) : preserves R m -> preserves R (try m).
Proof. intros Hm s. specialize (Hm s). unfold try. by destruct (m s) as [s' []]. Qed.
Lemma preserves_when b (m : handler S E unit) : preserves R m -> preserves R (when b m).
Proof. intros Hm. destruct b; [done|apply preserves_ret]. Qed.
Lemma preserves_for_each {A} (l : list A) f : (forall x, preserves R (f x)) -> preserves R (for_each l f).
Proof.
  intros Hf. induction l as [|x l IH]; cbn [for_each]; [apply preserves_ret|].
  apply preserves_bind; [apply Hf|]. by intros _.
Qed.
Lemma wp_preserves {A} (m : handler S E A) s : preserves R m -> wp m (fun s' _ => R s s') s.
Proof. intros Hm. apply Hm. Qed.
(** The same from one state, or after a first part with a postcondition. *)
Lemma from_bind {A B} s (m : handler S E A) (k : A -> handler S E B) :
  R s (m s).1 -> (forall a, preserves R (k a)) -> R s ((m ≫= k) s).1.
Proof.
  intros Hm Hk. unfold mbind, handler_bind.
  destruct (m s) as [s' []]; try done. etransitivity; [exact Hm|apply Hk].
Qed.
Lemma from_bind_post {A B} s (m : handler S E A) (k : A -> handler S E B) (F : A -> S -> Prop) :
  R s (m s).1 -> wp m (fun s' r => match r with Ret a => F a s' | _ => True end) s ->
  (forall a s', F a s' -> R s' (k a s').1) -> R s ((m ≫= k) s).1.
Proof.
  unfold wp, mbind, handler_bind. intros Hm Hp Hk.
  destruct (m s) as [s' []]; try done. etransitivity; [exact Hm|by apply Hk].
Qed.
End frame.

(** ** Triples with two postconditions: of a return, and of an error or a panic *)

Definition leads (P : S -> Prop) {A} (m : handler S E A) (Q : A -> S -> Prop) (X : S -> Prop) : Prop :=
  forall s, P s -> wp m (fun s' r => match r with Ret a => Q a s' | _ => X s' end) s.

Lemma leads_ret {A} (P : S -> Prop) (a : A) (Q : A -> S -> Prop) X :
  (forall s, P s -> Q a s) -> leads P (mret a) Q X.
Proof. by intros HQ s HP; apply wp_ret, HQ. Qed.
Lemma leads_raise {A} (P : S -> Prop) e (Q : A -> S -> Prop) (X : S -> Prop) :
  (forall s, P s -> X s) -> leads P (raise e) Q X.
Proof. by intros HX s HP; apply wp_raise, HX. Qed.
Lemma leads_bind {A B} P (m : handler S E A) (k : A -> handler S E B) R Q X :
  leads P m R X -> (forall a, leads (R a) (k a) Q X) -> leads P (m ≫= k) Q X.
Proof.
  intros Hm Hk s HP. apply wp_bind. eapply wp_mono; [by apply Hm|].
  intros s' [] Hs; cbn [through]; try exact Hs. by apply Hk.
Qed.
Lemma leads_try {A} P (m : handler S E A) Q X :
  leads P m Q X -> leads P (try m) (fun r s => match r with inr a => Q a s | inl _ => X s end) X.
Proof.
  intros Hm s HP. apply wp_try. eapply wp_mono; [by apply Hm|]. by intros s' [].
Qed.
Lemma leads_mono {A} (P P' : S -> Prop) (m : handler S E A) (Q Q' : A -> S -> Prop) (X X' : S -> Prop) :
  leads P m Q X -> (forall s, P' s -> P s) -> (forall a s, Q a s -> Q' a s) -> (forall s, X s -> X' s) ->
  leads P' m Q' X'.
Proof.
  intros Hm HP HQ HX s Hs. eapply wp_mono; [apply Hm; auto|]. intros s' []; auto.
Qed.
Lemma leads_when {A} (P P' : S -> Prop) (m : handler S E A) Q X :
  (forall s, P' s -> P s) -> leads P m Q X -> leads P' m Q X.
Proof. intros HP Hm s Hs. apply Hm, HP, Hs. Qed.
Lemma leads_pre {A} (P : S -> Prop) (F : Prop) (m : handler S E A) Q X :
  (F -> leads P m Q X) -> leads (fun s => F /\ P s) m Q X.
Proof. intros Hm s [HF HP]. by apply Hm. Qed.
Lemma leads_any {A} P (m : handler S E A) : leads P m (fun _ _ => True) (fun _ => True).
Proof. intros s _. unfold wp. by destruct (m s) as [s' []]. Qed.
Lemma leads_frame {A} R (P P' : S -> Prop) (m : handler S E A) :
  preserves R m -> (forall s s', P s -> R s s' -> P' s') -> leads P m (fun _ => P') P'.
Proof.
  intros Hm HR s HP. specialize (Hm s). specialize (HR s).
  unfold wp. destruct (m s) as [s' []]; simpl in *; auto.
Qed.
Lemma leads_keep {A} R (P P' : S -> Prop) (m : handler S E A) :
  preserves R m -> (forall s s', P s -> R s s' -> P' s') -> leads P m (fun _ => P') (fun _ => True).
Proof. intros Hm HR. eapply leads_mono; [by eapply leads_frame|done..]. Qed.
End handler.

(** The function of an application: what a walk through a program unfolds. *)
Ltac head t := match t with ?f _ => head f | _ => t end.
