(* ===== verification/ProvisioningStatus.v ===== *)
(** * The status of a ProvisioningRequest (api/provisioning/v1alpha1,
      controllers/utils/conditions.go)

    The resource with the fields its reconciler reads and writes, the setters of the
    provisioning phase, and the predicates on the conditions.  Times are in
    nanoseconds; a nil or zero time is [None]. *)
From S2P Require Import Prelude Conditions GoText.
#[local] Open Scope Z_scope.

(** ** conditions.go (api): types and reasons *)

Module PRconditionTypes.
Abbreviation Validated := "ProvisioningRequestValidated"%string.
Abbreviation NodeAllocationRequestRendered := "NodeAllocationRequestRendered"%string.
Abbreviation HardwareProvisioned := "HardwareProvisioned"%string.
Abbreviation HardwareNodeConfigApplied := "HardwareNodeConfigApplied"%string.
Abbreviation HardwareConfigured := "HardwareConfigured"%string.
Abbreviation ClusterInstanceRendered := "ClusterInstanceRendered"%string.
Abbreviation ClusterResourcesCreated := "ClusterResourcesCreated"%string.
Abbreviation ClusterInstanceProcessed := "ClusterInstanceProcessed"%string.
Abbreviation ClusterProvisioned := "ClusterProvisioned"%string.
Abbreviation ConfigurationApplied := "ConfigurationApplied"%string.
Abbreviation UpgradeCompleted := "UpgradeCompleted"%string.
Abbreviation SeedGenerationRegistryValidated := "SeedGenerationRegistryValidated"%string.
Abbreviation SeedGenerationISOUploadValidated := "SeedGenerationISOUploadValidated"%string.
Abbreviation SeedGenerationCompleted := "SeedGenerationCompleted"%string.
End PRconditionTypes.

Module CRconditionReasons.
Abbreviation NotApplied := "NotApplied"%string.
Abbreviation ClusterNotReady := "ClusterNotReady"%string.
Abbreviation Completed := "Completed"%string.
Abbreviation Failed := "Failed"%string.
Abbreviation InProgress := "InProgress"%string.
Abbreviation Missing := "Missing"%string.
Abbreviation Pending := "Pending"%string.
Abbreviation AwaitingStageAuthorization := "AwaitingStageAuthorization"%string.
Abbreviation OutOfDate := "OutOfDate"%string.
Abbreviation PreconditionChecksFailed := "PreconditionChecksFailed"%string.
Abbreviation TimedOut := "TimedOut"%string.
Abbreviation Unknown := "Unknown"%string.
Abbreviation Validating := "Validating"%string.
Abbreviation CleaningACMResources := "CleaningACMResources"%string.
Abbreviation BuildingISO := "BuildingISO"%string.
End CRconditionReasons.

(** The unset phase of a new resource is [StateNone]. *)
Inductive ProvisioningPhase : Type :=
| StateNone | StatePending | StateProgressing | StateFulfilled | StateFailed | StateDeleting.
#[export] Instance ProvisioningPhase_eq_dec : EqDecision ProvisioningPhase.
Proof. solve_decision. Defined.

(** ** provisioningrequest_types.go *)

Record WorkerPoolUpgradeStage := mkStage {
  stage_Name : string;
  stage_Pools : list string;
  stage_State : string;
  stage_StartedAt : option Z;
  stage_CompletedAt : option Z;
}.

Record WorkerPoolUpgradeStatus := mkWorkerPools {
  Strategy : string;
  PoolsWithControlPlane : list string;
  Stages : list WorkerPoolUpgradeStage;
  UpgradeThrough : string;
  PauseStateManaged : bool;
}.

Record ClusterUpgradeStatus := mkUpgrade {
  up_StartedAt : option Z;
  ClusterVersionCompletedAt : option Z;
  AccumulatedSuspendedDuration : option Z;
  TimeoutSuspendedAt : option Z;
  StartVersion : string;
  IntermediateVersion : string;
  WorkerPoolUpgrade : option WorkerPoolUpgradeStatus;
}.

Record ConfigMapKeyRef := mkKeyRef { ref_Name : string; ref_Namespace : string; ref_Key : string }.

(** A run of seed generation. *)
Record SeedGenerationStatus := mkSeed {
  seed_StartedAt : option Z;
  TimeoutSeconds : Z;
  DetachmentStarted : bool;
  ClusterID : string;
  ManagedClusterUID : string;
  KlusterletUID : string;
  AgentDetachmentCompleted : bool;
  DetachedCleanupCompleted : bool;
  SeedGeneratorSubmitted : bool;
  SeedGeneratorFinished : bool;
  ReleaseImageDigest : string;
  SeedImage : string;
  ISOJobSubmitted : bool;
  ISOJobSubmittedAt : option Z;
  ISOJobSpecHash : string;
  ISOJobUID : string;
  ISOUploadCleanupDeadline : option Z;
  ISOUploadCleanupCompleted : bool;
  ISOURL : string;
  ISODigest : string;
  ISOFailureDiagnosticsRef : option ConfigMapKeyRef;
  ISOFailureDiagnosticsExpiresAt : option Z;
  ISOServerCACertRef : option ConfigMapKeyRef;
  InputSnapshotResourceUIDs : gmap string string;
}.

Record ClusterDetails := mkClusterDetails {
  cd_Name : string;
  ZtpStatus : string;
  ClusterProvisionStartedAt : option Z;
  NonCompliantAt : option Z;
  UpgradeStatus : option ClusterUpgradeStatus;
  SeedStatus : option SeedGenerationStatus;
  FulfilledNodeCount : Z;
}.

#[export] Instance WorkerPoolUpgradeStage_eq_dec : EqDecision WorkerPoolUpgradeStage.
Proof. solve_decision. Defined.
#[export] Instance WorkerPoolUpgradeStatus_eq_dec : EqDecision WorkerPoolUpgradeStatus.
Proof. solve_decision. Defined.
#[export] Instance ClusterUpgradeStatus_eq_dec : EqDecision ClusterUpgradeStatus.
Proof. solve_decision. Defined.
#[export] Instance ConfigMapKeyRef_eq_dec : EqDecision ConfigMapKeyRef.
Proof. solve_decision. Defined.
#[export] Instance SeedGenerationStatus_eq_dec : EqDecision SeedGenerationStatus.
Proof. solve_decision. Defined.
#[export] Instance ClusterDetails_eq_dec : EqDecision ClusterDetails.
Proof. solve_decision. Defined.

Record PolicyDetails := mkPolicy {
  Compliant : string;
  PolicyName : string;
  PolicyNamespace : string;
  RemediationAction : string;
}.

Inductive ResourceProvisioningPhase : Type := PROCESSING | PROVISIONED | AWAITING_FREE_RESOURCES | FAILED.

Record InfrastructureResourceStatus := mkResource {
  ResourceName : string;
  ResourceId : string;
  ResourcePhase : ResourceProvisioningPhase;
}.

Record ProvisioningRequest := mkPR {
  Name : string;
  UID : string;
  TemplateName : string;
  TemplateVersion : string;
  Generation : Z;
  ObservedGeneration : Z;
  SkipCleanup : bool;                    (* the skip-cleanup annotation *)
  HasFinalizer : bool;
  BeingDeleted : bool;                   (* the deletion timestamp is set *)
  Conditions : list Condition;
  Phase : ProvisioningPhase;
  Details : string;
  UpdateTime : option Z;
  OCloudNodeClusterId : option string;   (* of the provisioned resources *)
  Cluster : option ClusterDetails;
  AllocatedNodeHostMap : gmap string string;
  Policies : list PolicyDetails;
  InfrastructureResourceStatuses : list InfrastructureResourceStatus;
}.

#[export] Instance ResourceProvisioningPhase_eq_dec : EqDecision ResourceProvisioningPhase.
Proof. solve_decision. Defined.
#[export] Instance InfrastructureResourceStatus_eq_dec : EqDecision InfrastructureResourceStatus.
Proof. solve_decision. Defined.

(** ** Assignments *)

Definition with_observed (g : Z) (o : ProvisioningRequest) : ProvisioningRequest :=
  mkPR (Name o) (UID o) (TemplateName o) (TemplateVersion o) (Generation o) g (SkipCleanup o) (HasFinalizer o)
    (BeingDeleted o) (Conditions o) (Phase o) (Details o) (UpdateTime o) (OCloudNodeClusterId o)
    (Cluster o) (AllocatedNodeHostMap o) (Policies o) (InfrastructureResourceStatuses o).
Definition with_finalizer (b : bool) (o : ProvisioningRequest) : ProvisioningRequest :=
  mkPR (Name o) (UID o) (TemplateName o) (TemplateVersion o) (Generation o) (ObservedGeneration o) (SkipCleanup o) b
    (BeingDeleted o) (Conditions o) (Phase o) (Details o) (UpdateTime o) (OCloudNodeClusterId o)
    (Cluster o) (AllocatedNodeHostMap o) (Policies o) (InfrastructureResourceStatuses o).
Definition with_conditions (cs : list Condition) (o : ProvisioningRequest) : ProvisioningRequest :=
  mkPR (Name o) (UID o) (TemplateName o) (TemplateVersion o) (Generation o) (ObservedGeneration o) (SkipCleanup o)
    (HasFinalizer o) (BeingDeleted o) cs (Phase o) (Details o) (UpdateTime o) (OCloudNodeClusterId o)
    (Cluster o) (AllocatedNodeHostMap o) (Policies o) (InfrastructureResourceStatuses o).
Definition with_phase (p : ProvisioningPhase) (details : string) (t : option Z) (o : ProvisioningRequest)
    : ProvisioningRequest :=
  mkPR (Name o) (UID o) (TemplateName o) (TemplateVersion o) (Generation o) (ObservedGeneration o) (SkipCleanup o)
    (HasFinalizer o) (BeingDeleted o) (Conditions o) p details t (OCloudNodeClusterId o)
    (Cluster o) (AllocatedNodeHostMap o) (Policies o) (InfrastructureResourceStatuses o).
Definition with_cluster_id (id : string) (o : ProvisioningRequest) : ProvisioningRequest :=
  mkPR (Name o) (UID o) (TemplateName o) (TemplateVersion o) (Generation o) (ObservedGeneration o) (SkipCleanup o)
    (HasFinalizer o) (BeingDeleted o) (Conditions o) (Phase o) (Details o) (UpdateTime o) (Some id)
    (Cluster o) (AllocatedNodeHostMap o) (Policies o) (InfrastructureResourceStatuses o).
Definition with_cluster (c : option ClusterDetails) (o : ProvisioningRequest) : ProvisioningRequest :=
  mkPR (Name o) (UID o) (TemplateName o) (TemplateVersion o) (Generation o) (ObservedGeneration o) (SkipCleanup o)
    (HasFinalizer o) (BeingDeleted o) (Conditions o) (Phase o) (Details o) (UpdateTime o)
    (OCloudNodeClusterId o) c (AllocatedNodeHostMap o) (Policies o) (InfrastructureResourceStatuses o).
Definition with_host_map (m : gmap string string) (o : ProvisioningRequest) : ProvisioningRequest :=
  mkPR (Name o) (UID o) (TemplateName o) (TemplateVersion o) (Generation o) (ObservedGeneration o) (SkipCleanup o)
    (HasFinalizer o) (BeingDeleted o) (Conditions o) (Phase o) (Details o) (UpdateTime o)
    (OCloudNodeClusterId o) (Cluster o) m (Policies o) (InfrastructureResourceStatuses o).
Definition with_policies (ps : list PolicyDetails) (o : ProvisioningRequest) : ProvisioningRequest :=
  mkPR (Name o) (UID o) (TemplateName o) (TemplateVersion o) (Generation o) (ObservedGeneration o) (SkipCleanup o)
    (HasFinalizer o) (BeingDeleted o) (Conditions o) (Phase o) (Details o) (UpdateTime o)
    (OCloudNodeClusterId o) (Cluster o) (AllocatedNodeHostMap o) ps (InfrastructureResourceStatuses o).
Definition with_resources (rs : list InfrastructureResourceStatus) (o : ProvisioningRequest)
    : ProvisioningRequest :=
  mkPR (Name o) (UID o) (TemplateName o) (TemplateVersion o) (Generation o) (ObservedGeneration o) (SkipCleanup o)
    (HasFinalizer o) (BeingDeleted o) (Conditions o) (Phase o) (Details o) (UpdateTime o)
    (OCloudNodeClusterId o) (Cluster o) (AllocatedNodeHostMap o) (Policies o) rs.

Definition with_name (n : string) (c : ClusterDetails) : ClusterDetails :=
  mkClusterDetails n (ZtpStatus c) (ClusterProvisionStartedAt c) (NonCompliantAt c) (UpgradeStatus c)
    (SeedStatus c) (FulfilledNodeCount c).
Definition with_ztp (s : string) (c : ClusterDetails) : ClusterDetails :=
  mkClusterDetails (cd_Name c) s (ClusterProvisionStartedAt c) (NonCompliantAt c) (UpgradeStatus c)
    (SeedStatus c) (FulfilledNodeCount c).
Definition with_started (t : option Z) (c : ClusterDetails) : ClusterDetails :=
  mkClusterDetails (cd_Name c) (ZtpStatus c) t (NonCompliantAt c) (UpgradeStatus c)
    (SeedStatus c) (FulfilledNodeCount c).
Definition with_noncompliant (t : option Z) (c : ClusterDetails) : ClusterDetails :=
  mkClusterDetails (cd_Name c) (ZtpStatus c) (ClusterProvisionStartedAt c) t (UpgradeStatus c)
    (SeedStatus c) (FulfilledNodeCount c).
Definition with_count (n : Z) (c : ClusterDetails) : ClusterDetails :=
  mkClusterDetails (cd_Name c) (ZtpStatus c) (ClusterProvisionStartedAt c) (NonCompliantAt c) (UpgradeStatus c)
    (SeedStatus c) n.
(** The fields of a run that its steps assign. *)
Definition with_detachment (x : bool) (s : SeedGenerationStatus) : SeedGenerationStatus :=
  mkSeed (seed_StartedAt s) (TimeoutSeconds s) x (ClusterID s) (ManagedClusterUID s) (KlusterletUID s)
    (AgentDetachmentCompleted s) (DetachedCleanupCompleted s) (SeedGeneratorSubmitted s) (SeedGeneratorFinished
    s) (ReleaseImageDigest s) (SeedImage s) (ISOJobSubmitted s) (ISOJobSubmittedAt s) (ISOJobSpecHash s)
    (ISOJobUID s) (ISOUploadCleanupDeadline s) (ISOUploadCleanupCompleted s) (ISOURL s) (ISODigest s)
    (ISOFailureDiagnosticsRef s) (ISOFailureDiagnosticsExpiresAt s) (ISOServerCACertRef s)
    (InputSnapshotResourceUIDs s).
Definition with_agents_gone (x : bool) (s : SeedGenerationStatus) : SeedGenerationStatus :=
  mkSeed (seed_StartedAt s) (TimeoutSeconds s) (DetachmentStarted s) (ClusterID s) (ManagedClusterUID s)
    (KlusterletUID s) x (DetachedCleanupCompleted s) (SeedGeneratorSubmitted s) (SeedGeneratorFinished s)
    (ReleaseImageDigest s) (SeedImage s) (ISOJobSubmitted s) (ISOJobSubmittedAt s) (ISOJobSpecHash s) (ISOJobUID
    s) (ISOUploadCleanupDeadline s) (ISOUploadCleanupCompleted s) (ISOURL s) (ISODigest s)
    (ISOFailureDiagnosticsRef s) (ISOFailureDiagnosticsExpiresAt s) (ISOServerCACertRef s)
    (InputSnapshotResourceUIDs s).
Definition with_spoke_cleaned (x : bool) (s : SeedGenerationStatus) : SeedGenerationStatus :=
  mkSeed (seed_StartedAt s) (TimeoutSeconds s) (DetachmentStarted s) (ClusterID s) (ManagedClusterUID s)
    (KlusterletUID s) (AgentDetachmentCompleted s) x (SeedGeneratorSubmitted s) (SeedGeneratorFinished s)
    (ReleaseImageDigest s) (SeedImage s) (ISOJobSubmitted s) (ISOJobSubmittedAt s) (ISOJobSpecHash s) (ISOJobUID
    s) (ISOUploadCleanupDeadline s) (ISOUploadCleanupCompleted s) (ISOURL s) (ISODigest s)
    (ISOFailureDiagnosticsRef s) (ISOFailureDiagnosticsExpiresAt s) (ISOServerCACertRef s)
    (InputSnapshotResourceUIDs s).
Definition with_submitted (x : bool) (s : SeedGenerationStatus) : SeedGenerationStatus :=
  mkSeed (seed_StartedAt s) (TimeoutSeconds s) (DetachmentStarted s) (ClusterID s) (ManagedClusterUID s)
    (KlusterletUID s) (AgentDetachmentCompleted s) (DetachedCleanupCompleted s) x (SeedGeneratorFinished s)
    (ReleaseImageDigest s) (SeedImage s) (ISOJobSubmitted s) (ISOJobSubmittedAt s) (ISOJobSpecHash s) (ISOJobUID
    s) (ISOUploadCleanupDeadline s) (ISOUploadCleanupCompleted s) (ISOURL s) (ISODigest s)
    (ISOFailureDiagnosticsRef s) (ISOFailureDiagnosticsExpiresAt s) (ISOServerCACertRef s)
    (InputSnapshotResourceUIDs s).
Definition with_finished (x : bool) (s : SeedGenerationStatus) : SeedGenerationStatus :=
  mkSeed (seed_StartedAt s) (TimeoutSeconds s) (DetachmentStarted s) (ClusterID s) (ManagedClusterUID s)
    (KlusterletUID s) (AgentDetachmentCompleted s) (DetachedCleanupCompleted s) (SeedGeneratorSubmitted s) x
    (ReleaseImageDigest s) (SeedImage s) (ISOJobSubmitted s) (ISOJobSubmittedAt s) (ISOJobSpecHash s) (ISOJobUID
    s) (ISOUploadCleanupDeadline s) (ISOUploadCleanupCompleted s) (ISOURL s) (ISODigest s)
    (ISOFailureDiagnosticsRef s) (ISOFailureDiagnosticsExpiresAt s) (ISOServerCACertRef s)
    (InputSnapshotResourceUIDs s).
Definition with_release_digest (x : string) (s : SeedGenerationStatus) : SeedGenerationStatus :=
  mkSeed (seed_StartedAt s) (TimeoutSeconds s) (DetachmentStarted s) (ClusterID s) (ManagedClusterUID s)
    (KlusterletUID s) (AgentDetachmentCompleted s) (DetachedCleanupCompleted s) (SeedGeneratorSubmitted s)
    (SeedGeneratorFinished s) x (SeedImage s) (ISOJobSubmitted s) (ISOJobSubmittedAt s) (ISOJobSpecHash s)
    (ISOJobUID s) (ISOUploadCleanupDeadline s) (ISOUploadCleanupCompleted s) (ISOURL s) (ISODigest s)
    (ISOFailureDiagnosticsRef s) (ISOFailureDiagnosticsExpiresAt s) (ISOServerCACertRef s)
    (InputSnapshotResourceUIDs s).
Definition with_seed_image (x : string) (s : SeedGenerationStatus) : SeedGenerationStatus :=
  mkSeed (seed_StartedAt s) (TimeoutSeconds s) (DetachmentStarted s) (ClusterID s) (ManagedClusterUID s)
    (KlusterletUID s) (AgentDetachmentCompleted s) (DetachedCleanupCompleted s) (SeedGeneratorSubmitted s)
    (SeedGeneratorFinished s) (ReleaseImageDigest s) x (ISOJobSubmitted s) (ISOJobSubmittedAt s) (ISOJobSpecHash
    s) (ISOJobUID s) (ISOUploadCleanupDeadline s) (ISOUploadCleanupCompleted s) (ISOURL s) (ISODigest s)
    (ISOFailureDiagnosticsRef s) (ISOFailureDiagnosticsExpiresAt s) (ISOServerCACertRef s)
    (InputSnapshotResourceUIDs s).
Definition with_job_uid (x : string) (s : SeedGenerationStatus) : SeedGenerationStatus :=
  mkSeed (seed_StartedAt s) (TimeoutSeconds s) (DetachmentStarted s) (ClusterID s) (ManagedClusterUID s)
    (KlusterletUID s) (AgentDetachmentCompleted s) (DetachedCleanupCompleted s) (SeedGeneratorSubmitted s)
    (SeedGeneratorFinished s) (ReleaseImageDigest s) (SeedImage s) (ISOJobSubmitted s) (ISOJobSubmittedAt s)
    (ISOJobSpecHash s) x (ISOUploadCleanupDeadline s) (ISOUploadCleanupCompleted s) (ISOURL s) (ISODigest s)
    (ISOFailureDiagnosticsRef s) (ISOFailureDiagnosticsExpiresAt s) (ISOServerCACertRef s)
    (InputSnapshotResourceUIDs s).
Definition with_cleanup_deadline (x : option Z) (s : SeedGenerationStatus) : SeedGenerationStatus :=
  mkSeed (seed_StartedAt s) (TimeoutSeconds s) (DetachmentStarted s) (ClusterID s) (ManagedClusterUID s)
    (KlusterletUID s) (AgentDetachmentCompleted s) (DetachedCleanupCompleted s) (SeedGeneratorSubmitted s)
    (SeedGeneratorFinished s) (ReleaseImageDigest s) (SeedImage s) (ISOJobSubmitted s) (ISOJobSubmittedAt s)
    (ISOJobSpecHash s) (ISOJobUID s) x (ISOUploadCleanupCompleted s) (ISOURL s) (ISODigest s)
    (ISOFailureDiagnosticsRef s) (ISOFailureDiagnosticsExpiresAt s) (ISOServerCACertRef s)
    (InputSnapshotResourceUIDs s).
Definition with_upload_cleaned (x : bool) (s : SeedGenerationStatus) : SeedGenerationStatus :=
  mkSeed (seed_StartedAt s) (TimeoutSeconds s) (DetachmentStarted s) (ClusterID s) (ManagedClusterUID s)
    (KlusterletUID s) (AgentDetachmentCompleted s) (DetachedCleanupCompleted s) (SeedGeneratorSubmitted s)
    (SeedGeneratorFinished s) (ReleaseImageDigest s) (SeedImage s) (ISOJobSubmitted s) (ISOJobSubmittedAt s)
    (ISOJobSpecHash s) (ISOJobUID s) (ISOUploadCleanupDeadline s) x (ISOURL s) (ISODigest s)
    (ISOFailureDiagnosticsRef s) (ISOFailureDiagnosticsExpiresAt s) (ISOServerCACertRef s)
    (InputSnapshotResourceUIDs s).
Definition with_uids (x : gmap string string) (s : SeedGenerationStatus) : SeedGenerationStatus :=
  mkSeed (seed_StartedAt s) (TimeoutSeconds s) (DetachmentStarted s) (ClusterID s) (ManagedClusterUID s)
    (KlusterletUID s) (AgentDetachmentCompleted s) (DetachedCleanupCompleted s) (SeedGeneratorSubmitted s)
    (SeedGeneratorFinished s) (ReleaseImageDigest s) (SeedImage s) (ISOJobSubmitted s) (ISOJobSubmittedAt s)
    (ISOJobSpecHash s) (ISOJobUID s) (ISOUploadCleanupDeadline s) (ISOUploadCleanupCompleted s) (ISOURL s)
    (ISODigest s) (ISOFailureDiagnosticsRef s) (ISOFailureDiagnosticsExpiresAt s) (ISOServerCACertRef s) x.
Definition with_identity (cluster : string) (managed : string) (klusterlet : string) (s : SeedGenerationStatus) : SeedGenerationStatus :=
  mkSeed (seed_StartedAt s) (TimeoutSeconds s) (DetachmentStarted s) cluster managed klusterlet
    (AgentDetachmentCompleted s) (DetachedCleanupCompleted s) (SeedGeneratorSubmitted s) (SeedGeneratorFinished
    s) (ReleaseImageDigest s) (SeedImage s) (ISOJobSubmitted s) (ISOJobSubmittedAt s) (ISOJobSpecHash s)
    (ISOJobUID s) (ISOUploadCleanupDeadline s) (ISOUploadCleanupCompleted s) (ISOURL s) (ISODigest s)
    (ISOFailureDiagnosticsRef s) (ISOFailureDiagnosticsExpiresAt s) (ISOServerCACertRef s)
    (InputSnapshotResourceUIDs s).
Definition with_job (b : bool) (time : option Z) (hash : string) (s : SeedGenerationStatus) : SeedGenerationStatus :=
  mkSeed (seed_StartedAt s) (TimeoutSeconds s) (DetachmentStarted s) (ClusterID s) (ManagedClusterUID s)
    (KlusterletUID s) (AgentDetachmentCompleted s) (DetachedCleanupCompleted s) (SeedGeneratorSubmitted s)
    (SeedGeneratorFinished s) (ReleaseImageDigest s) (SeedImage s) b time hash (ISOJobUID s)
    (ISOUploadCleanupDeadline s) (ISOUploadCleanupCompleted s) (ISOURL s) (ISODigest s)
    (ISOFailureDiagnosticsRef s) (ISOFailureDiagnosticsExpiresAt s) (ISOServerCACertRef s)
    (InputSnapshotResourceUIDs s).
Definition with_result (url : string) (digest : string) (ca : option ConfigMapKeyRef) (s : SeedGenerationStatus) : SeedGenerationStatus :=
  mkSeed (seed_StartedAt s) (TimeoutSeconds s) (DetachmentStarted s) (ClusterID s) (ManagedClusterUID s)
    (KlusterletUID s) (AgentDetachmentCompleted s) (DetachedCleanupCompleted s) (SeedGeneratorSubmitted s)
    (SeedGeneratorFinished s) (ReleaseImageDigest s) (SeedImage s) (ISOJobSubmitted s) (ISOJobSubmittedAt s)
    (ISOJobSpecHash s) (ISOJobUID s) (ISOUploadCleanupDeadline s) (ISOUploadCleanupCompleted s) url digest
    (ISOFailureDiagnosticsRef s) (ISOFailureDiagnosticsExpiresAt s) ca (InputSnapshotResourceUIDs s).
Definition with_diagnostics (ref : option ConfigMapKeyRef) (expires : option Z) (s : SeedGenerationStatus) : SeedGenerationStatus :=
  mkSeed (seed_StartedAt s) (TimeoutSeconds s) (DetachmentStarted s) (ClusterID s) (ManagedClusterUID s)
    (KlusterletUID s) (AgentDetachmentCompleted s) (DetachedCleanupCompleted s) (SeedGeneratorSubmitted s)
    (SeedGeneratorFinished s) (ReleaseImageDigest s) (SeedImage s) (ISOJobSubmitted s) (ISOJobSubmittedAt s)
    (ISOJobSpecHash s) (ISOJobUID s) (ISOUploadCleanupDeadline s) (ISOUploadCleanupCompleted s) (ISOURL s)
    (ISODigest s) ref expires (ISOServerCACertRef s) (InputSnapshotResourceUIDs s).
(** [&SeedGenerationStatus{StartedAt: ..., TimeoutSeconds: ...}] *)
Definition new_seed (time timeout : Z) : SeedGenerationStatus :=
  mkSeed (Some time) timeout false "" "" "" false false false false "" "" false None "" "" None false "" "" None None None ∅.
Definition with_seed (x : option SeedGenerationStatus) (c : ClusterDetails) : ClusterDetails :=
  mkClusterDetails (cd_Name c) (ZtpStatus c) (ClusterProvisionStartedAt c) (NonCompliantAt c) (UpgradeStatus c) x
    (FulfilledNodeCount c).
(** [&ClusterDetails{}] *)
Definition no_details : ClusterDetails := mkClusterDetails "" "" None None None None 0.

(** ** conditions.go (controllers/utils): the provisioning state *)

(** The setters that compare phase and details first. *)
Definition set_state (p : ProvisioningPhase) (now : Z) (message : string) (o : ProvisioningRequest)
    : ProvisioningRequest :=
  if bool_decide (Phase o <> p) || bool_decide (Details o <> message)
  then with_phase p message (Some now) o else o.

Definition SetProvisioningStatePending : Z -> string -> ProvisioningRequest -> ProvisioningRequest :=
  set_state StatePending.
Definition SetProvisioningStateInProgress : Z -> string -> ProvisioningRequest -> ProvisioningRequest :=
  set_state StateProgressing.
Definition SetProvisioningStateFailed : Z -> string -> ProvisioningRequest -> ProvisioningRequest :=
  set_state StateFailed.

Definition SetProvisioningStateFulfilled (now : Z) (o : ProvisioningRequest) : ProvisioningRequest :=
  if decide (Phase o = StateFulfilled) then o
  else with_phase StateFulfilled "Provisioning request has completed successfully" (Some now) o.

Definition SetProvisioningStateDeleting (now : Z) (o : ProvisioningRequest) : ProvisioningRequest :=
  if decide (Phase o = StateDeleting) then o
  else with_phase StateDeleting "Deletion is in progress" (Some now) o.

(** ** Predicates *)

Section predicates.
Context (o : ProvisioningRequest).

Definition IsProvisioningStateFulfilled : bool := bool_decide (Phase o = StateFulfilled).

(** The condition of a type, tested. *)
Definition condition_is (t : string) (test : Condition -> bool) : bool :=
  match FindStatusCondition (Conditions o) t with Some c => test c | None => false end.

Definition is_true (c : Condition) : bool := bool_decide (cond_Status c = ConditionTrue).
Definition has_reason (reasons : list string) (c : Condition) : bool :=
  bool_decide (cond_Reason c ∈ reasons).

Definition IsClusterProvisionPresent : bool :=
  condition_is PRconditionTypes.ClusterProvisioned (fun _ => true).
Definition IsClusterProvisionCompleted : bool := condition_is PRconditionTypes.ClusterProvisioned is_true.
Definition IsClusterProvisionTimedOutOrFailed : bool :=
  condition_is PRconditionTypes.ClusterProvisioned (fun c =>
    bool_decide (cond_Status c = ConditionFalse) &&
    has_reason [CRconditionReasons.Failed; CRconditionReasons.TimedOut] c).
Definition IsClusterProvisionFailed : bool :=
  condition_is PRconditionTypes.ClusterProvisioned (has_reason [CRconditionReasons.Failed]).
Definition IsClusterConfigCompleted : bool := condition_is PRconditionTypes.ConfigurationApplied is_true.

(** An absent condition counts as completed. *)
Definition IsHardwareConfigCompleted : bool :=
  match FindStatusCondition (Conditions o) PRconditionTypes.HardwareConfigured with
  | Some c => is_true c
  | None => true
  end.

Definition IsClusterUpgradeCompleted : bool := condition_is PRconditionTypes.UpgradeCompleted is_true.
Definition IsClusterUpgradeInTerminalFailure : bool :=
  condition_is PRconditionTypes.UpgradeCompleted (has_reason
    [CRconditionReasons.PreconditionChecksFailed; CRconditionReasons.TimedOut; CRconditionReasons.Failed]).
Definition IsClusterUpgradeInitiated : bool :=
  condition_is PRconditionTypes.UpgradeCompleted (fun _ => true).
Definition IsClusterZtpDone : bool :=
  match Cluster o with Some c => bool_decide (ZtpStatus c = "ZTP Done"%string) | None => false end.

(** provisioningrequest_seedgeneration.go *)
Definition seedGenerationCondition : option Condition :=
  FindStatusCondition (Conditions o) PRconditionTypes.SeedGenerationCompleted.

Definition seed_failure_reasons : list string :=
  [CRconditionReasons.Failed; CRconditionReasons.TimedOut; CRconditionReasons.PreconditionChecksFailed].

Definition seedGenerationTerminal : bool :=
  match seedGenerationCondition with
  | None => false
  | Some c =>
      if is_true c && has_reason [CRconditionReasons.Completed] c then true
      else if negb (bool_decide (cond_Status c = ConditionFalse)) then false
      else has_reason seed_failure_reasons c
  end.

Definition seedGenerationFailureNeedsCleanup : bool :=
  match seedGenerationCondition with
  | None => false
  | Some c => bool_decide (cond_Status c = ConditionFalse) && has_reason seed_failure_reasons c
  end.

Definition seed_status : option SeedGenerationStatus :=
  match Cluster o with Some c => SeedStatus c | None => None end.

Definition seedGenerationNeedsFastPath : bool :=
  if match seed_status with Some s => DetachmentStarted s | None => false end then true
  else if seedGenerationTerminal then false
  else if match seed_status with Some s => bool_decide (seed_StartedAt s <> None) | None => false end then true
  else bool_decide (seedGenerationCondition <> None).
End predicates.

(** controllers/utils/provision.go *)
Definition TimeoutExceeded (now startTime timeout : Z) : bool := timeout <? now - startTime.
