(* ===== verification/UpgradePlan.v ===== *)
(** * Versions, worker pools and plans of a cluster upgrade (controllers/utils/upgrade.go,
      controllers/utils/cincinnati, validation/upgrade.go, provisioning/upgrade.go)

    The functions without effects: which step of an upgrade comes next, which
    intermediate version it goes through, and whether a rollout plan of the worker
    pools is valid. *)
From stdpp Require Import sorting.
From S2P Require Import Prelude Conditions GoText MergeMaps Unstructured ProvisioningStatus.
#[local] Open Scope string_scope.
#[local] Open Scope Z_scope.

(** ** Versions *)

(** go-semver. *)
Class Semver := {
  Version : Type;
  NewVersion : string -> option Version;
  Major : Version -> Z;
  Minor : Version -> Z;
  Compare : Version -> Version -> comparison;
}.

(** Its order on versions. *)
Class SemverLaws `{Semver} : Prop := {
  Compare_antisym v w : Compare w v = CompOpp (Compare v w);
  Compare_le_trans u v w : Compare u v <> Gt -> Compare v w <> Gt -> Compare u w <> Gt;
}.

Section versions.
Context `{Semver}.

(** The error of one of two versions is its text. *)
Definition parse_both (what1 what2 v1 v2 : string) : string + (Version * Version) :=
  match NewVersion v1 with
  | None => inl ("failed to parse " ++ what1 ++ " version " ++ v1)
  | Some a =>
      match NewVersion v2 with
      | None => inl ("failed to parse " ++ what2 ++ " version " ++ v2)
      | Some b => inr (a, b)
      end
  end.

Definition IsMajorOrMinorUpgrade (currentVersion targetVersion : string) : string + bool :=
  if bool_decide (currentVersion = "") || bool_decide (targetVersion = "") then inr false
  else
    match parse_both "current" "target" currentVersion targetVersion with
    | inl e => inl e
    | inr (current, target) =>
        inr ((Major current <? Major target)
             || ((Major target =? Major current) && (Minor current <? Minor target)))
    end.

(** Go's [%] takes the sign of the dividend. *)
Definition IsEUSUpgrade (startVersion targetVersion : string) : string + bool :=
  if bool_decide (startVersion = "") || bool_decide (targetVersion = "") then inr false
  else
    match parse_both "start" "target" startVersion targetVersion with
    | inl e => inl e
    | inr (start, target) =>
        inr ((Major start =? Major target) && (Z.rem (Minor start) 2 =? 0) && (Z.rem (Minor target) 2 =? 0)
             && (Minor target - Minor start =? 2))
    end.

(** The text of the error, if any. *)
Definition ValidateEUSIntermediate (intermediateVersion targetVersion : string) : option string :=
  match NewVersion intermediateVersion with
  | None => Some ("clusterVersion.intermediateVersion " ++ intermediateVersion ++ " is not valid semver")
  | Some i =>
      match NewVersion targetVersion with
      | None => Some ("cannot validate clusterVersion.intermediateVersion: ClusterTemplate's spec.release "
                        ++ targetVersion ++ " is not valid semver")
      | Some t =>
          if negb (Major i =? Major t) then
            Some "clusterVersion.intermediateVersion major version must equal ClusterTemplate's spec.release major version"
          else if negb (Minor i + 1 =? Minor t) then
            Some "clusterVersion.intermediateVersion must be exactly one minor version below ClusterTemplate's spec.release version"
          else None
      end
  end.
End versions.

(** ** The ClusterVersion of the spoke cluster *)

Record Update := mkDesired {
  u_Version : string;
  u_Image : string;
  u_Force : bool;
  u_Architecture : string;
}.
#[export] Instance Update_eq_dec : EqDecision Update.
Proof. solve_decision. Defined.

Record ClusterVersionSpec := mkCVSpec {
  Channel : string;
  Upstream : string;
  DesiredUpdate : option Update;
}.

Record UpdateHistory := mkHistory {
  uh_Version : string;
  uh_Completed : bool;                   (* the state is CompletedUpdate *)
  StartedTime : Z;
  CompletionTime : option Z;
}.

Record ClusterVersion := mkCV {
  cv_Generation : Z;
  cv_Spec : ClusterVersionSpec;
  cv_ObservedGeneration : Z;
  History : list UpdateHistory;
  AvailableUpdates : list string;
  cv_Conditions : list Condition;
}.

Definition FindCVHistoryEntry (cv : ClusterVersion) (version : string) : option UpdateHistory :=
  snd <$> list_find (fun h => uh_Version h = version) (History cv).

Definition IsCVUpdateAvailable (cv : ClusterVersion) (version : string) : bool :=
  existsb (fun v => bool_decide (v = version)) (AvailableUpdates cv).

Definition GetCVCondition (cv : option ClusterVersion) (condType : string) : option Condition :=
  match cv with None => None | Some cv => FindStatusCondition (cv_Conditions cv) condType end.

Definition GetCurrentCVVersion (cv : ClusterVersion) : string :=
  match list_find (fun h => uh_Completed h = true) (History cv) with Some (_, h) => uh_Version h | None => "" end.

Definition IsCVUpgradeTriggered (cv : ClusterVersion) (desiredUpdate : option Update) : bool :=
  match DesiredUpdate (cv_Spec cv), desiredUpdate with
  | Some u, Some d => bool_decide (u = d)
  | _, _ => false
  end.

(** ** The step of an upgrade *)

Inductive UpgradePhase : Type := PhasePreStart | PhaseInProgress | PhaseCompleted.
#[export] Instance UpgradePhase_eq_dec : EqDecision UpgradePhase.
Proof. solve_decision. Defined.

Record CVUpgradeAction := mkAction {
  UpgradeToVersion : string;
  ActionPhase : UpgradePhase;
  IsEUS : bool;
}.

Definition IsEUSIntermediate (a : CVUpgradeAction) (intermediateVersion : string) : bool :=
  IsEUS a && bool_decide (UpgradeToVersion a = intermediateVersion).

Definition VersionLabel (a : CVUpgradeAction) (intermediateVersion : string) : string :=
  if IsEUSIntermediate a intermediateVersion then "intermediate" else "desired".

Definition entry_phase (e : option UpdateHistory) : UpgradePhase :=
  match e with None => PhasePreStart | Some h => if uh_Completed h then PhaseCompleted else PhaseInProgress end.

Definition ResolveCVUpgradeAction (cv : ClusterVersion) (targetVersion intermediateVersion : string) (isEUS : bool)
    : CVUpgradeAction :=
  if isEUS then
    match entry_phase (FindCVHistoryEntry cv intermediateVersion) with
    | PhaseCompleted => mkAction targetVersion (entry_phase (FindCVHistoryEntry cv targetVersion)) true
    | p => mkAction intermediateVersion p true
    end
  else mkAction targetVersion (entry_phase (FindCVHistoryEntry cv targetVersion)) false.

(** ** Machine config pools *)

Record MachineConfigPool := mkMCP {
  mcp_Name : string;
  Paused : bool;
  mcp_Generation : Z;
  mcp_ObservedGeneration : Z;
  mcp_Conditions : list (string * bool);   (* the type, and whether it is true *)
}.

Definition is_worker (p : MachineConfigPool) : bool := negb (bool_decide (mcp_Name p = "master")).

Definition pool_updated (p : MachineConfigPool) : bool :=
  (mcp_ObservedGeneration p =? mcp_Generation p)
  && existsb (fun '(t, b) => bool_decide (t = "Updated") && b) (mcp_Conditions p).

Definition GetPausedMCPs (mcps : list MachineConfigPool) : list string :=
  map mcp_Name (filter (fun p => Paused p = true) mcps).

Definition GetNonUpdatedMCPs (mcps : list MachineConfigPool) : list string :=
  map mcp_Name (filter (fun p => pool_updated p = false) mcps).

(** The map by name: a later pool of the same name wins. *)
Fixpoint pool_named (mcps : list MachineConfigPool) (name : string) (found : option MachineConfigPool)
    : option MachineConfigPool :=
  match mcps with
  | [] => found
  | p :: rest => pool_named rest name (if decide (mcp_Name p = name) then Some p else found)
  end.

Definition FilterMCPsByNames (mcps : list MachineConfigPool) (names : list string) : list MachineConfigPool :=
  omap (fun name => pool_named mcps name None) names.

Definition pool_le (p q : MachineConfigPool) : Prop := String.leb (mcp_Name p) (mcp_Name q) = true.
#[export] Instance pool_le_dec p q : Decision (pool_le p q).
Proof. unfold pool_le. solve_decision. Defined.

Definition ExcludeMCPsByNames (mcps : list MachineConfigPool) (names : list string) : list MachineConfigPool :=
  merge_sort pool_le (filter (fun p => mcp_Name p ∉ names) mcps).

(** ** Stages *)

(** [-1] for an empty or unknown name. *)
Definition StageIndex (s : option WorkerPoolUpgradeStatus) (name : string) : Z :=
  match s with
  | None => -1
  | Some s =>
      if decide (name = "") then -1
      else match list_find (fun st => stage_Name st = name) (Stages s) with
           | Some (i, _) => Z.of_nat i
           | None => -1
           end
  end.

(** ** Plans *)

Record PlanStage := mkPlanStage { ps_Name : string; ps_Pools : list string }.

(** validation.WorkerPoolUpgrade *)
Record WorkerPoolPlan := mkPlan {
  plan_Strategy : string;
  plan_PoolsWithControlPlane : list string;
  plan_Stages : list PlanStage;
  plan_UpgradeThrough : string;
}.

Definition OpenShiftDefault : string := "OpenShiftDefault".
Definition Serial : string := "Serial".
Definition Parallel : string := "Parallel".
Definition Custom : string := "Custom".
Definition in_plan (what : string) : string := "clusterVersion.workerPoolUpgrade" ++ what.

(** The pools that upgrade with the control plane: their names with where they were
    seen, or the error. *)
Fixpoint check_control_plane (pools : list string) (seen : gmap string string) : string + gmap string string :=
  match pools with
  | [] => inr seen
  | pool :: rest =>
      if decide (pool = "") then inl (in_plan ".poolsWithControlPlane contains an empty pool name")
      else if decide (pool = "master") then inl (in_plan ".poolsWithControlPlane must not include " ++ pool)
      else match seen !! pool with
           | Some _ => inl (in_plan ".poolsWithControlPlane contains duplicate pool name " ++ pool)
           | None => check_control_plane rest (<[pool := "poolsWithControlPlane"]> seen)
           end
  end.

Fixpoint check_stage_pools (stage : string) (pools : list string) (seen : gmap string string)
    : string + gmap string string :=
  match pools with
  | [] => inr seen
  | pool :: rest =>
      if decide (pool = "") then inl (in_plan " stage " ++ stage ++ " contains an empty pool name")
      else if decide (pool = "master") then inl (in_plan " stage must not include " ++ pool)
      else
        let stageLabel := "stage " ++ stage in
        match seen !! pool with
        | Some previous =>
            inl (in_plan " pool " ++ pool ++ " appears more than once "
                   ++ (if decide (previous = stageLabel) then "in " ++ stageLabel else "(" ++ previous ++ ")"))
        | None => check_stage_pools stage rest (<[pool := stageLabel]> seen)
        end
  end.

(** The names of the stages. *)
Fixpoint check_stages (stages : list PlanStage) (names : gset string) (seen : gmap string string)
    : string + gset string :=
  match stages with
  | [] => inr names
  | stage :: rest =>
      if decide (ps_Name stage = "") then inl (in_plan ".stages contains an empty stage name")
      else if decide (ps_Name stage ∈ names) then
        inl (in_plan ".stages contains duplicate stage name " ++ ps_Name stage)
      else match ps_Pools stage with
           | [] => inl (in_plan " stage " ++ ps_Name stage ++ " must contain at least one pool")
           | pools =>
               match check_stage_pools (ps_Name stage) pools seen with
               | inl e => inl e
               | inr seen => check_stages rest ({[ps_Name stage]} ∪ names) seen
               end
           end
  end.

(** The rules of a strategy: the text of the error, if any. *)
Definition check_strategy (isEUS : bool) (config : WorkerPoolPlan) (seen : gmap string string) : option string :=
  let with_control_plane := negb (bool_decide (plan_PoolsWithControlPlane config = [])) in
  let not_for_eus := in_plan ".poolsWithControlPlane is not supported for EUS upgrades" in
  if decide (plan_Strategy config = OpenShiftDefault) then
    if isEUS then Some (in_plan ".strategy OpenShiftDefault is not applicable to EUS upgrades")
    else if with_control_plane then
      Some (in_plan ".poolsWithControlPlane is not supported with strategy OpenShiftDefault")
    else None
  else if decide (plan_Strategy config = Serial \/ plan_Strategy config = Parallel) then
    if isEUS && with_control_plane then Some not_for_eus else None
  else if decide (plan_Strategy config = Custom) then
    if isEUS && with_control_plane then Some not_for_eus
    else match plan_Stages config with
         | [] => Some (in_plan ".stages must not be empty with strategy Custom")
         | stages =>
             match check_stages stages ∅ seen with
             | inl e => Some e
             | inr names =>
                 if negb (bool_decide (plan_UpgradeThrough config = ""))
                    && negb (bool_decide (plan_UpgradeThrough config ∈ names))
                 then Some (in_plan ".upgradeThrough refers to unknown stage " ++ plan_UpgradeThrough config)
                 else None
             end
         end
  else Some ("unsupported clusterVersion.workerPoolUpgrade.strategy " ++ plan_Strategy config).

Definition ValidateWorkerPoolUpgrade (isEUS : bool) (config : WorkerPoolPlan) : option string :=
  match check_control_plane (plan_PoolsWithControlPlane config) ∅ with
  | inl e => Some e
  | inr seen =>
      match check_strategy isEUS config seen with
      | Some e => Some e
      | None =>
          if bool_decide (plan_Strategy config <> Custom)
             && (negb (bool_decide (plan_Stages config = [])) || negb (bool_decide (plan_UpgradeThrough config = "")))
          then Some (in_plan ".stages and upgradeThrough are supported only with strategy Custom")
          else None
      end
  end.

Definition ValidateWorkerPoolUpgradeMCPs (mcps : list MachineConfigPool) (config : WorkerPoolPlan) : option string :=
  let known := map mcp_Name mcps in
  let configured := (plan_PoolsWithControlPlane config ++ concat (map ps_Pools (plan_Stages config)))%list in
  match list_find (fun name => name ∉ known) configured with
  | Some (_, name) => Some (in_plan " refers to unknown MachineConfigPool " ++ name)
  | None =>
      if decide (plan_Strategy config = Custom) then
        match filter (fun name => name ∉ configured) known with
        | [] => None
        | missing => Some (in_plan " Custom plan does not include worker MachineConfigPools " ++ sprint_strings missing)
        end
      else None
  end.

(** * Valid rollout plans, and the steps of an upgrade (theory of UpgradePlan) *)
#[local] Close Scope string_scope.

(** ** Plans *)

Definition pool_name (p : string) : Prop := p <> ""%string /\ p <> "master"%string.

Definition all_pools (config : WorkerPoolPlan) : list string :=
  (plan_PoolsWithControlPlane config ++ concat (map ps_Pools (plan_Stages config)))%list.

(** What a valid plan is: every pool is named once and is not the control plane's; the
    stages of a custom plan are there, named, not empty, and the last one that may run
    is one of them; no other strategy has stages; and pools upgrade with the control
    plane only where the strategy and the kind of upgrade allow it. *)
Record valid_plan (isEUS : bool) (config : WorkerPoolPlan) : Prop := {
  vp_names : Forall pool_name (all_pools config);
  vp_once : NoDup (all_pools config);
  vp_strategy : plan_Strategy config ∈ [OpenShiftDefault; Serial; Parallel; Custom];
  vp_eus : isEUS = true -> plan_PoolsWithControlPlane config = [] /\ plan_Strategy config <> OpenShiftDefault;
  vp_default : plan_Strategy config = OpenShiftDefault -> plan_PoolsWithControlPlane config = [];
  vp_custom : plan_Strategy config = Custom ->
    plan_Stages config <> [] /\ Forall (fun s => ps_Name s <> ""%string /\ ps_Pools s <> []) (plan_Stages config)
    /\ NoDup (map ps_Name (plan_Stages config))
    /\ (plan_UpgradeThrough config = ""%string \/ plan_UpgradeThrough config ∈ map ps_Name (plan_Stages config));
  vp_other : plan_Strategy config <> Custom -> plan_Stages config = [] /\ plan_UpgradeThrough config = ""%string;
}.

(** A list of names none of which was seen. *)
Definition fresh (pools : list string) (seen : gset string) : Prop :=
  Forall pool_name pools /\ NoDup pools /\ Forall (fun p => p ∉ seen) pools.

Lemma fresh_nil seen : fresh [] seen.
Proof. split_and!; constructor. Qed.

Lemma fresh_cons p pools seen : fresh (p :: pools) seen <-> pool_name p /\ (p ∉ seen) /\ fresh pools ({[p]} ∪ seen).
Proof.
  unfold fresh. rewrite !Forall_cons, NoDup_cons, !Forall_forall. set_solver.
Qed.

Lemma fresh_app p q seen : fresh ((p ++ q)%list) seen <-> fresh p seen /\ fresh q (list_to_set p ∪ seen).
Proof. unfold fresh. rewrite !Forall_app, NoDup_app, !Forall_forall. set_solver. Qed.

(** What a check of names returns: the names with those seen before, or an error when
    they are not fresh. *)
Definition names_checked (pools : list string) (seen : gset string) (r : string + gmap string string) : Prop :=
  match r with
  | inr seen' => fresh pools seen /\ dom seen' = list_to_set pools ∪ seen
  | inl _ => ~ fresh pools seen
  end.

Lemma names_checked_nil seen : names_checked [] (dom seen) (inr seen).
Proof. split; [apply fresh_nil|set_solver]. Qed.

Lemma names_checked_bad p pools seen e : ~ (pool_name p /\ p ∉ seen) -> names_checked (p :: pools) seen (inl e).
Proof. intros Hp. unfold names_checked. rewrite fresh_cons. tauto. Qed.

Lemma names_checked_cons p pools (seen : gmap string string) label r :
  p <> ""%string -> p <> "master"%string -> seen !! p = None ->
  names_checked pools (dom (<[p := label]> seen)) r -> names_checked (p :: pools) (dom seen) r.
Proof.
  intros H1 H2 Hp%not_elem_of_dom. rewrite dom_insert_L. unfold names_checked.
  destruct r; rewrite fresh_cons; [tauto|]. intros [Hf ->]. split; [by split_and!|]. set_solver.
Qed.

Lemma check_control_plane_spec pools seen : names_checked pools (dom seen) (check_control_plane pools seen).
Proof.
  revert seen. induction pools as [|p pools IH]; intros seen; cbn [check_control_plane]; [apply names_checked_nil|].
  case_decide; [apply names_checked_bad; intros [[] _]; done|].
  case_decide; [apply names_checked_bad; intros [[] _]; done|].
  destruct (seen !! p) eqn:Ep; [|by eapply names_checked_cons].
  apply names_checked_bad. intros [_ Hn]. apply Hn, elem_of_dom. eauto.
Qed.

Lemma check_stage_pools_spec stage pools seen :
  names_checked pools (dom seen) (check_stage_pools stage pools seen).
Proof.
  revert seen. induction pools as [|p pools IH]; intros seen; cbn [check_stage_pools]; [apply names_checked_nil|].
  case_decide; [apply names_checked_bad; intros [[] _]; done|].
  case_decide; [apply names_checked_bad; intros [[] _]; done|].
  destruct (seen !! p) eqn:Ep; [|by eapply names_checked_cons].
  apply names_checked_bad. intros [_ Hn]. apply Hn, elem_of_dom. eauto.
Qed.

Definition stage_ok (s : PlanStage) : Prop := ps_Name s <> ""%string /\ ps_Pools s <> [].

Lemma check_stages_spec stages names seen :
  match check_stages stages names seen with
  | inr names' => Forall stage_ok stages /\ NoDup (map ps_Name stages) /\ Forall (fun s => ps_Name s ∉ names) stages
      /\ fresh (concat (map ps_Pools stages)) (dom seen) /\ names' = list_to_set (map ps_Name stages) ∪ names
  | inl _ => ~ (Forall stage_ok stages /\ NoDup (map ps_Name stages) /\ Forall (fun s => ps_Name s ∉ names) stages
      /\ fresh (concat (map ps_Pools stages)) (dom seen))
  end.
Proof.
  revert names seen. induction stages as [|s stages IH]; intros names seen; cbn [check_stages].
  { split_and!; [constructor..|apply fresh_nil|set_solver]. }
  case_decide as Hn; [intros [[[] _]%Forall_cons _]; done|].
  case_decide as Hd; [intros (_ & _ & [Hd' _]%Forall_cons & _); done|].
  destruct (ps_Pools s) as [|p pools] eqn:Ep; [intros [[[] _]%Forall_cons _]; done|]. rewrite <- Ep.
  cbn [map concat]. pose proof (check_stage_pools_spec (ps_Name s) (ps_Pools s) seen) as Hs.
  destruct (check_stage_pools _ _ _) as [e|seen']; [intros (_ & _ & _ & [Hf _]%fresh_app); done|].
  destruct Hs as [Hf Hdom]. specialize (IH ({[ps_Name s]} ∪ names) seen'). rewrite Hdom in IH.
  assert (stage_ok s) as Hok by (by split; [|rewrite Ep]).
  destruct (check_stages _ _ _); rewrite fresh_app, !Forall_cons, NoDup_cons.
  - intros ((_ & Hall) & (Hnd & Hrest) & (_ & Hnames) & (_ & Hfr)). apply IH. split_and!; [done..| |done].
    rewrite Forall_forall in Hnames |- *. intros x Hx. apply not_elem_of_union. split; [|by apply Hnames].
    intros E%elem_of_singleton. apply Hnd. rewrite <- E. by apply list_elem_of_fmap_2.
  - destruct IH as (Hall & Hrest & Hnames & Hfr & ->). rewrite Forall_forall in Hnames.
    split_and!; try done.
    + intros (x & Hx & Hin)%list_elem_of_fmap. destruct (Hnames x Hin). set_solver.
    + apply Forall_forall. intros x Hx. specialize (Hnames x Hx). set_solver.
    + set_solver.
Qed.

Lemma strategy_cases config :
  plan_Strategy config ∈ [OpenShiftDefault; Serial; Parallel; Custom] <->
  plan_Strategy config = OpenShiftDefault \/ (plan_Strategy config = Serial \/ plan_Strategy config = Parallel)
  \/ plan_Strategy config = Custom.
Proof. rewrite !elem_of_cons, elem_of_nil. tauto. Qed.

(** Strategies other than custom ones have no stages. *)
Lemma no_stages config : plan_Stages config = [] -> all_pools config = plan_PoolsWithControlPlane config.
Proof. intros E. unfold all_pools. rewrite E. apply app_nil_r. Qed.

Lemma fresh_empty pools : fresh pools ∅ <-> Forall pool_name pools /\ NoDup pools.
Proof. unfold fresh. rewrite !Forall_forall. set_solver. Qed.

Lemma all_pools_fresh config :
  fresh (all_pools config) ∅ <->
  fresh (plan_PoolsWithControlPlane config) ∅ /\
  fresh (concat (map ps_Pools (plan_Stages config))) (list_to_set (plan_PoolsWithControlPlane config)).
Proof. unfold all_pools. by rewrite fresh_app, (right_id_L ∅ (∪)). Qed.

(** A custom plan, when the pools of the control plane are fine. *)
Lemma check_custom_spec isEUS config seen :
  plan_Strategy config = Custom -> fresh (plan_PoolsWithControlPlane config) ∅ ->
  dom seen = list_to_set (plan_PoolsWithControlPlane config) ->
  check_strategy isEUS config seen = None <-> valid_plan isEUS config.
Proof.
  intros Hc Hf Hdom. unfold check_strategy.
  rewrite Hc, decide_False by done. rewrite decide_False by naive_solver. rewrite decide_True by done.
  transitivity ((isEUS = true -> plan_PoolsWithControlPlane config = []) /\ plan_Stages config <> [] /\
    match check_stages (plan_Stages config) ∅ seen with
    | inl _ => False
    | inr names => plan_UpgradeThrough config = ""%string \/ plan_UpgradeThrough config ∈ names
    end).
  { generalize (plan_PoolsWithControlPlane config) as pools, (plan_UpgradeThrough config) as through. intros pools through.
    destruct (plan_Stages config) as [|st sts]; [destruct (isEUS && _); intuition congruence|].
    assert (isEUS && negb (bool_decide (pools = [])) = true <-> ~ (isEUS = true -> pools = [])) as Heus.
    { destruct isEUS; simpl; [|intuition congruence]. case_bool_decide; simpl; intuition congruence. }
    destruct (isEUS && _); [intuition congruence|]. assert (isEUS = true -> pools = []) by (destruct isEUS, pools; intuition congruence).
    destruct (check_stages _ _ _) as [e|names]; [intuition congruence|].
    destruct (decide (through = ""%string)) as [Et|Et]; [rewrite (bool_decide_eq_true_2 _ Et)|rewrite (bool_decide_eq_false_2 _ Et)];
      simpl; [intuition congruence|]. case_bool_decide; simpl; intuition congruence. }
  pose proof (check_stages_spec (plan_Stages config) ∅ seen) as Hs. rewrite Hdom in Hs.
  pose proof (all_pools_fresh config) as Ha. rewrite fresh_empty in Ha.
  assert (Forall (fun s => ps_Name s ∉ (∅ : gset string)) (plan_Stages config)) as He by (apply Forall_forall; set_solver).
  split.
  - intros (Heus & Hne & Hm). destruct (check_stages _ _ _) as [|names]; [done|].
    destruct Hs as (Hok & Hnd & _ & Hfr & ->). destruct (proj2 Ha) as [H1 H2]; [done|].
    rewrite (right_id_L ∅ (∪)), elem_of_list_to_set in Hm.
    split; rewrite ?Hc; [done|done|set_solver|intros HE; split; [by apply Heus|done]|done|done|done].
  - intros [H1 H2 _ Heus _ Hcu _]. destruct (Hcu Hc) as (Hne & Hok & Hnd & Ht).
    split_and!; [intros HE; by apply Heus|done|]. destruct (proj1 Ha) as [_ Hfr]; [done|].
    destruct (check_stages _ _ _) as [|names]; [by apply Hs|]. destruct Hs as (_ & _ & _ & _ & ->).
    rewrite (right_id_L ∅ (∪)), elem_of_list_to_set. done.
Qed.

(** ** Theorems *)

(** C24: The validation of a rollout plan accepts exactly the valid plans. *)
Theorem ValidateWorkerPoolUpgrade_iff isEUS config :
  ValidateWorkerPoolUpgrade isEUS config = None <-> valid_plan isEUS config.
Proof.
  unfold ValidateWorkerPoolUpgrade. pose proof (check_control_plane_spec (plan_PoolsWithControlPlane config) ∅) as Hp.
  pose proof (all_pools_fresh config) as Ha. rewrite fresh_empty in Ha. rewrite dom_empty_L in Hp.
  destruct (check_control_plane _ _) as [e|seen].
  { split; [done|]. intros [H1 H2 _ _ _ _ _]. destruct (proj1 Ha) as [Hf _]; done. }
  destruct Hp as [Hf Hdom]. rewrite (right_id_L ∅ (∪)) in Hdom.
  destruct (decide (plan_Strategy config = Custom)) as [Hc|Hc].
  { rewrite <- (check_custom_spec isEUS config seen) by done.
    rewrite (bool_decide_eq_false_2 (plan_Strategy config <> Custom)) by naive_solver.
    by destruct (check_strategy _ _ _). }
  rewrite bool_decide_eq_true_2 by done.
  transitivity (plan_Strategy config ∈ [OpenShiftDefault; Serial; Parallel; Custom] /\
    (isEUS = true -> plan_PoolsWithControlPlane config = [] /\ plan_Strategy config <> OpenShiftDefault) /\
    (plan_Strategy config = OpenShiftDefault -> plan_PoolsWithControlPlane config = []) /\
    plan_Stages config = [] /\ plan_UpgradeThrough config = ""%string).
  - rewrite strategy_cases. unfold check_strategy. rewrite (decide_False (P := plan_Strategy config = Custom)) by done.
    destruct isEUS; repeat case_decide; repeat case_bool_decide; simpl; naive_solver.
  - split.
    + intros (Hs & He & Hd & Hst & Ht). rewrite fresh_empty in Hf.
      split; try done; rewrite no_stages by done; by apply Hf.
    + intros [H1 H2 Hs He Hd _ Ho]. destruct (Ho Hc). split_and!; done.
Qed.
