(* ===== verification/UpgradeGraph.v ===== *)
(** * The choice of the intermediate version of an EUS upgrade
      (controllers/utils/cincinnati/cincinnati.go [findBestIntermediateVersion])

    An update graph has versions for nodes; an edge is a pair of node indices.  The
    intermediate version is one minor version below the target, reachable from the
    current version, and leads to the target; of several the highest is taken. *)
From S2P Require Import Prelude Conditions GoText MergeMaps Unstructured ProvisioningStatus UpgradePlan.
#[local] Open Scope Z_scope.

Record graph := mkGraph {
  Nodes : list string;
  Edges : list (list Z);
}.

Section graph.
Context `{Semver}.

(** The last node of a version. *)
Fixpoint node_index (nodes : list string) (version : string) (i : Z) (found : option Z) : option Z :=
  match nodes with
  | [] => found
  | n :: rest => node_index rest version (i + 1) (if decide (n = version) then Some i else found)
  end.

(** An edge with fewer than two ends is skipped. *)
Definition is_edge (from to : Z) (e : list Z) : bool :=
  match e with a :: b :: _ => (a =? from) && (b =? to) | _ => false end.
Definition has_edge (g : graph) (from to : Z) : bool := existsb (is_edge from to) (Edges g).

(** Whether the node may be the intermediate one, and then its version. *)
Definition candidate (g : graph) (current target : Z) (t : Version) (i : Z) (n : string) : option Version :=
  match NewVersion n with
  | None => None
  | Some v =>
      if (Major v =? Major t) && (Minor v =? Minor t - 1) && has_edge g current i && has_edge g i target
      then Some v else None
  end.

Definition better (v : Version) (best : option (string * Version)) : bool :=
  match best with None => true | Some (_, b) => match Compare v b with Gt => true | _ => false end end.

Fixpoint best_candidate (g : graph) (current target : Z) (t : Version) (nodes : list string) (i : Z)
    (best : option (string * Version)) : option (string * Version) :=
  match nodes with
  | [] => best
  | n :: rest =>
      best_candidate g current target t rest (i + 1)
        match candidate g current target t i n with
        | Some v => if better v best then Some (n, v) else best
        | None => best
        end
  end.

(** The graph is nil when [None].  The error is its text. *)
Definition findBestIntermediateVersion (g : option graph) (currentVersion targetVersion : string) : string + string :=
  match g with
  | None => inl "cincinnati graph is nil"%string
  | Some g =>
      match NewVersion currentVersion, NewVersion targetVersion with
      | None, _ => inl ("invalid current version " +:+ currentVersion)
      | Some _, None => inl ("invalid target version " +:+ targetVersion)
      | Some _, Some t =>
          match node_index (Nodes g) currentVersion 0 None, node_index (Nodes g) targetVersion 0 None with
          | None, _ => inl ("current version " +:+ currentVersion +:+ " not found in update graph")
          | Some _, None => inl ("target version " +:+ targetVersion +:+ " not found in update graph")
          | Some c, Some tgt =>
              match best_candidate g c tgt t (Nodes g) 0 None with
              | Some (n, _) => if decide (n = ""%string) then inl "unable to select intermediate version"%string else inr n
              | None => inl "unable to select intermediate version"%string
              end
          end
      end
  end.

(** ** What is chosen *)

(** The candidates among some nodes, from an index on. *)
Fixpoint candidates (g : graph) (current target : Z) (t : Version) (nodes : list string) (i : Z)
    : list (string * Version) :=
  match nodes with
  | [] => []
  | n :: rest =>
      match candidate g current target t i n with
      | Some v => (n, v) :: candidates g current target t rest (i + 1)
      | None => candidates g current target t rest (i + 1)
      end
  end.

Definition pick (best : option (string * Version)) (x : string * Version) : option (string * Version) :=
  if better x.2 best then Some x else best.

Lemma best_candidate_fold g c tgt t nodes i best :
  best_candidate g c tgt t nodes i best = fold_left pick (candidates g c tgt t nodes i) best.
Proof.
  revert i best. induction nodes as [|n nodes IH]; intros i best; [done|]. cbn [best_candidate candidates].
  rewrite IH. by destruct (candidate g c tgt t i n).
Qed.

Lemma elem_of_candidates g c tgt t nodes k n v :
  (n, v) ∈ candidates g c tgt t nodes k <->
  exists i, nodes !! i = Some n /\ candidate g c tgt t (k + Z.of_nat i) n = Some v.
Proof.
  revert k. induction nodes as [|x nodes IH]; intros k; cbn [candidates].
  { split; [by intros ?%not_elem_of_nil|by intros (i & Hi & _)]. }
  transitivity ((x = n /\ candidate g c tgt t k x = Some v) \/ (n, v) ∈ candidates g c tgt t nodes (k + 1)).
  { destruct (candidate g c tgt t k x) as [w|]; [rewrite elem_of_cons|]; naive_solver. }
  rewrite IH. split.
  - intros [[-> Hc]|(i & Hi & Hc)]; [exists 0%nat|exists (S i)]; (split; [done|]).
    + by rewrite Z.add_0_r.
    + by replace (k + Z.of_nat (S i)) with (k + 1 + Z.of_nat i) by lia.
  - intros ([|i] & Hi & Hc); simpl in Hi.
    + injection Hi as ->. left. by rewrite Z.add_0_r in Hc.
    + right. exists i. by replace (k + 1 + Z.of_nat i) with (k + Z.of_nat (S i)) by lia.
Qed.

Section best.
Context {laws : SemverLaws}.

Lemma Compare_refl v : Compare v v <> Gt.
Proof using laws. pose proof (Compare_antisym v v). by destruct (Compare v v). Qed.

(** The new best is as good as the old one and the candidate. *)
Lemma pick_best best x : exists p, pick best x = Some p /\ (p = x \/ best = Some p) /\
  Compare x.2 p.2 <> Gt /\ forall b, best = Some b -> Compare b.2 p.2 <> Gt.
Proof using laws.
  unfold pick, better. destruct best as [[n b]|].
  - pose proof (Compare_antisym x.2 b) as Ha. destruct (Compare x.2 b) eqn:E.
    + exists (n, b). split_and!; [done|by right|simpl; by rewrite E|]. intros ? [= <-]. apply Compare_refl.
    + exists (n, b). split_and!; [done|by right|simpl; by rewrite E|]. intros ? [= <-]. apply Compare_refl.
    + exists x. split_and!; [done|by left|apply Compare_refl|]. intros ? [= <-]. simpl. by rewrite Ha.
  - exists x. split_and!; [done|by left|apply Compare_refl|done].
Qed.

Lemma fold_pick cs best :
  match fold_left pick cs best with
  | Some b => (b ∈ cs \/ best = Some b) /\ forall x, x ∈ cs \/ best = Some x -> Compare x.2 b.2 <> Gt
  | None => cs = [] /\ best = None
  end.
Proof using laws.
  revert best. induction cs as [|c cs IH]; intros best; cbn [fold_left].
  { destruct best as [b|]; [|done]. split; [by right|]. intros x [[]%not_elem_of_nil|[= <-]]. apply Compare_refl. }
  specialize (IH (pick best c)). destruct (pick_best best c) as (p & Hp & Hor & Hc & Hb). rewrite Hp in IH |- *.
  destruct (fold_left pick cs (Some p)) as [b|]; [|by destruct IH].
  destruct IH as [Hin Hmax]. split.
  - destruct Hin as [Hin|[= <-]]; [left; by constructor|]. destruct Hor as [->|Hor]; [left; by constructor|by right].
  - assert (Compare p.2 b.2 <> Gt) as Hpb by (apply Hmax; by right).
    intros x [[->|Hx]%elem_of_cons|Hx]; [by eapply Compare_le_trans|apply Hmax; by left|].
    eapply Compare_le_trans; [by apply Hb|done].
Qed.
End best.

(** A path of two edges, over a release of the minor version before the target's. *)
Definition intermediate (g : graph) (currentVersion targetVersion n : string) (v : Version) : Prop :=
  exists c tgt t i,
    NewVersion targetVersion = Some t /\ node_index (Nodes g) currentVersion 0 None = Some c /\
    node_index (Nodes g) targetVersion 0 None = Some tgt /\ Nodes g !! i = Some n /\
    NewVersion n = Some v /\ Major v = Major t /\ Minor v = Minor t - 1 /\
    has_edge g c (Z.of_nat i) = true /\ has_edge g (Z.of_nat i) tgt = true.

Lemma candidate_Some g c tgt t i n v :
  candidate g c tgt t i n = Some v <->
  NewVersion n = Some v /\ Major v = Major t /\ Minor v = Minor t - 1 /\ has_edge g c i = true /\ has_edge g i tgt = true.
Proof.
  unfold candidate. destruct (NewVersion n) as [w|]; [|naive_solver].
  destruct (_ && _) eqn:E.
  - rewrite !andb_true_iff, !Z.eqb_eq in E. naive_solver.
  - split; [done|]. intros ([= ->] & H1 & H2 & H3 & H4). rewrite H1, H2, H3, H4, !Z.eqb_refl in E. done.
Qed.

(** C23: The intermediate version that is chosen is the highest release of the minor
    version before the target's that has an edge from the current version and an edge
    to the target; a version is chosen whenever there is one and the current version is
    legal.  (The empty string is no version.) *)
Theorem findBestIntermediateVersion_best {laws : SemverLaws} g currentVersion targetVersion :
  NewVersion currentVersion <> None -> NewVersion "" = None ->
  match findBestIntermediateVersion (Some g) currentVersion targetVersion with
  | inr n => exists v, intermediate g currentVersion targetVersion n v /\
      forall n' v', intermediate g currentVersion targetVersion n' v' -> Compare v' v <> Gt
  | inl _ => forall n v, ~ intermediate g currentVersion targetVersion n v
  end.
Proof.
  intros Hcur Hempty. unfold findBestIntermediateVersion, intermediate.
  destruct (NewVersion currentVersion) as [cv|]; [|done].
  destruct (NewVersion targetVersion) as [t|]; [|naive_solver].
  destruct (node_index (Nodes g) currentVersion 0 None) as [c|]; [|naive_solver].
  destruct (node_index (Nodes g) targetVersion 0 None) as [tgt|]; [|naive_solver].
  rewrite best_candidate_fold. pose proof (fold_pick (candidates g c tgt t (Nodes g) 0) None) as Hf.
  assert (forall n v, (n, v) ∈ candidates g c tgt t (Nodes g) 0 <-> exists i, Nodes g !! i = Some n /\
    NewVersion n = Some v /\ Major v = Major t /\ Minor v = Minor t - 1 /\
    has_edge g c (Z.of_nat i) = true /\ has_edge g (Z.of_nat i) tgt = true) as Hin.
  { intros n v. rewrite elem_of_candidates. by setoid_rewrite candidate_Some. }
  destruct (fold_left pick _ None) as [[n v]|].
  - destruct Hf as [[Hn|] Hmax]; [|done]. case_decide as He.
    { subst n. apply Hin in Hn as (i & _ & Hn & _). congruence. }
    apply Hin in Hn as (i & Hi & Hn). exists v. split; [naive_solver|].
    intros n' v' (c' & tgt' & t' & j & [= <-] & [= <-] & [= <-] & Hj). apply (Hmax (n', v')). left. apply Hin. eauto.
  - destruct Hf as [Hnil _]. intros n v (c' & tgt' & t' & j & [= <-] & [= <-] & [= <-] & Hj).
    assert ((n, v) ∈ candidates g c tgt t (Nodes g) 0) as Hx by (apply Hin; eauto). rewrite Hnil in Hx.
    by apply not_elem_of_nil in Hx.
Qed.
End graph.

(** ** Versions of three numbers, for examples *)

Module Triples.
Fixpoint number (s : string) (acc : Z) : option Z :=
  match s with
  | EmptyString => Some acc
  | String c s' =>
      let n := Z.of_nat (Ascii.nat_of_ascii c) - 48 in
      if (0 <=? n) && (n <=? 9) then number s' (10 * acc + n) else None
  end.

Definition parse (s : string) : option (Z * Z * Z) :=
  '(a, rest) ← split_dot s;
  '(b, c) ← split_dot rest;
  a ← number a 0; b ← number b 0; c ← number c 0; Some (a, b, c).

Definition compare (v w : Z * Z * Z) : comparison :=
  let '(a, b, c) := v in let '(a', b', c') := w in
  match a ?= a' with
  | Eq => match b ?= b' with Eq => c ?= c' | r => r end
  | r => r
  end.

#[export] Instance semver : Semver := {|
  Version := Z * Z * Z;
  NewVersion := parse;
  Major v := v.1.1;
  Minor v := v.1.2;
  Compare := compare;
|}.

#[export] Instance laws : SemverLaws.
Proof.
  split.
  - intros [[a b] c] [[a' b'] c']. simpl. rewrite (Z.compare_antisym a a'), (Z.compare_antisym b b'), (Z.compare_antisym c c').
    by destruct (a ?= a'), (b ?= b').
  - intros [[a1 b1] c1] [[a2 b2] c2] [[a3 b3] c3]. simpl.
    destruct (Z.compare_spec a1 a2), (Z.compare_spec a2 a3), (Z.compare_spec a1 a3); try lia; try done;
      destruct (Z.compare_spec b1 b2), (Z.compare_spec b2 b3), (Z.compare_spec b1 b3); try lia; try done;
      destruct (Z.compare_spec c1 c2), (Z.compare_spec c2 c3), (Z.compare_spec c1 c3); try lia; done.
Qed.

(** 4.21.3 has no edge to the target. *)
Definition updates : graph :=
  mkGraph ["4.20.0"; "4.21.1"; "4.21.5"; "4.22.0"; "4.21.3"] [[0; 1]; [0; 2]; [0; 4]; [1; 3]; [2; 3]].
End Triples.

Lemma findBestIntermediateVersion_best_witness :
  exists v, @intermediate Triples.semver Triples.updates "4.20.0" "4.22.0" "4.21.5" v /\
    forall n' v', @intermediate Triples.semver Triples.updates "4.20.0" "4.22.0" n' v' -> Triples.compare v' v <> Gt.
Proof.
  exact (@findBestIntermediateVersion_best Triples.semver Triples.laws Triples.updates "4.20.0" "4.22.0"
           ltac:(discriminate) eq_refl).
Defined.
