(* ===== verification/SeedObjects.v ===== *)
(** * The objects of a run of seed generation
      (provisioningrequest_seedgeneration_preflight.go and its neighbours)

    What the handlers of a run read and write of Kubernetes objects on the hub and on
    the cluster the image is taken from (the spoke), and the calls they make.  A nil map
    is an empty one where the code only reads it; bytes are strings. *)
From S2P Require Import Prelude Conditions GoText MergeMaps Unstructured ProvisioningStatus.
#[local] Open Scope Z_scope.

(** ** Metadata *)

(** A label that is absent reads as the empty string. *)
Definition entry (key : string) (m : gmap string string) : string := default ""%string (m !! key).

Record OwnerReference := mkOwner {
  or_APIVersion : string;
  or_Kind : string;
  or_Name : string;
  or_UID : string;
  or_Controller : bool;      (* set, and true *)
}.

Record ObjectMeta := mkMeta {
  meta_Name : string;
  meta_Namespace : string;
  meta_UID : string;
  Labels : gmap string string;
  Annotations : gmap string string;
  OwnerReferences : list OwnerReference;
  Finalizers : list string;
  Deleting : bool;
}.

(** A ConfigMap or a Secret. *)
Record DataObject := mkData {
  data_Meta : ObjectMeta;
  Immutable : bool;
  Data : gmap string string;
}.

(** ** Workloads *)

Inductive VolumeSource : Type :=
| ClaimVolume (claim : string)
| SecretVolume (secret : string) (items : list (string * string))
| ConfigMapVolume (configMap : string) (items : list (string * string))
| EmptyDirVolume (inMemory : bool).

Record Container := mkContainer {
  c_Name : string;
  c_Image : string;
  c_PullPolicy : string;
  c_Command : list string;
  c_Args : list string;
  c_WorkingDir : string;
  c_Env : list (string * string);
  c_Mounts : list (string * string * bool);     (* volume, path, read only *)
  AllowPrivilegeEscalation : option bool;
  ReadOnlyRootFilesystem : option bool;
  CapabilitiesAdd : list string;
  CapabilitiesDrop : list string;
}.

Record PodSpec := mkPodSpec {
  Containers : list Container;
  InitContainers : list Container;
  Volumes : list (string * VolumeSource);
  RestartPolicy : string;
  AutomountServiceAccountToken : option bool;
  ServiceAccountName : string;
  HostNamespaces : bool;        (* the host's network, processes or IPC *)
  RunAsNonRoot : option bool;
  SeccompProfile : option string;
}.

Record Terminated := mkTerminated { ExitCode : Z; term_Reason : string; term_Message : string }.

Inductive PodPhase : Type :=
| PodPending | PodRunning | PodSucceeded | PodFailed | PodUnknown | PodPhaseOther (s : string).

(** A container that has not terminated has no [Terminated]. *)
Record Pod := mkPod {
  pod_Meta : ObjectMeta;
  pod_Spec : PodSpec;
  pod_Phase : PodPhase;
  pod_Reason : string;
  pod_Containers : list (string * option Terminated);
}.

Record Job := mkJob {
  job_Meta : ObjectMeta;
  BackoffLimit : option Z;
  Completions : option Z;
  Parallelism : option Z;
  ActiveDeadlineSeconds : option Z;
  TTLSecondsAfterFinished : option Z;
  TemplateLabels : gmap string string;
  TemplateSpec : PodSpec;
  Active : Z;
  Succeeded : Z;
  Failed : Z;
  job_Conditions : list (string * ConditionStatus * string);   (* type, status, reason *)
}.

Record PersistentVolumeClaim := mkClaim {
  claim_Meta : ObjectMeta;
  AccessModes : list string;
  StorageRequest : option Z;
  StorageClassName : option string;
  ClaimLost : bool;
}.

#[export] Instance VolumeSource_eq_dec : EqDecision VolumeSource.
Proof. solve_decision. Defined.
#[export] Instance Container_eq_dec : EqDecision Container.
Proof. solve_decision. Defined.
#[export] Instance PodPhase_eq_dec : EqDecision PodPhase.
Proof. solve_decision. Defined.

(** ** The inputs that are frozen *)

Record ImageDigestSource := mkSource { src_Source : string; Mirrors : list string; MirrorSourcePolicy : string }.

(** A nil map of the configuration is [None]. *)
Record InputDocument := mkDocument {
  ClusterTemplateName : string;
  ClusterTemplateNamespace : string;
  ClusterTemplateUID : string;
  doc_Release : string;
  SeedConfig : option object_map;
  ToolsImage : string;
  ResolvedReleaseImage : string;
  ImageDigestSources : list ImageDigestSource;
  RegistryTrustedCAs : gmap string string;
  RegistryTrustedCAKeys : gmap string string;
  CredentialSecretNames : gmap string string;
}.

Record Snapshot := mkSnapshot {
  Document : InputDocument;
  snap_ConfigMap : DataObject;
  Secrets : gmap string DataObject;
}.

(** ** The sources of the inputs *)

(** Keys and values of a ConfigMap, its text and its bytes, in the order in which the
    program's loops visit them. *)
Record TrustBundle := mkTrust {
  tb_Deleting : bool;
  tb_Data : list (string * string);
  tb_BinaryData : list (string * string);
}.

(** The mirror sets of the hub: by digest, and by tag; and those of the older API,
    which are read as dynamic objects. *)
Record ImageDigestMirrorSet := mkIDMS { idms_Name : string; idms_Deleting : bool; ImageDigestMirrors : list ImageDigestSource }.
Record ImageTagMirrors := mkTagMirrors { itm_Source : string; itm_Mirrors : list string }.
Record ImageTagMirrorSet := mkITMS { itms_Name : string; itms_Deleting : bool; TagMirrors : list ImageTagMirrors }.
Record ImageContentSourcePolicy := mkICSP { icsp_Name : string; icsp_Deleting : bool; icsp_Object : object_map }.

(** The metadata of the installed cluster: its ID, and the name of the Secret with the
    kubeconfig of its administrator. *)
Record ClusterMetadata := mkClusterMetadata { cm_ClusterID : string; AdminKubeconfigSecretRef : string }.
Record ClusterDeployment := mkDeploymentOf { cdep_Deleting : bool; cdep_Metadata : option ClusterMetadata }.

(** [url.URL] *)
Record ParsedURL := mkURL {
  Scheme : string; Host : string; Hostname : string; HasUser : bool; RawQuery : string; ForceQuery : bool; Fragment : string;
  RawPath : string; Path : string
}.

(** The header Authorization, and a request of HTTP: the form of its body, if any, by
    keys and values. *)
Inductive Authorization : Type :=
| Bearer (token : string)
| Basic (username password : string).
Record Request := mkRequest {
  req_Method : string;
  req_URL : ParsedURL;
  req_Authorization : option Authorization;
  req_Form : option (list (string * string));
}.
Record Response := mkResponse { StatusCode : Z; WWWAuthenticate : string; Location : string; Body : string }.

(** ** The cluster and its records on the hub *)

Record Taint := mkTaint { taint_Key : string; taint_Value : string; taint_Effect : string }.

Record HubCluster := mkHubCluster { hc_Meta : ObjectMeta; ClusterClaims : list (string * string); Taints : list Taint }.

(** The configuration of one resource of a work: its group, resource, name and
    namespace, how it is updated, and the fields that the program copies only. *)
Record ManifestConfig := mkConfig {
  cfg_Identifier : string * string * string * string;
  cfg_Strategy : option string;
  cfg_Rest : string;
}.
#[export] Instance ManifestConfig_eq_dec : EqDecision ManifestConfig.
Proof. solve_decision. Defined.

(** A manifest is read as its group, version, kind, name and namespace, if it can be
    decoded. *)
Record Manifest := mkManifest {
  mf_Group : string; mf_Version : string; mf_Kind : string; mf_Name : string; mf_Namespace : string
}.

Record ManifestWork := mkWork {
  work_Meta : ObjectMeta;
  Manifests : list (option Manifest);
  ManifestConfigs : list ManifestConfig;
  work_Applied : option (ConditionStatus * Z);    (* the condition, with its observed generation *)
  work_Generation : Z;
}.

Record AppliedWork := mkApplied { aw_Meta : ObjectMeta; AgentID : string; ManifestWorkName : string }.

Record Klusterlet := mkKlusterlet { kl_Meta : ObjectMeta; kl_Mode : string }.

(** The SeedGenerator of the lifecycle agent. *)
Record SeedGenerator := mkGenerator {
  sg_Meta : ObjectMeta;
  sg_SeedImage : option string;
  sg_RecertImage : string;
  sg_Conditions : list Condition;
}.

Record Deployment := mkDeployment { dep_Deleting : bool; AvailableReplicas : Z; dep_Available : bool }.

(** The partitions' labels, and the file systems with device and path, of the Ignition
    of a MachineConfig; [None] when it cannot be decoded. *)
Record MachineConfig := mkMachineConfig {
  mcfg_Deleting : bool;
  Ignition : option (list string * list (string * string));
}.

(** ** The calls *)

Inductive place : Type := Hub | Spoke.
Inductive Propagation : Type := Background | Orphan.

(** The lists are by labels; [Delete] ignores that the object is gone. *)
Inductive seed_call : Type -> Type :=
| ListConfigMaps (selector : gmap string string) : seed_call (list DataObject)
| ListSecrets (selector : gmap string string) : seed_call (list DataObject)
| ListPods (selector : gmap string string) : seed_call (list Pod)
| ListJobs (selector : gmap string string) : seed_call (list Job)
| ListClaims (selector : gmap string string) : seed_call (list PersistentVolumeClaim)
| HubConfigMap (name : string) : seed_call DataObject
| CreateConfigMap (cm : DataObject) : seed_call string          (* the UID *)
| CreateSecret (secret : DataObject) : seed_call string
| HubPod (name : string) : seed_call Pod
| CreatePod (pod : Pod) : seed_call unit
| PodLogs (name : string) : seed_call string
| HubJob (name : string) : seed_call Job
| CreateJob (job : Job) : seed_call string
| HubClaim (name : string) : seed_call PersistentVolumeClaim
| CreateClaim (claim : PersistentVolumeClaim) : seed_call unit
| Delete (p : place) (kind : string) (m : ObjectMeta) (propagation : Propagation) : seed_call unit
| HubSecret (name namespace : string) : seed_call DataObject
| HubTrustBundle (name namespace : string) : seed_call TrustBundle
| ImageConfig : seed_call (bool * string)                       (* being deleted, name of the trusted CA *)
| ListIDMS : seed_call (list ImageDigestMirrorSet)
| ListICSP : seed_call (list ImageContentSourcePolicy)
| ListITMS : seed_call (list ImageTagMirrorSet)
| HubClusterImageSet (name : string) : seed_call string           (* the release image *)
| Getenv (key : string) : seed_call string
| SystemCertPool : seed_call unit
| Fetch (roots : string) (request : Request) : seed_call Response   (* with the CAs of the system and these *)
| DialTCP (address : string) : seed_call unit
| TLSHandshake (serverName roots : string) : seed_call unit
| NewUUID : seed_call string
| RunSSHCommand (host : string) (credentials : gmap string string) (command : string) : seed_call string
| HubClusterDeployment (name : string) : seed_call ClusterDeployment
| HubManagedCluster (name : string) : seed_call HubCluster
| PatchHubCluster (mc : HubCluster) : seed_call unit
| ListAddonConfigs (namespace : string) : seed_call (list ObjectMeta)
| PatchAddonConfig (config : ObjectMeta) : seed_call unit
| ListAddons (namespace : string) : seed_call (list ObjectMeta)
| ListImportWorks (namespace : string) : seed_call (list ManifestWork)
| PatchImportWork (work : ManifestWork) : seed_call unit
| RESTMapping (group kind version : string) : seed_call string      (* the plural *)
| OpenSpoke (kubeconfig : string) : seed_call unit
| SpokeVersion : seed_call (string * string)                      (* cluster ID, desired version *)
| SpokeNodes : seed_call (list string)
| ListKlusterlets : seed_call (list Klusterlet)
| GetKlusterlet : seed_call Klusterlet
| KlusterletCRD : seed_call ObjectMeta
| ListMachineConfigs : seed_call (list MachineConfig)
| LCADeployment : seed_call Deployment
| GetSeedGenerator : seed_call SeedGenerator
| CreateSeedGenerator (sg : SeedGenerator) : seed_call unit
| GetSeedSecret : seed_call DataObject
| CreateSeedSecret (secret : DataObject) : seed_call unit
| ListAppliedWorks : seed_call (list AppliedWork)
| SpokeNamespaces : seed_call (list string)
| SpokeSecrets (namespace : string) : seed_call (list ObjectMeta)
| MonitoringConfig (name namespace : string) : seed_call (bool * option object_map)   (* being deleted, decoded *)
| PatchMonitoringConfig (name namespace : string) (config : object_map) : seed_call unit.
