(* ===== verification/ProvisioningTask.v ===== *)
(** * The task of one reconcile of a ProvisioningRequest
      (controllers/provisioningrequest_controller.go)

    A task holds the request it works on, the timeouts and the merged input, and calls
    the API server.  A call is recorded with the request as it is in memory at that
    moment; an environment answers each call from the calls before it, so an answer
    may differ from one call to the next and any call may fail.  The clock moves with
    the calls. *)
From S2P Require Import Prelude Conditions GoText Handler ProvisioningStatus MergeMaps Unstructured UpgradePlan UpgradeGraph SeedObjects.
#[local] Open Scope Z_scope.

(** ** Errors *)

(** [Rejected] is any answer of the API server from 400 to 499 without a name here, but a
    timeout; [Transient] is a server error or timeout, or one of the network.  The last
    four are errors of the program. *)
Inductive apiErrorKind : Type :=
| NotFound | AlreadyExists | Conflict | Invalid | BadRequest | Forbidden | TooManyRequests | Rejected
| NoMatch | Transient | MissingCondition | IncompleteSnapshot | SnapshotNotFound | OtherKind.
#[export] Instance apiErrorKind_eq_dec : EqDecision apiErrorKind.
Proof. solve_decision. Defined.

(** An error: whether typederrors.InputError is in its chain, which error of the API
    (or [ConditionDoesNotExistsErr]) is, and its text. *)
Record error := mkError { input_error : bool; kind : apiErrorKind; Error : string }.

Definition InputError (text : string) : error := mkError true OtherKind text.
Definition Errorf (text : string) : error := mkError false OtherKind text.
Definition ConditionDoesNotExistsErr (name : string) : error :=
  mkError false MissingCondition ("Condition does not exist: " +:+ name).

(** [fmt.Errorf("...: %w", err)] keeps what [errors.As] finds. *)
Definition wrap (prefix : string) (e : error) : error :=
  mkError (input_error e) (kind e) (prefix +:+ ": " +:+ Error e).

(** [typederrors.NewInputError("...: %w", err)] has no [Unwrap]: it hides what [err] is. *)
Definition as_input (prefix : string) (e : error) : error :=
  mkError true OtherKind (prefix +:+ ": " +:+ Error e).

Definition IsInputError : error -> bool := input_error.
Definition IsNotFound (e : error) : bool := bool_decide (kind e = NotFound).
Definition IsConditionDoesNotExistsErr (e : error) : bool := bool_decide (kind e = MissingCondition).

(** provisioningrequest_seedgeneration_preflight.go: conflicts, throttling, and what
    [Transient] stands for: server errors and timeouts, unavailability, network errors. *)
Definition isSeedGenerationTransientError (e : error) : bool :=
  bool_decide (kind e ∈ [Conflict; TooManyRequests; Transient]).

(** ** The other resources *)

Record ClusterTemplate := mkTemplate {
  ct_Name : string;
  ct_Namespace : string;
  ct_UID : string;
  ct_Conditions : list Condition;
  ct_Deleting : bool;
  ClusterInstanceDefaults : string;
  PolicyTemplateDefaults : string;
  TemplateID : string;
  Release : string;
  UpgradeDefaults : option object_map;   (* decoded; [None] when it is not a map *)
}.

(** A ClusterInstance: its spec is dynamic data. *)
Record ClusterInstance := mkCI {
  ci_Name : string;
  ci_Spec : value;
  ci_Conditions : list Condition;
}.

Record NodeGroup := mkGroup {
  ng_Name : string;
  ng_Role : string;
  HwProfile : string;
  ResourcePoolId : string;
  ResourceSelector : gmap string string;
  ng_Size : Z;
}.
#[export] Instance NodeGroup_eq_dec : EqDecision NodeGroup.
Proof. solve_decision. Defined.

Record NodeAllocationRequestSpec := mkNARSpec {
  ClusterId : string;
  Site : string;
  NodeGroups : list NodeGroup;
  ConfigTransactionId : Z;
  HardwareProvisioningTimeout : Z;
  ClusterProvisioned : bool;
  nar_SkipCleanup : bool;
}.
#[export] Instance NodeAllocationRequestSpec_eq_dec : EqDecision NodeAllocationRequestSpec.
Proof. solve_decision. Defined.

(** The annotations are a nil map when [None]. *)
Record NodeAllocationRequest := mkNAR {
  nar_Spec : NodeAllocationRequestSpec;
  nar_Annotations : option (gmap string string);
  nar_Deleting : bool;
  nar_Conditions : list Condition;
  ObservedConfigTransactionId : Z;
  NodeNames : list string;
}.

Record Interface := mkInterface { if_Label : string; if_MAC : string }.

Record AllocatedNode := mkAllocated {
  an_Name : string;
  an_GroupName : string;
  an_BMC : option (string * string);     (* address and name of the credentials *)
  an_Interfaces : list Interface;
  HwMgrNodeId : string;
  HwMgrNodeNs : string;
  an_Conditions : list Condition;
}.

Record ManagedCluster := mkManaged {
  mc_Conditions : list Condition;
  mc_clusterID : option string;          (* the label *)
  mc_openshiftVersion : option string;   (* the label *)
  mc_DisableAutoImport : bool;           (* the annotation *)
  HubAcceptsClient : bool;
}.

Record Policy := mkPolicyObject {
  policy_Name : string;
  policy_Namespace : string;
  TemplatesAnnotation : option string;
  ComplianceState : string;
  policy_RemediationAction : string;
}.

(** The failed actions of a cluster: each with its message. *)
Record ImageBasedGroupUpgrade := mkIBGU {
  SeedImageVersion : string;
  ibgu_Conditions : list Condition;
  FailedActions : list (list (string * string));
}.

(** ** The calls *)

(** What a reconcile asks of the API server, indexed by what is returned.  The last
    group are functions of the source that read the request, its inputs and the
    cluster, and leave the request alone. *)
Inductive call : Type -> Type :=
| UpdateStatus (o : ProvisioningRequest) : call unit
| UpdateRequest (o : ProvisioningRequest) : call unit
| PatchRequest (o : ProvisioningRequest) : call unit
| ListClusterTemplates : call (list ClusterTemplate)
| GetConfigMap (name namespace : string) : call (gmap string string)
| GetNamespaceOwner (name : string) : call string            (* the label of the request, or empty *)
| GetHardwareProfile (name : string) : call unit
| ExtractMatchingInput (key : string) : call value          (* of the template parameters *)
| GetNAR : call NodeAllocationRequest
| CreateNAR (nar : NodeAllocationRequest) : call unit
| PatchNAR (base nar : NodeAllocationRequest) : call unit
| DeleteNAR : call unit
| GetClusterInstance (name : string) : call ClusterInstance
| ApplyClusterInstance (ci : ClusterInstance) (isDryRun : bool) : call unit
| DeleteClusterInstance (name : string) : call unit
| ClusterInstanceDeleting (name : string) : call bool
| GetManagedCluster (name : string) : call ManagedCluster
| UpdateManagedCluster (name : string) (mc : ManagedCluster) : call unit
| PatchManagedCluster (name : string) (mc : ManagedCluster) : call unit
| ListPolicies (namespace : string) (child : bool) : call (list Policy)
| ListAllocatedNodes : call (list AllocatedNode)
| GetAllocatedNode (name : string) : call AllocatedNode
| SpokeClient : call unit
| ListSpokeNodes : call (list string)
| SpokeNodeCordoned (host : string) : call bool
| UncordonNode (host : string) : call unit
| ResourceExists (kind name namespace : string) : call unit
| ListNamespaces : call (list (string * bool))            (* name, being deleted *)
| DeleteNamespace (name : string) : call unit
| RunSource (what : string) : call unit
| AskSource (what : string) : call bool
| RenderClusterInstance : call ClusterInstance
| MergeClusterInput : call (value * gmap string string)
| MergeHwMgmtInput : call (list (string * value))
| DecodeTemplateParameters : call object_map
| MergeUpgradeData : call object_map
| EnsureSpokeClient (clusterName : string) : call bool       (* whether it is ready *)
| CleanupSpokeAccess (clusterName : string) : call unit
| GetClusterVersion : call ClusterVersion
| PatchClusterVersion (base cv : ClusterVersion) : call unit
| DecodeCVSpec (raw : value) : call ClusterVersionSpec
| ListMCPs : call (list MachineConfigPool)
| PatchMCP (name : string) (paused : bool) : call unit
| GetGraph (upstream channel arch : string) : call graph
| GetIBGU : call ImageBasedGroupUpgrade
| BuildIBGU (raw : value) : call ImageBasedGroupUpgrade
| CreateIBGU (ibgu : ImageBasedGroupUpgrade) (isDryRun : bool) : call unit
| DeleteIBGU : call unit
| Seed {A} (c : seed_call A) : call A.

Record event := Ev { ev_object : ProvisioningRequest; ev_type : Type; ev_call : call ev_type }.
Arguments Ev _ {_} _.

Record Env := mkEnv {
  api : forall A, call A -> list event -> error + A;
  clock : list event -> Z;
  parse_duration : string -> option Z;      (* time.ParseDuration *)
  is_dns_label : string -> bool;            (* apimachinery's IsDNS1123Label *)
  operator_namespace : string;
}.
Arguments api _ {_} _ _.

(** ** The task *)

Record timeouts := mkTimeouts {
  hardwareProvisioning : Z;
  clusterProvisioning : Z;
  clusterConfiguration : Z;
  clusterUpgrade : Z;
}.

Record clusterInput := mkInput {
  clusterInstanceData : value;
  hwMgmtData : list (string * value);
  hostToGroupName : gmap string string;
}.

Record task := mkTask {
  object : ProvisioningRequest;
  input : clusterInput;
  ct_namespace : string;
  limits : timeouts;
  log : list event;
}.

Definition with_object (o : ProvisioningRequest) (t : task) : task :=
  mkTask o (input t) (ct_namespace t) (limits t) (log t).
Definition with_input (i : clusterInput) (t : task) : task :=
  mkTask (object t) i (ct_namespace t) (limits t) (log t).
Definition with_namespace (ns : string) (t : task) : task :=
  mkTask (object t) (input t) ns (limits t) (log t).
Definition with_limits (l : timeouts) (t : task) : task :=
  mkTask (object t) (input t) (ct_namespace t) l (log t).
Definition with_event (e : event) (t : task) : task :=
  mkTask (object t) (input t) (ct_namespace t) (limits t) (log t ++ [e]).

Abbreviation prog := (handler task error).

(** [ctrl.Result] *)
Record Result := mkResult { Requeue : bool; RequeueAfter : Z }.
Definition doNotRequeue : Result := mkResult false 0.
Definition requeueImmediately : Result := mkResult true 0.
Definition requeueWithShortInterval : Result := mkResult false (15 * Second).
Definition requeueWithMediumInterval : Result := mkResult false Minute.
Definition requeueWithLongInterval : Result := mkResult false (5 * Minute).
(** [result.Requeue || result.RequeueAfter > 0] *)
Definition requeues (r : Result) : bool := Requeue r || (0 <? RequeueAfter r).

Definition get_object : prog ProvisioningRequest := fun t => (t, Ret (object t)).
Definition modify_object (f : ProvisioningRequest -> ProvisioningRequest) : prog unit :=
  modify (fun t => with_object (f (object t)) t).

(** [t.object.Status.Extensions.ClusterDetails], dereferenced. *)
Definition get_details : prog ClusterDetails :=
  o ← get_object; match Cluster o with Some c => mret c | None => panic end.
Definition modify_details (f : ClusterDetails -> ClusterDetails) : prog unit :=
  c ← get_details; modify_object (with_cluster (Some (f c))).

Section task.
Context (env : Env).

Definition trigger {A} (c : call A) : prog A := fun t =>
  let t' := with_event (Ev (object t) c) t in
  match api env c (log t) with
  | inl e => (t', Err e)
  | inr a => (t', Ret a)
  end.

Definition now : prog Z := fun t => (t, Ret (clock env (log t))).

(** An error of [m] comes back with a prefix. *)
Definition wrapped {A} (prefix : string) (m : prog A) : prog A :=
  r ← try m; match r with inl e => raise (wrap prefix e) | inr a => mret a end.

(** controllers/utils [UpdateK8sCRStatus]: in memory the generation is observed even
    when the update fails. *)
Definition UpdateK8sCRStatus : prog unit :=
  _ ← modify_object (fun o => with_observed (Generation o) o);
  o ← get_object;
  wrapped "status update failed after retries: failed to update status" (trigger (UpdateStatus o)).

(** [fmt.Errorf("failed to update status for ProvisioningRequest %s: %w", ...)] *)
Definition update_status : prog unit :=
  o ← get_object;
  wrapped ("failed to update status for ProvisioningRequest " +:+ Name o) UpdateK8sCRStatus.

(** [DoesK8SResourceExist]: the resource, if it exists. *)
Definition DoesK8SResourceExist {A} (name namespace : string) (c : call A) : prog (option A) :=
  r ← try (trigger c);
  match r with
  | inr a => mret (Some a)
  | inl e =>
      if IsNotFound e then mret None
      else raise (wrap ("failed to check existence of resource '" +:+ name +:+ "' in namespace '"
                          +:+ namespace +:+ "'") e)
  end.

(** [SetStatusCondition(&t.object.Status.Conditions, ...)] *)
Definition set_condition (conditionType reason : string) (status : ConditionStatus) (message : string)
    : prog unit :=
  t ← now;
  modify_object (fun o =>
    with_conditions (SetStatusCondition t (Conditions o) conditionType reason status message) o).

(** The setters of the provisioning state take the time themselves. *)
Definition set_phase (set : Z -> ProvisioningRequest -> ProvisioningRequest) : prog unit :=
  t ← now; modify_object (set t).
Definition set_failed (message : string) : prog unit :=
  set_phase (fun t => SetProvisioningStateFailed t message).
Definition set_in_progress (message : string) : prog unit :=
  set_phase (fun t => SetProvisioningStateInProgress t message).

(** ** Failures and timeouts *)

Definition is_failure (o : ProvisioningRequest) (conditionType : string) : option string :=
  match FindStatusCondition (Conditions o) conditionType with
  | Some c =>
      if bool_decide (cond_Status c = ConditionFalse)
         && has_reason [CRconditionReasons.Failed; CRconditionReasons.TimedOut] c
      then Some (cond_Message c) else None
  | None => None
  end.

Definition checked_conditions : list string :=
  [PRconditionTypes.Validated; PRconditionTypes.ClusterInstanceRendered;
   PRconditionTypes.ClusterResourcesCreated; PRconditionTypes.NodeAllocationRequestRendered;
   PRconditionTypes.HardwareProvisioned; PRconditionTypes.HardwareConfigured].

(** The first failed condition, in the order of the list. *)
Fixpoint first_failure (o : ProvisioningRequest) (types : list string) : option string :=
  match types with
  | [] => None
  | t :: rest => match is_failure o t with Some m => Some m | None => first_failure o rest end
  end.

Definition checkProvisioningConditionsForFailures : prog unit :=
  o ← get_object;
  _ ← match first_failure o checked_conditions with Some m => set_failed m | None => mret tt end;
  update_status.

Definition shouldStopReconciliation (o : ProvisioningRequest) : bool :=
  bool_decide (Phase o = StateFailed) && Contains (Details o) "timed out"
  && (ObservedGeneration o =? Generation o).

Definition checkClusterInstallationTimeout : prog bool :=
  t ← get_state;
  let o := object t in
  match Cluster o with
  | None => mret false
  | Some c =>
      match ClusterProvisionStartedAt c with
      | None => mret false
      | Some start =>
          if IsProvisioningStateFulfilled o then mret false
          else if IsClusterProvisionCompleted o || IsClusterProvisionTimedOutOrFailed o then mret false
          else
            time ← now;
            let timeout := clusterProvisioning (limits t) in
            if TimeoutExceeded time start timeout then
              let message := "Cluster installation timed out after " +:+ Duration_String timeout in
              _ ← set_condition PRconditionTypes.ClusterProvisioned CRconditionReasons.TimedOut
                    ConditionFalse message;
              _ ← set_failed message;
              _ ← try UpdateK8sCRStatus;
              mret true
            else mret false
      end
  end.

(** A condition that is false for another reason than [Failed]. *)
Definition unfinished (o : ProvisioningRequest) (conditionType : string) : bool :=
  condition_is o conditionType (fun c =>
    bool_decide (cond_Status c = ConditionFalse) && negb (has_reason [CRconditionReasons.Failed] c)).

(** One of the timeouts: the phase becomes [Failed] when it is exceeded. *)
Definition fail_after (what : string) (start : option Z) (timeout : Z) (next : prog Result) : prog Result :=
  time ← now;
  match start with
  | Some s =>
      if TimeoutExceeded time s timeout then
        _ ← set_failed (what +:+ " timed out after " +:+ Duration_String timeout);
        _ ← try UpdateK8sCRStatus;
        mret requeueWithMediumInterval
      else next
  | None => next
  end.

Definition checkOverallProvisioningTimeout : prog Result :=
  t ← get_state;
  let o := object t in
  let l := limits t in
  if IsProvisioningStateFulfilled o then mret doNotRequeue
  else
    let overall := clusterProvisioning l + hardwareProvisioning l in
    let started :=
      if (ObservedGeneration o =? Generation o)
         && (bool_decide (Phase o = StatePending) || bool_decide (Phase o = StateProgressing))
      then UpdateTime o else None in
    fail_after "Overall provisioning" started overall
      (* checkHardwareProvisioningTimeout never finds a timeout *)
      (fail_after "Cluster installation"
         match Cluster o with
         | Some c => if unfinished o PRconditionTypes.ClusterProvisioned then ClusterProvisionStartedAt c else None
         | None => None
         end (clusterProvisioning l)
         (fail_after "Cluster configuration"
            match Cluster o with
            | Some c => if unfinished o PRconditionTypes.ConfigurationApplied then NonCompliantAt c else None
            | None => None
            end (clusterConfiguration l)
            (mret doNotRequeue))).
End task.
