(* ===== verification/UpgradeConfig.v ===== *)
(** * The configuration of an upgrade (controllers/provisioningrequest_upgrade.go,
      provisioning/upgrade.go)

    Which kind of upgrade is asked for, its timeout, its rollout plan and how far a
    custom rollout may go, from the defaults of the template and the parameters of the
    request. *)
From S2P Require Import Prelude Conditions GoText MergeMaps Unstructured Handler ProvisioningStatus UpgradePlan UpgradeGraph ProvisioningTask.
#[local] Open Scope string_scope.
#[local] Open Scope Z_scope.

(** ** The kind of an upgrade *)

Inductive UpgradeType : Type := ClusterVersionUpgrade | IBGUUpgrade | SeedGenerationUpgrade.
#[export] Instance UpgradeType_eq_dec : EqDecision UpgradeType.
Proof. solve_decision. Defined.

Definition type_key (t : UpgradeType) : string :=
  match t with
  | ClusterVersionUpgrade => "clusterVersion"
  | IBGUUpgrade => "imageBasedGroupUpgrade"
  | SeedGenerationUpgrade => "seedGeneration"
  end.

Record UpgradeConfig := mkUpgradeConfig { ConfigType : UpgradeType; Timeout : Z }.

Definition has_key (key : string) (m : object_map) : bool :=
  match assoc_lookup key m with Some _ => true | None => false end.

Section config.
Context (env : Env).

Definition parseOperationTimeoutValue (key source : string) (raw : value) : string + Z :=
  match raw with
  | VLeaf "string" s =>
      match parse_duration env s with
      | Some d => if 0 <? d then inr d else inl ("invalid " ++ key ++ " in " ++ source ++ ": must be a positive duration")
      | None => inl ("invalid " ++ key ++ " in " ++ source ++ ": must be a positive duration")
      end
  | _ => inl (key ++ " in " ++ source ++ " must be a duration string")
  end.

(** One of the two sources: [None] when it does not set the timeout. *)
Definition source_timeout (operation : UpgradeType) (timeoutKey name : string) (values : object_map)
    : string + option Z :=
  let foreign := if decide (operation = SeedGenerationUpgrade) then "clusterUpgradeTimeout" else "seedGenerationTimeout" in
  if has_key foreign values then
    inl (foreign ++ " is not valid for " ++ type_key operation ++ " in " ++ name)
  else if has_key timeoutKey values then
    inl (timeoutKey ++ " must be nested under " ++ type_key operation ++ " in " ++ name)
  else
    match assoc_lookup (type_key operation) values with
    | None => inr None
    | Some (VMap nested) =>
        match assoc_lookup timeoutKey nested with
        | None => inr None
        | Some raw =>
            match parseOperationTimeoutValue timeoutKey (name ++ "." ++ type_key operation) raw with
            | inl e => inl e
            | inr d => inr (Some d)
            end
        end
    | Some _ => inl (type_key operation ++ " in " ++ name ++ " must be an object")
    end.

(** Zero when none is set; the defaults are not looked at when the parameters set one. *)
Definition parseOperationTimeout (operation : UpgradeType) (upgradeParams defaults : object_map) : string + Z :=
  match operation with
  | IBGUUpgrade => inr 0
  | _ =>
      let timeoutKey :=
        if decide (operation = ClusterVersionUpgrade) then "clusterUpgradeTimeout" else "seedGenerationTimeout" in
      match source_timeout operation timeoutKey "upgradeParameters" upgradeParams with
      | inl e => inl e
      | inr (Some d) => inr d
      | inr None =>
          match source_timeout operation timeoutKey "upgradeDefaults" defaults with
          | inl e => inl e
          | inr (Some d) => inr d
          | inr None => inr 0
          end
      end
  end.

(** [templateParameters] has no [upgradeParameters] when [None]. *)
Definition upgrade_parameters (templateParams : object_map) : string + option object_map :=
  match assoc_lookup "upgradeParameters" templateParams with
  | None => inr None
  | Some (VMap m) => inr (Some m)
  | Some _ => inl "upgradeParameters is not a map"
  end.

(** The kinds that are configured, and the timeout of the only one. *)
Definition select_upgrade (upgradeParams defaults : object_map) : string + UpgradeConfig :=
  let asked t := has_key (type_key t) upgradeParams || has_key (type_key t) defaults in
  let configured t := match parseOperationTimeout t upgradeParams defaults with
                      | inl e => inl e | inr d => inr (mkUpgradeConfig t d) end in
  let hasCV := asked ClusterVersionUpgrade in
  let hasIBGU := asked IBGUUpgrade in
  let hasSeed := asked SeedGenerationUpgrade in
  if hasCV && hasIBGU then inl "upgrade configuration contains both keys; only one upgrade type is allowed"
  else if hasSeed && (hasCV || hasIBGU) then
    inl "upgrade configuration contains seedGeneration and another operation key; only one upgrade type is allowed"
  else if hasCV then configured ClusterVersionUpgrade
  else if hasIBGU then configured IBGUUpgrade
  else if hasSeed then configured SeedGenerationUpgrade
  else inl "no upgrade configuration found".

Definition raise_text {A} (r : string + A) : prog A :=
  match r with inl e => raise (Errorf e) | inr a => mret a end.

Definition parseUpgradeConfig (ct : ClusterTemplate) : prog UpgradeConfig :=
  templateParams ← wrapped "failed to parse templateParameters" (trigger env DecodeTemplateParameters);
  upgradeParams ← raise_text (upgrade_parameters templateParams);
  match UpgradeDefaults ct with
  | None => raise (Errorf "failed to parse upgradeDefaults")
  | Some defaults => raise_text (select_upgrade (default [] upgradeParams) defaults)
  end.

(** ** The rollout plan *)

(** A JSON string, list of strings, or stage; null leaves what was there, or zero. *)
Definition decode_string (old : string) (v : value) : option string :=
  match v with VLeaf "string" s => Some s | VNil => Some old | _ => None end.

Definition decode_strings (v : value) : option (list string) :=
  match v with VSlice l => mapM (decode_string "") l | VNil => Some [] | _ => None end.

Definition decode_stage (v : value) : option PlanStage :=
  match v with
  | VNil => Some (mkPlanStage "" [])
  | VMap m =>
      foldr (fun '(k, x) rest =>
               s ← rest;
               if EqualFold k "name" then n ← decode_string (ps_Name s) x; Some (mkPlanStage n (ps_Pools s))
               else if EqualFold k "pools" then l ← decode_strings x; Some (mkPlanStage (ps_Name s) l)
               else Some s) (Some (mkPlanStage "" [])) (reverse m)
  | _ => None
  end.

Definition decode_stages (v : value) : option (list PlanStage) :=
  match v with VSlice l => mapM decode_stage l | VNil => Some [] | _ => None end.

(** [json.Unmarshal] into a plan: the fields in the order of the keys, whatever their
    case; other fields are left out. *)
Definition decode_field (p : WorkerPoolPlan) (k : string) (x : value) : option WorkerPoolPlan :=
  let '(mkPlan strategy pools stages through) := p in
  if EqualFold k "strategy" then s ← decode_string strategy x; Some (mkPlan s pools stages through)
  else if EqualFold k "poolsWithControlPlane" then l ← decode_strings x; Some (mkPlan strategy l stages through)
  else if EqualFold k "stages" then l ← decode_stages x; Some (mkPlan strategy pools l through)
  else if EqualFold k "upgradeThrough" then s ← decode_string through x; Some (mkPlan strategy pools stages s)
  else Some p.

Fixpoint decode_plan (p : WorkerPoolPlan) (m : object_map) : option WorkerPoolPlan :=
  match m with
  | [] => Some p
  | (k, x) :: rest => p ← decode_field p k x; decode_plan p rest
  end.

Definition extractWorkerPoolUpgrade (cvConfig : object_map) (isEUS : bool) : string + WorkerPoolPlan :=
  let p := mkPlan (if isEUS then Parallel else OpenShiftDefault) [] [] "" in
  match assoc_lookup "workerPoolUpgrade" cvConfig with
  | None | Some VNil => inr p
  | Some (VMap m) =>
      match decode_plan p m with Some p => inr p | None => inl "invalid workerPoolUpgrade" end
  | Some _ => inl "invalid workerPoolUpgrade"
  end.

(** ** How far a custom rollout may go *)

(** [None] when the value is not set. *)
Definition read_upgradeThrough (source : string) (nested : bool) (data : option object_map) : string + option string :=
  match data with
  | None => inl ("failed to parse " ++ source)
  | Some data =>
      match
        (if nested then
           match assoc_lookup "upgradeParameters" data with
           | None => inr None
           | Some (VMap m) => inr (Some m)
           | Some _ => inl (source ++ ".upgradeParameters must be an object")
           end
         else inr (Some data))
      with
      | inl e => inl e
      | inr None => inr None
      | inr (Some data) =>
          match assoc_lookup "clusterVersion" data with
          | None => inr None
          | Some (VMap cv) =>
              match assoc_lookup "workerPoolUpgrade" cv with
              | None => inr None
              | Some (VMap pool) =>
                  match assoc_lookup "upgradeThrough" pool with
                  | None => inr None
                  | Some (VLeaf "string" s) => inr (Some s)
                  | Some _ => inl (source ++ ".clusterVersion.workerPoolUpgrade.upgradeThrough must be a string")
                  end
              | Some _ => inl (source ++ ".clusterVersion.workerPoolUpgrade must be an object")
              end
          | Some _ => inl (source ++ ".clusterVersion must be an object")
          end
      end
  end.

(** A value in the parameters, an empty one too, overrides the default. *)
Definition RequestedWorkerPoolUpgradeThrough (defaults params : option object_map) : string + string :=
  match read_upgradeThrough "ClusterTemplate upgradeDefaults" false defaults with
  | inl e => inl e
  | inr through =>
      match read_upgradeThrough "templateParameters" true params with
      | inl e => inl e
      | inr override => inr (default (default "" through) override)
      end
  end.
End config.
