(* ===== verification/UpgradeRollout.v ===== *)
(** * The status of an upgrade and the rollout to the worker pools
      (controllers/provisioningrequest_upgrade.go)

    Worker pools are paused while the control plane is upgraded, and released wave by
    wave afterwards: one at a time, all at once, or in stages that the user authorizes,
    whose waits do not count as time of the upgrade. *)
From S2P Require Import Prelude Conditions GoText MergeMaps Unstructured Handler ProvisioningStatus UpgradePlan UpgradeGraph ProvisioningTask UpgradeConfig.
#[local] Open Scope string_scope.
#[local] Open Scope Z_scope.

(** ** Assignments *)

Definition with_upgrade (u : option ClusterUpgradeStatus) (c : ClusterDetails) : ClusterDetails :=
  mkClusterDetails (cd_Name c) (ZtpStatus c) (ClusterProvisionStartedAt c) (NonCompliantAt c) u
    (SeedStatus c) (FulfilledNodeCount c).
(** [&ClusterUpgradeStatus{}] *)
Definition no_upgrade : ClusterUpgradeStatus := mkUpgrade None None None None "" "" None.

Definition with_up_start (t : option Z) (u : ClusterUpgradeStatus) : ClusterUpgradeStatus :=
  mkUpgrade t (ClusterVersionCompletedAt u) (AccumulatedSuspendedDuration u) (TimeoutSuspendedAt u)
    (StartVersion u) (IntermediateVersion u) (WorkerPoolUpgrade u).
Definition with_cv_completed (t : option Z) (u : ClusterUpgradeStatus) : ClusterUpgradeStatus :=
  mkUpgrade (up_StartedAt u) t (AccumulatedSuspendedDuration u) (TimeoutSuspendedAt u)
    (StartVersion u) (IntermediateVersion u) (WorkerPoolUpgrade u).
Definition with_suspension (accumulated suspended : option Z) (u : ClusterUpgradeStatus) : ClusterUpgradeStatus :=
  mkUpgrade (up_StartedAt u) (ClusterVersionCompletedAt u) accumulated suspended
    (StartVersion u) (IntermediateVersion u) (WorkerPoolUpgrade u).
Definition with_start_version (v : string) (u : ClusterUpgradeStatus) : ClusterUpgradeStatus :=
  mkUpgrade (up_StartedAt u) (ClusterVersionCompletedAt u) (AccumulatedSuspendedDuration u) (TimeoutSuspendedAt u)
    v (IntermediateVersion u) (WorkerPoolUpgrade u).
Definition with_intermediate (v : string) (u : ClusterUpgradeStatus) : ClusterUpgradeStatus :=
  mkUpgrade (up_StartedAt u) (ClusterVersionCompletedAt u) (AccumulatedSuspendedDuration u) (TimeoutSuspendedAt u)
    (StartVersion u) v (WorkerPoolUpgrade u).
Definition with_workers (w : option WorkerPoolUpgradeStatus) (u : ClusterUpgradeStatus) : ClusterUpgradeStatus :=
  mkUpgrade (up_StartedAt u) (ClusterVersionCompletedAt u) (AccumulatedSuspendedDuration u) (TimeoutSuspendedAt u)
    (StartVersion u) (IntermediateVersion u) w.

Definition with_managed (b : bool) (w : WorkerPoolUpgradeStatus) : WorkerPoolUpgradeStatus :=
  mkWorkerPools (Strategy w) (PoolsWithControlPlane w) (Stages w) (UpgradeThrough w) b.
Definition with_stages (l : list WorkerPoolUpgradeStage) (w : WorkerPoolUpgradeStatus) : WorkerPoolUpgradeStatus :=
  mkWorkerPools (Strategy w) (PoolsWithControlPlane w) l (UpgradeThrough w) (PauseStateManaged w).
Definition with_through (s : string) (w : WorkerPoolUpgradeStatus) : WorkerPoolUpgradeStatus :=
  mkWorkerPools (Strategy w) (PoolsWithControlPlane w) (Stages w) s (PauseStateManaged w).

Definition with_state (s : string) (st : WorkerPoolUpgradeStage) : WorkerPoolUpgradeStage :=
  mkStage (stage_Name st) (stage_Pools st) s (stage_StartedAt st) (stage_CompletedAt st).
Definition started (t : Z) (st : WorkerPoolUpgradeStage) : WorkerPoolUpgradeStage :=
  mkStage (stage_Name st) (stage_Pools st) "InProgress"
    (match stage_StartedAt st with Some s => Some s | None => Some t end) (stage_CompletedAt st).
Definition completed (t : Z) (st : WorkerPoolUpgradeStage) : WorkerPoolUpgradeStage :=
  mkStage (stage_Name st) (stage_Pools st) "Completed" (stage_StartedAt st)
    (match stage_CompletedAt st with Some s => Some s | None => Some t end).

(** [t.object.Status.Extensions.ClusterDetails.ClusterUpgradeStatus], dereferenced; its
    [WorkerPoolUpgrade], dereferenced. *)
Definition get_upgrade : prog ClusterUpgradeStatus :=
  d ← get_details; match UpgradeStatus d with Some u => mret u | None => panic end.
Definition modify_upgrade (f : ClusterUpgradeStatus -> ClusterUpgradeStatus) : prog unit :=
  u ← get_upgrade; modify_details (with_upgrade (Some (f u))).
Definition get_workers : prog WorkerPoolUpgradeStatus :=
  u ← get_upgrade; match WorkerPoolUpgrade u with Some w => mret w | None => panic end.
Definition modify_workers (f : WorkerPoolUpgradeStatus -> WorkerPoolUpgradeStatus) : prog unit :=
  w ← get_workers; modify_upgrade (with_workers (Some (f w))).

Section rollout.
Context (env : Env).

(** ** The status *)

Definition clearUpgradeStatus : prog unit :=
  o ← get_object;
  match Cluster o with Some _ => modify_details (with_upgrade None) | None => mret tt end.

Definition resetUpgradeTimeoutAccounting : prog unit :=
  o ← get_object;
  match Cluster o with
  | Some d =>
      match UpgradeStatus d with
      | Some _ => modify_upgrade (fun u => with_up_start None (with_suspension None None u))
      | None => mret tt
      end
  | None => mret tt
  end.

Definition terminal_failures : list string :=
  [CRconditionReasons.PreconditionChecksFailed; CRconditionReasons.Failed; CRconditionReasons.TimedOut].

Definition updateUpgradeStatus (reason message : string) : prog unit :=
  _ ← (if decide (reason = CRconditionReasons.Completed) then clearUpgradeStatus
       else if decide (reason ∈ terminal_failures) then
         _ ← set_failed env message;
         when (negb (bool_decide (reason = CRconditionReasons.TimedOut))) resetUpgradeTimeoutAccounting
       else set_in_progress env message);
  _ ← set_condition env PRconditionTypes.UpgradeCompleted reason
        (if decide (reason = CRconditionReasons.Completed) then ConditionTrue else ConditionFalse) message;
  wrapped "failed to update ProvisioningRequest CR status" (UpdateK8sCRStatus env).

Definition activeUpgradeDuration (u : ClusterUpgradeStatus) (now : Z) : Z :=
  match up_StartedAt u with
  | None => 0
  | Some start =>
      let stop := match TimeoutSuspendedAt u with Some s => s | None => now end in
      let duration := stop - start - match AccumulatedSuspendedDuration u with Some a => a | None => 0 end in
      if duration <? 0 then 0 else duration
  end.

Definition upgrade_of (o : ProvisioningRequest) : option ClusterUpgradeStatus := d ← Cluster o; UpgradeStatus d.

Definition isCVUpgradeTimedOut (clusterName : string) (cv : option ClusterVersion) : prog bool :=
  o ← get_object;
  if IsClusterUpgradeCompleted o || IsClusterUpgradeInTerminalFailure o then mret false
  else
    match upgrade_of o with
    | None => mret false
    | Some u =>
        match up_StartedAt u with
        | None => mret false
        | Some _ =>
            time ← now env;
            t ← get_state;
            if activeUpgradeDuration u time <=? clusterUpgrade (limits t) then mret false
            else
              _ ← wrapped "failed to cleanup spoke access" (trigger env (CleanupSpokeAccess clusterName));
              let msg := match GetCVCondition cv "Failing" with
                         | Some c => if is_true c then "Upgrade timed out: " ++ cond_Message c else "Upgrade timed out"
                         | None => "Upgrade timed out"
                         end in
              _ ← updateUpgradeStatus CRconditionReasons.TimedOut msg;
              mret true
        end
    end.

(** The version label of the cluster is read once, so that the kind of the upgrade stays
    the same. *)
Definition initUpgradeStatus (clusterName : string) : prog unit :=
  o ← get_object;
  _ ← match Cluster o with
      | None => modify_object (with_cluster (Some no_details))
      | Some _ => mret tt
      end;
  d ← get_details;
  _ ← match UpgradeStatus d with
      | None => modify_details (with_upgrade (Some no_upgrade))
      | Some _ => mret tt
      end;
  u ← get_upgrade;
  _ ← match up_StartedAt u with
      | None => time ← now env; modify_upgrade (with_up_start (Some time))
      | Some _ => mret tt
      end;
  if negb (bool_decide (StartVersion u = "")) then mret tt
  else
    mc ← wrapped "failed to get ManagedCluster" (trigger env (GetManagedCluster clusterName));
    match mc_openshiftVersion mc with
    | None => raise (InputError ("openshiftVersion label not found on ManagedCluster " ++ clusterName))
    | Some v => modify_upgrade (with_start_version v)
    end.

Definition cleanupStaleUpgradeState (clusterName : string) : prog unit :=
  _ ← wrapped "failed to cleanup spoke access" (trigger env (CleanupSpokeAccess clusterName));
  _ ← clearUpgradeStatus;
  _ ← modify_object (fun o =>
        with_conditions (RemoveStatusCondition (Conditions o) PRconditionTypes.UpgradeCompleted) o);
  wrapped "failed to update ProvisioningRequest CR status" (UpdateK8sCRStatus env).

(** ** Machine config pools of the spoke cluster *)

Definition list_mcps : prog (list MachineConfigPool) :=
  wrapped "failed to list MachineConfigPools" (trigger env ListMCPs).
Definition ListNonMasterMCPs : prog (list MachineConfigPool) :=
  mcps ← list_mcps; mret (filter (fun p => is_worker p = true) mcps).

Fixpoint PauseMCPs (mcps : list MachineConfigPool) : prog unit :=
  match mcps with
  | [] => mret tt
  | p :: rest =>
      if Paused p then PauseMCPs rest
      else
        _ ← wrapped ("failed to pause MachineConfigPool " ++ mcp_Name p) (trigger env (PatchMCP (mcp_Name p) true));
        PauseMCPs rest
  end.

(** Whether any was unpaused. *)
Fixpoint UnpauseMCPs (mcps : list MachineConfigPool) : prog bool :=
  match mcps with
  | [] => mret false
  | p :: rest =>
      if negb (Paused p) then UnpauseMCPs rest
      else
        _ ← wrapped ("failed to unpause MachineConfigPool " ++ mcp_Name p) (trigger env (PatchMCP (mcp_Name p) false));
        _ ← UnpauseMCPs rest; mret true
  end.

Definition unpauseNonMasterMCPs : prog unit :=
  nonMaster ← wrapped "failed to list MCPs for unpause" ListNonMasterMCPs;
  _ ← wrapped "failed to unpause MCPs" (UnpauseMCPs nonMaster); mret tt.

(** ** Messages *)

(** Of a wave before it is unpaused: the pools that are updated, and the others. *)
Definition workerPoolWaveProgress (wave : list MachineConfigPool) (notUpdated : list string) : list string * list string :=
  let waits (p : MachineConfigPool) := bool_decide (mcp_Name p ∈ notUpdated) || Paused p in
  (map mcp_Name (filter (fun p => waits p = false) wave), map mcp_Name (filter (fun p => waits p = true) wave)).

Definition workerPoolRolloutProgressMessage (strategy phase : string) (updatedPools waitingPools : list string) : string :=
  "ClusterVersion upgrade completed. " ++ strategy ++ " worker-pool rollout:"
  ++ (if decide (phase = "") then "" else " " ++ phase ++ ";")
  ++ (if decide (updatedPools = []) then "" else " updated pools [" ++ Join ", " updatedPools ++ "];")
  ++ " waiting for pools [" ++ Join ", " waitingPools ++ "] to finish updating".

(** ** Waves *)

(** Every one of these parts returns [None] when the rollout may go on. *)
Definition waitForControlPlaneWorkerPools (mcps : list MachineConfigPool) : prog (option Result) :=
  w ← get_workers;
  let pools := FilterMCPsByNames mcps (PoolsWithControlPlane w) in
  let notUpdated := GetNonUpdatedMCPs pools in
  if decide (notUpdated = []) then mret None
  else
    let '(updatedPools, waitingPools) := workerPoolWaveProgress pools notUpdated in
    _ ← updateUpgradeStatus CRconditionReasons.InProgress
          (workerPoolRolloutProgressMessage (Strategy w) "pools upgrading with the control plane"
             updatedPools waitingPools);
    mret (Some requeueWithMediumInterval).

(** One wave: unpause it, and wait until it is updated. *)
Definition run_wave (strategy phase : string) (completedPools : list string) (wave : list MachineConfigPool)
    : prog (option Result) :=
  let notUpdated := GetNonUpdatedMCPs wave in
  let '(updatedInWave, waitingPools) := workerPoolWaveProgress wave notUpdated in
  unpaused ← wrapped "failed to unpause MCPs" (UnpauseMCPs wave);
  if unpaused || negb (bool_decide (notUpdated = [])) then
    _ ← updateUpgradeStatus CRconditionReasons.InProgress
          (workerPoolRolloutProgressMessage strategy phase (completedPools ++ updatedInWave)%list waitingPools);
    mret (Some requeueWithMediumInterval)
  else mret None.

Fixpoint run_waves (strategy : string) (completedPools : list string) (waves : list (list MachineConfigPool))
    : prog (option Result) :=
  match waves with
  | [] => mret None
  | wave :: rest =>
      r ← run_wave strategy "" completedPools wave;
      match r with
      | Some result => mret (Some result)
      | None => run_waves strategy (completedPools ++ map mcp_Name wave)%list rest
      end
  end.

Definition reconcileSerialOrParallelWorkerPoolRollout (mcps : list MachineConfigPool) : prog (option Result) :=
  r ← waitForControlPlaneWorkerPools mcps;
  match r with
  | Some result => mret (Some result)
  | None =>
      w ← get_workers;
      let remaining := ExcludeMCPsByNames mcps (PoolsWithControlPlane w) in
      if decide (remaining = []) then mret None
      else if decide (Strategy w = Serial) then
        run_waves (Strategy w) (PoolsWithControlPlane w) (map (fun p => [p]) remaining)
      else if decide (Strategy w = Parallel) then
        run_waves (Strategy w) (PoolsWithControlPlane w) [remaining]
      else raise (Errorf ("unsupported persisted workerPoolUpgrade strategy " ++ Strategy w))
  end.

(** ** Stages *)

Definition modify_stage (i : nat) (f : WorkerPoolUpgradeStage -> WorkerPoolUpgradeStage) : prog unit :=
  modify_workers (fun w => with_stages (alter f i (Stages w)) w).

(** Newly authorized stages become pending; what has started stays. *)
Definition authorize (requestedIndex : Z) (i : nat) (st : WorkerPoolUpgradeStage) : WorkerPoolUpgradeStage :=
  if bool_decide (stage_State st = "Completed") || bool_decide (stage_State st = "InProgress") then st
  else with_state (if Z.of_nat i <=? requestedIndex then "Pending" else "AwaitingAuthorization") st.

Definition resume_timeout (now : Z) (u : ClusterUpgradeStatus) : ClusterUpgradeStatus :=
  match TimeoutSuspendedAt u with
  | None => u
  | Some s =>
      let waited := now - s in
      with_suspension
        (if 0 <? waited
         then Some (match AccumulatedSuspendedDuration u with Some a => a | None => 0 end + waited)
         else AccumulatedSuspendedDuration u) None u
  end.

(** While a stage waits to be authorized. *)
Definition suspend_timeout (now : Z) (u : ClusterUpgradeStatus) : ClusterUpgradeStatus :=
  with_suspension (AccumulatedSuspendedDuration u)
    (match TimeoutSuspendedAt u with Some s => Some s | None => Some now end) u.

Definition refreshCustomStageAuthorization (ct : ClusterTemplate) : prog unit :=
  w ← get_workers;
  params ← try (trigger env DecodeTemplateParameters);
  match RequestedWorkerPoolUpgradeThrough (UpgradeDefaults ct)
          (match params with inr m => Some m | inl _ => None end) with
  | inl e => raise (Errorf ("failed to resolve requested Custom stage authorization: " ++ e))
  | inr requestedThrough =>
      let currentIndex := StageIndex (Some w) (UpgradeThrough w) in
      let requestedIndex := StageIndex (Some w) requestedThrough in
      if negb (bool_decide (UpgradeThrough w = "")) && (currentIndex <? 0) then mret tt
      else if negb (bool_decide (requestedThrough = "")) && (requestedIndex <? 0) then mret tt
      else if requestedIndex <=? currentIndex then mret tt
      else
        time ← now env;
        _ ← modify_upgrade (resume_timeout time);
        _ ← modify_workers (fun w => with_stages (imap (authorize requestedIndex) (Stages w))
                                       (with_through requestedThrough w));
        wrapped "failed to persist clusterVersion.workerPoolUpgrade.upgradeThrough" (UpdateK8sCRStatus env)
  end.

(** The [n] stages from index [i] on, which are authorized. *)
Fixpoint run_stages (mcps : list MachineConfigPool) (n i : nat) (completedPools : list string) : prog (option Result) :=
  match n with
  | O => mret None
  | S n' =>
      w ← get_workers;
      match Stages w !! i with
      | None => panic
      | Some stage =>
          if decide (stage_State stage = "Completed") then
            run_stages mcps n' (S i) (completedPools ++ stage_Pools stage)%list
          else
            time ← now env;
            _ ← modify_stage i (started time);
            r ← run_wave (Strategy w) ("stage " ++ stage_Name stage ++ " in progress") completedPools
                  (FilterMCPsByNames mcps (stage_Pools stage));
            match r with
            | Some result => mret (Some result)
            | None =>
                time ← now env;
                _ ← modify_stage i (completed time);
                run_stages mcps n' (S i) (completedPools ++ stage_Pools stage)%list
            end
      end
  end.

Definition awaiting_message (stages : list WorkerPoolUpgradeStage) (next : nat) (stage : WorkerPoolUpgradeStage) : string :=
  "ClusterVersion upgrade completed. Custom worker-pool rollout: "
  ++ match next with
     | O => ""
     | S i => match stages !! i with Some st => "stage " ++ stage_Name st ++ " completed; " | None => "" end
     end
  ++ "awaiting authorization for stage " ++ stage_Name stage ++ " (pools [" ++ Join ", " (stage_Pools stage)
  ++ "]). Set clusterVersion.workerPoolUpgrade.upgradeThrough to " ++ stage_Name stage
  ++ (if decide (next < length stages - 1)%nat then " or a later stage" else "") ++ " to continue".

(** After the authorized stages: suspend the timeout while the next one waits. *)
Definition await_authorization (next : nat) : prog (option Result) :=
  w ← get_workers;
  match Stages w !! next with
  | None => mret None
  | Some stage =>
      time ← now env;
      _ ← modify_upgrade (suspend_timeout time);
      _ ← updateUpgradeStatus CRconditionReasons.AwaitingStageAuthorization (awaiting_message (Stages w) next stage);
      mret (Some (mkResult false (15 * Minute)))
  end.

Definition reconcileCustomWorkerPoolRollout (mcps : list MachineConfigPool) (ct : ClusterTemplate) : prog (option Result) :=
  _ ← refreshCustomStageAuthorization ct;
  r ← waitForControlPlaneWorkerPools mcps;
  match r with
  | Some result => mret (Some result)
  | None =>
      w ← get_workers;
      let next := Z.to_nat (StageIndex (Some w) (UpgradeThrough w) + 1) in
      r ← run_stages mcps next 0 (PoolsWithControlPlane w);
      match r with
      | Some result => mret (Some result)
      | None => await_authorization next
      end
  end.

(** [None]: all the worker pools are done. *)
Definition reconcileWorkerPoolRollout (ct : ClusterTemplate) : prog (option Result) :=
  u ← get_upgrade;
  match WorkerPoolUpgrade u with
  | None => raise (Errorf "workerPoolUpgrade status is missing for completed ClusterVersion upgrade")
  | Some w =>
      if decide (Strategy w = OpenShiftDefault) then mret None
      else
        mcps ← wrapped "failed to list MCPs" ListNonMasterMCPs;
        if decide (Strategy w = Serial \/ Strategy w = Parallel) then reconcileSerialOrParallelWorkerPoolRollout mcps
        else if decide (Strategy w = Custom) then reconcileCustomWorkerPoolRollout mcps ct
        else raise (Errorf ("unsupported workerPoolUpgrade strategy " ++ Strategy w))
  end.
End rollout.
