(* ===== verification/UpgradeQuiet.v ===== *)
(** * The quiet parts of an upgrade (theory of UpgradeRollout)

    Most of an upgrade only reads, and records how far it is: it changes nothing on the
    spoke cluster, leaves the plan for the worker pools alone and does not complete the
    upgrade. *)
From S2P Require Import Prelude Conditions GoText MergeMaps Unstructured Handler ProvisioningStatus UpgradePlan UpgradeGraph ProvisioningTask UpgradeConfig UpgradeRollout.
#[local] Open Scope string_scope.
#[local] Open Scope Z_scope.

Definition workers_of (o : ProvisioningRequest) : option WorkerPoolUpgradeStatus :=
  u ← upgrade_of o; WorkerPoolUpgrade u.
Definition under_way (o : ProvisioningRequest) : Prop := IsClusterUpgradeCompleted o = false.

(** A call that changes the spoke cluster. *)
Definition patches (e : event) : Prop :=
  match ev_call e with PatchMCP _ _ | PatchClusterVersion _ _ => True | _ => False end.
(** No status that completes the upgrade. *)
Definition sends_under_way (e : event) : Prop :=
  match ev_call e with UpdateStatus o => under_way o | _ => True end.

Record quiet (t t' : task) : Prop := mkQuiet {
  quiet_workers : workers_of (object t') = workers_of (object t);
  quiet_upgrade : is_Some (upgrade_of (object t)) -> is_Some (upgrade_of (object t'));
  quiet_under_way : under_way (object t) -> under_way (object t');
  quiet_log : exists es, log t' = (log t ++ es)%list /\ Forall (fun e => ~ patches e) es /\
    (under_way (object t) -> Forall sends_under_way es);
}.

#[export] Instance quiet_preorder : PreOrder quiet.
Proof.
  split.
  - intros t. split; [done..|]. exists []. by rewrite app_nil_r.
  - intros t1 t2 t3 [W1 U1 C1 (es & E1 & P1 & S1)] [W2 U2 C2 (fs & E2 & P2 & S2)]. split; [congruence|auto..|].
    exists (es ++ fs)%list. split_and!; [by rewrite E2, E1, app_assoc|by apply Forall_app_2|].
    intros Hu. apply Forall_app_2; auto.
Qed.

(** ** Leaves *)

Lemma quiet_silent t t' :
  log t' = log t -> workers_of (object t') = workers_of (object t) ->
  (is_Some (upgrade_of (object t)) -> is_Some (upgrade_of (object t'))) ->
  (under_way (object t) -> under_way (object t')) -> quiet t t'.
Proof. intros Hl ???. split; [done..|]. exists []. by rewrite app_nil_r. Qed.

Lemma quiet_object (f : ProvisioningRequest -> ProvisioningRequest) :
  (forall o, upgrade_of (f o) = upgrade_of o) -> (forall o, under_way o -> under_way (f o)) ->
  preserves quiet (modify_object f).
Proof.
  intros Hu Hc t. apply quiet_silent; simpl; [done| |by rewrite Hu|auto]. unfold workers_of. by rewrite Hu.
Qed.

Lemma quiet_now env : preserves quiet (now env).
Proof. intros t. reflexivity. Qed.
Lemma quiet_get_object : preserves quiet get_object.
Proof. intros t. reflexivity. Qed.
Lemma quiet_get_details : preserves quiet get_details.
Proof. intros t. unfold get_details, mbind, handler_bind. simpl. by destruct (Cluster (object t)). Qed.
Lemma quiet_get_upgrade : preserves quiet get_upgrade.
Proof. apply preserves_bind; [apply quiet_get_details|]. intros d. destruct (UpgradeStatus d); [apply preserves_ret|apply preserves_panic]. Qed.
Lemma quiet_get_workers : preserves quiet get_workers.
Proof. apply preserves_bind; [apply quiet_get_upgrade|]. intros d. destruct (WorkerPoolUpgrade d); [apply preserves_ret|apply preserves_panic]. Qed.

Lemma quiet_limits f : preserves quiet (modify (fun t => with_limits (f t) t) : prog unit).
Proof. intros t. by apply quiet_silent. Qed.

Lemma quiet_trigger env {A} (c : call A) :
  (forall o, ~ patches (Ev o c) /\ sends_under_way (Ev o c)) -> preserves quiet (trigger env c).
Proof.
  intros Hc t. unfold trigger.
  destruct (api env c (log t)); (split; [done..|]; exists [Ev (object t) c]; split_and!; [done|..]; simpl).
  all: try intros _; repeat constructor; apply Hc.
Qed.

Lemma quiet_wrapped {A} prefix (m : prog A) : preserves quiet m -> preserves quiet (wrapped prefix m).
Proof.
  intros Hm. unfold wrapped. apply preserves_bind; [by apply preserves_try|].
  intros []; [apply preserves_raise|apply preserves_ret].
Qed.

Lemma quiet_set_phase env set :
  (forall time o, upgrade_of (set time o) = upgrade_of o /\ Conditions (set time o) = Conditions o) ->
  preserves quiet (set_phase env set).
Proof.
  intros Hs. unfold set_phase. apply preserves_bind; [apply quiet_now|]. intros time. apply quiet_object.
  - intros o. apply Hs.
  - intros o. unfold under_way, IsClusterUpgradeCompleted, condition_is. by rewrite (proj2 (Hs time o)).
Qed.
Lemma quiet_set_failed env message : preserves quiet (set_failed env message).
Proof. apply quiet_set_phase. intros. unfold SetProvisioningStateFailed, set_state. by case_match. Qed.
Lemma quiet_set_in_progress env message : preserves quiet (set_in_progress env message).
Proof. apply quiet_set_phase. intros. unfold SetProvisioningStateInProgress, set_state. by case_match. Qed.

Lemma quiet_condition env t reason message : preserves quiet (set_condition env t reason ConditionFalse message).
Proof.
  unfold set_condition. apply preserves_bind; [apply quiet_now|]. intros time. apply quiet_object; [done|].
  intros o. unfold under_way, IsClusterUpgradeCompleted, condition_is, SetStatusCondition. simpl.
  set (new := mkCondition _ _ _ _ _ _). destruct (decide (t = PRconditionTypes.UpgradeCompleted)) as [->|Hne].
  - pose proof (Find_SetStatusCondition_eq (Conditions o) new) as Hc. simpl in Hc. rewrite Hc.
    clear Hc. intros _. by destruct (FindStatusCondition (Conditions o) _).
  - by rewrite Find_SetStatusCondition_ne.
Qed.

Lemma quiet_update env : preserves quiet (UpdateK8sCRStatus env).
Proof.
  unfold UpdateK8sCRStatus. apply preserves_bind; [by apply quiet_object|].
  intros _ t. unfold wrapped, try, trigger, get_object, mbind, handler_bind.
  destruct (api env (UpdateStatus (object t)) (log t)); simpl;
    (split; [done..|]; exists [Ev (object t) (UpdateStatus (object t))]; split; [done|]);
    (split; [constructor; [by intros []|constructor]|]); intros Hu; constructor; [exact Hu|constructor|exact Hu|constructor].
Qed.

Lemma quiet_modify_upgrade f :
  (forall u, WorkerPoolUpgrade (f u) = WorkerPoolUpgrade u) -> preserves quiet (modify_upgrade f).
Proof.
  intros Hf t. unfold modify_upgrade, modify_details, get_upgrade, get_details, get_object, modify_object, modify,
    mbind, handler_bind, mret, handler_ret.
  destruct (Cluster (object t)) as [d|] eqn:Ed; cbn [panic]; [|reflexivity].
  destruct (UpgradeStatus d) as [u|] eqn:Eu; cbn [panic]; [|reflexivity]. rewrite Ed.
  apply quiet_silent; unfold workers_of, upgrade_of; simpl; [done| |done..].
  rewrite Ed. simpl. rewrite Eu. simpl. apply Hf.
Qed.

(** A call whose error is wrapped. *)
Lemma wrapped_trigger_eq env {A} prefix (c : call A) t :
  wrapped prefix (trigger env c) t =
    (with_event (Ev (object t) c) t, match api env c (log t) with inl e => Err (wrap prefix e) | inr a => Ret a end).
Proof.
  unfold wrapped, try, trigger, mbind, handler_bind. by destruct (api env c (log t)).
Qed.

(** ** The walk *)

Create HintDb quiet.
#[export] Hint Resolve quiet_now quiet_get_object quiet_get_details quiet_get_upgrade quiet_get_workers quiet_limits
  quiet_set_failed quiet_set_in_progress quiet_condition quiet_update : quiet.

Ltac quiet_step :=
  cbv beta iota zeta;
  lazymatch goal with
  | |- preserves _ (mret _) => apply preserves_ret
  | |- preserves _ (raise _) => apply preserves_raise
  | |- preserves _ panic => apply preserves_panic
  | |- preserves _ get_state => apply preserves_get
  | |- preserves _ (_ ≫= _) => apply preserves_bind; [|intros ?]
  | |- preserves _ (try _) => apply preserves_try
  | |- preserves _ (when _ _) => apply preserves_when
  | |- preserves _ (wrapped _ _) => apply quiet_wrapped
  | |- preserves _ (trigger _ _) => apply quiet_trigger; intros ?; split; [intros []|exact I]
  | |- preserves _ (modify_upgrade _) => apply quiet_modify_upgrade; by intros ?
  | |- preserves _ (match ?x with _ => _ end) => destruct x
  end.

Ltac quiet_walk :=
  repeat first [ solve [eauto with quiet nocore] | quiet_step
               | match goal with |- preserves _ ?m => let h := head m in unfold h end ].

Section parts.
Context (env : Env).

Lemma resetUpgradeTimeoutAccounting_quiet : preserves quiet resetUpgradeTimeoutAccounting.
Proof using. unfold resetUpgradeTimeoutAccounting. quiet_walk. Qed.
#[local] Hint Resolve resetUpgradeTimeoutAccounting_quiet : quiet.

(** Only the completion of the upgrade is not quiet. *)
Lemma updateUpgradeStatus_quiet reason message :
  reason <> CRconditionReasons.Completed -> preserves quiet (updateUpgradeStatus env reason message).
Proof using. intros Hr. unfold updateUpgradeStatus. rewrite !decide_False by done. quiet_walk. Qed.
End parts.
#[export] Hint Extern 1 (preserves quiet (updateUpgradeStatus _ _ _)) =>
  apply updateUpgradeStatus_quiet; discriminate : quiet.
