(* ===== verification/UpgradeRolloutFacts.v ===== *)
(** * The order of a rollout (theory of UpgradeRollout)

    A worker pool is released only in its turn: after the pools that upgrade with the
    control plane and the waves before it; a stage only when it is authorized.  A rollout
    that goes on has released and updated every pool. *)
From S2P Require Import Prelude Conditions GoText MergeMaps Unstructured Handler ProvisioningStatus UpgradePlan UpgradeGraph ProvisioningTask UpgradeConfig UpgradeRollout UpgradeQuiet.
#[local] Open Scope string_scope.
#[local] Open Scope Z_scope.

(** ** What the theorems speak of *)

(** A pool that is on the new version and not held back. *)
Definition rolled_out (p : MachineConfigPool) : Prop := pool_updated p = true /\ Paused p = false.

(** The worker pools that the cluster answers after the calls [l], if it answers. *)
Definition listed (env : Env) (l : list event) : option (list MachineConfigPool) :=
  match api env ListMCPs l with inr all => Some (filter (fun p => is_worker p = true) all) | inl _ => None end.

Section order.
Context (mcps : list MachineConfigPool) (w : WorkerPoolUpgradeStatus).

Definition with_control_plane_updated : Prop :=
  Forall (fun p => pool_updated p = true) (FilterMCPsByNames mcps (PoolsWithControlPlane w)).
(** The pools after the control plane, in the order of their names. *)
Definition remaining : list MachineConfigPool := ExcludeMCPsByNames mcps (PoolsWithControlPlane w).

(** It is the turn of the pool [n], by the strategy of the plan; [o] is the request when
    the pool is released. *)
Inductive turn (o : ProvisioningRequest) (n : string) : Prop :=
| turn_serial pre p post :
    Strategy w = Serial -> remaining = (pre ++ p :: post)%list -> Forall rolled_out pre -> mcp_Name p = n -> turn o n
| turn_parallel p : Strategy w = Parallel -> p ∈ remaining -> mcp_Name p = n -> turn o n
| turn_custom w' i st :
    Strategy w = Custom -> workers_of o = Some w' -> Stages w' !! i = Some st -> n ∈ stage_Pools st ->
    Z.of_nat i <= StageIndex (Some w') (UpgradeThrough w') ->
    (forall j st', (j < i)%nat -> Stages w' !! j = Some st' -> stage_State st' = "Completed") -> turn o n.

(** The calls of a rollout: a pool is only released, in its turn. *)
Definition in_turn_only (e : event) : Prop :=
  match ev_call e with
  | PatchMCP n paused => paused = false /\ with_control_plane_updated /\ turn (ev_object e) n
  | PatchClusterVersion _ _ => False
  | _ => True
  end.

(** A stage that is completed was so before, or its pools are rolled out. *)
Definition accounted (i : nat) (st : WorkerPoolUpgradeStage) : Prop :=
  stage_State st = "Completed" ->
  (exists st0, Stages w !! i = Some st0 /\ stage_State st0 = "Completed")
  \/ Forall rolled_out (FilterMCPsByNames mcps (stage_Pools st)).

(** The rollout is over. *)
Definition rollout_over (o : ProvisioningRequest) : Prop :=
  with_control_plane_updated /\
  (Strategy w = Serial \/ Strategy w = Parallel -> Forall rolled_out remaining) /\
  (Strategy w = Custom -> exists w', workers_of o = Some w' /\
     forall i st, Stages w' !! i = Some st -> stage_State st = "Completed" /\ accounted i st).
End order.

(** Pools are touched only after the cluster has answered with a list of them, in the turns
    of that list. *)
Definition in_turn_listed (answer : option (list MachineConfigPool)) (w : WorkerPoolUpgradeStatus) (e : event) : Prop :=
  patches e -> exists mcps, answer = Some mcps /\ in_turn_only mcps w e.

(** ** Pools *)

Lemma pool_named_spec mcps n found p :
  pool_named mcps n found = Some p -> (p ∈ mcps /\ mcp_Name p = n) \/ found = Some p.
Proof.
  revert found. induction mcps as [|q mcps IH]; intros found; cbn [pool_named]; [by right|].
  intros [[Hin Hn]|Hf]%IH; [left; by split; [right|]|].
  case_decide; [|by right]. simplify_eq. left. split; [left|done].
Qed.

Lemma elem_of_FilterMCPsByNames mcps names p :
  p ∈ FilterMCPsByNames mcps names -> p ∈ mcps /\ mcp_Name p ∈ names.
Proof.
  unfold FilterMCPsByNames. intros (n & Hn & Hp)%list_elem_of_omap.
  apply pool_named_spec in Hp as [[Hin <-]|]; [by split|done].
Qed.

Lemma GetNonUpdated_nil mcps :
  GetNonUpdatedMCPs mcps = [] <-> Forall (fun p => pool_updated p = true) mcps.
Proof.
  unfold GetNonUpdatedMCPs. induction mcps as [|p mcps IH]; [by split|].
  rewrite filter_cons, Forall_cons, <- IH. destruct (pool_updated p); case_decide; naive_solver.
Qed.

Lemma concat_singletons {A} (l : list A) : concat (map (fun x => [x]) l) = l.
Proof. induction l; simpl; congruence. Qed.

(** ** Frames *)

(** A rollout goes on with [None]; what is known then. *)
Lemma leads_granted {A} (F : Prop) (I : task -> Prop) (m : prog A) Q X :
  (F -> leads I m Q X) -> leads (fun t => I t /\ (@None Result = None -> F)) m Q X.
Proof. intros Hm t [HI HF]. by apply Hm; [apply HF|]. Qed.

(** A handler that is quiet keeps what speaks of the plan and of the calls. *)
Definition issued (P : event -> Prop) (l0 : list event) (t : task) : Prop :=
  exists es, log t = (l0 ++ es)%list /\ Forall P es.

Lemma issued_quiet (P : event -> Prop) l0 t t' :
  (forall e, ~ patches e -> P e) -> issued P l0 t -> quiet t t' -> issued P l0 t'.
Proof.
  intros HP (es & He & Hes) [_ _ _ (fs & Hf & Hfs & _)]. exists (es ++ fs)%list.
  split; [by rewrite Hf, He, app_assoc|]. apply Forall_app_2; [done|]. by eapply Forall_impl.
Qed.

Lemma issued_call P l0 t e : issued P l0 t -> P e -> issued P l0 (with_event e t).
Proof.
  intros (es & He & Hes) HP. exists (es ++ [e])%list. simpl. split; [by rewrite He, app_assoc|].
  by apply Forall_app_2; [|constructor].
Qed.

Lemma unpatched_in_turn mcps w e : ~ patches e -> in_turn_only mcps w e.
Proof. unfold patches, in_turn_only. destruct (ev_call e); tauto. Qed.

(** The plan of a rollout: all but how far it is. *)
Definition same_plan (w w' : WorkerPoolUpgradeStatus) : Prop :=
  Strategy w' = Strategy w /\ PoolsWithControlPlane w' = PoolsWithControlPlane w.

(** ** One wave *)

Section waves.
Context (env : Env) (I : task -> Prop).
Context (I_quiet : forall t t', I t -> quiet t t' -> I t').

Lemma leads_quiet {A} (m : prog A) : preserves quiet m -> leads I m (fun _ => I) I.
Proof using I_quiet. intros Hm. by eapply leads_frame. Qed.

Section wave.
Context (wave : list MachineConfigPool).
Context (Hcall : forall t p, I t -> p ∈ wave -> I (with_event (Ev (object t) (PatchMCP (mcp_Name p) false)) t)).

Lemma UnpauseMCPs_leads l :
  (forall p, p ∈ l -> p ∈ wave) ->
  leads I (UnpauseMCPs env l) (fun b t => I t /\ (b = false -> Forall (fun p => Paused p = false) l)) I.
Proof using Hcall.
  induction l as [|p l IH]; intros Hl; cbn [UnpauseMCPs]; [by apply leads_ret; auto|].
  destruct (Paused p) eqn:Hp; cbn [negb].
  - eapply (leads_bind _ _ _ (fun _ => I)).
    + unfold wrapped. eapply (leads_bind _ _ _ (fun _ => I)).
      * intros t Ht. apply wp_try. unfold wp, trigger.
        pose proof (Hcall t p Ht (Hl p ltac:(left))) as Hc. destruct (api env _ _); exact Hc.
      * intros []; [by apply leads_raise|by apply leads_ret].
    + intros _. eapply leads_bind; [apply IH; intros; apply Hl; by right|].
      intros b. apply leads_ret. intros t [Ht _]. by split.
  - eapply leads_mono; [apply IH; intros; apply Hl; by right|done| |done].
    intros b t [Ht Hb]. split; [done|]. intros Hf. constructor; auto.
Qed.

Lemma run_wave_leads strategy phase completed :
  leads I (run_wave env strategy phase completed wave)
    (fun r t => I t /\ (r = None -> Forall rolled_out wave)) I.
Proof using Hcall I_quiet.
  unfold run_wave. destruct (workerPoolWaveProgress _ _) as [updated waiting]. unfold wrapped.
  eapply (leads_bind _ _ _ (fun b t => I t /\ (b = false -> Forall (fun p => Paused p = false) wave))).
  - eapply leads_bind; [apply leads_try, UnpauseMCPs_leads; auto|].
    intros [e|b]; [by apply leads_raise|by apply leads_ret].
  - intros b. destruct (b || _) eqn:E.
    + eapply (leads_bind _ _ _ (fun _ => I)); [|intros _; by apply leads_ret].
      eapply leads_mono; [apply (leads_quiet (updateUpgradeStatus _ _ _))|by intros t []|done..].
      eauto with quiet.
    + apply orb_false_elim in E as [-> E%negb_false_iff%bool_decide_eq_true].
      apply leads_ret. intros t [Ht Hb]. split; [done|intros _].
      apply GetNonUpdated_nil in E. specialize (Hb eq_refl). rewrite Forall_forall in *.
      intros p Hp. split; auto.
Qed.
End wave.

(** ** The waves, one after the other *)

Lemma run_waves_leads strategy (waves : list (list MachineConfigPool)) :
  (forall t pre wave post p, waves = (pre ++ wave :: post)%list -> Forall rolled_out (concat pre) -> p ∈ wave ->
     I t -> I (with_event (Ev (object t) (PatchMCP (mcp_Name p) false)) t)) ->
  forall completed, leads I (run_waves env strategy completed waves)
    (fun r t => I t /\ (r = None -> Forall rolled_out (concat waves))) I.
Proof using I_quiet.
  intros Hcall.
  enough (forall post pre, waves = (pre ++ post)%list -> Forall rolled_out (concat pre) ->
    forall completed, leads I (run_waves env strategy completed post)
      (fun r t => I t /\ (r = None -> Forall rolled_out (concat waves))) I) as Hall.
  { intros completed. by apply (Hall waves []). }
  induction post as [|wave post IH]; intros pre Hw Hpre completed; cbn [run_waves].
  - apply leads_ret. intros t Ht. split; [done|]. by rewrite Hw, app_nil_r.
  - eapply leads_bind; [apply run_wave_leads; intros t p Ht Hp; by apply (Hcall t pre wave post p)|].
    intros [result|]; [by apply leads_ret; intros t []|]. apply leads_granted. intros Hd.
    apply (IH (pre ++ [wave])%list); [by rewrite <- app_assoc|].
    rewrite concat_app. apply Forall_app_2; [done|]. simpl. by rewrite app_nil_r.
Qed.
End waves.

(** ** Reading the plan *)

Lemma get_upgrade_eq t u : upgrade_of (object t) = Some u -> get_upgrade t = (t, Ret u).
Proof.
  unfold upgrade_of, get_upgrade, get_details, get_object, mbind, handler_bind, mret, handler_ret.
  destruct (Cluster (object t)) as [d|]; [|done]. simpl. by intros ->.
Qed.

Lemma get_workers_eq t w : workers_of (object t) = Some w -> get_workers t = (t, Ret w).
Proof.
  unfold workers_of. intros (u & Hu & Hw)%bind_Some. unfold get_workers.
  unfold mbind, handler_bind. by rewrite (get_upgrade_eq t u Hu), Hw.
Qed.

Lemma leads_upgrade {A} (P : task -> Prop) (k : ClusterUpgradeStatus -> prog A) Q X :
  (forall t, P t -> X t) -> (forall u, leads (fun t => upgrade_of (object t) = Some u /\ P t) (k u) Q X) ->
  leads P (u ← get_upgrade; k u) Q X.
Proof.
  intros HX Hk t Ht. destruct (upgrade_of (object t)) as [u|] eqn:Hu.
  - apply wp_bind. unfold wp. rewrite (get_upgrade_eq t u Hu). by apply Hk.
  - assert (get_upgrade t = (t, Panic)) as He.
    { revert Hu. unfold upgrade_of, get_upgrade, get_details, get_object, mbind, handler_bind, mret, handler_ret.
      destruct (Cluster (object t)) as [d|]; [simpl; by intros ->|done]. }
    unfold wp, mbind, handler_bind. rewrite He. by apply HX.
Qed.

Lemma leads_workers {A} (P : task -> Prop) (k : WorkerPoolUpgradeStatus -> prog A) Q X :
  (forall t, P t -> is_Some (workers_of (object t))) ->
  (forall w, leads (fun t => workers_of (object t) = Some w /\ P t) (k w) Q X) ->
  leads P (w ← get_workers; k w) Q X.
Proof.
  intros Hs Hk t Ht. destruct (Hs t Ht) as [w Hw]. apply wp_bind. unfold wp.
  rewrite (get_workers_eq t w Hw). by apply Hk.
Qed.

(** An assignment to the plan. *)
Lemma modify_workers_eq t w f :
  workers_of (object t) = Some w ->
  exists t', modify_workers f t = (t', Ret tt) /\ workers_of (object t') = Some (f w) /\ log t' = log t.
Proof.
  unfold workers_of, upgrade_of. intros (u & (d & Hd & Hu)%bind_Some & Hw)%bind_Some.
  unfold modify_workers, modify_upgrade, get_workers, get_upgrade, modify_details, get_details, get_object,
    modify_object, modify, mbind, handler_bind, mret, handler_ret.
  rewrite Hd, Hu, Hw, Hd, Hu, Hd. eexists. split; [reflexivity|done].
Qed.

(** ** Serial and parallel *)

Section rollout.
Context (env : Env) (mcps : list MachineConfigPool) (w : WorkerPoolUpgradeStatus) (l0 : list event).

(** The plan stands, and all calls were in turn. *)
Definition planned (t : task) : Prop :=
  (exists w', workers_of (object t) = Some w' /\ same_plan w w') /\ issued (in_turn_only mcps w) l0 t.

Lemma planned_quiet t t' : planned t -> quiet t t' -> planned t'.
Proof using.
  intros [Hw Hi] Hq. split; [by rewrite (quiet_workers t t' Hq)|].
  eapply issued_quiet; [apply unpatched_in_turn|exact Hi|exact Hq].
Qed.

Lemma planned_workers t : planned t -> is_Some (workers_of (object t)).
Proof using. intros [(w' & -> & _) _]. by eexists. Qed.

Lemma planned_call t n :
  planned t -> with_control_plane_updated mcps w -> turn mcps w (object t) n ->
  planned (with_event (Ev (object t) (PatchMCP n false)) t).
Proof using. intros [Hw Hi] Hc Ht. split; [exact Hw|]. apply issued_call; [exact Hi|]. by split_and!. Qed.

(** Any invariant that quiet steps keep. *)
Lemma wait_leads (I : task -> Prop) :
  (forall t t', I t -> quiet t t' -> I t') ->
  (forall t, I t -> exists w', workers_of (object t) = Some w' /\ same_plan w w') ->
  leads I (waitForControlPlaneWorkerPools env mcps)
    (fun r t => I t /\ (r = None -> with_control_plane_updated mcps w)) I.
Proof using.
  intros HI Hw. unfold waitForControlPlaneWorkerPools.
  apply leads_workers; [intros t (w' & Hw' & _)%Hw; by eexists|]. intros w' t [Ht HIt].
  destruct (Hw t HIt) as (w'' & Hw'' & _ & Hp). rewrite Ht in Hw''. simplify_eq. rewrite Hp.
  case_decide as Hn.
  - apply leads_ret with (P := I); [|done]. intros s Hs. split; [done|intros _]. by apply GetNonUpdated_nil.
  - destruct (workerPoolWaveProgress _ _). eapply (leads_bind I _ _ (fun _ => I)); [| |done].
    + apply leads_quiet; [done|]. eauto with quiet.
    + intros _. by apply leads_ret.
Qed.

Lemma reconcileSerialOrParallel_leads :
  Strategy w = Serial \/ Strategy w = Parallel ->
  leads planned (reconcileSerialOrParallelWorkerPoolRollout env mcps)
    (fun r t => planned t /\ (r = None -> with_control_plane_updated mcps w /\ Forall rolled_out (remaining mcps w)))
    planned.
Proof using.
  intros Hs. unfold reconcileSerialOrParallelWorkerPoolRollout.
  eapply leads_bind; [apply wait_leads; [exact planned_quiet|by intros t []]|].
  intros [result|]; [by apply leads_ret; intros t []|]. apply leads_granted. intros Hc.
  apply leads_workers; [exact planned_workers|]. intros w' t [Ht HI].
  destruct (HI) as [(w'' & Hw'' & Hst & Hp) _]. rewrite Ht in Hw''. simplify_eq. rewrite Hp, Hst.
  fold (remaining mcps w). revert HI. clear Ht Hp Hst. revert t.
  assert (forall waves, concat waves = remaining mcps w ->
    (forall pre wave post p, waves = (pre ++ wave :: post)%list -> Forall rolled_out (concat pre) -> p ∈ wave ->
       forall o, turn mcps w o (mcp_Name p)) ->
    leads planned (run_waves env (Strategy w) (PoolsWithControlPlane w) waves)
      (fun r t => planned t /\ (r = None -> with_control_plane_updated mcps w /\ Forall rolled_out (remaining mcps w)))
      planned) as Hwaves.
  { intros waves Hcat Hturn. eapply leads_mono; [apply run_waves_leads|done| |done].
    - exact planned_quiet.
    - intros t pre wave post p Hw Hpre Hin HI. apply planned_call; [done|done|]. by eapply Hturn.
    - intros r t [HI Hr]. split; [done|]. intros Hn. rewrite <- Hcat. auto. }
  case_decide as Hnil; [rewrite Hnil; apply leads_ret; intros t HI; by split_and!|].
  destruct (decide (Strategy w = Serial)) as [Hser|Hser]; [|destruct (decide _) as [Hpar|]; [|by destruct Hs]].
  - apply Hwaves; [apply concat_singletons|]. intros pre wave post p Hw Hpre Hin o.
    apply map_eq_app in Hw as (l1 & l2 & Hrem & <- & Hl2). apply map_eq_cons in Hl2 as (q & l3 & -> & <- & _).
    apply list_elem_of_singleton in Hin as ->. rewrite concat_singletons in Hpre. by eapply turn_serial.
  - apply Hwaves; [simpl; by rewrite app_nil_r|]. intros pre wave post p Hw Hpre Hin o.
    destruct pre as [|? pre]; simplify_list_eq; [by eapply turn_parallel|by destruct pre].
Qed.
End rollout.

(** ** Stages *)

(** The index depends on the names of the stages. *)
Lemma StageIndex_names w1 w2 n :
  map stage_Name (Stages w1) = map stage_Name (Stages w2) -> StageIndex (Some w1) n = StageIndex (Some w2) n.
Proof.
  unfold StageIndex. case_decide; [done|]. generalize (Stages w1) (Stages w2).
  assert (forall l1 l2, map stage_Name l1 = map stage_Name l2 ->
    fst <$> list_find (fun st => stage_Name st = n) l1 = fst <$> list_find (fun st => stage_Name st = n) l2) as Hf.
  { induction l1 as [|s1 l1 IH]; intros [|s2 l2]; simpl; intros [=]; [done|].
    repeat case_decide; simpl; [done|congruence..|]. specialize (IH l2 ltac:(done)).
    destruct (list_find _ l1) as [[]|], (list_find _ l2) as [[]|]; naive_solver. }
  intros l1 l2 Hm. specialize (Hf l1 l2 Hm).
  destruct (list_find _ l1) as [[]|], (list_find _ l2) as [[]|]; naive_solver.
Qed.

Lemma StageIndex_bounds w n : -1 <= StageIndex (Some w) n < Z.of_nat (length (Stages w)).
Proof.
  unfold StageIndex. case_decide; [lia|]. destruct (list_find _ _) as [[i st]|] eqn:E; [|lia].
  apply list_find_Some in E as (Hl & _). apply lookup_lt_Some in Hl. lia.
Qed.

Section custom.
Context (env : Env) (mcps : list MachineConfigPool) (w : WorkerPoolUpgradeStatus) (l0 : list event).

(** Of the plan [w']: stages up to the index [auth] are authorized, those before [k] are
    completed, and what is completed is accounted for. *)
Record stages_ok (auth : Z) (k : nat) (w' : WorkerPoolUpgradeStatus) : Prop := mkStagesOk {
  so_plan : same_plan w w';
  so_authorized : StageIndex (Some w') (UpgradeThrough w') = auth;
  so_accounted i st : Stages w' !! i = Some st -> accounted mcps w i st;
  so_before j st : (j < k)%nat -> Stages w' !! j = Some st -> stage_State st = "Completed";
}.

Definition staged (auth : Z) (k : nat) (t : task) : Prop :=
  (exists w', workers_of (object t) = Some w' /\ stages_ok auth k w') /\ issued (in_turn_only mcps w) l0 t.
Definition staged_any (t : task) : Prop := exists auth, staged auth 0 t.

(** The stage [k] is [st]. *)
Definition at_stage (auth : Z) (k : nat) (st : WorkerPoolUpgradeStage) (t : task) : Prop :=
  (exists w', workers_of (object t) = Some w' /\ Stages w' !! k = Some st) /\ staged auth k t.

Lemma staged_quiet auth k t t' : staged auth k t -> quiet t t' -> staged auth k t'.
Proof using.
  intros [Hw Hi] Hq. split; [by rewrite (quiet_workers t t' Hq)|].
  eapply issued_quiet; [apply unpatched_in_turn|exact Hi|exact Hq].
Qed.
Lemma staged_any_quiet t t' : staged_any t -> quiet t t' -> staged_any t'.
Proof using. intros [auth Ht] Hq. exists auth. by eapply staged_quiet. Qed.
Lemma at_stage_quiet auth k st t t' : at_stage auth k st t -> quiet t t' -> at_stage auth k st t'.
Proof using.
  intros [Hw Hs] Hq. split; [by rewrite (quiet_workers t t' Hq)|by eapply staged_quiet].
Qed.

Lemma staged_workers auth k t : staged auth k t -> is_Some (workers_of (object t)).
Proof using. intros [(w' & -> & _) _]. by eexists. Qed.
Lemma staged_zero auth k t : staged auth k t -> staged auth 0 t.
Proof using. intros [(w' & Hw & [? ? ? ?]) Hi]. split; [|done]. exists w'. split; [done|]. by split; [..|lia]. Qed.
Lemma staged_start auth k t : staged auth k t -> staged_any t.
Proof using. intros Ht. exists auth. by eapply staged_zero. Qed.

(** A stage changes its state, and becomes completed only with its pools. *)
Lemma modify_stage_staged auth k k' st f t :
  at_stage auth k st t -> stage_Name (f st) = stage_Name st -> stage_Pools (f st) = stage_Pools st ->
  (stage_State (f st) = "Completed" -> Forall rolled_out (FilterMCPsByNames mcps (stage_Pools st))) ->
  (k' <= k)%nat \/ (k' = S k /\ stage_State (f st) = "Completed") ->
  exists t', modify_stage k f t = (t', Ret tt) /\ at_stage auth k (f st) t' /\ staged auth k' t'.
Proof using.
  intros [(w' & Hw & Hk) Hs] Hn Hp Hc Hk'. destruct (Hs) as [(w'' & Hw'' & Hok) Hi].
  assert (w'' = w') as -> by congruence. destruct Hok as [Hplan Hauth Hacc Hbefore].
  destruct (modify_workers_eq t w' (fun w => with_stages (alter f k (Stages w)) w) Hw) as (t' & He & Hw2 & Hl).
  exists t'. split; [exact He|].
  assert (forall i st', alter f k (Stages w') !! i = Some st' ->
    (i = k /\ st' = f st) \/ (i <> k /\ Stages w' !! i = Some st')) as Halter.
  { intros i st' Hi'. destruct (decide (i = k)) as [->|Hne].
    - rewrite list_lookup_alter_eq, Hk in Hi'. simplify_eq/=. by left.
    - rewrite list_lookup_alter_ne in Hi' by done. by right. }
  assert (forall k', (k' <= k)%nat \/ (k' = S k /\ stage_State (f st) = "Completed") -> staged auth k' t') as Hall.
  { intros m Hm. split; [|by destruct Hi as (es & He' & Hes); exists es; rewrite Hl].
    eexists. split; [exact Hw2|]. split.
    - exact Hplan.
    - rewrite <- Hauth. apply StageIndex_names. simpl. apply list_eq. intros i. rewrite !list_lookup_fmap.
      destruct (decide (i = k)) as [->|Hne]; [rewrite list_lookup_alter_eq, Hk; simpl; by rewrite Hn|].
      by rewrite list_lookup_alter_ne.
    - intros i st' [[-> ->]|[Hne Hst']]%Halter; [|by apply (Hacc i st' Hst')].
      intros Hcomp. right. rewrite Hp. auto.
    - intros j st' Hj [[-> ->]|[Hne Hst']]%Halter; [destruct Hm as [|[_ ?]]; [lia|done]|].
      apply (Hbefore j); [lia|done]. }
  split; [split; [|apply Hall; by left]|by apply Hall].
  eexists. split; [exact Hw2|]. simpl. by rewrite list_lookup_alter_eq, Hk.
Qed.

Context (Hcustom : Strategy w = Custom) (Hcp : with_control_plane_updated mcps w).

Lemma stage_wave_leads auth k st strategy phase completed :
  Z.of_nat k <= auth ->
  leads (at_stage auth k st) (run_wave env strategy phase completed (FilterMCPsByNames mcps (stage_Pools st)))
    (fun r t => at_stage auth k st t /\
       (r = None -> Forall rolled_out (FilterMCPsByNames mcps (stage_Pools st)))) (at_stage auth k st).
Proof using Hcustom Hcp.
  intros Hk. apply run_wave_leads; [apply at_stage_quiet|].
  intros t p [(w' & Hw & Hst) [(w'' & Hw'' & Hok) Hi]] [Hp Hn]%elem_of_FilterMCPsByNames.
  assert (w'' = w') as -> by congruence. split; [by exists w'|]. split; [by exists w'|].
  apply issued_call; [exact Hi|]. split_and!; [done|exact Hcp|]. destruct Hok as [_ Hauth _ Hbefore].
  eapply turn_custom; [done|exact Hw|exact Hst|exact Hn|by rewrite Hauth|exact Hbefore].
Qed.

Lemma staged_quiet_part {A} auth k (m : prog A) : preserves quiet m -> leads (staged auth k) m (fun _ => staged auth k) (staged auth k).
Proof using. apply leads_quiet, staged_quiet. Qed.

(** The authorized stages: each in its turn. *)
Lemma run_stages_leads auth n : forall k completed,
  Z.of_nat (k + n) <= auth + 1 ->
  leads (staged auth k) (run_stages env mcps n k completed)
    (fun r => if r is None then staged auth (k + n) else staged_any) staged_any.
Proof using Hcustom Hcp.
  induction n as [|n IH]; intros k completed' Hn; cbn [run_stages].
  { apply leads_ret. by rewrite Nat.add_0_r. }
  replace (k + S n)%nat with (S k + n)%nat in * by lia.
  apply leads_workers; [apply staged_workers|]. intros w'.
  destruct (Stages w' !! k) as [st|] eqn:Hk; [|intros t [_ Ht]; by eapply staged_start].
  apply (leads_when (at_stage auth k st)); [by intros t [Hw Ht]; split; [exists w'|]|].
  case_decide as Hst.
  - eapply leads_mono; [by apply IH| |done..]. intros t [(v & Hv & Hvk) [(v' & Hv' & Hok) Hi]].
    assert (v' = v) as -> by congruence. split; [|done]. exists v. split; [done|].
    destruct Hok as [? ? ? Hb]. split; [done..|]. intros j st' Hj Hst'.
    destruct (decide (j = k)) as [->|]; [congruence|]. apply (Hb j); [lia|done].
  - eapply (leads_bind _ _ _ (fun _ => at_stage auth k st)).
    { eapply leads_mono; [apply (leads_quiet _ (at_stage_quiet auth k st)), quiet_now|done..|by intros t [_ ?%staged_start]]. }
    intros time. eapply (leads_bind _ _ _ (fun _ => at_stage auth k (started time st))).
    { intros t Ht. destruct (modify_stage_staged auth k k st (started time) t Ht) as (t' & He & Ha & _); [done|done|intros [=]|by left|].
      unfold wp. by rewrite He. }
    intros _. eapply leads_bind.
    { eapply leads_mono; [apply (stage_wave_leads auth k (started time st)); lia|done..|by intros t [_ ?%staged_start]]. }
    intros [result|]; [by apply leads_ret; intros t [[_ ?%staged_start] _]|]. apply leads_granted. intros Hdone.
    eapply (leads_bind _ _ _ (fun _ => at_stage auth k (started time st))).
    { eapply leads_mono; [apply (leads_quiet _ (at_stage_quiet auth k (started time st))), quiet_now|done..|by intros t [_ ?%staged_start]]. }
    intros time'. eapply (leads_bind _ _ _ (fun _ => staged auth (S k))); [|intros _; by apply IH].
    intros t Ht.
    destruct (modify_stage_staged auth k (S k) _ (completed time') t Ht) as (t' & He & _ & Ha); [done..|by right|].
    unfold wp. by rewrite He.
Qed.

(** What has been authorized and done is not taken back. *)
Lemma modify_workers_staged f t :
  staged_any t -> (forall w', same_plan w' (f w')) ->
  (forall w' i st, Stages (f w') !! i = Some st -> stage_State st = "Completed" ->
     exists st0, Stages w' !! i = Some st0 /\ stage_State st0 = "Completed" /\ stage_Pools st0 = stage_Pools st) ->
  exists t', modify_workers f t = (t', Ret tt) /\ staged_any t'.
Proof using.
  intros [auth [(w' & Hw & [[Hs Hp] _ Hacc _]) Hi]] Hf Hst.
  destruct (modify_workers_eq t w' f Hw) as (t' & He & Hw2 & Hl). exists t'. split; [done|].
  eexists. split; [|destruct Hi as (es & He' & Hes); exists es; by rewrite Hl].
  exists (f w'). split; [done|]. split; [|reflexivity| |lia].
  - destruct (Hf w') as [Hs' Hp']. split; congruence.
  - intros i st Hst1 Hc. destruct (Hst w' i st Hst1 Hc) as (st0 & H0 & Hc0 & Hpools).
    unfold accounted in Hacc. rewrite <- Hpools. by apply (Hacc i st0).
Qed.

Lemma refreshCustomStageAuthorization_leads ct :
  leads staged_any (refreshCustomStageAuthorization env ct) (fun _ => staged_any) staged_any.
Proof using.
  unfold refreshCustomStageAuthorization.
  assert (forall A (m : prog A), preserves quiet m -> leads staged_any m (fun _ => staged_any) staged_any) as Hq.
  { intros A m. apply leads_quiet, staged_any_quiet. }
  eapply leads_bind; [apply Hq; eauto with quiet|]. intros w0.
  eapply leads_bind; [apply Hq; quiet_walk|]. intros params.
  destruct (RequestedWorkerPoolUpgradeThrough _ _) as [e|through]; [by apply leads_raise|].
  cbv zeta. do 3 (case_match; [by apply leads_ret|]).
  eapply leads_bind; [apply Hq, quiet_now|]. intros time.
  eapply leads_bind.
  { apply Hq, quiet_modify_upgrade. intros u. unfold resume_timeout. by destruct (TimeoutSuspendedAt u). }
  intros []. eapply (leads_bind _ _ _ (fun _ => staged_any)); [|intros _; apply Hq; quiet_walk].
  intros t Ht. edestruct modify_workers_staged as (t' & He & Ha); [exact Ht| | |unfold wp; rewrite He; exact Ha].
  - intros w'. by split.
  - intros w' i st. cbn [Stages with_stages with_through]. rewrite list_lookup_imap.
    destruct (Stages w' !! i) as [st0|]; intros [= <-] Hc. exists st0. split; [done|].
    unfold authorize in *. destruct (_ || _) eqn:E; [done|].
    by destruct (Z.of_nat i <=? _).
Qed.

Lemma await_authorization_leads auth k :
  leads (staged auth k) (await_authorization env k)
    (fun r t => staged_any t /\ (r = None -> rollout_over mcps w (object t))) staged_any.
Proof using Hcustom Hcp.
  unfold await_authorization. apply leads_workers; [apply staged_workers|]. intros w'.
  destruct (Stages w' !! k) as [st|] eqn:Hk.
  - eapply (leads_mono (staged auth k) _ _ (fun r t => staged auth k t /\ r <> None) _ (staged auth k));
      [|by intros t []| |apply staged_start].
    2: { intros r t [Ht Hr]. split; [by eapply staged_start|done]. }
    eapply leads_bind; [apply staged_quiet_part, quiet_now|intros time].
    eapply leads_bind; [apply staged_quiet_part; by apply quiet_modify_upgrade|intros ?].
    eapply leads_bind; [apply staged_quiet_part; eauto with quiet|intros ?]. by apply leads_ret.
  - apply leads_ret. intros t [Hw Ht]. split; [by eapply staged_start|]. intros _.
    destruct Ht as [(v & Hv & [_ _ Hacc Hb]) _]. assert (v = w') as -> by congruence.
    split_and!; [done|by rewrite Hcustom; intros [|]|]. intros _. exists w'. split; [done|].
    intros i st Hi. split; [|by apply Hacc]. apply (Hb i); [|done].
    apply lookup_lt_Some in Hi. apply lookup_ge_None in Hk. lia.
Qed.
End custom.

(** ** The rollout *)

Section whole.
Context (env : Env) (mcps : list MachineConfigPool) (w : WorkerPoolUpgradeStatus) (l0 : list event).

Lemma reconcileCustom_leads ct :
  Strategy w = Custom ->
  leads (staged_any mcps w l0) (reconcileCustomWorkerPoolRollout env mcps ct)
    (fun r t => staged_any mcps w l0 t /\ (r = None -> rollout_over mcps w (object t))) (staged_any mcps w l0).
Proof using.
  intros Hc. unfold reconcileCustomWorkerPoolRollout.
  eapply leads_bind; [apply refreshCustomStageAuthorization_leads|intros ?].
  eapply leads_bind; [apply (wait_leads env mcps w (staged_any mcps w l0)); [by apply staged_any_quiet|]|].
  { intros t [auth [(w' & Hw' & Hok) _]]. exists w'. split; [done|apply Hok]. }
  intros [result|]; [by apply leads_ret; intros t []|]. apply leads_granted. intros Hcp.
  apply leads_workers; [intros t [auth Ht]; by eapply staged_workers|]. intros w'.
  set (auth := StageIndex (Some w') (UpgradeThrough w')).
  apply (leads_when (staged mcps w l0 auth 0)).
  { intros t [Hw [auth' [(v & Hv & Hok) Hi]]]. assert (v = w') as -> by congruence.
    split; [|done]. exists w'. split; [done|]. destruct Hok. by split. }
  pose proof (StageIndex_bounds w' (UpgradeThrough w')) as Hb.
  eapply leads_bind; [apply (run_stages_leads env mcps w l0 Hc Hcp auth); unfold auth; lia|].
  intros [result|]; [by apply leads_ret|]. by apply await_authorization_leads with (auth := auth).
Qed.

(** What is kept in every case. *)
Lemma staged_start_of o :
  workers_of (object o) = Some w -> issued (in_turn_only mcps w) l0 o -> staged_any mcps w l0 o.
Proof using.
  intros Hw Hi. eexists. split; [|exact Hi]. exists w. split; [done|]. split; [done|reflexivity| |lia].
  intros i st Hst Hcomp. left. by exists st.
Qed.
End whole.

Lemma ListNonMasterMCPs_eq env t prefix :
  wrapped prefix (ListNonMasterMCPs env) t =
    (with_event (Ev (object t) ListMCPs) t,
     match api env ListMCPs (log t) with
     | inl e => Err (wrap prefix (wrap "failed to list MachineConfigPools" e))
     | inr all => Ret (filter (fun p => is_worker p = true) all)
     end).
Proof.
  unfold ListNonMasterMCPs, list_mcps, wrapped, try, trigger, mbind, handler_bind, mret, handler_ret.
  by destruct (api env ListMCPs (log t)).
Qed.

(** The rollout from a task with the plan [w]. *)
Lemma reconcileWorkerPoolRollout_wp env ct t w :
  workers_of (object t) = Some w ->
  wp (reconcileWorkerPoolRollout env ct) (fun t' r =>
    issued (in_turn_listed (listed env (log t)) w) (log t) t' /\
    (exists w', workers_of (object t') = Some w' /\ same_plan w w') /\
    (r = Ret None -> Strategy w <> OpenShiftDefault ->
       exists mcps es, listed env (log t) = Some mcps /\ rollout_over mcps w (object t') /\
         log t' = (log t ++ Ev (object t) ListMCPs :: es)%list)) t.
Proof.
  intros Hw. unfold reconcileWorkerPoolRollout.
  assert (issued (in_turn_listed (listed env (log t)) w) (log t) t) as Hi by (exists []; by rewrite app_nil_r).
  assert (exists w', workers_of (object t) = Some w' /\ same_plan w w') as Hp by by exists w.
  pose proof Hw as (u & Hu & Hwu)%bind_Some. apply wp_bind. unfold wp at 1.
  rewrite (get_upgrade_eq t u Hu). cbn [fst snd through]. rewrite Hwu. cbv iota.
  destruct (decide (Strategy w = OpenShiftDefault)); [by split_and!|].
  apply wp_bind. unfold wp at 1. rewrite ListNonMasterMCPs_eq.
  set (t1 := with_event _ t). unfold listed in *.
  destruct (api env ListMCPs (log t)) as [e|all]; cbn [fst snd through].
  { split_and!; [|done..]. exists [Ev (object t) ListMCPs]. split; [done|]. constructor; [by intros []|constructor]. }
  set (mcps := filter _ all).
  assert (forall t', issued (in_turn_only mcps w) (log t1) t' ->
    issued (in_turn_listed (Some mcps) w) (log t) t' /\ exists es, log t' = (log t ++ Ev (object t) ListMCPs :: es)%list) as Hmore.
  { intros t' (es & He & Hes). simpl in He. rewrite <- app_assoc in He. simpl in He.
    split; [|by exists es]. exists (Ev (object t) ListMCPs :: es). split; [exact He|]. constructor; [by intros []|].
    eapply Forall_impl; [exact Hes|]. intros e Hturn _. by exists mcps. }
  assert (issued (in_turn_only mcps w) (log t1) t1) as Hi1 by (exists []; by rewrite app_nil_r).
  destruct (decide (_ \/ _)) as [Hsp|Hsp]; [|destruct (decide _) as [Hc|]; [|split_and!; [by apply Hmore|done..]]].
  - eapply wp_mono; [apply (reconcileSerialOrParallel_leads env mcps w (log t1) Hsp t1); by split|].
    intros t' [r| | |]; [intros [[? [? [es Hes]]%Hmore] Hr]|by intros [? [? ?]%Hmore]..]. split_and!; [done..|].
    intros [= ->] _. exists mcps, es. split_and!; [done| |done]. destruct (Hr eq_refl) as [Hcp Hall].
    split_and!; [done|done|]. intros Hc. destruct Hsp as [Hs|Hs]; by rewrite Hs in Hc.
  - assert (forall t', staged_any mcps w (log t1) t' ->
      issued (in_turn_only mcps w) (log t1) t' /\ exists w', workers_of (object t') = Some w' /\ same_plan w w') as Hany.
    { intros t' [auth [(w' & ? & []) ?]]. split; [done|by exists w']. }
    eapply wp_mono; [apply (reconcileCustom_leads env mcps w (log t1) ct Hc t1); by apply staged_start_of|].
    intros t' [r| | |]; [intros [[[? [es Hes]]%Hmore ?]%Hany Hr]|by intros [[? ?]%Hmore ?]%Hany..]. split_and!; [done..|].
    intros [= ->] _. exists mcps, es. auto.
Qed.

(** ** Authorization *)

(** The plan [w'] has not lost anything against [w]. *)
Definition grown (w w' : WorkerPoolUpgradeStatus) : Prop :=
  same_plan w w' /\
  StageIndex (Some w) (UpgradeThrough w) <= StageIndex (Some w') (UpgradeThrough w') /\
  length (Stages w') = length (Stages w) /\
  forall i st, Stages w !! i = Some st -> exists st', Stages w' !! i = Some st' /\
    stage_Name st' = stage_Name st /\ stage_Pools st' = stage_Pools st /\
    (stage_State st = "Completed" \/ stage_State st = "InProgress" -> st' = st) /\
    (stage_State st = "Pending" -> Z.of_nat i <= StageIndex (Some w) (UpgradeThrough w) -> stage_State st' = "Pending").

Lemma grown_refl w : grown w w.
Proof. split_and!; [by split|lia|done|]. intros i st Hi. exists st. by split_and!. Qed.

Lemma authorize_grows w through :
  StageIndex (Some w) (UpgradeThrough w) <= StageIndex (Some w) through ->
  grown w (with_stages (imap (authorize (StageIndex (Some w) through)) (Stages w)) (with_through through w)).
Proof.
  set (r := StageIndex (Some w) through). intros Hr.
  assert (forall i st, stage_Name (authorize r i st) = stage_Name st) as Hname.
  { intros i st. unfold authorize. by destruct (_ || _). }
  split_and!; [by split| |by simpl; rewrite length_imap|].
  - etransitivity; [exact Hr|]. unfold r. apply Z.eq_le_incl, StageIndex_names. simpl.
    apply list_eq. intros i. rewrite !list_lookup_fmap, list_lookup_imap.
    destruct (Stages w !! i); [simpl; by rewrite Hname|done].
  - intros i st Hi. exists (authorize r i st). cbn [Stages with_stages]. rewrite list_lookup_imap, Hi.
    split_and!; [done|apply Hname|unfold authorize; by destruct (_ || _)|..].
    + unfold authorize. by intros [-> | ->].
    + unfold authorize. intros -> Hle. simpl. rewrite (proj2 (Z.leb_le (Z.of_nat i) r)); [done|lia].
Qed.

(** C21: Authorization of stages only grows: reading the parameters again, with whatever
    they say and whatever fails, never lowers the stage up to which the rollout is
    authorized, leaves the stages that have started or are completed as they are, takes no
    stage back that was pending, and changes the name and the pools of no stage. *)
Theorem authorization_only_grows env ct t w :
  workers_of (object t) = Some w ->
  exists w', workers_of (object (refreshCustomStageAuthorization env ct t).1) = Some w' /\ grown w w'.
Proof.
  intros Hw. set (I := fun t : task => workers_of (object t) = Some w).
  set (J := fun t : task => exists w', workers_of (object t) = Some w' /\ grown w w').
  assert (forall t, I t -> J t) as HIJ by (intros s Hs; exists w; split; [done|apply grown_refl]).
  assert (forall A (m : prog A), preserves quiet m -> leads I m (fun _ => I) J) as HI.
  { intros A m Hm. apply (leads_mono I I m (fun _ => I) (fun _ => I) I J); [|done|done|exact HIJ].
    apply leads_quiet; [|done].
    intros s s' Hs Hq. unfold I. by rewrite (quiet_workers s s' Hq). }
  enough (leads I (refreshCustomStageAuthorization env ct) (fun _ => J) J) as Hl.
  { specialize (Hl t Hw). unfold wp in Hl. by destruct (refreshCustomStageAuthorization env ct t) as [? []]. }
  unfold refreshCustomStageAuthorization. apply leads_workers; [intros s ->; by eexists|]. intros w0.
  apply (leads_when (fun s => w0 = w /\ I s)); [intros s [H1 H2]; split; [|done]; unfold I in H2; congruence|].
  apply leads_pre. intros ->. eapply leads_bind; [apply HI; quiet_walk|]. intros params.
  destruct (RequestedWorkerPoolUpgradeThrough _ _) as [e|through]; [by apply leads_raise|].
  cbv zeta. do 2 (case_match; [by apply leads_ret|]).
  destruct (_ <=? _) eqn:Hlt; [by apply leads_ret|]. apply Z.leb_gt in Hlt.
  eapply leads_bind; [apply HI, quiet_now|]. intros time. eapply leads_bind.
  { apply HI, quiet_modify_upgrade. intros u. unfold resume_timeout. by destruct (TimeoutSuspendedAt u). }
  intros ?. eapply (leads_bind _ _ _ (fun _ => J)).
  - intros s Hs. edestruct modify_workers_eq as (s' & He & Hw' & _); [exact Hs|]. unfold wp. rewrite He.
    eexists. split; [exact Hw'|]. apply authorize_grows. lia.
  - intros ?. eapply leads_frame; [quiet_walk|]. intros s s' Hs Hq. unfold J. by rewrite (quiet_workers s s' Hq).
Qed.

(** C20: Worker pools are released in order.  Whatever the cluster answers and whichever
    calls fail, a rollout only unpauses pools, never changes the ClusterVersion, and
    unpauses a pool only when the cluster has listed its worker pools, those that upgrade
    with the control plane are all updated, and it is the pool's turn: with the strategy
    Serial, when every pool before it by name is updated and released; with Parallel, when
    it does not upgrade with the control plane; with Custom, when it belongs to a stage
    that is authorized and the request says of every stage before that it is completed. *)
Theorem rollout_in_order env ct t w :
  workers_of (object t) = Some w ->
  exists es, log (reconcileWorkerPoolRollout env ct t).1 = (log t ++ es)%list /\
    Forall (in_turn_listed (listed env (log t)) w) es.
Proof. intros Hw. by apply (reconcileWorkerPoolRollout_wp env ct t w Hw). Qed.

(** * The time of an upgrade (theory of UpgradeRollout) *)

(** The timeout of an upgrade counts the time that passes, less the time in which a stage
    waits to be authorized. *)
#[local] Close Scope string_scope.

(** Waits from a first to a second moment, one after the other; [from] is before them and
    [until] after. *)
Fixpoint one_after_the_other (from : Z) (waits : list (Z * Z)) (until : Z) : Prop :=
  match waits with
  | [] => from <= until
  | (s, r) :: rest => from <= s <= r /\ one_after_the_other r rest until
  end.

Definition waited (waits : list (Z * Z)) : Z := foldr (fun '(s, r) sum => r - s + sum) 0 waits.

(** The status after waits for authorization. *)
Definition after_waits (waits : list (Z * Z)) (u : ClusterUpgradeStatus) : ClusterUpgradeStatus :=
  fold_left (fun u '(s, r) => resume_timeout r (suspend_timeout s u)) waits u.

Definition accumulated (u : ClusterUpgradeStatus) : Z :=
  match AccumulatedSuspendedDuration u with Some a => a | None => 0 end.

Lemma resume_after_suspend u s r :
  s <= r -> TimeoutSuspendedAt u = None ->
  let u' := resume_timeout r (suspend_timeout s u) in
  up_StartedAt u' = up_StartedAt u /\ TimeoutSuspendedAt u' = None /\ accumulated u' = accumulated u + (r - s).
Proof.
  intros Hsr Hs. unfold suspend_timeout, resume_timeout, accumulated. rewrite Hs.
  cbn [TimeoutSuspendedAt with_suspension AccumulatedSuspendedDuration up_StartedAt].
  split_and!; [done|done|]. destruct (0 <? r - s) eqn:E; [done|]. apply Z.ltb_ge in E. lia.
Qed.

Lemma after_waits_spec waits : forall u from until,
  one_after_the_other from waits until -> TimeoutSuspendedAt u = None ->
  up_StartedAt (after_waits waits u) = up_StartedAt u /\ TimeoutSuspendedAt (after_waits waits u) = None /\
  accumulated (after_waits waits u) = accumulated u + waited waits /\ from + waited waits <= until.
Proof.
  induction waits as [|[s r] waits IH]; intros u from until Hw Hs; cbn [after_waits fold_left waited foldr].
  - cbn in Hw. split_and!; [done|done|lia|lia].
  - destruct Hw as [Hb Hw]. destruct (resume_after_suspend u s r) as (H1 & H2 & H3); [lia|done|].
    destruct (IH _ r until Hw H2) as (H4 & H5 & H6 & H7). unfold after_waits, waited in *.
    rewrite H4, H6, H3. split_and!; [done|done|lia|lia].
Qed.

(** C22: Waiting for the user is not time of the upgrade: after any number of waits for the
    authorization of a stage, the time that counts is what has passed since the start less
    the sum of the waits, and it is not cut off; and while a stage waits the time that
    counts stands still, so a wait of any length does not time the upgrade out. *)
Theorem waits_do_not_count u start waits now later :
  up_StartedAt u = Some start -> TimeoutSuspendedAt u = None -> AccumulatedSuspendedDuration u = None ->
  one_after_the_other start waits now ->
  activeUpgradeDuration (after_waits waits u) now = now - start - waited waits /\
  activeUpgradeDuration (suspend_timeout now (after_waits waits u)) later = now - start - waited waits.
Proof.
  intros Hstart Hs Ha Hw. destruct (after_waits_spec waits u start now Hw Hs) as (H1 & H2 & H3 & H4).
  assert (accumulated u = 0) as H0 by (unfold accumulated; by rewrite Ha). rewrite H0, Hstart in *.
  assert (forall v, up_StartedAt v = Some start -> accumulated v = waited waits ->
    forall time, (TimeoutSuspendedAt v = Some now \/ TimeoutSuspendedAt v = None /\ time = now) ->
    activeUpgradeDuration v time = now - start - waited waits) as Hv.
  { unfold accumulated, activeUpgradeDuration. intros v -> Hacc time Hor. rewrite Hacc.
    assert (match TimeoutSuspendedAt v with Some s => s | None => time end = now) as ->
      by (destruct Hor as [-> | [-> ->]]; done).
    destruct (_ <? 0) eqn:E; [|done]. apply Z.ltb_lt in E. lia. }
  split; apply Hv; try done; [by right|].
  left. unfold suspend_timeout. by rewrite H2.
Qed.

Lemma waits_do_not_count_witness :
  let u := mkUpgrade (Some 100) None None None "4.20.0" "" None in
  activeUpgradeDuration (after_waits [(200, 5000); (6000, 6001)] u) 7000 = 2099 /\
  activeUpgradeDuration (suspend_timeout 7000 (after_waits [(200, 5000); (6000, 6001)] u)) 1000000 = 2099.
Proof.
  apply (waits_do_not_count (mkUpgrade (Some 100) None None None "4.20.0" "" None) 100 [(200, 5000); (6000, 6001)] 7000);
    [done|done|done|cbn; lia].
Defined.
