(* ===== verification/ProvisioningPolicy.v ===== *)
(** * Policy configuration of a provisioned cluster
      (controllers/provisioningrequest_clusterconfig.go)

    The policies bound to the cluster decide the [ConfigurationApplied] condition, the
    start of its timeout and the ZTP status. *)
From S2P Require Import Prelude Conditions GoText Handler ProvisioningStatus ProvisioningTask.
#[local] Open Scope Z_scope.
#[local] Open Scope string_scope.

Definition is_inform (action : string) : bool := EqualFold action "inform".

(** ** Policies *)

(** [RootPolicyMatchesClusterTemplate]: the annotation lists references. *)
Definition RootPolicyMatchesClusterTemplate (annotation : option string) (ctRef : string) : bool :=
  match annotation with
  | None => false
  | Some raw =>
      if bool_decide (ctRef = "") || bool_decide (raw = "") then false
      else existsb (fun item => EqualFold (TrimSpace item) ctRef) (split_comma raw)
  end.

(** The child policies that the matching root policies lead to, with their action. *)
Definition expected_children (ctRef : string) (roots : list Policy) : gmap string string :=
  fold_left (fun m p =>
    if RootPolicyMatchesClusterTemplate (TemplatesAnnotation p) ctRef
    then <[policy_Namespace p ++ "." ++ policy_Name p := ToLower (policy_RemediationAction p)]> m else m)
    roots ∅.

(** [GetParentPolicyNameAndNamespace]: it panics on a name without a dot. *)
Definition parent_of (childPolicyName : string) : prog (string * string) :=
  match split_dot childPolicyName with
  | Some (namespace, name) => mret (name, namespace)
  | None => panic
  end.

(** The loop over the child policies: those of the template's namespace. *)
Fixpoint target_children (ctNamespace : string) (children : list Policy) : prog (list (Policy * PolicyDetails)) :=
  match children with
  | [] => mret []
  | p :: rest =>
      '(name, namespace) ← parent_of (policy_Name p);
      ts ← target_children ctNamespace rest;
      if decide (namespace = "ztp-" ++ ctNamespace)
      then mret ((p, mkPolicy (ComplianceState p) name namespace (policy_RemediationAction p)) :: ts)
      else mret ts
  end.

(** [summarizeExpectedChildPolicies]: whether one is missing, and whether all are
    inform. *)
Definition summarizeExpectedChildPolicies (expected : gmap string string) (current : list string) : bool * bool :=
  (existsb (fun '(name, _) => negb (bool_decide (name ∈ current))) (map_to_list expected),
   forallb (fun '(_, action) => is_inform action) (map_to_list expected)).

Section policy.
Context (env : Env).

(** controllers/utils *)
Definition ClusterIsReadyForPolicyConfig (name : string) : prog bool :=
  r ← wrapped "failed to check if managed cluster exists"
        (DoesK8SResourceExist env name "" (GetManagedCluster name));
  match r with
  | None => mret false
  | Some mc =>
      let ok t := match FindStatusCondition (mc_Conditions mc) t with Some c => is_true c | None => false end in
      mret (ok "ManagedClusterConditionAvailable" && ok "HubAcceptedManagedCluster" && ok "ManagedClusterJoined")
  end.

Definition setConfigurationAppliedStatus (reason message : string) : prog unit :=
  set_condition env PRconditionTypes.ConfigurationApplied reason
    (if bool_decide (reason = CRconditionReasons.Completed) || bool_decide (reason = CRconditionReasons.Missing)
     then ConditionTrue else ConditionFalse) message.

(** The phase follows the configuration only outside an upgrade. *)
Definition not_upgrading (o : ProvisioningRequest) : bool :=
  negb (IsClusterUpgradeInitiated o) || IsClusterUpgradeCompleted o.

(** [updatePolicyConfigPreparationStatus] and [updatePolicyConfigApplyingStatus]. *)
Definition update_policy_status (timedOut : bool) (late running doing : string) : prog unit :=
  o ← get_object;
  if timedOut then
    _ ← when (not_upgrading o) (set_failed env "Cluster configuration timed out");
    setConfigurationAppliedStatus CRconditionReasons.TimedOut late
  else
    _ ← when (not_upgrading o) (set_in_progress env doing);
    setConfigurationAppliedStatus CRconditionReasons.InProgress running.

Definition updatePolicyConfigPreparationStatus (timedOut : bool) : prog unit :=
  update_policy_status timedOut "Timed out waiting for expected configuration to be present"
    "Expected configuration is not yet prepared" "Cluster configuration is being prepared".
Definition updatePolicyConfigApplyingStatus (timedOut : bool) : prog unit :=
  update_policy_status timedOut "The configuration is still being applied, but it timed out"
    "The configuration is still being applied" "Cluster configuration is being applied".

Definition updateClusterNotReadyStatus (allChildPoliciesInInform : bool) : prog unit :=
  _ ← setConfigurationAppliedStatus CRconditionReasons.ClusterNotReady "The Cluster is not yet ready";
  o ← get_object;
  when (IsClusterProvisionCompleted o && not_upgrading o && negb allChildPoliciesInInform)
    (set_in_progress env "Waiting for cluster to be ready for policy configuration").

Definition start_noncompliance : prog unit :=
  time ← now env; modify_details (with_noncompliant (Some time)).

Definition noncompliance_exceeded (since : Z) : prog bool :=
  t ← get_state; time ← now env;
  mret (TimeoutExceeded time since (clusterConfiguration (limits t))).

Definition hasPolicyConfigurationTimedOut : prog bool :=
  o ← get_object;
  match FindStatusCondition (Conditions o) PRconditionTypes.ConfigurationApplied with
  | None => _ ← start_noncompliance; mret false
  | Some c =>
      if decide (cond_Status c = ConditionFalse) then
        let reason := cond_Reason c in
        if decide (reason = CRconditionReasons.InProgress) then
          d ← get_details;
          match NonCompliantAt d with
          | None => _ ← start_noncompliance; mret false
          | Some since => noncompliance_exceeded since
          end
        else if decide (reason = CRconditionReasons.TimedOut) then mret true
        else if bool_decide (reason = CRconditionReasons.Missing)
                || bool_decide (reason = CRconditionReasons.OutOfDate)
             then _ ← start_noncompliance; mret false
        else if decide (reason = CRconditionReasons.ClusterNotReady) then
          d ← get_details;
          match NonCompliantAt d with
          | None => mret false
          | Some since => noncompliance_exceeded since
          end
        else mret false
      else if decide (cond_Reason c = CRconditionReasons.Completed)
           then _ ← start_noncompliance; mret false
      else mret false
  end.

Section applied.
Context (targets : list PolicyDetails) (allCompliant allInform missing allExpectedInform : bool).

Definition clear_noncompliance : prog unit := modify_details (with_noncompliant None).

(** The body of [updateConfigurationAppliedStatus]. *)
Definition configuration_applied : prog bool :=
  if negb missing && bool_decide (targets = []) then
    _ ← clear_noncompliance;
    _ ← setConfigurationAppliedStatus CRconditionReasons.Missing "No configuration present"; mret false
  else if negb missing && allCompliant then
    _ ← clear_noncompliance;
    _ ← setConfigurationAppliedStatus CRconditionReasons.Completed "The configuration is up to date"; mret false
  else
    d ← get_details;
    ready ← wrapped "error determining if the cluster is ready for policy configuration"
              (ClusterIsReadyForPolicyConfig (cd_Name d));
    if negb ready then _ ← updateClusterNotReadyStatus allInform; mret false
    else if missing then
      if allExpectedInform then
        _ ← clear_noncompliance;
        _ ← setConfigurationAppliedStatus CRconditionReasons.Missing "Not all expected configuration is present";
        mret false
      else
        timedOut ← hasPolicyConfigurationTimedOut;
        _ ← updatePolicyConfigPreparationStatus timedOut; mret timedOut
    else if allInform then
      _ ← clear_noncompliance;
      _ ← setConfigurationAppliedStatus CRconditionReasons.OutOfDate "The configuration is out of date"; mret false
    else
      timedOut ← hasPolicyConfigurationTimedOut;
      _ ← updatePolicyConfigApplyingStatus timedOut; mret timedOut.

(** The deferred function runs at every return, and its error replaces that of the
    body. *)
Definition updateConfigurationAppliedStatus : prog bool :=
  r ← try configuration_applied;
  _ ← modify_object (with_policies targets);
  _ ← update_status env;
  mret match r with inr timedOut => timedOut | inl _ => false end.
End applied.

Definition updateZTPStatus (allPoliciesCompliant : bool) : prog unit :=
  o ← get_object;
  _ ← match FindStatusCondition (Conditions o) PRconditionTypes.ClusterProvisioned with
      | None => mret tt
      | Some c =>
          d ← get_details;
          if decide (ZtpStatus d = "ZTP Done") then mret tt
          else modify_details (with_ztp
                 (if is_true c && allPoliciesCompliant then "ZTP Done" else "ZTP Not Done"))
      end;
  o ← get_object;
  wrapped ("failed to update the ZTP status for ProvisioningRequest " ++ Name o) (UpdateK8sCRStatus env).

Definition handleClusterPolicyConfiguration : prog bool :=
  t ← get_state;
  match Cluster (object t) with
  | None => raise (Errorf "status.clusterDetails is empty")
  | Some d =>
      let o := object t in
      roots ← wrapped "failed to list root Policies" (trigger env (ListPolicies ("ztp-" ++ ct_namespace t) false));
      let expected := expected_children (TemplateName o ++ "." ++ TemplateVersion o) roots in
      children ← wrapped "failed to list child Policies" (trigger env (ListPolicies (cd_Name d) true));
      targets ← target_children (ct_namespace t) children;
      let allCompliant := forallb (fun '(p, _) => bool_decide (ComplianceState p = "Compliant")) targets in
      let allInform := forallb (fun '(p, _) => is_inform (policy_RemediationAction p)) targets in
      let '(missing, allExpectedInform) :=
        summarizeExpectedChildPolicies expected (map (fun '(p, _) => policy_Name p) targets) in
      timedOut ← updateConfigurationAppliedStatus targets.*2 allCompliant allInform missing allExpectedInform;
      _ ← updateZTPStatus allCompliant;
      mret (((negb allCompliant && negb allInform) || (missing && negb allExpectedInform)) && negb timedOut)
  end.
End policy.
