(* ===== verification/NodeConfiguration.v ===== *)
(** * The hardware of the nodes of a cluster (controllers/helpers.go,
      controllers/utils/hardware_utils.go, provisioningrequest_hwprovision.go)

    Each node of the rendered ClusterInstance is given an allocated hardware node of
    its group: the one that already bears its host name, or the next free one. *)
From stdpp Require Import sorting.
From S2P Require Import Prelude Conditions GoText Unstructured Handler ProvisioningStatus MergeMaps ProvisioningTask.
#[local] Open Scope string_scope.

(** ** Hardware nodes *)

Record NodeInfo := mkNodeInfo {
  ni_Group : string;
  BmcAddress : string;
  BmcCredentials : string;
  NodeID : string;
  ni_HwMgrNodeId : string;
  ni_HwMgrNodeNs : string;
  Interfaces : list Interface;
}.

#[export] Instance Interface_eq_dec : EqDecision Interface.
Proof. solve_decision. Defined.
#[export] Instance NodeInfo_eq_dec : EqDecision NodeInfo.
Proof. solve_decision. Defined.

Definition name_le (a b : AllocatedNode) : Prop := String.leb (an_Name a) (an_Name b) = true.
#[export] Instance name_le_dec a b : Decision (name_le a b).
Proof. unfold name_le. solve_decision. Defined.

(** The node of the first one without BMC details. *)
Fixpoint node_infos (l : list AllocatedNode) : outcome error (list NodeInfo) :=
  match l with
  | [] => Ret []
  | an :: rest =>
      match an_BMC an with
      | Some (address, credentials) =>
          if decide (credentials = "") then
            Err (Errorf ("allocatedNode " ++ an_Name an ++ " does not have BMC details"))
          else
            infos ← node_infos rest;
            Ret (mkNodeInfo (an_GroupName an) address credentials (an_Name an) (HwMgrNodeId an) (HwMgrNodeNs an)
                   (an_Interfaces an) :: infos)
      | None => Err (Errorf ("allocatedNode " ++ an_Name an ++ " does not have BMC details"))
      end
  end.

(** [collectNodeDetails]: in the order of the names.  The code files them by group;
    here the group stays with the node. *)
Definition collectNodeDetails (nodes : list AllocatedNode) : outcome error (list NodeInfo) :=
  node_infos (merge_sort name_le nodes).

(** The first group of a role. *)
Fixpoint group_of_role (role : string) (groups : list NodeGroup) : option string :=
  match groups with
  | [] => None
  | g :: rest => if decide (ng_Role g = role) then Some (ng_Name g) else group_of_role role rest
  end.

(** ** MAC addresses *)

Definition GetBootMacAddress (interfaces : list Interface) (label : string) : option string :=
  match list_find (fun i => if_Label i = label) interfaces with Some (_, i) => Some (if_MAC i) | None => None end.

(** [getInterfaces]: [None] is the nil slice, also when no element is a map. *)
Definition getInterfaces (node : object_map) : option (list object_map) :=
  match map_field "nodeNetwork" node with
  | Some network =>
      match slice_field "interfaces" network with
      | Some l =>
          match omap (fun v => match v with VMap m => Some m | _ => None end) l with
          | [] => None
          | maps => Some maps
          end
      | None => None
      end
  | None => None
  end.

Definition is_text (s : string) (v : value) : bool :=
  match v with VLeaf "string" t => bool_decide (t = s) | _ => false end.

(** The interfaces of one node of the input, looked up for [name]. *)
Fixpoint match_interface (hwInterfaces : list Interface) (name : string) (l : list object_map)
    : outcome error (option string) :=
  match l with
  | [] => Ret None
  | intf :: rest =>
      match assoc_lookup "label" intf, assoc_lookup "name" intf with
      | Some label, Some ifName =>
          match list_find (fun h => is_text (if_Label h) label && is_text name ifName = true) hwInterfaces with
          | Some (_, h) => Ret (Some (if_MAC h))
          | None => match_interface hwInterfaces name rest
          end
      | _, _ => Err (Errorf "interface map from the cluster input is missing 'label' or 'name' key")
      end
  end.

(** All the nodes of the input, until one has the interface. *)
Fixpoint match_nodes (hwInterfaces : list Interface) (name : string) (nodesInput : list value)
    : outcome error (option string) :=
  match nodesInput with
  | [] => Ret None
  | VMap node :: rest =>
      match getInterfaces node with
      | None => Err (Errorf "failed to extract the interfaces from the node map")
      | Some interfaces =>
          found ← match_interface hwInterfaces name interfaces;
          match found with Some mac => Ret (Some mac) | None => match_nodes hwInterfaces name rest end
      end
  | _ :: _ => Err (Errorf "unexpected: invalid node data structure from the cluster input")
  end.

Fixpoint assign_interfaces (hwInterfaces : list Interface) (nodesInput : list value) (hostName : string)
    (i : Z) (interfaces : list value) : outcome error (list value) :=
  match interfaces with
  | [] => Ret []
  | VMap iface :: rest =>
      match string_field "name" iface with
      | None => Err (Errorf ("missing or invalid 'name' in nodeSpec interface at index " ++ itoa i))
      | Some name =>
          found ← match_nodes hwInterfaces name nodesInput;
          match found with
          | None =>
              Err (Errorf ("mac address not assigned for interface " ++ name ++ ", node name " ++ hostName))
          | Some mac =>
              rest ← assign_interfaces hwInterfaces nodesInput hostName (i + 1) rest;
              Ret (VMap (set_key "macAddress" (VStr mac) iface) :: rest)
          end
      end
  | _ :: _ => Err (Errorf ("unexpected: interface at index " ++ itoa i ++ " is not a valid map"))
  end.

Definition AssignMacAddress (clusterInput : value) (hwInterfaces : list Interface) (nodeSpec : object_map)
    : outcome error object_map :=
  match spec_nodes clusterInput with
  | None => Err (Errorf "unexpected: invalid nodes slice from the cluster input data")
  | Some nodesInput =>
      match NestedSlice2 "nodeNetwork" "interfaces" nodeSpec with
      | None => Err (Errorf "failed to extract nodeNetwork.interfaces")
      | Some None => Err (Errorf "nodeNetwork.interfaces not found in nodeSpec")
      | Some (Some interfaces) =>
          interfaces ← assign_interfaces hwInterfaces nodesInput (node_hostname nodeSpec) 0 interfaces;
          match map_field "nodeNetwork" nodeSpec with
          | Some network =>
              Ret (set_key "nodeNetwork" (VMap (set_key "interfaces" (VSlice interfaces) network)) nodeSpec)
          | None => Err (Errorf "failed to update interfaces in nodeSpec")
          end
      end
  end.

(** ** The assignment of hardware to nodes *)

(** [assignedByHost] and [availableByGroup]: the nodes that bear a host name, under
    group and host, and the others of a group in order. *)
Fixpoint assigned_to (hosts : gmap string string) (key : string) (hw : list NodeInfo) (found : option NodeInfo)
    : option NodeInfo :=
  match hw with
  | [] => found
  | ni :: rest =>
      assigned_to hosts key rest
        match hosts !! NodeID ni with
        | Some host => if decide (ni_Group ni ++ "/" ++ host = key) then Some ni else found
        | None => found
        end
  end.

Definition available (hosts : gmap string string) (hw : list NodeInfo) : list NodeInfo :=
  filter (fun ni => hosts !! NodeID ni = None) hw.

(** The next free node of a group, and the free nodes without it. *)
Fixpoint take_group (group : string) (free : list NodeInfo) : option (NodeInfo * list NodeInfo) :=
  match free with
  | [] => None
  | ni :: rest =>
      if decide (ni_Group ni = group) then Some (ni, rest)
      else match take_group group rest with Some (x, rest') => Some (x, ni :: rest') | None => None end
  end.

Section assign.
Context (env : Env).

Definition updateAllocatedNodeHostMap (allocatedNodeID hostName : string) : prog unit :=
  if bool_decide (allocatedNodeID = "") || bool_decide (hostName = "") then mret tt
  else
    o ← get_object;
    if decide (AllocatedNodeHostMap o !! allocatedNodeID = Some hostName) then mret tt
    else
      _ ← modify_object (fun o => with_host_map (<[allocatedNodeID := hostName]> (AllocatedNodeHostMap o)) o);
      wrapped "failed to update AllocatedNodeHostMap" (UpdateK8sCRStatus env).

Definition lift {A} (r : outcome error A) : prog A :=
  match r with Ret a => mret a | Err e => raise e | Panic => panic | NoFuel => fun t => (t, NoFuel) end.

(** The node with the details of its hardware. *)
Definition configured_node (ni : NodeInfo) (node : object_map) : object_map :=
  let node := set_key "bmcAddress" (VStr (BmcAddress ni)) node in
  let node := set_key "bmcCredentialsName" (VMap [("name", VStr (BmcCredentials ni))]) node in
  if bool_decide (ni_HwMgrNodeId ni = "") || bool_decide (ni_HwMgrNodeNs ni = "") then node
  else
    let hostRef := match map_field "hostRef" node with Some m => m | None => [] end in
    set_key "hostRef"
      (VMap (set_key "namespace" (VStr (ni_HwMgrNodeNs ni)) (set_key "name" (VStr (ni_HwMgrNodeId ni)) hostRef)))
      node.

Section nodes.
Context (input : clusterInput) (groups : list NodeGroup) (hosts : gmap string string) (hw : list NodeInfo).

Definition group_name (hostName role : string) : string :=
  if decide (hostToGroupName input = ∅)
  then match group_of_role role groups with Some g => g | None => "" end
  else match hostToGroupName input !! hostName with Some g => g | None => "" end.

(** One node with the hardware chosen for it. *)
Definition configure_node (ni : NodeInfo) (hostName : string) (node : object_map) : prog value :=
  let node := configured_node ni node in
  match GetBootMacAddress (Interfaces ni) "boot-interface" with
  | None => raise (Errorf ("failed to get boot MAC for node '" ++ hostName ++ "'"))
  | Some mac =>
      let node := set_key "bootMACAddress" (VStr mac) node in
      node ← wrapped ("failed to assign MACs for node '" ++ hostName ++ "'")
               (lift (AssignMacAddress (clusterInstanceData input) (Interfaces ni) node));
      _ ← wrapped ("failed to update status for node '" ++ hostName ++ "'")
            (updateAllocatedNodeHostMap (NodeID ni) hostName);
      mret (VMap node)
  end.

(** The hardware of a node: its own, or the next free one of its group. *)
Definition choose (free : list NodeInfo) (hostName group : string) : option (NodeInfo * list NodeInfo) :=
  match assigned_to hosts (group ++ "/" ++ hostName) hw None with
  | Some ni => Some (ni, free)
  | None => take_group group free
  end.

(** The loop over the nodes: the new nodes, and the index and name of those without
    hardware. *)
Fixpoint configure_nodes (i : Z) (free : list NodeInfo) (nodes : list value)
    : prog (list value * list (Z * string)) :=
  match nodes with
  | [] => mret ([], [])
  | VMap node :: rest =>
      let hostName := node_hostname node in
      match choose free hostName (group_name hostName (string_or_empty "role" node)) with
      | None =>
          '(nodes, unmatched) ← configure_nodes (i + 1) free rest;
          mret (VMap node :: nodes, (i, hostName) :: unmatched)
      | Some (ni, free') =>
          node' ← configure_node ni hostName node;
          '(nodes, unmatched) ← configure_nodes (i + 1) free' rest;
          mret (node' :: nodes, unmatched)
      end
  | _ :: _ => raise (Errorf ("node at index " ++ itoa i ++ " is not a valid map"))
  end.
End nodes.

Fixpoint unmatched_text (l : list (Z * string)) : string :=
  match l with
  | [] => ""
  | [(i, name)] => "Index: " ++ itoa i ++ ", Host Name: " ++ name
  | (i, name) :: rest => "Index: " ++ itoa i ++ ", Host Name: " ++ name ++ "; " ++ unmatched_text rest
  end.

(** The ClusterInstance that is returned is the one written back; the order of the
    unmatched nodes in the message is that of a map. *)
Definition applyNodeConfiguration (hw : list NodeInfo) (nar : NodeAllocationRequest) (ci : ClusterInstance)
    : prog ClusterInstance :=
  t ← get_state;
  match NestedSlice2 "spec" "nodes" (with_spec (ci_Spec ci)) with
  | None => raise (Errorf "failed to extract nodes from cluster instance")
  | Some None => raise (Errorf "spec.nodes not found in cluster instance")
  | Some (Some nodes) =>
      let hosts := AllocatedNodeHostMap (object t) in
      '(nodes, unmatched) ← configure_nodes (ProvisioningTask.input t) (NodeGroups (nar_Spec nar)) hosts hw 0
                              (available hosts hw) nodes;
      if decide (unmatched = []) then mret (mkCI (ci_Name ci) (set_nodes nodes (ci_Spec ci)) (ci_Conditions ci))
      else raise (Errorf ("failed to find matches for the following nodes: " ++ unmatched_text unmatched))
  end.
End assign.
