(* ===== verification/NodeAssignment.v ===== *)
(** * Which hardware each node of a cluster gets (theory of NodeConfiguration)

    No two nodes are given the same hardware, and a node that has hardware of its group
    keeps it. *)
From S2P Require Import Prelude Conditions GoText Unstructured Handler ProvisioningStatus MergeMaps ProvisioningTask NodeConfiguration.
#[local] Open Scope string_scope.

(** ** Keys [group/host] *)

Fixpoint slash_free (h : string) : bool :=
  match h with EmptyString => true | String c h' => negb (bool_decide (c = Ascii.ascii_of_nat 47)) && slash_free h' end.
Definition no_slash (h : string) : Prop := slash_free h = true.

Lemma no_slash_app a b : ~ no_slash (a ++ "/" ++ b).
Proof. unfold no_slash. induction a as [|c a IH]; [done|]. intros [_ H]%andb_true_iff. by apply IH. Qed.

Lemma key_inj g1 g2 h1 h2 : no_slash h1 -> no_slash h2 -> g1 ++ "/" ++ h1 = g2 ++ "/" ++ h2 -> g1 = g2 /\ h1 = h2.
Proof.
  intros H1 H2. revert g2. induction g1 as [|c g1 IH]; intros [|c2 g2] E; simplify_eq/=.
  - done.
  - destruct (no_slash_app g2 h2). change (no_slash h1) in H1. by rewrite <- H.
  - destruct (no_slash_app g1 h1). by rewrite H.
  - by destruct (IH g2 H) as [-> ->].
Qed.

(** ** The hardware of a host, and free hardware *)

Lemma assigned_to_spec hosts key hw found :
  match assigned_to hosts key hw found with
  | Some ni => found = Some ni \/ ni ∈ hw /\ exists host, hosts !! NodeID ni = Some host /\ ni_Group ni ++ "/" ++ host = key
  | None => found = None /\ forall ni host, ni ∈ hw -> hosts !! NodeID ni = Some host -> ni_Group ni ++ "/" ++ host <> key
  end.
Proof.
  revert found. induction hw as [|x hw IH]; intros found; cbn [assigned_to].
  { destruct found; [by left|]. split; [done|]. intros ni host []%not_elem_of_nil. }
  destruct (hosts !! NodeID x) as [host|] eqn:Ex; [case_decide as Hk|].
  - specialize (IH (Some x)). destruct (assigned_to _ _ _ _) as [ni|]; [|by destruct IH].
    destruct IH as [[= ->]|[Hin IH]]; right; (split; [by constructor|]); eauto.
  - specialize (IH found). destruct (assigned_to _ _ _ _) as [ni|].
    + destruct IH as [|[Hin IH]]; [by left|right]. split; [by constructor|done].
    + destruct IH as [-> IH]. split; [done|]. intros ni h [->|Hin]%elem_of_cons Hh; [congruence|by eauto].
  - specialize (IH found). destruct (assigned_to _ _ _ _) as [ni|].
    + destruct IH as [|[Hin IH]]; [by left|right]. split; [by constructor|done].
    + destruct IH as [-> IH]. split; [done|]. intros ni h [->|Hin]%elem_of_cons Hh; [congruence|by eauto].
Qed.

Lemma take_group_spec group free ni free' :
  take_group group free = Some (ni, free') -> ni_Group ni = group /\ free ≡ₚ ni :: free'.
Proof.
  revert free'. induction free as [|x free IH]; intros free'; cbn [take_group]; [done|].
  case_decide as Hg; [by intros [= <- <-]|].
  destruct (take_group group free) as [[y rest]|] eqn:E; [|done]. intros [= <- <-].
  destruct (IH rest eq_refl) as [Hy ->]. split; [done|]. apply Permutation_swap.
Qed.

Lemma available_free hosts hw ni : ni ∈ available hosts hw -> ni ∈ hw /\ hosts !! NodeID ni = None.
Proof. intros [Hn Hi]%list_elem_of_filter. done. Qed.

Lemma available_NoDup hosts hw : NoDup (map NodeID hw) -> NoDup (map NodeID (available hosts hw)).
Proof.
  unfold available. induction hw as [|x hw IH]; [done|]. cbn [map]. intros [Hx Hd]%NoDup_cons.
  rewrite filter_cons. case_decide; [|by apply IH]. cbn [map]. apply NoDup_cons. split; [|by apply IH].
  intros (y & Hy & Hin)%list_elem_of_In%in_map_iff. apply Hx. apply list_elem_of_In, in_map_iff. exists y.
  split; [done|]. by apply list_elem_of_In, list_elem_of_filter in Hin as [_ Hin%list_elem_of_In].
Qed.

(** ** Placements *)

Section placement.
Context (input : clusterInput) (groups : list NodeGroup) (hosts : gmap string string) (hw : list NodeInfo).

Definition group_of (node : object_map) : string :=
  group_name input groups (node_hostname node) (string_or_empty "role" node).

(** The hardware that the nodes are given one after the other, from the free hardware. *)
Inductive placed : list NodeInfo -> list value -> list NodeInfo -> Prop :=
| placed_nil free : placed free [] []
| placed_cons free free' node rest ni infos :
    choose hosts hw free (node_hostname node) (group_of node) = Some (ni, free') ->
    placed free' rest infos -> placed free (VMap node :: rest) (ni :: infos).

Definition host_of (v : value) : string := match v with VMap node => node_hostname node | _ => "" end.

(** The host names of the nodes, and those on record. *)
Context (Hhosts : map_Forall (fun _ h => no_slash h) hosts).
Context (Hhw : NoDup (map NodeID hw)).

Definition fits (ni : NodeInfo) (v : value) : Prop :=
  exists node, v = VMap node /\ ni ∈ hw /\ ni_Group ni = group_of node /\
    (hosts !! NodeID ni = Some (node_hostname node) \/
     hosts !! NodeID ni = None /\
     forall other, other ∈ hw -> ni_Group other = group_of node -> hosts !! NodeID other <> Some (node_hostname node)).

Lemma choose_fits free free' node ni :
  no_slash (node_hostname node) -> (forall x, x ∈ free -> x ∈ hw /\ hosts !! NodeID x = None) ->
  choose hosts hw free (node_hostname node) (group_of node) = Some (ni, free') ->
  fits ni (VMap node) /\ (hosts !! NodeID ni = Some (node_hostname node) /\ free' = free \/ free ≡ₚ ni :: free').
Proof.
  intros Hs Hfree. unfold choose.
  pose proof (assigned_to_spec hosts (group_of node ++ "/" ++ node_hostname node) hw None) as Ha.
  destruct (assigned_to _ _ _ _) as [x|].
  - intros [= -> ->]. destruct Ha as [|(Hin & host & Hh & Hk)]; [done|].
    destruct (key_inj _ _ _ _ (Hhosts _ _ Hh) Hs Hk) as [Hg ->].
    split; [exists node; split_and!; auto|by left].
  - intros [Hg Hp]%take_group_spec. destruct Ha as [_ Ha].
    destruct (Hfree ni) as [Hin Hn]; [rewrite Hp; by constructor|].
    split; [|by right]. exists node. split_and!; [done..|]. right. split; [done|].
    intros other Ho Hgo Hh. by apply (Ha other _ Ho Hh); rewrite Hgo.
Qed.

Lemma placed_fits free nodes infos :
  placed free nodes infos -> Forall (fun v => no_slash (host_of v)) nodes ->
  (forall x, x ∈ free -> x ∈ hw /\ hosts !! NodeID x = None) -> Forall2 fits infos nodes.
Proof.
  induction 1 as [|free free' node rest ni infos Hc _ IH]; intros Hs Hfree; [constructor|].
  apply Forall_cons in Hs as [Hs Hrest]. destruct (choose_fits _ _ _ _ Hs Hfree Hc) as [Hf Hp].
  constructor; [done|]. apply IH; [done|]. intros x Hx. apply Hfree. destruct Hp as [[_ <-]| ->]; [done|by constructor].
Qed.

(** Hardware that is given is free, or that of a node. *)
Lemma placed_origin free nodes infos x :
  placed free nodes infos -> Forall (fun v => no_slash (host_of v)) nodes ->
  (forall x, x ∈ free -> x ∈ hw /\ hosts !! NodeID x = None) -> x ∈ infos ->
  x ∈ free \/ exists v, v ∈ nodes /\ hosts !! NodeID x = Some (host_of v).
Proof.
  induction 1 as [|free free' node rest ni infos Hc _ IH]; intros Hs Hfree Hx; [by apply not_elem_of_nil in Hx|].
  apply Forall_cons in Hs as [Hs Hrest]. destruct (choose_fits _ _ _ _ Hs Hfree Hc) as [_ Hp].
  assert (forall y, y ∈ free' -> y ∈ free) as Hsub.
  { intros y Hy. destruct Hp as [[_ <-]| ->]; [done|by constructor]. }
  apply elem_of_cons in Hx as [->|Hx].
  - destruct Hp as [[Hh _]|Hp]; [right; exists (VMap node); by split; [constructor|]|]. left. rewrite Hp. by constructor.
  - destruct (IH Hrest) as [Hf|(v & Hv & Hh)]; [by auto|done|left; auto|right]. exists v. by split; [constructor|].
Qed.

Lemma placed_distinct free nodes infos :
  placed free nodes infos -> Forall (fun v => no_slash (host_of v)) nodes ->
  (forall x, x ∈ free -> x ∈ hw /\ hosts !! NodeID x = None) ->
  NoDup (map NodeID free) -> NoDup (map host_of nodes) -> NoDup (map NodeID infos).
Proof.
  induction 1 as [|free free' node rest ni infos Hc Hpl IH]; intros Hs Hfree Hd Hn; [constructor|].
  apply Forall_cons in Hs as [Hs Hrest]. destruct (choose_fits _ _ _ _ Hs Hfree Hc) as [_ Hp].
  cbn [map] in *. apply NoDup_cons in Hn as [Hnode Hn].
  assert (forall x, x ∈ free' -> x ∈ hw /\ hosts !! NodeID x = None) as Hfree'.
  { intros y Hy. apply Hfree. destruct Hp as [[_ <-]| ->]; [done|by constructor]. }
  apply NoDup_cons. split.
  - intros (x & Hid & Hx%list_elem_of_In)%list_elem_of_In%in_map_iff.
    destruct (placed_origin _ _ _ x Hpl Hrest Hfree' Hx) as [Hf|(v & Hv & Hh)].
    + destruct Hp as [[Hh ->]|Hp]; [by destruct (Hfree x Hf); congruence|].
      rewrite Hp in Hd. cbn [map] in Hd. apply NoDup_cons in Hd as [Hd _]. apply Hd.
      rewrite <- Hid. by apply list_elem_of_In, in_map, list_elem_of_In.
    + destruct Hp as [[Hh' _]|Hp].
      * apply Hnode. rewrite Hid, Hh' in Hh. simplify_eq/=. apply list_elem_of_In, in_map_iff. exists v.
        split; [done|by apply list_elem_of_In].
      * destruct (Hfree ni) as [_ Hn']; [rewrite Hp; by constructor|congruence].
  - apply IH; try done. destruct Hp as [[_ ->]|Hp]; [done|]. rewrite Hp in Hd. by apply NoDup_cons in Hd as [_ Hd].
Qed.
End placement.

(** ** What the code returns *)

Section result.
Context (env : Env) (input : clusterInput) (groups : list NodeGroup) (hosts : gmap string string) (hw : list NodeInfo).

(** The node of a host has the management controller of the hardware. *)
Definition runs_on (host : string) (ni : NodeInfo) (v : value) : Prop :=
  exists m, v = VMap m /\ node_hostname m = host /\ string_field "bmcAddress" m = Some (BmcAddress ni).

Lemma string_field_set key key' v m : key' <> key -> string_field key (set_key key' v m) = string_field key m.
Proof using. intros Hk. unfold string_field. rewrite lookup_set_key_ne; congruence. Qed.

Lemma runs_on_set host ni key v m :
  key <> "hostName" -> key <> "bmcAddress" ->
  runs_on host ni (VMap m) -> runs_on host ni (VMap (set_key key v m)).
Proof using.
  intros Hh Hb (? & [= <-] & Hn & Ha). exists (set_key key v m).
  unfold node_hostname, string_or_empty in *. by rewrite !string_field_set.
Qed.

Lemma configured_node_runs ni node : runs_on (node_hostname node) ni (VMap (configured_node ni node)).
Proof using.
  assert (runs_on (node_hostname node) ni (VMap (set_key "bmcAddress" (VStr (BmcAddress ni)) node))) as H.
  { eexists. split; [done|]. unfold node_hostname, string_or_empty. rewrite string_field_set by done.
    split; [done|]. unfold string_field. by rewrite lookup_set_key_eq. }
  unfold configured_node. destruct (_ || _); repeat (apply runs_on_set; [done|done|]); exact H.
Qed.

Lemma AssignMacAddress_runs cluster interfaces host ni node node' :
  AssignMacAddress cluster interfaces node = Ret node' ->
  runs_on host ni (VMap node) -> runs_on host ni (VMap node').
Proof using.
  unfold AssignMacAddress. intros E Hr. destruct (spec_nodes cluster); [|done].
  destruct (NestedSlice2 _ _ _) as [[ifs|]|]; [|done..].
  destruct (assign_interfaces _ _ _ _ _); try done. simpl in E.
  destruct (map_field _ _); [|done]. injection E as <-. by apply runs_on_set.
Qed.

Lemma configure_node_runs ni node P :
  leads P (configure_node env input ni (node_hostname node) node)
    (fun v _ => runs_on (node_hostname node) ni v) (fun _ => True).
Proof using.
  unfold configure_node. pose proof (configured_node_runs ni node) as Hc.
  destruct (GetBootMacAddress _ _) as [mac|]; [|by apply leads_raise].
  eapply (leads_bind _ _ _ (fun node' _ => runs_on (node_hostname node) ni (VMap node'))).
  - intros t _. unfold wrapped, try, lift, mbind, handler_bind, wp.
    destruct (AssignMacAddress _ _ _) eqn:E; try exact I. simpl.
    eapply AssignMacAddress_runs; [exact E|]. by apply runs_on_set.
  - intros node'. eapply (leads_bind _ _ _ (fun _ _ => runs_on (node_hostname node) ni (VMap node'))).
    + intros t Ht. eapply wp_mono; [apply (leads_any (fun _ => True)); exact I|]. by intros ? [].
    + intros u. by apply leads_ret.
Qed.

Lemma leads_fact (F : Prop) {A} (m : prog A) Q X :
  (F -> leads (fun _ => True) m Q X) -> leads (fun _ => F) m Q X.
Proof using. intros Hm t HF. by apply Hm. Qed.

(** When every node got hardware. *)
Lemma configure_nodes_placed P i free nodes :
  leads P (configure_nodes env input groups hosts hw i free nodes)
    (fun r _ => r.2 = [] -> exists infos, placed input groups hosts hw free nodes infos /\
       Forall2 (fun '(v, ni) v' => runs_on (host_of v) ni v') (zip nodes infos) r.1) (fun _ => True).
Proof using.
  revert P i free. induction nodes as [|v nodes IH]; intros P i free; cbn [configure_nodes].
  { apply leads_ret. intros t _ _. exists []. split; constructor. }
  destruct v as [| |node|]; try by apply leads_raise.
  change (group_name input groups (node_hostname node) (string_or_empty "role" node)) with (group_of input groups node).
  destruct (choose hosts hw free (node_hostname node) (group_of input groups node)) as [[ni free']|] eqn:Ec.
  - eapply leads_bind; [apply configure_node_runs|]. intros v. cbv beta. apply leads_fact. intros Hv.
    eapply leads_bind; [apply (IH (fun _ => True))|]. intros [nodes' unmatched]. apply leads_ret.
    intros t Ht Hu. destruct (Ht Hu) as (infos & Hp & Hr). exists (ni :: infos).
    split; [by econstructor|by constructor].
  - eapply leads_bind; [apply (IH P)|]. intros [nodes' unmatched]. by apply leads_ret.
Qed.
End result.

(** ** Theorems *)

(** C6: When the nodes of a cluster are configured, each gets the management controller of
    one hardware node of its group, and no two nodes get the same hardware.  A node with
    hardware of its group on record keeps hardware that is on record for it; another gets
    hardware that is on record for no host, and only when there is none of its own.  (The
    nodes have distinct host names and the hardware distinct node ids, and host names have
    no slash, as the code joins group and host by one.) *)
Theorem hardware_not_shared env hw nar ci t t' ci' nodes :
  applyNodeConfiguration env hw nar ci t = (t', Ret ci') ->
  spec_nodes (ci_Spec ci) = Some nodes ->
  NoDup (map NodeID hw) -> NoDup (map host_of nodes) -> Forall (fun v => no_slash (host_of v)) nodes ->
  map_Forall (fun _ h => no_slash h) (AllocatedNodeHostMap (object t)) ->
  exists infos nodes', spec_nodes (ci_Spec ci') = Some nodes' /\
    Forall2 (fun '(v, ni) v' => runs_on (host_of v) ni v') (zip nodes infos) nodes' /\
    NoDup (map NodeID infos) /\
    Forall2 (fits (input t) (NodeGroups (nar_Spec nar)) (AllocatedNodeHostMap (object t)) hw) infos nodes.
Proof.
  intros E Hn Hid Hd Hs Hh. unfold applyNodeConfiguration, get_state, mbind, handler_bind in E.
  destruct (ci_Spec ci) as [| |spec|] eqn:Espec; try discriminate.
  assert (NestedSlice2 "spec" "nodes" (with_spec (VMap spec)) = Some (Some nodes)) as Hspec.
  { revert Hn. unfold spec_nodes, slice_field, NestedSlice2. simpl.
    destruct (assoc_lookup "nodes" spec) as [[]|]; naive_solver. }
  rewrite Hspec in E. set (hosts := AllocatedNodeHostMap (object t)) in *.
  pose proof (configure_nodes_placed env (input t) (NodeGroups (nar_Spec nar)) hosts hw (fun _ => True) 0
                (available hosts hw) nodes t I) as Hp.
  unfold wp in Hp. destruct (configure_nodes _ _ _ _ _ _ _ _ _) as [t1 [[nodes' unmatched]| | |]]; try discriminate.
  cbn [fst snd] in Hp. destruct (decide (unmatched = [])) as [Hu|]; [|discriminate].
  injection E as _ <-. destruct (Hp Hu) as (infos & Hpl & Hr). exists infos, nodes'.
  split_and!; [apply spec_nodes_set|exact Hr| |].
  - apply (placed_distinct _ _ _ hw Hh _ _ _ Hpl Hs); [|by apply available_NoDup|done]. apply available_free.
  - apply (placed_fits _ _ _ hw Hh _ _ _ Hpl Hs). apply available_free.
Qed.

(** ** Witness *)

Module Assigned.
Definition interface : value := VMap [("label", VStr "boot-interface"); ("name", VStr "eth0")].
Definition node (host : string) : value :=
  VMap [("hostName", VStr host); ("role", VStr "master"); ("nodeNetwork", VMap [("interfaces", VSlice [interface])])].
Definition spec : value := VMap [("nodes", VSlice [node "host1"; node "host2"])].
Definition hardware (id : string) : NodeInfo :=
  mkNodeInfo "controller" ("bmc-" ++ id) "credentials" id "bmh" "bmh-ns" [mkInterface "boot-interface" "mac"].
Definition nar : NodeAllocationRequest :=
  mkNAR (mkNARSpec "cluster1" "site" [mkGroup "controller" "master" "profile" "" ∅ 2] 1 0 false false) None false [] 1 [].
Definition env : Env :=
  mkEnv (fun A c _ => match c with UpdateStatus _ => inr tt | _ => inl (Errorf "not used") end)
    (fun _ => 0%Z) (fun _ => None) (fun _ => true) "operator".
(** The second host has the first hardware. *)
Definition start : task :=
  mkTask (mkPR "pr" "" "t" "v1" 1 0 false true false [] StateNone "" None None None {["hw1" := "host2"]} [] [])
    (mkInput spec [] ∅) "" (mkTimeouts 0 0 0 0) [].
Definition run : task * outcome error ClusterInstance :=
  applyNodeConfiguration env [hardware "hw1"; hardware "hw2"; hardware "hw3"] nar (mkCI "cluster1" spec []) start.
Definition configured : ClusterInstance :=
  match run.2 with Ret ci => ci | _ => mkCI "" VNil [] end.
End Assigned.

Lemma hardware_not_shared_witness :
  exists infos nodes', spec_nodes (ci_Spec Assigned.configured) = Some nodes' /\
    Forall2 (fun '(v, ni) v' => runs_on (host_of v) ni v')
      (zip [Assigned.node "host1"; Assigned.node "host2"] infos) nodes' /\
    NoDup (map NodeID infos) /\
    Forall2 (fits (input Assigned.start) (NodeGroups (nar_Spec Assigned.nar)) {["hw1" := "host2"]}
      (map Assigned.hardware ["hw1"; "hw2"; "hw3"])) infos [Assigned.node "host1"; Assigned.node "host2"].
Proof.
  apply (hardware_not_shared Assigned.env (map Assigned.hardware ["hw1"; "hw2"; "hw3"]) Assigned.nar
           (mkCI "cluster1" Assigned.spec []) Assigned.start Assigned.run.1 Assigned.configured).
  - vm_compute. reflexivity.
  - reflexivity.
  - apply (bool_decide_unpack _). vm_compute. exact I.
  - apply (bool_decide_unpack _). vm_compute. exact I.
  - by repeat constructor.
  - apply map_Forall_singleton. reflexivity.
Defined.
