(* ===== verification/ProvisioningHardware.v ===== *)
(** * Hardware of a ProvisioningRequest
      (controllers/provisioningrequest_hwprovision.go)

    The NodeAllocationRequest is rendered, created or patched, and its conditions are
    read back into those of the request. *)
From stdpp Require Import sorting.
From S2P Require Import Prelude Conditions GoText Unstructured Handler ProvisioningStatus MergeMaps ProvisioningTask NodeConfiguration.
#[local] Open Scope string_scope.
#[local] Open Scope Z_scope.

(** The two conditions of a NodeAllocationRequest that are mirrored. *)
Inductive hardwareCondition : Type := Provisioned | Configured.

Definition hw_type (c : hardwareCondition) : string :=
  match c with Provisioned => "Provisioned" | Configured => "Configured" end.
Definition GetStatusMessage (c : hardwareCondition) : string :=
  match c with Configured => "configuring" | Provisioned => "provisioning" end.
Definition pr_type (c : hardwareCondition) : string :=
  match c with
  | Configured => PRconditionTypes.HardwareConfigured
  | Provisioned => PRconditionTypes.HardwareProvisioned
  end.

(** controllers/utils/hardware_utils.go *)
Definition MapHardwareReasonToProvisioningReason (reason : string) : string :=
  if decide (reason = "Failed") then CRconditionReasons.Failed
  else if decide (reason = "TimedOut") then CRconditionReasons.TimedOut
  else if decide (reason = "InProgress") then CRconditionReasons.InProgress
  else if decide (reason = "Completed") then CRconditionReasons.Completed
  else if bool_decide (reason ∈ ["InvalidUserInput"; "Unprovisioned"; "NotInitialized"])
  then CRconditionReasons.Failed
  else if decide (reason = "ConfigurationUpdateRequested") then CRconditionReasons.InProgress
  else if decide (reason = "ConfigurationApplied") then CRconditionReasons.Completed
  else CRconditionReasons.Unknown.

(** The loop over the conditions keeps the last one of the type. *)
Definition last_condition (conditions : list Condition) (t : string) : option Condition :=
  FindStatusCondition (rev conditions) t.

Definition isConfigTransactionObserved (observedID expectedGeneration : Z) : bool :=
  negb (observedID =? 0) && (observedID =? expectedGeneration).

Section hardware.
Context (env : Env).

Definition getNAR : prog NodeAllocationRequest :=
  o ← get_object; wrapped ("failed to get NodeAllocationRequest " ++ Name o) (trigger env GetNAR).

(** The request, if it exists: [IsNotFound] sees through the wrapping. *)
Definition find_NAR : prog (option NodeAllocationRequest) :=
  r ← try getNAR;
  match r with
  | inr nar => mret (Some nar)
  | inl e => if IsNotFound e then mret None else raise e
  end.

Definition with_nar_spec (s : NodeAllocationRequestSpec) (nar : NodeAllocationRequest) : NodeAllocationRequest :=
  mkNAR s (nar_Annotations nar) (nar_Deleting nar) (nar_Conditions nar) (ObservedConfigTransactionId nar)
    (NodeNames nar).
Definition with_provisioned (b : bool) (s : NodeAllocationRequestSpec) : NodeAllocationRequestSpec :=
  mkNARSpec (ClusterId s) (Site s) (NodeGroups s) (ConfigTransactionId s) (HardwareProvisioningTimeout s) b
    (nar_SkipCleanup s).
Definition with_skip (b : bool) (s : NodeAllocationRequestSpec) : NodeAllocationRequestSpec :=
  mkNARSpec (ClusterId s) (Site s) (NodeGroups s) (ConfigTransactionId s) (HardwareProvisioningTimeout s)
    (ClusterProvisioned s) b.
Definition with_transaction (x : Z) (s : NodeAllocationRequestSpec) : NodeAllocationRequestSpec :=
  mkNARSpec (ClusterId s) (Site s) (NodeGroups s) x (HardwareProvisioningTimeout s) (ClusterProvisioned s)
    (nar_SkipCleanup s).

(** ** The request to the hardware manager *)

Definition setNARClusterProvisioned : prog unit :=
  nar ← wrapped "failed to get NodeAllocationRequest" find_NAR;
  match nar with
  | None => mret tt
  | Some nar =>
      if ClusterProvisioned (nar_Spec nar) then mret tt
      else wrapped "failed to set clusterProvisioned on NodeAllocationRequest"
             (trigger env (PatchNAR nar (with_nar_spec (with_provisioned true (nar_Spec nar)) nar)))
  end.

Definition syncNARSkipCleanup : prog unit :=
  nar ← wrapped "failed to get NodeAllocationRequest" find_NAR;
  match nar with
  | None => mret tt
  | Some nar =>
      o ← get_object;
      if Bool.eqb (SkipCleanup o) (nar_SkipCleanup (nar_Spec nar)) then mret tt
      else wrapped "failed to sync skipCleanup on NodeAllocationRequest"
             (trigger env (PatchNAR nar (with_nar_spec (with_skip (SkipCleanup o) (nar_Spec nar)) nar)))
  end.

Definition createNodeAllocationRequestResources (nar : NodeAllocationRequest) : prog unit :=
  _ ← trigger env (RunSource "createClusterInstanceNamespace");
  wrapped "failed to create NodeAllocationRequest" (trigger env (CreateNAR nar)).

(** All its nodes were allocated once, and some are gone. *)
Definition allocation_short (nar : NodeAllocationRequest) : bool :=
  let provisioned :=
    match FindStatusCondition (nar_Conditions nar) "Provisioned" with Some c => is_true c | None => false end in
  let requested := fold_left Z.add (map ng_Size (NodeGroups (nar_Spec nar))) 0 in
  provisioned && (ObservedConfigTransactionId nar =? ConfigTransactionId (nar_Spec nar))
  && (Z.of_nat (length (NodeNames nar)) <? requested).

Definition createOrUpdateNodeAllocationRequest (rendered : NodeAllocationRequest) : prog unit :=
  existing ← wrapped "failed to get NodeAllocationRequest" find_NAR;
  match existing with
  | None => createNodeAllocationRequestResources rendered
  | Some nar =>
      let spec := with_transaction (ConfigTransactionId (nar_Spec nar))
                    (with_provisioned (ClusterProvisioned (nar_Spec nar)) (nar_Spec rendered)) in
      if decide (nar_Spec nar = spec) then
        if allocation_short nar then
          wrapped "failed to bump ConfigTransactionId on NodeAllocationRequest"
            (trigger env (PatchNAR nar
               (with_nar_spec (with_transaction (ConfigTransactionId (nar_Spec nar) + 1) (nar_Spec nar)) nar)))
        else mret tt
      else
        wrapped "failed to update NodeAllocationRequest"
          (trigger env (PatchNAR nar
             (with_nar_spec (with_transaction (ConfigTransactionId (nar_Spec rendered)) spec) nar)))
  end.

(** ** Its conditions *)

(** The status, reason and message of a condition, and whether it failed; the phase is
    set on the way. *)
Definition processExistingHardwareCondition (c : Condition) (condition : hardwareCondition)
    : prog (ConditionStatus * string * string * bool) :=
  let status := cond_Status c in
  let reason := cond_Reason c in
  let message := cond_Message c in
  let what := "Hardware " ++ GetStatusMessage condition in
  let failed := bool_decide (reason = "Failed") || bool_decide (reason = "TimedOut") in
  _ ← when failed (set_failed env message);
  match status with
  | ConditionTrue =>
      let message := if decide (TrimSpace message = "") then what ++ " completed"
                     else what ++ " completed: " ++ message in
      mret (status, reason, message, failed)
  | ConditionFalse =>
      if failed then
        let message := what ++ " failed: " ++ message in
        _ ← set_failed env message; mret (status, reason, message, true)
      else
        let message := if decide (TrimSpace message = "") then what ++ " is in progress"
                       else what ++ " is in progress: " ++ message in
        _ ← set_in_progress env message; mret (status, reason, message, failed)
  | ConditionUnknown => mret (status, reason, message, failed)
  end.

Definition updateHardwareStatus (nar : NodeAllocationRequest) (condition : hardwareCondition)
    : prog (bool * bool) :=
  o ← get_object;
  if decide (Name o = "") then raise (Errorf "missing NodeAllocationRequest identifier")
  else
    '(status, reason, message, timedOutOrFailed) ←
      match last_condition (nar_Conditions nar) (hw_type condition) with
      | None =>
          match condition with
          | Configured => raise (ConditionDoesNotExistsErr "Configured")
          | Provisioned =>
              let message := "Hardware provisioning is in progress" in
              _ ← set_in_progress env message;
              mret (ConditionFalse, CRconditionReasons.InProgress, message, false)
          end
      | Some c => processExistingHardwareCondition c condition
      end;
    _ ← set_condition env (pr_type condition) (MapHardwareReasonToProvisioningReason reason) status message;
    _ ← wrapped ("failed to update Hardware " ++ GetStatusMessage condition ++ " status") (UpdateK8sCRStatus env);
    mret (bool_decide (status = ConditionTrue), timedOutOrFailed).

(** A [Configured] condition of an earlier transaction is not read. *)
Definition stale (nar : NodeAllocationRequest) : bool :=
  let tx := ConfigTransactionId (nar_Spec nar) in
  negb (tx =? 0) && negb (ObservedConfigTransactionId nar =? tx)
  && existsb (fun c => bool_decide (cond_Type c = "Configured")) (nar_Conditions nar).

Definition checkNodeAllocationRequestStatus (nar : NodeAllocationRequest) (condition : hardwareCondition)
    : prog (bool * bool) :=
  if match condition with Configured => stale nar | Provisioned => false end then mret (false, false)
  else updateHardwareStatus nar condition.

Definition updateClusterInstance (ci : ClusterInstance) (nar : NodeAllocationRequest) : prog ClusterInstance :=
  nodes ← wrapped "failed to list AllocatedNodes for NodeAllocationRequest" (trigger env ListAllocatedNodes);
  hw ← wrapped "failed to collect hardware node details" (lift (collectNodeDetails nodes));
  _ ← wrapped "failed to copy pull secret" (trigger env (RunSource "CopyPullSecret"));
  r ← try (applyNodeConfiguration env hw nar ci);
  o ← get_object;
  _ ← match r with
      | inl e =>
          if IsClusterProvisionCompleted o then
            let msg := "Waiting for hardware allocation for new nodes" in
            _ ← set_condition env PRconditionTypes.HardwareNodeConfigApplied CRconditionReasons.InProgress
                  ConditionFalse msg;
            set_in_progress env msg
          else
            let msg := "Failed to apply node configuration to the rendered ClusterInstance: " ++ Error e in
            _ ← set_condition env PRconditionTypes.HardwareNodeConfigApplied CRconditionReasons.NotApplied
                  ConditionFalse msg;
            set_failed env msg
      | inr _ =>
          set_condition env PRconditionTypes.HardwareNodeConfigApplied CRconditionReasons.Completed
            ConditionTrue "Node configuration has been applied to the rendered ClusterInstance"
      end;
  _ ← update_status env;
  match r with
  | inl e => raise (wrap "failed to apply node configuration for NodeAllocationRequest" e)
  | inr ci => mret ci
  end.

(** [provisioned, timedOutOrFailed] and the ClusterInstance, whose nodes are updated in
    place once the hardware is provisioned. *)
Definition checkNodeAllocationRequestProvisionStatus (ci : ClusterInstance) (nar : NodeAllocationRequest)
    : prog (bool * bool * ClusterInstance) :=
  '(provisioned, failed) ← checkNodeAllocationRequestStatus nar Provisioned;
  if (provisioned : bool) then
    ci ← wrapped "failed to update the rendered cluster instance" (updateClusterInstance ci nar);
    mret (provisioned, failed, ci)
  else mret (provisioned, failed, ci).

Definition mapAllocatedNodeToResourceProvisioningPhase (conditions : list Condition) : ResourceProvisioningPhase :=
  match FindStatusCondition conditions "Provisioned" with
  | None => PROCESSING
  | Some c =>
      if is_true c then PROVISIONED
      else if has_reason ["Failed"; "TimedOut"] c then FAILED else PROCESSING
  end.

Definition id_le (a b : InfrastructureResourceStatus) : Prop := String.leb (ResourceId a) (ResourceId b) = true.
#[export] Instance id_le_dec a b : Decision (id_le a b).
Proof. unfold id_le. solve_decision. Defined.

Definition resource_status (o : ProvisioningRequest) (an : AllocatedNode) : InfrastructureResourceStatus :=
  mkResource
    match AllocatedNodeHostMap o !! an_Name an with
    | Some host => if decide (host = "") then an_Name an else host
    | None => an_Name an
    end
    (an_Name an) (mapAllocatedNodeToResourceProvisioningPhase (an_Conditions an)).

Definition updateInfrastructureResourceStatuses : prog unit :=
  nodes ← wrapped "failed to list AllocatedNodes for NAR" (trigger env ListAllocatedNodes);
  o ← get_object;
  let statuses := merge_sort id_le (map (resource_status o) nodes) in
  if decide (InfrastructureResourceStatuses o = statuses) then mret tt
  else
    _ ← modify_object (with_resources statuses);
    wrapped "failed to update infrastructure resource statuses" (UpdateK8sCRStatus env).

(** [None]: the [Configured] condition does not exist. *)
Definition checkNodeAllocationRequestConfigStatus (nar : NodeAllocationRequest) : prog (option bool * bool) :=
  r ← try (checkNodeAllocationRequestStatus nar Configured);
  match r with
  | inr (status, failed) => mret (Some status, failed)
  | inl e =>
      if IsConditionDoesNotExistsErr e then mret (None, false)
      else raise (wrap "failed to check NodeAllocationRequest Configured status" e)
  end.

(** Provisioned, configured, timed out or failed, and the ClusterInstance. *)
Definition waitForHardwareData (ci : ClusterInstance) (nar : NodeAllocationRequest)
    : prog (bool * option bool * bool * ClusterInstance) :=
  r ← try (checkNodeAllocationRequestProvisionStatus ci nar);
  _ ← try updateInfrastructureResourceStatuses;
  match r with
  | inl e => raise e
  | inr (provisioned, failed, ci) =>
      if (provisioned : bool) then
        '(configured, failed) ← checkNodeAllocationRequestConfigStatus nar;
        mret (provisioned, configured, failed, ci)
      else mret (provisioned, None, failed, ci)
  end.
End hardware.
