(* ===== verification/ProvisioningValidation.v ===== *)
(** * Validation of a ProvisioningRequest and its NodeAllocationRequest
      (controllers/provisioningrequest_validation.go, validation/cluster_name.go,
      provisioningrequest_hwprovision.go)

    The validation loads the timeouts and the merged input into the task as it goes, so
    what a failed validation leaves there depends on where it failed. *)
From S2P Require Import Prelude Conditions GoText Unstructured Handler ProvisioningStatus MergeMaps ProvisioningTask ProvisioningHardware.
#[local] Open Scope string_scope.
#[local] Open Scope Z_scope.

(** ** Names of clusters *)

Definition reservedNamespaceExact : list string := ["default"; "openshift"].
Definition reservedNamespacePrefixes : list string :=
  ["kube-"; "openshift-"; "open-cluster-management"; "multicluster-"; "ztp-"].

(** The pattern that reserves the name. *)
Definition IsReservedNamespace (operatorNs name : string) : option string :=
  if decide (name ∈ reservedNamespaceExact) then Some name
  else
    match list_find (fun prefix => String.prefix prefix name = true) reservedNamespacePrefixes with
    | Some (_, prefix) => Some prefix
    | None => if decide (name = operatorNs) then Some operatorNs else None
    end.

(** ** Node groups of the hardware data *)

Definition HwMgmtNodeGroupDataKey : string := "nodeGroupData".

Fixpoint validate_groups (groups : list value) (masterGroup : string) : option error :=
  match groups with
  | [] => None
  | VMap m :: rest =>
      let name := string_or_empty "name" m in
      let role := string_or_empty "role" m in
      if decide (name = "") then
        Some (InputError (HwMgmtNodeGroupDataKey ++ " element is missing required field 'name'"))
      else if decide (role = "") then Some (InputError ("no role specified for nodeGroup " ++ name))
      else if decide (role <> "master" /\ role <> "worker") then
        Some (InputError ("invalid role " ++ role ++ " for nodeGroup " ++ name
                            ++ ": must be 'master' or 'worker'"))
      else if decide (role = "master") then
        if decide (masterGroup = "") then validate_groups rest name
        else Some (InputError ("duplicate role " ++ role ++ " in " ++ HwMgmtNodeGroupDataKey ++ " for groups "
                                 ++ masterGroup ++ " and " ++ name))
      else validate_groups rest masterGroup
  | _ :: _ => Some (InputError (HwMgmtNodeGroupDataKey ++ " element is not a map"))
  end.

Definition validateMergedNodeGroups (mergedData : object_map) : option error :=
  match assoc_lookup HwMgmtNodeGroupDataKey mergedData with
  | None => Some (InputError (HwMgmtNodeGroupDataKey ++ " is required"))
  | Some (VSlice []) => Some (InputError (HwMgmtNodeGroupDataKey ++ " must not be empty"))
  | Some (VSlice groups) => validate_groups groups ""
  | Some _ => Some (InputError (HwMgmtNodeGroupDataKey ++ " must be an array"))
  end.

Definition DefaultClusterInstallationTimeout : Z := 90 * Minute.
Definition DefaultHardwareProvisioningTimeout : Z := 90 * Minute.
Definition DefaultClusterConfigurationTimeout : Z := 30 * Minute.

Section validation.
Context (env : Env).

Definition fail_with (e : option error) : prog unit := match e with Some e => raise e | None => mret tt end.

(** An error of any kind becomes an input error. *)
Definition input_wrapped {A} (prefix : string) (m : prog A) : prog A :=
  r ← try m; match r with inl e => raise (as_input prefix e) | inr a => mret a end.

Definition modify_limits (f : timeouts -> timeouts) : prog unit :=
  modify (fun t => with_limits (f (limits t)) t).

(** ** The template and the timeouts *)

Definition is_validated (ct : ClusterTemplate) : bool :=
  match FindStatusCondition (ct_Conditions ct) "ClusterTemplateValidated" with Some c => is_true c | None => false end.

(** provisioning/clustertemplate.go *)
Definition GetClusterTemplateRef : prog ClusterTemplate :=
  o ← get_object;
  let ref := TemplateName o ++ "." ++ TemplateVersion o in
  templates ← wrapped "failed to get ClusterTemplate" (trigger env ListClusterTemplates);
  match list_find (fun ct => ct_Name ct = ref /\ is_validated ct = true) templates with
  | Some (_, ct) => mret ct
  | None => raise (Errorf ("a valid ClusterTemplate (" ++ ref ++ ") does not exist in any namespace"))
  end.

Definition GetConfigmap (name namespace : string) : prog (gmap string string) :=
  r ← DoesK8SResourceExist env name namespace (GetConfigMap name namespace);
  match r with
  | Some data => mret data
  | None => raise (InputError ("the ConfigMap '" ++ name ++ "' is not found in the namespace '" ++ namespace ++ "'"))
  end.

(** Zero when the key is missing. *)
Definition ExtractTimeoutFromConfigMap (data : gmap string string) (key : string) : prog Z :=
  match data !! key with
  | None => mret 0
  | Some text =>
      match parse_duration env text with
      | Some d => mret d
      | None => raise (InputError ("the value of key " ++ key ++ " is not a valid duration string"))
      end
  end.

(** A timeout of a ConfigMap, assigned unless it is zero. *)
Definition load_timeout (cm namespace key : string) (set : Z -> timeouts -> timeouts) : prog unit :=
  data ← wrapped ("failed to get ConfigMap " ++ cm) (GetConfigmap cm namespace);
  d ← wrapped "failed to get timeout config" (ExtractTimeoutFromConfigMap data key);
  when (negb (d =? 0)) (modify_limits (set d)).

Definition validateAndLoadTimeouts (ct : ClusterTemplate) : prog unit :=
  _ ← modify_limits (fun l => mkTimeouts DefaultHardwareProvisioningTimeout DefaultClusterInstallationTimeout
                               DefaultClusterConfigurationTimeout (clusterUpgrade l));
  _ ← load_timeout (ClusterInstanceDefaults ct) (ct_Namespace ct) "clusterInstallationTimeout"
        (fun d l => mkTimeouts (hardwareProvisioning l) d (clusterConfiguration l) (clusterUpgrade l));
  load_timeout (PolicyTemplateDefaults ct) (ct_Namespace ct) "clusterConfigurationTimeout"
    (fun d l => mkTimeouts (hardwareProvisioning l) (clusterProvisioning l) d (clusterUpgrade l)).

(** ** The preflight checks of a seed generation *)

Definition set_observed_condition (conditionType reason : string) (status : ConditionStatus) (message : string)
    : prog unit :=
  t ← now env;
  modify_object (fun o =>
    let cs := SetStatusCondition t (Conditions o) conditionType reason status message in
    with_conditions (map (fun c => if decide (cond_Type c = conditionType)
                                   then mkCondition (cond_Type c) (cond_Status c) (cond_Reason c) (cond_Message c)
                                          (cond_LastTransitionTime c) (Generation o)
                                   else c) cs) o).

(** A check whose success is remembered for the generation. *)
Definition preflight (conditionType what success : string) : prog unit :=
  o ← get_object;
  if condition_is o conditionType (fun c => is_true c && (cond_ObservedGeneration c =? Generation o)) then mret tt
  else
    r ← try (trigger env (RunSource what));
    match r with
    | inr _ => set_observed_condition conditionType CRconditionReasons.Completed ConditionTrue success
    | inl e =>
        if isSeedGenerationTransientError e then
          _ ← set_observed_condition conditionType CRconditionReasons.InProgress ConditionUnknown (Error e);
          raise (mkError (input_error e) Transient (what ++ " could not complete: " ++ Error e))
        else
          _ ← set_observed_condition conditionType CRconditionReasons.PreconditionChecksFailed ConditionFalse (Error e);
          raise (as_input (what ++ " failed") e)
    end.

Definition remove_condition (conditionType : string) : prog unit :=
  modify_object (fun o => with_conditions (RemoveStatusCondition (Conditions o) conditionType) o).

Definition validateSeedGenerationRegistryPreflight : prog unit :=
  _ ← preflight PRconditionTypes.SeedGenerationRegistryValidated "seed generation registry preflight"
        "Seed image registry push access was validated";
  hasISO ← trigger env (AskSource "liveISO");
  if (hasISO : bool) then
    preflight PRconditionTypes.SeedGenerationISOUploadValidated "live ISO upload preflight"
      "Live ISO upload credentials, paths, and TLS endpoints were validated"
  else remove_condition PRconditionTypes.SeedGenerationISOUploadValidated.

(** ** The input *)

Definition validateClusterName : prog unit :=
  t ← get_state;
  match clusterInstanceData (input t) with
  | VMap m =>
      let name := string_or_empty "clusterName" m in
      if decide (name = "") then raise (InputError "clusterName is required and must be a non-empty string")
      else if negb (is_dns_label env name) then
        raise (Errorf ("invalid clusterName format: clusterName " ++ name ++ " is not a valid DNS-1123 label"))
      else
        match IsReservedNamespace (operator_namespace env) name with
        | Some pattern =>
            raise (Errorf ("reserved clusterName: clusterName " ++ name ++ " targets a reserved namespace (prefix "
                             ++ pattern ++ ")"))
        | None =>
            r ← try (trigger env (GetNamespaceOwner name));
            match r with
            | inl e =>
                if IsNotFound e then mret tt
                else raise (wrap ("clusterName ownership check failed: failed to check for existing namespace " ++ name) e)
            | inr owner =>
                if decide (owner = Name (object t)) then mret tt
                else raise (Errorf ("clusterName ownership check failed: namespace " ++ name
                                      ++ " already exists and is not owned by ProvisioningRequest " ++ Name (object t)))
            end
        end
  | _ => raise (InputError "clusterName is required and must be a non-empty string")
  end.

Definition group_maps (mergedData : object_map) : list object_map :=
  match slice_field HwMgmtNodeGroupDataKey mergedData with
  | Some l => omap (fun v => match v with VMap m => Some m | _ => None end) l
  | None => []
  end.

Definition validateMergedHwProfiles (mergedData : object_map) : prog unit :=
  for_each (group_maps mergedData) (fun m =>
    let hwProfile := string_or_empty "hwProfile" m in
    if decide (hwProfile = "") then mret tt
    else
      r ← try (trigger env (GetHardwareProfile hwProfile));
      match r with
      | inr _ => mret tt
      | inl e =>
          if IsNotFound e then
            raise (InputError ("HardwareProfile " ++ hwProfile ++ " referenced by nodeGroup "
                                 ++ string_or_empty "name" m ++ " does not exist"))
          else raise (wrap ("failed to get HardwareProfile " ++ hwProfile) e)
      end).

(** The timeout in the merged data, if there is one. *)
Definition hardware_timeout (mergedData : object_map) (invalid : string -> error) : prog (option Z) :=
  let text := string_or_empty "hardwareProvisioningTimeout" mergedData in
  if decide (text = "") then mret None
  else
    match parse_duration env text with
    | None => raise (invalid ("hardwareProvisioningTimeout " ++ text ++ " is not a valid duration"))
    | Some d =>
        if d <=? 0 then raise (invalid ("hardwareProvisioningTimeout " ++ text ++ " must be a positive duration"))
        else mret (Some d)
    end.

Definition validateAndMergeHwMgmtInput : prog unit :=
  mergedData ← trigger env MergeHwMgmtInput;
  _ ← modify (fun t => with_input (mkInput (clusterInstanceData (input t)) mergedData (hostToGroupName (input t))) t);
  _ ← fail_with (validateMergedNodeGroups mergedData);
  _ ← validateMergedHwProfiles mergedData;
  timeout ← hardware_timeout mergedData InputError;
  match timeout with
  | None => mret tt
  | Some d => modify_limits (fun l => mkTimeouts d (clusterProvisioning l) (clusterConfiguration l) (clusterUpgrade l))
  end.

Definition validateProvisioningRequestCR : prog unit :=
  o ← get_object;
  ct ← input_wrapped ("failed to get the ClusterTemplate for ProvisioningRequest " ++ Name o) GetClusterTemplateRef;
  _ ← modify (with_namespace (ct_Namespace ct));
  _ ← wrapped "failed to load timeouts" (validateAndLoadTimeouts ct);
  r ← try (trigger env (RunSource "ValidateTemplateInputMatchesSchema"));
  _ ← match r with inl e => raise (InputError (Error e)) | inr _ => mret tt end;
  r ← try (trigger env (AskSource "HasSeedGenerationConfig"));
  seedGeneration ← match r with
                   | inl e => raise (InputError ("failed to inspect seed generation input: " ++ Error e))
                   | inr b => mret b
                   end;
  _ ← (if (seedGeneration : bool) then
         _ ← input_wrapped "invalid seed generation configuration" (trigger env (RunSource "mergeAndValidateUpgradeData"));
         validateSeedGenerationRegistryPreflight
       else
         _ ← remove_condition PRconditionTypes.SeedGenerationRegistryValidated;
         remove_condition PRconditionTypes.SeedGenerationISOUploadValidated);
  '(data, groups) ← wrapped "failed to validate ClusterInstance input" (trigger env MergeClusterInput);
  _ ← modify (fun t => with_input (mkInput data (hwMgmtData (input t)) groups) t);
  _ ← wrapped "failed to validate clusterName" validateClusterName;
  _ ← wrapped "failed to validate PolicyTemplate input" (trigger env (RunSource "validatePolicyTemplateInput"));
  wrapped "failed to validate hwMgmt input" validateAndMergeHwMgmtInput.

(** ** The NodeAllocationRequest *)

Definition count_of (key : string) (keys : list string) : Z :=
  Z.of_nat (length (filter (fun k => k = key) keys)).

Definition role_of (node : value) : option string :=
  match node with VMap m => Some (string_or_empty "role" m) | _ => None end.

(** The roles of the nodes, or the index of one that is not a map. *)
Fixpoint node_roles (i : Z) (nodes : list value) : Z + list string :=
  match nodes with
  | [] => inr []
  | n :: rest =>
      match role_of n, node_roles (i + 1) rest with
      | None, _ => inl i
      | Some _, inl j => inl j
      | Some r, inr rs => inr (r :: rs)
      end
  end.

(** The entries of a selector that are strings. *)
Definition string_entries (m : object_map) : gmap string string :=
  fold_left (fun acc '(k, v) => match v with VLeaf "string" s => <[k := s]> acc | _ => acc end) m ∅.

(** A group is sized by its hosts, or for the flat format by the nodes of its role. *)
Definition group_of (hosts : gmap string string) (roles : list string) (m : object_map) : NodeGroup :=
  let name := string_or_empty "name" m in
  let role := string_or_empty "role" m in
  mkGroup name role (string_or_empty "hwProfile" m) (string_or_empty "resourcePoolId" m)
    match map_field "resourceSelector" m with Some rs => string_entries rs | None => ∅ end
    (if decide (hosts = ∅) then count_of role roles else count_of name (map_to_list hosts).*2).

Fixpoint groups_of (hosts : gmap string string) (roles : list string) (l : list value) : option (list NodeGroup) :=
  match l with
  | [] => Some []
  | VMap m :: rest =>
      match groups_of hosts roles rest with Some gs => Some (group_of hosts roles m :: gs) | None => None end
  | _ :: _ => None
  end.

Definition string_parameter (key : string) : prog string :=
  v ← wrapped ("failed to get " ++ key ++ " from templateParameters") (trigger env (ExtractMatchingInput key));
  match v with VLeaf "string" s => mret s | _ => raise (Errorf (key ++ " is not a string")) end.

Definition buildNodeAllocationRequestSpec (ci : ClusterInstance) : prog NodeAllocationRequest :=
  t ← get_state;
  let data := hwMgmtData (input t) in
  let hosts := hostToGroupName (input t) in
  match NestedSlice2 "spec" "nodes" (with_spec (ci_Spec ci)) with
  | None => raise (Errorf "failed to extract nodes from cluster instance")
  | Some None => raise (Errorf "spec.nodes not found in cluster instance")
  | Some (Some nodes) =>
      match node_roles 0 nodes with
      | inl i => raise (Errorf ("node at index " ++ itoa i ++ " is not a valid map"))
      | inr roles =>
          match assoc_lookup HwMgmtNodeGroupDataKey data with
          | None => raise (InputError (HwMgmtNodeGroupDataKey ++ " not found in merged hwMgmt data"))
          | Some (VSlice l) =>
              match groups_of hosts roles l with
              | None => raise (Errorf (HwMgmtNodeGroupDataKey ++ " element is not a map"))
              | Some groups =>
                  site ← string_parameter "oCloudSiteId";
                  cluster ← string_parameter "nodeClusterName";
                  timeout ← hardware_timeout data Errorf;
                  let o := object t in
                  mret (mkNAR
                    (mkNARSpec cluster site groups (Generation o)
                       match timeout with Some d => d | None => DefaultHardwareProvisioningTimeout end false
                       (SkipCleanup o))
                    None false [] 0 [])
              end
          | Some _ => raise (InputError (HwMgmtNodeGroupDataKey ++ " must be an array"))
          end
      end
  end.

Definition buildNodeAllocationRequest (ci : ClusterInstance) : prog NodeAllocationRequest :=
  _ ← wrapped "failed to get NodeAllocationRequest" (find_NAR env);
  buildNodeAllocationRequestSpec ci.
End validation.
