(* ===== verification/ProvisioningCluster.v ===== *)
(** * Installation and scaling of a cluster
      (controllers/provisioningrequest_clusterinstall.go)

    The rendered ClusterInstance is applied; the conditions siteconfig reports are read
    back; a request whose nodes differ from those that were last fulfilled is scaled
    out or in.  The iteration order of a map is that of its list. *)
From S2P Require Import Prelude Conditions GoText Unstructured Handler ProvisioningStatus MergeMaps ProvisioningTask NodeConfiguration ProvisioningHardware.
#[local] Open Scope string_scope.
#[local] Open Scope Z_scope.

(** ** ClusterInstance *)

Section apply.
Context (env : Env).

Definition applyClusterInstance (ci : ClusterInstance) (isDryRun : bool) : prog unit :=
  r ← try (trigger env (ApplyClusterInstance ci isDryRun));
  match r with
  | inr _ => mret tt
  | inl e =>
      if decide (kind e = Conflict) then raise (wrap "conflict during server-side apply" e)
      else if bool_decide (kind e ∈ [Invalid; BadRequest; Forbidden])
      then raise (as_input "invalid ClusterInstance configuration" e)
      else raise (wrap "failed to apply ClusterInstance" e)
  end.

Definition getExistingClusterInstance : prog ClusterInstance :=
  o ← get_object;
  match Cluster o with
  | None => raise (Errorf "clusterDetails is nil, cannot retrieve ClusterInstance")
  | Some d =>
      r ← wrapped "failed to check if ClusterInstance exists"
            (DoesK8SResourceExist env (cd_Name d) (cd_Name d) (GetClusterInstance (cd_Name d)));
      match r with
      | Some ci => mret ci
      | None => raise (Errorf ("clusterInstance " ++ cd_Name d ++ " not found"))
      end
  end.

(** ** The status of the installation *)

Definition clusterInstanceConditionTypes : list string :=
  ["ClusterInstanceValidated"; "RenderedTemplates"; "RenderedTemplatesValidated"; "RenderedTemplatesApplied"].

(** The first condition of a type in the list that is not true. *)
Fixpoint first_not_true (cs : list Condition) (types : list string) : option Condition :=
  match types with
  | [] => None
  | t :: rest =>
      match FindStatusCondition cs t with
      | Some c => if is_true c then first_not_true cs rest else Some c
      | None => first_not_true cs rest
      end
  end.

Definition updateClusterInstanceProcessedStatus (ci : ClusterInstance) : prog unit :=
  if decide (ci_Conditions ci = []) then
    let message := "Waiting for ClusterInstance (" ++ ci_Name ci ++ ") to be processed" in
    _ ← set_condition env PRconditionTypes.ClusterInstanceProcessed CRconditionReasons.InProgress
          ConditionFalse message;
    set_in_progress env message
  else
    match first_not_true (ci_Conditions ci) clusterInstanceConditionTypes with
    | Some c =>
        _ ← set_condition env PRconditionTypes.ClusterInstanceProcessed (cond_Reason c) (cond_Status c)
              (cond_Message c);
        set_failed env (cond_Message c)
    | None =>
        set_condition env PRconditionTypes.ClusterInstanceProcessed CRconditionReasons.Completed ConditionTrue
          ("Applied and processed ClusterInstance (" ++ ci_Name ci ++ ") successfully")
    end.

(** The condition that siteconfig reports, or that it is being waited for. *)
Definition mirror_provisioned (ci : ClusterInstance) : prog unit :=
  match FindStatusCondition (ci_Conditions ci) "Provisioned" with
  | Some c =>
      set_condition env PRconditionTypes.ClusterProvisioned (cond_Reason c) (cond_Status c) (cond_Message c)
  | None =>
      o ← get_object;
      when (condition_is o PRconditionTypes.ClusterInstanceProcessed is_true) (
        let message := "Waiting for cluster installation to start" in
        _ ← set_condition env PRconditionTypes.ClusterProvisioned CRconditionReasons.InProgress
              ConditionFalse message;
        set_in_progress env message)
  end.

(** The start of the installation, now if it is not set. *)
Definition installation_start : prog Z :=
  d ← get_details;
  match ClusterProvisionStartedAt d with
  | Some t => mret t
  | None => t ← now env; _ ← modify_details (with_started (Some t)); mret t
  end.

Definition updateClusterProvisionStatus (ci : ClusterInstance) : prog unit :=
  _ ← mirror_provisioned ci;
  o ← get_object;
  when (IsClusterProvisionPresent o) (
    start ← installation_start;
    if IsClusterProvisionFailed o then set_failed env "Cluster installation failed"
    else if IsClusterProvisionCompleted o then mret tt
    else
      t ← get_state;
      time ← now env;
      if TimeoutExceeded time start (clusterProvisioning (limits t)) then
        let message := "Cluster installation timed out" in
        _ ← set_condition env PRconditionTypes.ClusterProvisioned CRconditionReasons.TimedOut
              ConditionFalse message;
        set_failed env message
      else set_in_progress env "Cluster installation is in progress").

(** The retries of the read are one call. *)
Definition checkClusterProvisionStatus (clusterInstanceName : string) : prog unit :=
  r ← wrapped ("failed to get ClusterInstance " ++ clusterInstanceName)
        (DoesK8SResourceExist env clusterInstanceName clusterInstanceName (GetClusterInstance clusterInstanceName));
  match r with
  | None => raise (Errorf ("clusterInstance " ++ clusterInstanceName ++ " does not exist"))
  | Some ci =>
      _ ← updateClusterInstanceProcessedStatus ci;
      _ ← updateClusterProvisionStatus ci;
      update_status env
  end.

Definition without_auto_import (mc : ManagedCluster) : ManagedCluster :=
  mkManaged (mc_Conditions mc) (mc_clusterID mc) (mc_openshiftVersion mc) false (HubAcceptsClient mc).

Definition removeDisableAutoImportAnnotation (name : string) : prog unit :=
  r ← wrapped "failed to check if ManagedCluster exists" (DoesK8SResourceExist env name "" (GetManagedCluster name));
  match r with
  | Some mc =>
      when (mc_DisableAutoImport mc)
        (wrapped "failed to update managed cluster" (trigger env (UpdateManagedCluster name (without_auto_import mc))))
  | None => mret tt
  end.

(** ** Scaling out *)

(** A scale operation starts: the condition is reset and its clock started. *)
Definition start_scaling (message : string) : prog unit :=
  _ ← set_condition env PRconditionTypes.ClusterProvisioned CRconditionReasons.InProgress ConditionFalse message;
  _ ← set_in_progress env message;
  t ← now env;
  _ ← modify_details (with_started (Some t));
  o ← get_object;
  wrapped ("failed to update scale status for ProvisioningRequest " ++ Name o) (UpdateK8sCRStatus env).

Definition finish_scaling (count : Z) : prog unit :=
  _ ← modify_details (with_count count);
  _ ← set_condition env PRconditionTypes.ClusterProvisioned CRconditionReasons.Completed ConditionTrue
        "Provisioning completed";
  wrapped "failed to update scale completion status" (UpdateK8sCRStatus env).

(** More nodes are rendered than were fulfilled.  Whether to go on. *)
Definition scale_out (fulfilled rendered : Z) : prog bool :=
  let message := "Scale-out: waiting for new node(s) to join the cluster (" ++ itoa fulfilled ++ " → "
                   ++ itoa rendered ++ " nodes) and worker pools to finish updating" in
  o ← get_object;
  _ ← (if IsClusterProvisionCompleted o then start_scaling message
       else
         _ ← set_in_progress env message;
         wrapped ("failed to update scale-out status for ProvisioningRequest " ++ Name o) (UpdateK8sCRStatus env));
  _ ← try (trigger env (RunSource "approveScaleOutCSRs"));
  ready ← try (trigger env (AskSource "checkNodesAndMCPsReady"));
  match ready with
  | inr true => _ ← finish_scaling rendered; mret true
  | _ => mret false
  end.

(** ** Scaling in *)

Definition hosts_of (o : ProvisioningRequest) : list string := (map_to_list (AllocatedNodeHostMap o)).*2.

(** The allocated hosts that are not rendered any more. *)
Definition removed_hosts (o : ProvisioningRequest) (spec : value) : list string :=
  filter (fun host => getNodeRolesByHostname spec !! host = None) (hosts_of o).

Definition checkRemovedNodesGone (spec : value) : prog bool :=
  _ ← wrapped "failed to create spoke client for node check" (trigger env SpokeClient);
  nodes ← wrapped "failed to list nodes on spoke cluster" (trigger env ListSpokeNodes);
  o ← get_object;
  mret (forallb (fun host => negb (bool_decide (host ∈ nodes))) (removed_hosts o spec)).

(** The reverse of the host map; of two nodes with one host, either. *)
Definition node_of_host (o : ProvisioningRequest) : gmap string string :=
  list_to_map (prod_swap <$> map_to_list (AllocatedNodeHostMap o)).

Abbreviation ScaleInNodesAnnotation := "clcm.openshift.io/scale-in-nodes".

Definition annotation_of (nar : NodeAllocationRequest) (key : string) : option string :=
  match nar_Annotations nar with Some m => m !! key | None => None end.

(** Whether the clean-up is done. *)
Definition handleScaleInCleanup (spec : value) : prog bool :=
  o ← get_object;
  let nodesToDelete :=
    omap (fun '(host, id) => if decide (getNodeRolesByHostname spec !! host = None) then Some id else None)
      (map_to_list (node_of_host o)) in
  if decide (nodesToDelete = []) then mret true
  else
    nar ← wrapped "failed to get NAR for scale-in cleanup" (getNAR env);
    match annotation_of nar ScaleInNodesAnnotation with
    | Some _ => mret false
    | None =>
        _ ← modify_object (fun o =>
              with_host_map (fold_left (fun m id => delete id m) nodesToDelete (AllocatedNodeHostMap o)) o);
        _ ← set_in_progress env ("Scale-in: removed " ++ itoa (Z.of_nat (length nodesToDelete))
                                   ++ " node(s), cleaning up");
        mret true
    end.

(** Some allocated hosts are not rendered.  Whether to go on. *)
Definition scale_in (fulfilled rendered numRemoved : Z) (spec : value) : prog bool :=
  o ← get_object;
  _ ← when (IsClusterProvisionCompleted o)
        (start_scaling ("Scale-in: waiting for removed node(s) to leave the cluster (" ++ itoa fulfilled ++ " → "
                          ++ itoa (fulfilled - numRemoved) ++ " nodes)"));
  gone ← try (checkRemovedNodesGone spec);
  match gone with
  | inr true =>
      done ← wrapped "failed to perform scale-in cleanup" (handleScaleInCleanup spec);
      if negb done then mret false
      else
        let count := fulfilled - numRemoved in
        if count <? rendered then
          _ ← modify_details (with_count count);
          _ ← wrapped "failed to update swap transition status" (UpdateK8sCRStatus env);
          mret false
        else _ ← finish_scaling count; mret true
  | _ => mret false
  end.

Definition set_cluster_name (name : string) (o : ProvisioningRequest) : ProvisioningRequest :=
  with_cluster (Some (with_name name (match Cluster o with Some d => d | None => no_details end))) o.

Definition handleClusterInstallation (ci : ClusterInstance) : prog unit :=
  r ← try (applyClusterInstance ci false);
  match r with
  | inl e => raise (Errorf ("failed to apply the rendered ClusterInstance (" ++ ci_Name ci ++ "): " ++ Error e))
  | inr _ =>
      _ ← modify_object (set_cluster_name (ci_Name ci));
      _ ← update_status env;
      d ← get_details;
      let fulfilled := FulfilledNodeCount d in
      let rendered := node_count (ci_Spec ci) in
      go ← (if (0 <? fulfilled) && (fulfilled <? rendered) then scale_out fulfilled rendered else mret true);
      if negb go then mret tt
      else
        o ← get_object;
        let removed := if 0 <? fulfilled then removed_hosts o (ci_Spec ci) else [] in
        go ← (if decide (removed = []) then mret true
              else scale_in fulfilled rendered (Z.of_nat (length removed)) (ci_Spec ci));
        if negb go then mret tt
        else
          _ ← checkClusterProvisionStatus (ci_Name ci);
          o ← get_object;
          when (IsClusterProvisionCompleted o) (removeDisableAutoImportAnnotation (ci_Name ci))
  end.

(** ** Draining the nodes that leave *)

Definition with_annotations (m : option (gmap string string)) (nar : NodeAllocationRequest) : NodeAllocationRequest :=
  mkNAR (nar_Spec nar) m (nar_Deleting nar) (nar_Conditions nar) (ObservedConfigTransactionId nar) (NodeNames nar).

(** The hosts of a list of node IDs, as a set. *)
Definition aborted_hosts (o : ProvisioningRequest) (annotation : string) : list string :=
  remove_dups (omap (fun id => AllocatedNodeHostMap o !! id)
    (filter (fun id => id <> "") (map TrimSpace (split_comma annotation)))).

Definition uncordon (host : string) : prog unit :=
  r ← try (trigger env (SpokeNodeCordoned host));
  match r with
  | inl e =>
      if IsNotFound e then mret tt else raise (wrap ("failed to get spoke node " ++ host) e)
  | inr cordoned =>
      when cordoned (wrapped ("failed to uncordon node " ++ host) (trigger env (UncordonNode host)))
  end.

(** The removed nodes were added again: they are uncordoned and the annotation goes. *)
Definition handleScaleInAbort : prog unit :=
  nar ← wrapped "failed to get NAR" (find_NAR env);
  match nar with
  | None => mret tt
  | Some nar =>
      match annotation_of nar ScaleInNodesAnnotation with
      | None => mret tt
      | Some value =>
          o ← get_object;
          let hosts := aborted_hosts o value in
          _ ← (if decide (hosts = []) then mret tt
               else
                 _ ← get_details;
                 r ← try (trigger env SpokeClient);
                 match r with
                 | inl e =>
                     if Contains (Error e) "no kubeconfig secret found" then mret tt
                     else raise (wrap "failed to create spoke client" e)
                 | inr _ => for_each hosts uncordon
                 end);
          wrapped "failed to remove scale-in annotation"
            (trigger env (PatchNAR nar (with_annotations (delete ScaleInNodesAnnotation <$> nar_Annotations nar) nar)))
      end
  end.

(** [annotations := nar.GetAnnotations(); annotations[key] = ...; patch :=
    MergeFrom(nar.DeepCopy()); nar.SetAnnotations(annotations)]: a map that is not nil
    is that of the object, so the base of the patch has the annotation as well. *)
Definition drain_patch (nodeList : string) (nar : NodeAllocationRequest) : NodeAllocationRequest * NodeAllocationRequest :=
  let annotations := match nar_Annotations nar with Some m => m | None => ∅ end in
  let annotations := <[ScaleInNodesAnnotation := nodeList]> annotations in
  let base := match nar_Annotations nar with Some _ => with_annotations (Some annotations) nar | None => nar end in
  (base, with_annotations (Some annotations) nar).

Definition is_drained (an : AllocatedNode) : bool :=
  match FindStatusCondition (an_Conditions an) "Deprovisioned" with
  | Some c => has_reason ["Completed"] c
  | None => false
  end.

Fixpoint all_drained (nodeIDs : list string) : prog bool :=
  match nodeIDs with
  | [] => mret true
  | id :: rest =>
      r ← try (trigger env (GetAllocatedNode id));
      match r with
      | inl e =>
          if IsNotFound e then all_drained rest
          else raise (wrap ("failed to get AllocatedNode " ++ id) e)
      | inr an => if is_drained an then all_drained rest else mret false
      end
  end.

Definition requestAndWaitForDrain (nodeIDs : list string) : prog bool :=
  nar ← wrapped "failed to get NAR for drain request" (getNAR env);
  _ ← match annotation_of nar ScaleInNodesAnnotation with
      | Some _ => mret tt
      | None =>
          let '(base, nar) := drain_patch (Join "," nodeIDs) nar in
          wrapped "failed to set drain-nodes annotation" (trigger env (PatchNAR base nar))
      end;
  all_drained nodeIDs.

(** ** Pruning the resources of the nodes that leave *)

Definition prune_entry (apiVersion kind : string) : value :=
  VMap [("apiVersion", VStr apiVersion); ("kind", VStr kind)].
Definition pruneManifests : value :=
  VSlice [prune_entry "agent-install.openshift.io/v1beta1" "InfraEnv";
          prune_entry "agent-install.openshift.io/v1beta1" "NMStateConfig";
          prune_entry "metal3.io/v1alpha1" "BareMetalHost"].

Definition nodes_of (spec : value) : list value := match spec_nodes spec with Some l => l | None => [] end.

(** The rendered nodes that exist already, and the removed ones with their manifests
    pruned. *)
Definition buildIntermediateCIWithPruneManifests (rendered existing : value) (removed : list string) : value :=
  match rendered with
  | VMap m =>
      let existingNodes := nodes_of existing in
      let existingHostnames :=
        omap (fun n => match n with VMap nm => if decide (node_hostname nm = "") then None else Some (node_hostname nm)
                                  | _ => None end) existingNodes in
      let removedEntries :=
        omap (fun n => match n with
                       | VMap nm => if decide (node_hostname nm ∈ removed)
                                    then Some (VMap (set_key "pruneManifests" pruneManifests nm)) else None
                       | _ => None
                       end) existingNodes in
      let kept :=
        omap (fun n => match n with
                       | VMap nm => if decide (node_hostname nm ∈ existingHostnames) then Some n else None
                       | _ => None
                       end) (nodes_of rendered) in
      VMap (set_key "nodes" (VSlice (kept ++ removedEntries)) m)
  | _ => rendered
  end.

(** The name and the namespace of the hosts of the removed nodes. *)
Fixpoint lookupRemovedNodeBMHs (o : ProvisioningRequest) (hostnames : list string) : prog (list (string * string)) :=
  match hostnames with
  | [] => mret []
  | host :: rest =>
      match node_of_host o !! host with
      | None => lookupRemovedNodeBMHs o rest
      | Some id =>
          r ← try (trigger env (GetAllocatedNode id));
          match r with
          | inl e =>
              if IsNotFound e then lookupRemovedNodeBMHs o rest
              else raise (wrap ("failed to get AllocatedNode " ++ id) e)
          | inr an =>
              hosts ← lookupRemovedNodeBMHs o rest; mret ((HwMgrNodeId an, HwMgrNodeNs an) :: hosts)
          end
      end
  end.

(** A kind that is not installed has no resources. *)
Definition resourceStillExists (resource name namespace : string) : prog bool :=
  r ← try (DoesK8SResourceExist env name namespace (ResourceExists resource name namespace));
  match r with
  | inr found => mret match found with Some _ => true | None => false end
  | inl e =>
      if decide (kind e = NoMatch) then mret false
      else raise (wrap "failed to check resource existence" e)
  end.

Fixpoint checkScaleInPrunedResourcesGone (hosts : list (string * string)) : prog bool :=
  match hosts with
  | [] => mret true
  | (name, namespace) :: rest =>
      infraEnv ← wrapped "failed to check InfraEnv" (resourceStillExists "InfraEnv" name namespace);
      if (infraEnv : bool) then mret false
      else
        config ← wrapped "failed to check NMStateConfig" (resourceStillExists "NMStateConfig" name namespace);
        if (config : bool) then mret false else checkScaleInPrunedResourcesGone rest
  end.

(** The nodes to remove, among those that are still allocated. *)
Definition removedHostnames (o : ProvisioningRequest) (existing rendered : value) : list string :=
  filter (fun host => getNodeRolesByHostname rendered !! host = None /\ host ∈ hosts_of o)
    (map_to_list (getNodeRolesByHostname existing)).*1.

(** Whether nodes are still being drained or pruned. *)
Definition handleScaleInDrain (rendered : ClusterInstance) : prog bool :=
  o ← get_object;
  if negb (IsClusterProvisionCompleted o) then mret false
  else
    existing ← wrapped "failed to get existing ClusterInstance"
      (DoesK8SResourceExist env (ci_Name rendered) (ci_Name rendered) (GetClusterInstance (ci_Name rendered)));
    match existing with
    | None => mret false
    | Some existing =>
        let removed := removedHostnames o (ci_Spec existing) (ci_Spec rendered) in
        if decide (removed = []) then
          _ ← wrapped "failed to handle scale-in abort" handleScaleInAbort; mret false
        else
          _ ← set_in_progress env ("Scale-in: processing " ++ itoa (Z.of_nat (length removed)) ++ " removed node(s)");
          _ ← wrapped "failed to update scale-in status" (UpdateK8sCRStatus env);
          o ← get_object;
          let ids := omap (fun host => node_of_host o !! host) removed in
          found ← try (lookupRemovedNodeBMHs o removed);
          let hosts := match found with inr l => l | inl _ => [] end in
          drained ← (if decide (ids = []) then mret true
                     else wrapped "failed to request drain" (requestAndWaitForDrain ids));
          if negb drained then mret true
          else
            _ ← wrapped "failed to apply intermediate CI with pruneManifests"
                  (applyClusterInstance (mkCI (ci_Name rendered)
                     (buildIntermediateCIWithPruneManifests (ci_Spec rendered) (ci_Spec existing) removed)
                     (ci_Conditions rendered)) false);
            pruned ← wrapped "failed to check pruned resources" (checkScaleInPrunedResourcesGone hosts);
            if negb pruned then mret true
            else _ ← wrapped "failed to delete Agent CRs" (trigger env (RunSource "deleteScaleInAgentCRs")); mret false
    end.
End apply.
