(* ===== verification/ProvisioningHardwareFacts.v ===== *)
(** * Updates of the NodeAllocationRequest (theory of ProvisioningHardware and
      ProvisioningCluster)

    A NodeAllocationRequest is patched when it differs from what is rendered, and then
    left alone until the hardware manager has seen the change. *)
From S2P Require Import Prelude Conditions GoText Unstructured Handler ProvisioningStatus MergeMaps ProvisioningTask NodeConfiguration ProvisioningHardware ProvisioningPolicy ProvisioningValidation ProvisioningCluster.
#[local] Open Scope Z_scope.

Section updates.
Context (env : Env).

(** The spec to store, but for its transaction. *)
Definition wanted (rendered nar : NodeAllocationRequest) : NodeAllocationRequestSpec :=
  with_provisioned (ClusterProvisioned (nar_Spec nar)) (nar_Spec rendered).

Definition same_but_transaction (s s' : NodeAllocationRequestSpec) : Prop := with_transaction 0 s = with_transaction 0 s'.

(** What is stored instead of a request that exists. *)
Definition patch_of (rendered nar : NodeAllocationRequest) : option NodeAllocationRequest :=
  if decide (nar_Spec nar = with_transaction (ConfigTransactionId (nar_Spec nar)) (wanted rendered nar)) then
    if allocation_short nar
    then Some (with_nar_spec (with_transaction (ConfigTransactionId (nar_Spec nar) + 1) (nar_Spec nar)) nar)
    else None
  else Some (with_nar_spec (with_transaction (ConfigTransactionId (nar_Spec rendered)) (wanted rendered nar)) nar).

Lemma patch_of_cases rendered nar :
  (~ same_but_transaction (nar_Spec nar) (wanted rendered nar) ->
     patch_of rendered nar = Some (with_nar_spec (wanted rendered nar) nar)) /\
  (same_but_transaction (nar_Spec nar) (wanted rendered nar) ->
     patch_of rendered nar =
       if allocation_short nar
       then Some (with_nar_spec (with_transaction (ConfigTransactionId (nar_Spec nar) + 1) (nar_Spec nar)) nar)
       else None).
Proof.
  unfold patch_of, same_but_transaction. case_decide as E; (split; [intros Hd|intros Hs]); try done.
  - destruct Hd. rewrite E at 1. done.
  - destruct E. unfold with_transaction in *. destruct (nar_Spec nar). injection Hs. simpl. intros. by subst.
Qed.

Lemma patch_of_spec rendered nar nar' :
  patch_of rendered nar = Some nar' -> same_but_transaction (nar_Spec nar') (wanted rendered nar').
Proof.
  unfold patch_of. case_decide as E; [destruct (allocation_short nar); [|done]|]; intros [= <-]; [|done].
  unfold same_but_transaction, wanted, with_nar_spec, with_transaction, with_provisioned in *. simpl.
  destruct (nar_Spec nar). injection E. intros. by subst.
Qed.

(** Nothing is changed until the hardware manager has observed the transaction. *)
Lemma patch_of_settled rendered nar :
  same_but_transaction (nar_Spec nar) (wanted rendered nar) ->
  ObservedConfigTransactionId nar <> ConfigTransactionId (nar_Spec nar) -> patch_of rendered nar = None.
Proof.
  intros Hs Ho. unfold patch_of. rewrite decide_True.
  - unfold allocation_short. rewrite (proj2 (Z.eqb_neq _ _) Ho). by rewrite andb_false_r.
  - unfold same_but_transaction, with_transaction in *. destruct (nar_Spec nar). injection Hs. simpl. intros. by subst.
Qed.

(** The calls of an update of a request that exists. *)
Definition update_calls (o : ProvisioningRequest) (rendered nar : NodeAllocationRequest) : list event :=
  Ev o GetNAR :: match patch_of rendered nar with Some nar' => [Ev o (PatchNAR nar nar')] | None => [] end.

(** The patch of a call. *)
Definition patched (e : event) : option (NodeAllocationRequest * NodeAllocationRequest) :=
  match ev_call e with PatchNAR base nar => Some (base, nar) | _ => None end.

Lemma update_log rendered nar t :
  api env GetNAR (log t) = inr nar ->
  log (createOrUpdateNodeAllocationRequest env rendered t).1 = log t ++ update_calls (object t) rendered nar.
Proof.
  intros Ha. unfold createOrUpdateNodeAllocationRequest, find_NAR, getNAR, wrapped, try, trigger, get_object, mbind,
    handler_bind. cbn [object log with_event fst snd]. rewrite Ha. unfold mret, handler_ret. cbn [fst snd].
  unfold update_calls, patch_of, wanted. cbn [with_provisioned with_transaction].
  case_decide; [destruct (allocation_short nar)|]; try done; cbn [object log with_event fst snd];
    destruct (api env (PatchNAR _ _) _); cbn [fst snd log with_event raise]; exact (eq_sym (app_assoc _ _ _)).
Qed.
End updates.

(** What the rendered request carries. *)
Lemma wp_whatever {A B} (m : prog A) (k : A -> prog B) (Q : B -> Prop) s :
  (forall a s', wp (k a) (fun _ r => forall b, r = Ret b -> Q b) s') ->
  wp (m ≫= k) (fun _ r => forall b, r = Ret b -> Q b) s.
Proof. intros Hk. unfold wp, mbind, handler_bind. destruct (m s) as [s' []]; simpl; [apply Hk|done..]. Qed.

Lemma built_transaction env ci t t' rendered :
  buildNodeAllocationRequest env ci t = (t', Ret rendered) ->
  ConfigTransactionId (nar_Spec rendered) = Generation (object t).
Proof.
  assert (forall s, object s = object t -> wp (buildNodeAllocationRequestSpec env ci)
    (fun _ r => forall b, r = Ret b -> ConfigTransactionId (nar_Spec b) = Generation (object t)) s) as H.
  { intros s Hs. unfold buildNodeAllocationRequestSpec. apply wp_bind, wp_get. simpl. rewrite Hs.
    repeat case_match; try (by apply wp_raise).
    do 3 (apply wp_whatever; intros ??). apply wp_ret. by intros b [= <-]. }
  unfold buildNodeAllocationRequest, find_NAR, getNAR, wrapped, try, trigger, get_object, mbind, handler_bind, mret,
    handler_ret, raise.
  intros Hb. simpl in Hb. destruct (api env GetNAR (log t)) as [e|nar]; simpl in Hb.
  - destruct (IsNotFound _); [|done]. simpl in Hb.
    specialize (H (with_event (Ev (object t) GetNAR) t) eq_refl). unfold wp in H. rewrite Hb in H. by apply H.
  - specialize (H (with_event (Ev (object t) GetNAR) t) eq_refl). unfold wp in H. rewrite Hb in H. by apply H.
Qed.

(** C8: A NodeAllocationRequest is patched when, and only when, there is something to
    change.  When the stored spec differs from the rendered one (but for the transaction
    and for the flag that the cluster is provisioned, which is kept), exactly one patch
    is sent, with the stored request as its base: it sets the rendered spec and its
    transaction, the generation of the ProvisioningRequest it was rendered for.  When it
    does not differ, the next transaction is sent if the hardware manager has observed
    the last one, all nodes were allocated, and some are gone; otherwise nothing is
    sent.  After either patch, whatever the status of the request says, no update with
    the same rendered request sends another until the hardware manager has observed the
    new transaction. *)
Theorem hardware_patched_once env rendered nar t :
  api env GetNAR (log t) = inr nar ->
  let sent := log (createOrUpdateNodeAllocationRequest env rendered t).1 in
  let kept := with_provisioned (ClusterProvisioned (nar_Spec nar)) (nar_Spec rendered) in
  let patch nar' := sent = (log t ++ [Ev (object t) GetNAR; Ev (object t) (PatchNAR nar nar')])%list in
  (~ same_but_transaction (nar_Spec nar) kept ->
     patch (with_nar_spec kept nar) /\
     forall env0 ci t0 t1, buildNodeAllocationRequest env0 ci t0 = (t1, Ret rendered) ->
       ConfigTransactionId kept = Generation (object t0)) /\
  (same_but_transaction (nar_Spec nar) kept ->
     if allocation_short nar
     then patch (with_nar_spec (with_transaction (ConfigTransactionId (nar_Spec nar) + 1) (nar_Spec nar)) nar)
     else sent = (log t ++ [Ev (object t) GetNAR])%list) /\
  (forall nar' env2 stored t2,
     patch nar' -> api env2 GetNAR (log t2) = inr stored -> nar_Spec stored = nar_Spec nar' ->
     ObservedConfigTransactionId stored <> ConfigTransactionId (nar_Spec stored) ->
     log (createOrUpdateNodeAllocationRequest env2 rendered t2).1 = (log t2 ++ [Ev (object t2) GetNAR])%list).
Proof.
  intros Ha. cbv zeta. rewrite (update_log env rendered nar t Ha). unfold update_calls.
  pose proof (patch_of_cases rendered nar) as [Hdiff Hsame]. split_and!.
  - intros Hd. rewrite (Hdiff Hd). split; [done|]. intros env0 ci t0 t1 Hb. apply (built_transaction _ _ _ _ _ Hb).
  - intros Hs. rewrite (Hsame Hs). by destruct (allocation_short nar).
  - intros nar' env2 stored t2 Hl Ha2 Hst Ho. apply app_inv_head in Hl.
    destruct (patch_of rendered nar) as [nar1|] eqn:Ep; [|done].
    apply (f_equal (omap patched)) in Hl. simpl in Hl. injection Hl as <-.
    rewrite (update_log env2 _ _ _ Ha2). unfold update_calls. rewrite patch_of_settled; [done| |done].
    pose proof (patch_of_spec _ _ _ Ep) as Hs. unfold wanted in *. by rewrite Hst.
Qed.

(** ** What the code does not do *)

(** The base of the patch that asks for a drain is a copy made after the annotation was
    put in the same map: of a request with annotations, the patch changes nothing. *)
Lemma drain_patch_empty nodes nar m :
  nar_Annotations nar = Some m -> (drain_patch nodes nar).1 = (drain_patch nodes nar).2.
Proof. intros E. unfold drain_patch. by rewrite E. Qed.

(** ** Examples *)

Module Stored.
Definition spec (profile : string) (transaction : Z) : NodeAllocationRequestSpec :=
  mkNARSpec "cluster1" "site" [mkGroup "controller" "master" profile "" ∅ 1] transaction 0 false false.
Definition provisioned : Condition := mkCondition "Provisioned" ConditionTrue "Completed" "" 0 0.
Definition configured : Condition := mkCondition "Configured" ConditionTrue "Completed" "" 0 0.

(** A request whose transaction was observed, with its allocated nodes. *)
Definition nar (profile : string) (transaction : Z) (nodes : list string) : NodeAllocationRequest :=
  mkNAR (spec profile transaction) None false [provisioned; configured] transaction nodes.

Definition env (nar : NodeAllocationRequest) : Env :=
  mkEnv (fun A c _ => match c with GetNAR => inr nar | _ => inl (Errorf "lost") end)
    (fun _ => 0) (fun _ => None) (fun _ => true) "operator".
Definition start : task :=
  mkTask (mkPR "pr" "" "t" "v1" 2 0 false true false [] StateNone "" None None None ∅ [] [])
    (mkInput (VMap []) [] ∅) "" (mkTimeouts 0 0 0 0) [].
(** The patch after an edit of the profile. *)
Definition edited : NodeAllocationRequest := with_nar_spec (spec "new" 2) (nar "old" 1 ["node1"]).
End Stored.

Lemma hardware_patched_once_witness :
  log (createOrUpdateNodeAllocationRequest (Stored.env (Stored.nar "old" 1 ["node1"])) (Stored.nar "new" 2 []) Stored.start).1
    = [Ev (object Stored.start) GetNAR; Ev (object Stored.start) (PatchNAR (Stored.nar "old" 1 ["node1"]) Stored.edited)] /\
  log (createOrUpdateNodeAllocationRequest (Stored.env Stored.edited) (Stored.nar "new" 2 []) Stored.start).1
    = [Ev (object Stored.start) GetNAR].
Proof.
  destruct (hardware_patched_once (Stored.env (Stored.nar "old" 1 ["node1"])) (Stored.nar "new" 2 [])
              (Stored.nar "old" 1 ["node1"]) Stored.start) as (Hdiff & _ & Hsettled); [reflexivity|].
  assert (~ same_but_transaction (nar_Spec (Stored.nar "old" 1 ["node1"])) (Stored.spec "new" 2)) as Hd by discriminate.
  destruct (Hdiff Hd) as [Hpatch _]. split; [exact Hpatch|].
  by apply (Hsettled _ (Stored.env Stored.edited) Stored.edited Stored.start Hpatch).
Defined.

(** The transaction of an update is the generation of the ProvisioningRequest, but a
    reallocation takes the next number.  A node is missing in generation 1, so the
    transaction becomes 2 and is observed; the edit that makes generation 2 keeps that
    transaction, and the condition [Configured] of before is taken for that of the edit. *)
Lemma transaction_reused :
  exists bumped edited,
    patch_of (Stored.nar "old" 1 []) (Stored.nar "old" 1 []) = Some bumped /\ nar_Spec bumped = Stored.spec "old" 2 /\
    patch_of (Stored.nar "new" 2 []) (Stored.nar "old" 2 ["node1"]) = Some edited /\
    nar_Spec edited = Stored.spec "new" 2 /\ stale edited = false.
Proof. do 2 eexists. by split_and!; vm_compute. Qed.
