(* ===== verification/ProvisioningRequest.v ===== *)
(** * The reconciler of ProvisioningRequests
      (controllers/provisioningrequest_controller.go)

    One reconcile: validation and rendering, hardware, installation, policies and
    upgrades, and the end.  Seed generation and upgrades are other components; what the
    reconciler uses of them is the class [Subsystems] (the upgrades are filled in by
    Upgrade).  A [Result] returned with an
    error is ignored by controller-runtime and is left out. *)
From S2P Require Import Prelude Conditions GoText Unstructured Handler ProvisioningStatus MergeMaps ProvisioningTask ProvisioningPolicy NodeConfiguration ProvisioningHardware ProvisioningValidation ProvisioningCluster.
#[local] Open Scope string_scope.
#[local] Open Scope Z_scope.

Class Subsystems := {
  (** provisioningrequest_seedgeneration.go *)
  reconcileSeedGeneration : prog Result;
  cleanupSeedGenerationPreflightResources : prog bool;
  startOrResumeSeedGeneration : ClusterTemplate -> prog Result;
  cleanupSeedGenerationResources : prog bool;
  (** provisioningrequest_upgrade.go *)
  IsUpgradeRequested : string -> ClusterTemplate -> prog (bool * Result);
  handleUpgrade : string -> ClusterTemplate -> prog (Result * bool);
  cleanupStaleUpgradeState : string -> prog unit;
}.

Section reconciler.
Context `{Subsystems} (env : Env).

(** ** Finalization *)

Definition updateOCloudNodeClusterId : prog unit :=
  d ← get_details;
  r ← wrapped "failed to check if managed cluster exists"
        (DoesK8SResourceExist env (cd_Name d) "" (GetManagedCluster (cd_Name d)));
  match r with
  | Some mc => match mc_clusterID mc with Some id => modify_object (with_cluster_id id) | None => mret tt end
  | None => mret tt
  end.

(** All that was asked for is there. *)
Definition is_complete (o : ProvisioningRequest) : bool :=
  IsClusterProvisionCompleted o && IsClusterConfigCompleted o && IsHardwareConfigCompleted o
  && (negb (IsClusterUpgradeInitiated o) || IsClusterUpgradeCompleted o).

(** The count of the nodes of the rendered or else of the existing ClusterInstance. *)
Definition record_node_count (rendered : option ClusterInstance) : prog unit :=
  o ← get_object;
  match Cluster o with
  | None => mret tt
  | Some d =>
      match rendered with
      | Some ci => modify_details (with_count (node_count (ci_Spec ci)))
      | None =>
          if decide (cd_Name d = "") then mret tt
          else
            r ← try (getExistingClusterInstance env);
            match r with
            | inr ci => modify_details (with_count (node_count (ci_Spec ci)))
            | inl _ => mret tt
            end
      end
  end.

Definition finalizeProvisioningIfComplete (rendered : option ClusterInstance) : prog unit :=
  o ← get_object;
  when (is_complete o) (
    _ ← record_node_count rendered;
    _ ← set_phase env SetProvisioningStateFulfilled;
    _ ← updateOCloudNodeClusterId;
    _ ← update_status env;
    _ ← trigger env (RunSource "addPostProvisioningLabels");
    _ ← wrapped "failed to set clusterProvisioned on NAR" (setNARClusterProvisioned env);
    _ ← try (trigger env (RunSource "cleanupScaleOutSpokeAccess"));
    wrapped "failed to sync skipCleanup on NAR" (syncNARSkipCleanup env)).

(** ** Pre-provisioning *)

(** The condition and the phase after a step: [what] failed with an error, or
    succeeded. *)
Definition report (conditionType what success : string) (r : error + unit) : prog unit :=
  match r with
  | inl e =>
      let message := what ++ ": " ++ Error e in
      _ ← set_condition env conditionType CRconditionReasons.Failed ConditionFalse message;
      set_failed env message
  | inr _ => set_condition env conditionType CRconditionReasons.Completed ConditionTrue success
  end.

Definition rethrow {A} (r : error + A) : prog A := match r with inl e => raise e | inr a => mret a end.

(** [_ = sum.map] *)
Definition done {A} (r : error + A) : error + unit := match r with inl e => inl e | inr _ => inr tt end.

Definition handleValidation : prog unit :=
  r ← try (validateProvisioningRequestCR env);
  _ ← match r with
      | inl e =>
          if isSeedGenerationTransientError e then
            set_condition env PRconditionTypes.Validated CRconditionReasons.InProgress ConditionUnknown
              ("Failed to validate the ProvisioningRequest: " ++ Error e)
          else
            report PRconditionTypes.Validated "Failed to validate the ProvisioningRequest" "" (inl e)
      | inr _ => report PRconditionTypes.Validated "" "The provisioning request validation succeeded" (inr tt)
      end;
  _ ← update_status env;
  rethrow r.

(** The existing ClusterInstance, while its installation goes on. *)
Definition canSkipClusterInstanceRendering : prog (option ClusterInstance) :=
  o ← get_object;
  if negb (condition_is o PRconditionTypes.ClusterInstanceRendered is_true) then mret None
  else
    match Cluster o with
    | None => mret None
    | Some _ =>
        if IsClusterProvisionCompleted o then mret None
        else
          r ← try (getExistingClusterInstance env);
          match r with inr ci => mret (Some ci) | inl _ => mret None end
    end.

Definition handleRenderClusterInstance : prog ClusterInstance :=
  existing ← canSkipClusterInstanceRendering;
  match existing with
  | Some ci => mret ci
  | None =>
      r ← try (trigger env RenderClusterInstance);
      _ ← report PRconditionTypes.ClusterInstanceRendered "Failed to render and validate ClusterInstance"
            "ClusterInstance rendered and passed dry-run validation" (done r);
      _ ← update_status env;
      wrapped "failed to handle ClusterInstance rendering and validation" (rethrow r)
  end.

Definition handleClusterResources : prog unit :=
  r ← try (trigger env (RunSource "createOrUpdateClusterResources"));
  _ ← report PRconditionTypes.ClusterResourcesCreated "Failed to apply the required cluster resource"
        "Cluster resources applied" r;
  _ ← update_status env;
  rethrow r.

Definition renderNodeAllocationRequest (ci : ClusterInstance) : prog NodeAllocationRequest :=
  r ← try (buildNodeAllocationRequest env ci);
  _ ← report PRconditionTypes.NodeAllocationRequestRendered "Failed to build the NodeAllocationRequest"
        "Built NodeAllocationRequest successfully" (done r);
  _ ← update_status env;
  rethrow r.

(** ** Monitoring, when a step failed on its input *)

Definition handleFulfilledStateMonitoring : prog Result :=
  _ ← checkProvisioningConditionsForFailures env;
  _ ← wrapped "failed to sync skipCleanup on NAR" (syncNARSkipCleanup env);
  mret requeueWithLongInterval.

(** A persistent validation failure of the ClusterInstance. *)
Definition required_value_missing (o : ProvisioningRequest) : bool :=
  bool_decide (Phase o = StateFailed) &&
  condition_is o PRconditionTypes.ClusterInstanceRendered (fun c =>
    bool_decide (cond_Status c = ConditionFalse) && Contains (cond_Message c) "Required value").

(** The end of [checkClusterDeployConfigState], from the policies on. *)
Definition monitor_configuration : prog Result :=
  requeueForConfig ← handleClusterPolicyConfiguration env;
  o ← get_object;
  if negb (IsClusterProvisionCompleted o) || requeueForConfig then mret requeueWithLongInterval
  else
    _ ← finalizeProvisioningIfComplete None;
    o ← get_object;
    if IsProvisioningStateFulfilled o then handleFulfilledStateMonitoring else mret doNotRequeue.

(** The part on the cluster, once the hardware is provisioned or not asked for. *)
Definition monitor_cluster : prog Result :=
  timeoutDetected ← checkClusterInstallationTimeout env;
  if (timeoutDetected : bool) then mret requeueWithMediumInterval
  else
    _ ← checkProvisioningConditionsForFailures env;
    o ← get_object;
    if required_value_missing o then mret doNotRequeue
    else
      _ ← match Cluster o with
          | Some d => _ ← try (checkClusterProvisionStatus env (cd_Name d)); mret tt
          | None => mret tt
          end;
      o ← get_object;
      if (negb (IsClusterProvisionPresent o) || IsClusterProvisionTimedOutOrFailed o)
         && negb (IsProvisioningStateFulfilled o)
      then mret requeueWithLongInterval
      else monitor_configuration.

(** The hardware is not there: the result to return. *)
Definition monitor_hardware : prog (option Result) :=
  nar ← wrapped "failed to get NodeAllocationRequest" (find_NAR env);
  match nar with
  | None => mret None
  | Some nar =>
      '(provisioned, timedOutOrFailed) ← checkNodeAllocationRequestStatus env nar Provisioned;
      mret (if timedOutOrFailed || negb provisioned then Some requeueWithMediumInterval else None)
  end.

Definition checkClusterDeployConfigState : prog Result :=
  waiting ← monitor_hardware;
  match waiting with
  | Some r => mret r
  | None =>
      o ← get_object;
      match Cluster o with
      | Some _ => monitor_cluster
      | None =>
          _ ← checkProvisioningConditionsForFailures env;
          o ← get_object;
          if negb (IsProvisioningStateFulfilled o) then mret requeueWithMediumInterval else monitor_cluster
      end
  end.

(** ** Phases *)

(** An input error leads to monitoring, another one is retried. *)
Definition or_monitor {A} (m : prog A) (onInput : Result -> Result) (next : A -> prog (option ClusterInstance * Result))
    : prog (option ClusterInstance * Result) :=
  r ← try m;
  match r with
  | inr a => next a
  | inl e =>
      if IsInputError e then res ← checkClusterDeployConfigState; mret (None, onInput res) else raise e
  end.

Definition handlePreProvisioning : prog (option ClusterInstance * Result) :=
  o ← get_object;
  _ ← when (negb (ObservedGeneration o =? Generation o)) (
        _ ← set_phase env (fun t => SetProvisioningStatePending t "Validating and preparing resources");
        update_status env);
  or_monitor handleValidation id (fun _ =>
  or_monitor handleRenderClusterInstance id (fun rendered =>
  or_monitor handleClusterResources (fun _ => requeueWithMediumInterval) (fun _ =>
  mret (Some rendered, doNotRequeue)))).

(** Whether to proceed, and the ClusterInstance with the details of its hardware. *)
Definition handleNodeAllocationRequestProvisioning (ci : ClusterInstance) : prog (Result * option ClusterInstance) :=
  r ← try (renderNodeAllocationRequest ci);
  match r with
  | inl e => if IsInputError e then mret (doNotRequeue, None) else raise e
  | inr rendered =>
      _ ← createOrUpdateNodeAllocationRequest env rendered;
      o ← get_object;
      if decide (Name o = "") then raise (Errorf "missing nodeAllocationRequest identifier")
      else
        nar ← wrapped "failed to get NodeAllocationRequest" (find_NAR env);
        match nar with
        | None => mret (requeueWithShortInterval, None)
        | Some nar =>
            '(provisioned, configured, timedOutOrFailed, ci) ← waitForHardwareData env ci nar;
            if (timedOutOrFailed : bool) then mret (requeueWithMediumInterval, None)
            else if negb provisioned then mret (requeueWithMediumInterval, None)
            else if bool_decide (configured = Some false) then mret (requeueWithMediumInterval, None)
            else mret (doNotRequeue, Some ci)
        end
  end.

Definition executeClusterInstallationPhase (ci : ClusterInstance) : prog Result :=
  _ ← handleClusterInstallation env ci;
  o ← get_object;
  if negb (IsClusterProvisionPresent o) then mret requeueWithShortInterval
  else if IsClusterProvisionTimedOutOrFailed o then mret requeueWithLongInterval
  else mret doNotRequeue.

Definition executeProvisioningPhases : prog (option ClusterInstance * Result) :=
  '(rendered, result) ← handlePreProvisioning;
  match rendered with
  | None => mret (None, result)
  | Some rendered =>
      scaleInActive ← handleScaleInDrain env rendered;
      if (scaleInActive : bool) then mret (None, requeueWithMediumInterval)
      else
        '(result, ci) ← handleNodeAllocationRequestProvisioning rendered;
        match ci with
        | None => mret (None, result)
        | Some ci =>
            result ← executeClusterInstallationPhase ci;
            if requeues result then mret (None, result) else mret (Some ci, doNotRequeue)
        end
  end.

(** ** Upgrades and the rest *)

Definition IsSeedGenerationRequested : prog (bool * option ClusterTemplate) :=
  o ← get_object;
  if negb (IsClusterZtpDone o) then mret (false, None)
  else
    ct ← wrapped "failed to get ClusterTemplate for seed generation" (GetClusterTemplateRef env);
    if ct_Deleting ct then
      raise (Errorf ("cluster template " ++ ct_Namespace ct ++ "/" ++ ct_Name ct ++ " is being deleted"))
    else
      requested ← wrapped "failed to inspect seed generation configuration"
                    (trigger env (AskSource "HasSeedGenerationConfig"));
      mret (requested, Some ct).

(** A scale operation is going on: upgrades wait. *)
Definition scaling : prog bool :=
  o ← get_object;
  match Cluster o with
  | None => mret false
  | Some d =>
      if FulfilledNodeCount d <=? 0 then mret false
      else if negb (IsClusterProvisionCompleted o) then mret true
      else
        ci ← wrapped "failed to get existing ClusterInstance for upgrade check" (getExistingClusterInstance env);
        mret (negb (node_count (ci_Spec ci) =? FulfilledNodeCount d))
  end.

Definition handleClusterUpgrades (clusterName : string) (ct : ClusterTemplate) : prog Result :=
  busy ← scaling;
  if (busy : bool) then mret requeueWithMediumInterval
  else
    '(shouldUpgrade, result) ← IsUpgradeRequested clusterName ct;
    if 0 <? RequeueAfter result then mret result
    else
      o ← get_object;
      '(result, proceed) ←
        (if shouldUpgrade || (IsClusterUpgradeInitiated o && negb (IsClusterUpgradeCompleted o)
                              && negb (IsClusterUpgradeInTerminalFailure o))
         then handleUpgrade clusterName ct else mret (doNotRequeue, true));
      if (0 <? RequeueAfter result) || negb proceed then mret result
      else
        o ← get_object;
        _ ← when (negb shouldUpgrade && IsClusterUpgradeInTerminalFailure o) (cleanupStaleUpgradeState clusterName);
        mret doNotRequeue.

(** The last part: requeue while something goes on, or finalize. *)
Definition finish (ci : ClusterInstance) (requeueForConfig : bool) : prog Result :=
  o ← get_object;
  if negb (IsClusterProvisionCompleted o) || requeueForConfig then
    let fulfilled := match Cluster o with Some d => FulfilledNodeCount d | None => 0 end in
    mret (if (0 <? fulfilled) && (fulfilled <? node_count (ci_Spec ci))
          then requeueWithMediumInterval else requeueWithLongInterval)
  else _ ← finalizeProvisioningIfComplete (Some ci); mret doNotRequeue.

Definition handlePostProvisioning (ci : ClusterInstance) : prog Result :=
  requeueForConfig ← handleClusterPolicyConfiguration env;
  o ← get_object;
  if IsClusterZtpDone o then
    '(seedRequested, ct) ← IsSeedGenerationRequested;
    match ct with
    | None => finish ci requeueForConfig
    | Some ct =>
        if (seedRequested : bool) then startOrResumeSeedGeneration ct
        else
          result ← handleClusterUpgrades (ci_Name ci) ct;
          if requeues result then mret result else finish ci requeueForConfig
    end
  else finish ci requeueForConfig.

(** ** One reconcile *)

(** The clean-up after a failed seed generation: [Some] when it is all that is done. *)
Definition reconcileSeedGenerationFailureCleanup : prog (option Result) :=
  o ← get_object;
  if negb (seedGenerationFailureNeedsCleanup o) then mret None
  else
    pending ← wrapped "failed to clean up seed generation preflight resources" cleanupSeedGenerationPreflightResources;
    mret (if (pending : bool) then Some requeueWithShortInterval else None).

Definition run : prog Result :=
  o ← get_object;
  if seedGenerationNeedsFastPath o then reconcileSeedGeneration
  else
    handled ← reconcileSeedGenerationFailureCleanup;
    match handled with
    | Some result => mret result
    | None =>
        o ← get_object;
        if shouldStopReconciliation o then mret doNotRequeue
        else
          r ← try executeProvisioningPhases;
          match r with
          | inr (Some ci, _) => handlePostProvisioning ci
          | _ =>
              timeoutResult ← checkOverallProvisioningTimeout env;
              if 0 <? RequeueAfter timeoutResult then mret timeoutResult
              else result ← rethrow r; mret result.2
          end
    end.

(** ** Deletion *)

(** Force-detach, when the spoke will be powered off.  Whether to go on. *)
Definition detach_cluster (o : ProvisioningRequest) : prog bool :=
  match Cluster o with
  | Some d =>
      if SkipCleanup o then mret true
      else
        r ← try (trigger env (GetManagedCluster (cd_Name d)));
        match r with
        | inl e =>
            if IsNotFound e then mret true
            else raise (wrap ("failed to get ManagedCluster " ++ cd_Name d) e)
        | inr mc =>
            if HubAcceptsClient mc then
              r ← try (trigger env (PatchManagedCluster (cd_Name d)
                         (mkManaged (mc_Conditions mc) (mc_clusterID mc) (mc_openshiftVersion mc) (mc_DisableAutoImport mc) false)));
              mret match r with inr _ => true | inl _ => false end
            else mret true
        end
  | None => mret true
  end.

(** Whether the NodeAllocationRequest is gone. *)
Definition delete_NAR : prog bool :=
  nar ← wrapped "failed to get NodeAllocationRequest" (find_NAR env);
  match nar with
  | None => mret true
  | Some nar =>
      _ ← when (negb (nar_Deleting nar)) (wrapped "failed to delete NodeAllocationRequest" (trigger env DeleteNAR));
      mret false
  end.

(** Whether the ClusterInstance is gone. *)
Definition delete_ClusterInstance (o : ProvisioningRequest) : prog bool :=
  match Cluster o with
  | None => mret true
  | Some d =>
      r ← try (trigger env (ClusterInstanceDeleting (cd_Name d)));
      match r with
      | inl e =>
          if IsNotFound e then mret true
          else raise (wrap ("failed to get ClusterInstance " ++ cd_Name d) e)
      | inr deleting =>
          _ ← when (negb deleting)
                (wrapped ("failed to delete ClusterInstance " ++ cd_Name d)
                   (trigger env (DeleteClusterInstance (cd_Name d))));
          mret false
      end
  end.

Definition delete_namespace (ns : string * bool) : prog unit :=
  _ ← try (trigger env (RunSource "handleObservabilityAddonCleanup"));
  when (negb ns.2) (
    r ← try (trigger env (DeleteNamespace ns.1));
    match r with
    | inl e => if IsNotFound e then mret tt else raise (wrap "failed to delete namespace" e)
    | inr _ => mret tt
    end).

(** Whether all the dependents are gone. *)
Definition handleProvisioningRequestDeletion : prog bool :=
  o ← get_object;
  _ ← when (negb (bool_decide (Phase o = StateDeleting))) (
        _ ← set_phase env SetProvisioningStateDeleting; update_status env);
  seedCleaned ← cleanupSeedGenerationResources;
  if negb seedCleaned then mret false
  else
    o ← get_object;
    detached ← detach_cluster o;
    if negb detached then mret false
    else
      gone ← delete_NAR;
      if negb gone then mret false
      else
        gone ← delete_ClusterInstance o;
        if negb gone then mret false
        else
          namespaces ← wrapped "failed to list namespaces" (trigger env ListNamespaces);
          _ ← for_each namespaces delete_namespace;
          mret (bool_decide (namespaces = [])).

(** [None]: reconcile the request. *)
Definition handleFinalizer : prog (option Result) :=
  o ← get_object;
  if negb (BeingDeleted o) then
    if HasFinalizer o then mret None
    else
      _ ← modify_object (with_finalizer true);
      o ← get_object;
      _ ← wrapped "failed to update ProvisioningRequest with finalizer" (trigger env (UpdateRequest o));
      mret (Some requeueImmediately)
  else if HasFinalizer o then
    complete ← handleProvisioningRequestDeletion;
    if negb complete then mret (Some requeueWithShortInterval)
    else
      _ ← modify_object (with_finalizer false);
      o ← get_object;
      _ ← wrapped "failed to patch ProvisioningRequest" (trigger env (PatchRequest o));
      mret (Some doNotRequeue)
  else mret None.

(** [Reconcile] of a request that was read. *)
Definition Reconcile : prog Result :=
  handled ← handleFinalizer;
  match handled with
  | Some result => mret result
  | None => run
  end.
End reconciler.

(** The task of a reconcile: nothing is loaded yet. *)
Definition new_task (o : ProvisioningRequest) : task :=
  mkTask o (mkInput (VMap []) [] ∅) "" (mkTimeouts 0 0 0 0) [].
