(* ===== verification/Upgrade.v ===== *)
(** * Upgrades of a provisioned cluster (controllers/provisioningrequest_upgrade.go)

    An upgrade is asked for by a template of a higher release.  It goes through the
    ClusterVersion of the spoke cluster, whose history says what comes next, or through
    an ImageBasedGroupUpgrade of the hub. *)
From S2P Require Import Prelude Conditions GoText MergeMaps Unstructured Handler ProvisioningStatus UpgradePlan UpgradeGraph ProvisioningTask UpgradeConfig UpgradeRollout ProvisioningPolicy NodeConfiguration ProvisioningHardware ProvisioningValidation ProvisioningCluster ProvisioningRequest.
#[local] Open Scope string_scope.
#[local] Open Scope Z_scope.

(** net/url: whether a URL is an absolute one of HTTP or HTTPS; [None] when it does not
    parse. *)
Class Urls := { absolute_http : string -> option bool }.

Section upgrade.
Context `{Semver} `{Urls} (env : Env).

Definition IsUpgradeRequested (managedClusterName : string) (template : ClusterTemplate) : prog (bool * Result) :=
  if decide (Release template = "") then mret (false, doNotRequeue)
  else
    match NewVersion (Release template) with
    | None => raise (Errorf ("failed to parse ClusterTemplate release version " ++ Release template))
    | Some templateVersion =>
        mc ← wrapped "failed to get ManagedCluster" (trigger env (GetManagedCluster managedClusterName));
        match mc_openshiftVersion mc with
        | None => mret (false, mkResult false (30 * Second))
        | Some openshiftVersion =>
            match NewVersion openshiftVersion with
            | None => raise (Errorf ("failed to parse ManagedCluster version " ++ openshiftVersion))
            | Some clusterVersion =>
                mret (match Compare templateVersion clusterVersion with Gt => true | _ => false end, doNotRequeue)
            end
        end
    end.

(** [ctrl.Result{}, false, nil] *)
Definition stop : Result * bool := (doNotRequeue, false).

Definition precondition_failed (message : string) : prog unit :=
  updateUpgradeStatus env CRconditionReasons.PreconditionChecksFailed message.

(** ** Before the upgrade of the control plane *)

Definition getClusterArchitecture (cv : ClusterVersion) : prog string :=
  let explicit := match DesiredUpdate (cv_Spec cv) with Some u => u_Architecture u | None => "" end in
  if decide (explicit <> "") then mret (ToLower explicit)
  else
    ci ← wrapped "failed to read ClusterInstance for architecture" (getExistingClusterInstance env);
    let cpu := match ci_Spec ci with VMap m => string_or_empty "cpuArchitecture" m | _ => "" end in
    mret (if decide (cpu = "aarch64") then "arm64" else if decide (cpu = "multi") then "multi" else "amd64").

Definition resolveEUSIntermediateVersion (startVersion targetVersion : string) (cv : ClusterVersion)
    (cvSpec : ClusterVersionSpec) : prog string :=
  if decide (Channel cvSpec = "") then
    raise (InputError "channel is required to auto-select intermediateVersion for EUS-to-EUS upgrades")
  else
    let upstream := if decide (Upstream cvSpec = "")
                    then "https://api.openshift.com/api/upgrades_info/v1/graph" else Upstream cvSpec in
    match absolute_http upstream with
    | None => raise (InputError ("invalid upstream URL " ++ upstream))
    | Some false => raise (InputError ("invalid upstream URL " ++ upstream ++ ": must be an absolute HTTP or HTTPS URL"))
    | Some true =>
        arch ← wrapped "failed to determine cluster architecture" (getClusterArchitecture cv);
        g ← wrapped "unable to auto-select intermediateVersion" (trigger env (GetGraph upstream (Channel cvSpec) arch));
        match findBestIntermediateVersion (Some g) startVersion targetVersion with
        | inl e => raise (wrap "unable to auto-select intermediateVersion" (InputError e))
        | inr selected => mret selected
        end
    end.

Definition raise_input {A} (r : string + A) : prog A :=
  match r with inl e => raise (InputError e) | inr a => mret a end.
Definition check_input (r : option string) : prog unit :=
  match r with Some e => raise (InputError e) | None => mret tt end.

Definition no_update : Update := mkDesired "" "" false "".
Definition desired (cvSpec : ClusterVersionSpec) : Update := default no_update (DesiredUpdate cvSpec).
Definition with_desired (u : Update) (s : ClusterVersionSpec) : ClusterVersionSpec :=
  mkCVSpec (Channel s) (Upstream s) (Some u).

(** The first part of [prepareCVSpec]: the spec with the version of this step, the plan,
    and whether it is the intermediate step of an EUS upgrade.  On the first visit both
    versions are empty, which makes it that step. *)
Definition resolve_step (ct : ClusterTemplate) (cv : ClusterVersion) (action : CVUpgradeAction)
    : prog (ClusterVersionSpec * WorkerPoolPlan * bool) :=
  u ← get_upgrade;
  r ← try (trigger env MergeUpgradeData);
  merged ← raise_input match r with inl e => inl (Error e) | inr m => inr m end;
  cvConfig ← raise_input match assoc_lookup "clusterVersion" merged with
                         | None => inl "key clusterVersion not found in merged upgrade data"
                         | Some (VMap m) => inr m
                         | Some _ => inl "clusterVersion must be an object"
                         end;
  plan ← raise_input (extractWorkerPoolUpgrade cvConfig (IsEUS action));
  _ ← check_input (ValidateWorkerPoolUpgrade (IsEUS action) plan);
  cvSpec ← match assoc_lookup "cvSpec" cvConfig with
           | None => mret (mkCVSpec "" "" None)
           | Some raw =>
               r ← try (trigger env (DecodeCVSpec raw));
               raise_input match r with
                           | inl e => inl ("invalid clusterVersion.cvSpec format: " ++ Error e)
                           | inr s => inr s
                           end
           end;
  let d := desired cvSpec in
  if negb (bool_decide (u_Version d = "")) && negb (bool_decide (u_Version d = Release ct)) then
    raise (InputError "the clusterVersion.cvSpec.desiredUpdate.version does not match the ClusterTemplate spec.release")
  else if IsEUSIntermediate action (IntermediateVersion u) then
    version ←
      (let configured := string_or_empty "intermediateVersion" cvConfig in
       if decide (configured <> "") then
         _ ← wrapped "failed to validate clusterVersion.intermediateVersion"
               (check_input (ValidateEUSIntermediate configured (Release ct)));
         mret configured
       else resolveEUSIntermediateVersion (StartVersion u) (Release ct) cv cvSpec);
    mret (with_desired (mkDesired version "" (u_Force d) (u_Architecture d)) cvSpec, plan, true)
  else
    mret (with_desired (mkDesired (UpgradeToVersion action) (u_Image d) (u_Force d) (u_Architecture d)) cvSpec, plan, false).

(** The stages of a plan: those up to the authorized one are pending. *)
Definition plan_status (plan : WorkerPoolPlan) (managed : bool) : WorkerPoolUpgradeStatus :=
  let stages := map (fun s => mkStage (ps_Name s) (ps_Pools s) "" None None) (plan_Stages plan) in
  let w := mkWorkerPools (plan_Strategy plan) (plan_PoolsWithControlPlane plan) stages (plan_UpgradeThrough plan) managed in
  let authorized := StageIndex (Some w) (plan_UpgradeThrough plan) in
  with_stages (imap (fun i st => with_state (if Z.of_nat i <=? authorized then "Pending" else "AwaitingAuthorization") st)
                 stages) w.

(** The last part: the plan and the intermediate version are stored. *)
Definition record_plan (before : ProvisioningRequest) (cvSpec : ClusterVersionSpec) (plan : WorkerPoolPlan) (hop : bool)
    : prog unit :=
  let version := u_Version (desired cvSpec) in
  match NewVersion version with
  | None => raise (InputError ("invalid target version " ++ version))
  | Some _ =>
      u ← get_upgrade;
      let managed := match WorkerPoolUpgrade u with Some w => PauseStateManaged w | None => false end in
      _ ← modify_upgrade (with_workers (Some (plan_status plan managed)));
      _ ← when hop (modify_upgrade (with_intermediate version));
      o ← get_object;
      if decide (Cluster o = Cluster before) then mret tt
      else wrapped "failed to persist cluster upgrade configuration status" (UpdateK8sCRStatus env)
  end.

(** The action comes back with the version of the step, also when the last part fails. *)
Definition prepareCVSpec (ct : ClusterTemplate) (cv : ClusterVersion) (action : CVUpgradeAction)
    : prog (CVUpgradeAction * (error + ClusterVersionSpec)) :=
  before ← get_object;
  r ← try (resolve_step ct cv action);
  match r with
  | inl e => mret (action, inl e)
  | inr (cvSpec, plan, hop) =>
      r ← try (record_plan before cvSpec plan hop);
      mret (mkAction (u_Version (desired cvSpec)) (ActionPhase action) (IsEUS action),
            match r with inl e => inl e | inr _ => inr cvSpec end)
  end.

(** Worker pools that the controller paused are released, but not when the second step of
    an EUS upgrade fails. *)
Definition handleTerminalCVPreStartFailure (action : CVUpgradeAction) (message : string) : prog unit :=
  u ← get_upgrade;
  let managed := match WorkerPoolUpgrade u with Some w => PauseStateManaged w | None => false end in
  _ ← when (managed && (negb (IsEUS action) || IsEUSIntermediate action (IntermediateVersion u))) (
        _ ← unpauseNonMasterMCPs env; modify_workers (with_managed false));
  precondition_failed message.

Definition live_plan (w : WorkerPoolUpgradeStatus) : WorkerPoolPlan :=
  mkPlan (Strategy w) (PoolsWithControlPlane w)
    (map (fun s => mkPlanStage (stage_Name s) (stage_Pools s)) (Stages w)) (UpgradeThrough w).

Definition validateMCPsPreconditions (action : CVUpgradeAction) (upgradeTriggered : bool) : prog unit :=
  mcps ← wrapped "failed to list MCPs" (list_mcps env);
  w ← get_workers;
  let nonMaster := filter (fun p => is_worker p = true) mcps in
  _ ← check_input (ValidateWorkerPoolUpgradeMCPs nonMaster (live_plan w));
  u ← get_upgrade;
  if (negb (IsEUS action) || IsEUSIntermediate action (IntermediateVersion u)) && negb upgradeTriggered
     && negb (PauseStateManaged w) then
    match GetPausedMCPs mcps with
    | [] =>
        if decide (Strategy w = OpenShiftDefault) then mret tt
        else match GetNonUpdatedMCPs nonMaster with
             | [] => mret tt
             | l => raise (InputError ("MachineConfigPools not updated: " ++ sprint_strings l))
             end
    | l => raise (InputError ("MachineConfigPools are paused: " ++ sprint_strings l))
    end
  else mret tt.

(** The pause state is claimed before the first pool is paused. *)
Definition claim_pause_state (managed : bool) : prog unit :=
  _ ← modify_workers (with_managed managed);
  wrapped "failed to persist worker MachineConfigPool pause-state ownership" (UpdateK8sCRStatus env).

Definition prepareWorkerMCPsForUpgrade (action : CVUpgradeAction) : prog unit :=
  w ← get_workers;
  if decide (Strategy w = OpenShiftDefault) then
    when (PauseStateManaged w) (_ ← unpauseNonMasterMCPs env; claim_pause_state false)
  else
    _ ← when (negb (PauseStateManaged w)) (claim_pause_state true);
    nonMaster ← wrapped "failed to list MCPs" (ListNonMasterMCPs env);
    let toPause := if IsEUS action then nonMaster else ExcludeMCPsByNames nonMaster (PoolsWithControlPlane w) in
    let toUnpause := if IsEUS action then [] else FilterMCPsByNames nonMaster (PoolsWithControlPlane w) in
    _ ← wrapped "failed to pause MCPs" (PauseMCPs env toPause);
    _ ← wrapped "failed to unpause MCPs" (UnpauseMCPs env toUnpause);
    mret tt.

(** Whether a patch was made. *)
Definition PatchCVChannelUpstream (cv : ClusterVersion) (cvSpec : ClusterVersionSpec) : prog bool :=
  let old := cv_Spec cv in
  let channel := if decide (Channel cvSpec = "") then Channel old else Channel cvSpec in
  if decide (channel = Channel old /\ Upstream cvSpec = Upstream old) then mret false
  else
    let patched := mkCV (cv_Generation cv) (mkCVSpec channel (Upstream cvSpec) (DesiredUpdate old))
                     (cv_ObservedGeneration cv) (History cv) (AvailableUpdates cv) (cv_Conditions cv) in
    _ ← wrapped "failed to patch ClusterVersion channel/upstream" (trigger env (PatchClusterVersion cv patched));
    mret true.

Definition TriggerCVUpgrade (cv : ClusterVersion) (desiredUpdate : Update) : prog bool :=
  if IsCVUpgradeTriggered cv (Some desiredUpdate) then mret false
  else
    let patched := mkCV (cv_Generation cv) (with_desired desiredUpdate (cv_Spec cv)) (cv_ObservedGeneration cv)
                     (History cv) (AvailableUpdates cv) (cv_Conditions cv) in
    _ ← wrapped "failed to patch ClusterVersion desiredUpdate" (trigger env (PatchClusterVersion cv patched));
    mret true.

(** A condition that has a status, with its message. *)
Definition cv_message (cv : ClusterVersion) (condType : string) (test : Condition -> bool) : option string :=
  match GetCVCondition (Some cv) condType with
  | Some c => if test c then Some (cond_Message c) else None
  | None => None
  end.

Definition is_rejected (e : error) : bool :=
  bool_decide (kind e = Invalid) || bool_decide (kind e = BadRequest) || bool_decide (kind e = Forbidden).

(** [None]: the preconditions hold. *)
Definition checkCVGraphPreconditions (cv : ClusterVersion) (cvSpec : ClusterVersionSpec) (action : CVUpgradeAction)
    : prog (option Result) :=
  r ← try (PatchCVChannelUpstream cv cvSpec);
  match r with
  | inl e =>
      if is_rejected e then _ ← handleTerminalCVPreStartFailure action (Error e); mret (Some doNotRequeue)
      else raise (wrap "failed to apply channel/upstream update" e)
  | inr true =>
      _ ← updateUpgradeStatus env CRconditionReasons.Pending "Channel/upstream updated. Waiting for update to be processed";
      mret (Some requeueWithShortInterval)
  | inr false =>
      match cv_message cv "RetrievedUpdates" (fun c => negb (is_true c)) with
      | Some message =>
          _ ← updateUpgradeStatus env CRconditionReasons.Pending ("Update graph is not retrieved: " ++ message);
          mret (Some requeueWithMediumInterval)
      | None =>
          let d := desired cvSpec in
          if bool_decide (u_Image d = "") && negb (IsCVUpdateAvailable cv (u_Version d)) then
            _ ← handleTerminalCVPreStartFailure action
                  ("Target version " ++ u_Version d ++ " is not available for upgrade");
            mret (Some doNotRequeue)
          else mret None
      end
  end.

Definition step_message (action : CVUpgradeAction) (what : string) : prog string :=
  u ← get_upgrade;
  mret (VersionLabel action (IntermediateVersion u) ++ " version " ++ UpgradeToVersion action ++ what).

Definition monitorPostTriggerConditions (cv : ClusterVersion) (action : CVUpgradeAction) : prog Result :=
  match cv_message cv "Invalid" is_true with
  | Some message => _ ← handleTerminalCVPreStartFailure action ("Upgrade spec is invalid: " ++ message); mret doNotRequeue
  | None =>
      match cv_message cv "ReleaseAccepted" (fun c => negb (is_true c)) with
      | Some message =>
          _ ← updateUpgradeStatus env CRconditionReasons.Pending ("Release is not accepted: " ++ message);
          mret requeueWithMediumInterval
      | None =>
          msg ← step_message action
                  (": " ++ match cv_message cv "Failing" is_true with Some m => m | None => "upgrade not started yet" end);
          _ ← updateUpgradeStatus env CRconditionReasons.Unknown ("Upgrading to " ++ msg);
          mret requeueWithMediumInterval
      end
  end.

(** The message of a condition that holds a major or minor upgrade back. *)
Definition not_upgradeable (cv : ClusterVersion) (action : CVUpgradeAction) (d : Update) : prog (option string) :=
  if u_Force d then mret None
  else
    match IsMajorOrMinorUpgrade (GetCurrentCVVersion cv) (UpgradeToVersion action) with
    | inl e => raise (Errorf ("failed to determine upgrade type: " ++ e))
    | inr false => mret None
    | inr true =>
        mret (cv_message cv "Upgradeable" (fun c => bool_decide (cond_Status c = ConditionFalse)))
    end.

Definition handleCVUpgradePreStart (cv : ClusterVersion) (ct : ClusterTemplate) (action : CVUpgradeAction) : prog Result :=
  '(action, r) ← prepareCVSpec ct cv action;
  match r with
  | inl e =>
      if negb (IsInputError e) then
        _ ← updateUpgradeStatus env CRconditionReasons.Pending ("Preparing upgrade configuration: " ++ Error e);
        mret requeueWithMediumInterval
      else _ ← handleTerminalCVPreStartFailure action (Error e); mret doNotRequeue
  | inr cvSpec =>
      let d := desired cvSpec in
      blocked ← not_upgradeable cv action d;
      match blocked with
      | Some message =>
          _ ← updateUpgradeStatus env CRconditionReasons.Pending ("Cluster is not upgradeable: " ++ message);
          mret requeueWithMediumInterval
      | None =>
          r ← try (validateMCPsPreconditions action (IsCVUpgradeTriggered cv (Some d)));
          match r with
          | inl e =>
              if IsInputError e then _ ← handleTerminalCVPreStartFailure action (Error e); mret doNotRequeue
              else raise e
          | inr _ =>
              r ← checkCVGraphPreconditions cv cvSpec action;
              match r with
              | Some result => mret result
              | None =>
                  _ ← prepareWorkerMCPsForUpgrade action;
                  r ← try (TriggerCVUpgrade cv d);
                  match r with
                  | inl e =>
                      if is_rejected e then _ ← handleTerminalCVPreStartFailure action (Error e); mret doNotRequeue
                      else raise (wrap "failed to apply desiredUpdate" e)
                  | inr true =>
                      msg ← step_message action " triggered. Waiting for upgrade to start";
                      _ ← updateUpgradeStatus env CRconditionReasons.InProgress ("Upgrade to " ++ msg);
                      mret requeueWithShortInterval
                  | inr false => monitorPostTriggerConditions cv action
                  end
              end
          end
      end
  end.

(** ** The upgrade of the control plane *)

(** The start of an upgrade is when the cluster started it; an EUS upgrade has one
    timeout for both steps. *)
Definition handleCVUpgradeInProgress (cv : ClusterVersion) (action : CVUpgradeAction) : prog Result :=
  u ← get_upgrade;
  let shouldReset := negb (IsEUS action) || IsEUSIntermediate action (IntermediateVersion u) in
  _ ← match FindCVHistoryEntry cv (UpgradeToVersion action) with
      | Some entry =>
          when (shouldReset && negb (bool_decide (up_StartedAt u = Some (StartedTime entry))))
            (modify_upgrade (fun u => with_up_start (Some (StartedTime entry)) (with_suspension None None u)))
      | None => mret tt
      end;
  let '(reason, what) :=
    match cv_message cv "Progressing" is_true with
    | Some message => (CRconditionReasons.InProgress, message)
    | None => (CRconditionReasons.Unknown,
               match cv_message cv "Failing" is_true with Some m => m | None => "CVO stalled" end)
    end in
  msg ← step_message action (": " ++ what);
  _ ← updateUpgradeStatus env reason ("Upgrading to " ++ msg);
  mret requeueWithMediumInterval.

Definition handleCVUpgradeCompleted (cv : ClusterVersion) (ct : ClusterTemplate) (clusterName : string)
    (action : CVUpgradeAction) : prog Result :=
  u ← get_upgrade;
  _ ← match ClusterVersionCompletedAt u with
      | Some _ => mret tt
      | None =>
          time ← now env;
          let completion := entry ← FindCVHistoryEntry cv (UpgradeToVersion action); CompletionTime entry in
          modify_upgrade (with_cv_completed (Some (default time completion)))
      end;
  r ← reconcileWorkerPoolRollout env ct;
  match r with
  | Some result => mret result
  | None =>
      _ ← wrapped "failed to cleanup spoke access" (trigger env (CleanupSpokeAccess clusterName));
      _ ← updateUpgradeStatus env CRconditionReasons.Completed
            ("Upgrade to version " ++ UpgradeToVersion action ++ " completed");
      mret doNotRequeue
  end.

Definition set_upgrade_timeout (cfg : UpgradeConfig) (isEUS : bool) : prog unit :=
  let timeout := if 0 <? Timeout cfg then Timeout cfg else if isEUS then 480 * Minute else 240 * Minute in
  modify (fun t => with_limits (mkTimeouts (hardwareProvisioning (limits t)) (clusterProvisioning (limits t))
                                  (clusterConfiguration (limits t)) timeout) t).

(** The step that the history of the cluster asks for; a status of an earlier generation
    is not looked at.  Whether the upgrade is done. *)
Definition upgrade_step (cv : ClusterVersion) (ct : ClusterTemplate) (clusterName : string) (action : CVUpgradeAction)
    : prog (Result * bool) :=
  if negb (cv_ObservedGeneration cv =? cv_Generation cv) then mret (requeueWithShortInterval, false)
  else
    match ActionPhase action with
    | PhasePreStart => result ← handleCVUpgradePreStart cv ct action; mret (result, false)
    | PhaseCompleted =>
        result ← handleCVUpgradeCompleted cv ct clusterName action; mret (result, RequeueAfter result =? 0)
    | PhaseInProgress => result ← handleCVUpgradeInProgress cv action; mret (result, false)
    end.

(** The timeout is looked at after the step, which may end the upgrade. *)
Definition handleClusterVersionUpgrade (ct : ClusterTemplate) (clusterName : string) (cfg : UpgradeConfig)
    : prog (Result * bool) :=
  r ← try (initUpgradeStatus env clusterName);
  match r with
  | inl e => if IsInputError e then _ ← precondition_failed (Error e); mret stop else raise e
  | inr _ =>
      u ← get_upgrade;
      match IsEUSUpgrade (StartVersion u) (Release ct) with
      | inl e => _ ← precondition_failed e; mret stop
      | inr isEUS =>
          _ ← set_upgrade_timeout cfg isEUS;
          r ← try (trigger env (EnsureSpokeClient clusterName));
          match r with
          | inl e =>
              if negb (IsInputError e) then raise (wrap "failed to setup spoke client" e)
              else _ ← precondition_failed (Error e); mret stop
          | inr false =>
              _ ← wrapped "failed to update ProvisioningRequest CR status"
                    (updateUpgradeStatus env CRconditionReasons.Pending "Preparing upgrade resources");
              timedOut ← isCVUpgradeTimedOut env clusterName None;
              mret (if (timedOut : bool) then stop else (requeueWithShortInterval, false))
          | inr true =>
              cv ← wrapped "failed to get spoke ClusterVersion" (trigger env GetClusterVersion);
              let action := ResolveCVUpgradeAction cv (Release ct) (IntermediateVersion u) isEUS in
              r ← try (upgrade_step cv ct clusterName action);
              timedOut ← isCVUpgradeTimedOut env clusterName (Some cv);
              if (timedOut : bool) then mret stop else rethrow r
          end
      end
  end.

(** ** Image based upgrades *)

Definition set_upgrade_condition (reason : string) (status : ConditionStatus) (message : string) : prog unit :=
  set_condition env PRconditionTypes.UpgradeCompleted reason status message.
Definition update_cr_status : prog unit :=
  wrapped "failed to update ProvisioningRequest CR status" (UpdateK8sCRStatus env).

Definition prepareIBGU (ct : ClusterTemplate) : prog ImageBasedGroupUpgrade :=
  r ← try (trigger env MergeUpgradeData);
  merged ← raise_input match r with inl e => inl (Error e) | inr m => inr m end;
  raw ← raise_input match assoc_lookup "imageBasedGroupUpgrade" merged with
                    | None => inl "key imageBasedGroupUpgrade not found in merged upgrade data"
                    | Some v => inr v
                    end;
  r ← try (trigger env (BuildIBGU raw));
  ibgu ← raise_input match r with
                     | inl e => inl ("failed to build IBGU from merged upgrade data: " ++ Error e)
                     | inr ibgu => inr ibgu
                     end;
  if decide (Release ct <> SeedImageVersion ibgu) then
    raise (InputError "the imageBasedGroupUpgrade seedImageRef version does not match the ClusterTemplate spec.release")
  else
    r ← try (trigger env (CreateIBGU ibgu true));
    match r with
    | inl e =>
        if bool_decide (kind e = Invalid) || bool_decide (kind e = BadRequest)
        then raise (InputError ("IBGU dry-run validation failed: " ++ Error e))
        else raise (wrap "failed to dry-run create IBGU" e)
    | inr _ => mret ibgu
    end.

Definition isIBGUProgressing (ibgu : ImageBasedGroupUpgrade) : bool :=
  match FindStatusCondition (ibgu_Conditions ibgu) "Progressing" with Some c => is_true c | None => true end.

(** The failed actions of the first cluster that has some. *)
Fixpoint first_failed (clusters : list (list (string * string))) : option string :=
  match clusters with
  | [] => None
  | [] :: rest => first_failed rest
  | actions :: _ =>
      Some (fold_left (fun message '(action, text) => message ++ "Action " ++ action ++ " failed: " ++ text ++ newline) actions
              "Upgrade Failed: ")
  end.
Definition isIBGUFailed (ibgu : ImageBasedGroupUpgrade) : option string := first_failed (FailedActions ibgu).

Definition upgrade_precondition_failed (e : error) : prog unit :=
  _ ← set_failed env ("Upgrade precondition check failed: " ++ Error e);
  _ ← set_upgrade_condition CRconditionReasons.PreconditionChecksFailed ConditionFalse (Error e);
  update_cr_status.

(** The group upgrade, created unless it exists; [None] when it cannot be. *)
Definition ensure_IBGU (ct : ClusterTemplate) : prog (option ImageBasedGroupUpgrade) :=
  r ← try (trigger env GetIBGU);
  match r with
  | inr ibgu => mret (Some ibgu)
  | inl e =>
      if negb (IsNotFound e) then raise (wrap "failed to get IBGU" e)
      else
        r ← try (prepareIBGU ct);
        match r with
        | inl e =>
            if IsInputError e then _ ← upgrade_precondition_failed e; mret None
            else raise (wrap "failed to prepare IBGU for cluster" e)
        | inr ibgu =>
            _ ← wrapped "failed to create IBGU" (trigger env (CreateIBGU ibgu false));
            _ ← set_in_progress env "Cluster upgrade is initiated";
            _ ← set_upgrade_condition CRconditionReasons.InProgress ConditionFalse "Upgrade is initiated";
            _ ← update_cr_status;
            mret (Some ibgu)
        end
  end.

Definition handleIBGUUpgrade (ct : ClusterTemplate) : prog (Result * bool) :=
  r ← ensure_IBGU ct;
  match r with
  | None => mret stop
  | Some ibgu =>
      if isIBGUProgressing ibgu then
        _ ← set_in_progress env "Cluster upgrade is in progress";
        _ ← set_upgrade_condition CRconditionReasons.InProgress ConditionFalse "Upgrade is in progress";
        _ ← update_cr_status;
        mret (requeueWithMediumInterval, false)
      else
        match isIBGUFailed ibgu with
        | Some message =>
            _ ← set_failed env "Cluster upgrade is failed";
            _ ← set_upgrade_condition CRconditionReasons.Failed ConditionFalse message;
            _ ← update_cr_status;
            mret stop
        | None =>
            _ ← set_upgrade_condition CRconditionReasons.Completed ConditionTrue "Upgrade is completed";
            _ ← wrapped "failed to cleanup IBGU" (trigger env DeleteIBGU);
            _ ← update_cr_status;
            mret (doNotRequeue, true)
        end
  end.

(** ** Dispatch *)

Definition handleUpgrade (startOrResumeSeedGeneration : ClusterTemplate -> prog Result) (clusterName : string)
    (ct : ClusterTemplate) : prog (Result * bool) :=
  r ← try (parseUpgradeConfig env ct);
  match r with
  | inl e => _ ← upgrade_precondition_failed e; mret stop
  | inr cfg =>
      match ConfigType cfg with
      | ClusterVersionUpgrade => handleClusterVersionUpgrade ct clusterName cfg
      | IBGUUpgrade => handleIBGUUpgrade ct
      | SeedGenerationUpgrade => result ← startOrResumeSeedGeneration ct; mret (result, false)
      end
  end.
End upgrade.

(** ** The upgrades of a reconcile *)

(** provisioningrequest_seedgeneration.go *)
Class SeedGeneration := {
  seed_reconcile : prog Result;
  seed_cleanup_preflight : prog bool;
  seed_start : ClusterTemplate -> prog Result;
  seed_cleanup : prog bool;
}.

(** The components that [Reconcile] relies on: the upgrades above, and seed generation. *)
Definition with_upgrades `{Semver} `{Urls} `{SeedGeneration} (env : Env) : Subsystems := {|
  reconcileSeedGeneration := seed_reconcile;
  cleanupSeedGenerationPreflightResources := seed_cleanup_preflight;
  startOrResumeSeedGeneration := seed_start;
  cleanupSeedGenerationResources := seed_cleanup;
  ProvisioningRequest.IsUpgradeRequested := IsUpgradeRequested env;
  ProvisioningRequest.handleUpgrade := handleUpgrade env seed_start;
  ProvisioningRequest.cleanupStaleUpgradeState := UpgradeRollout.cleanupStaleUpgradeState env;
|}.
