(* ===== verification/SeedSnapshot.v ===== *)
(** * The frozen inputs of a seed run
      (controllers/provisioningrequest_seedgeneration_preflight.go)

    A run reads its inputs once and keeps them in an immutable ConfigMap and immutable
    Secrets, which later reconciles adopt: the snapshot.  Its objects carry the labels of
    the request, and the status of the request pins their UIDs.  The encodings are
    [SeedEncoding]; where the inputs come from is SeedInputs. *)
From stdpp Require Import sorting.
From S2P Require Import Prelude Conditions GoText MergeMaps Unstructured Handler ProvisioningStatus SeedObjects ProvisioningTask ProvisioningValidation.
#[local] Open Scope string_scope.
#[local] Open Scope Z_scope.

(** ** Encodings that are not code of the program *)

(** The mirrors as a manifest (_mirrors.go). *)
Record seedGenerationIDMSFile := mkIDMSFile {
  idms_APIVersion : string;
  idms_Kind : string;
  idms_MetadataName : string;
  idms_ImageDigestMirrors : list ImageDigestSource;
}.

Class SeedEncoding := {
  MarshalDocument : InputDocument -> option string;         (* json.Marshal *)
  UnmarshalDocument : string -> option InputDocument;
  MarshalIDMSFile : seedGenerationIDMSFile -> option string;  (* yaml.Marshal *)
  sha256_hex : string -> string;
  MarshalPodSpec : PodSpec -> option string;
}.

(** ** Names and labels *)

Module labels.
Abbreviation name := "provisioningrequest.clcm.openshift.io/name".
Abbreviation uid := "provisioningrequest.clcm.openshift.io/uid".
Abbreviation snapshot := "clcm.openshift.io/seed-generation-snapshot".
Abbreviation snapshot_kind := "clcm.openshift.io/seed-generation-snapshot-kind".
Abbreviation run := "clcm.openshift.io/seed-generation".
Abbreviation iso := "clcm.openshift.io/seed-generation-iso".
Abbreviation iso_kind := "clcm.openshift.io/seed-generation-iso-kind".
Abbreviation iso_job := "clcm.openshift.io/seed-generation-iso-job".
End labels.

Definition GroupVersion : string := "clcm.openshift.io/v1alpha1".
Definition snapshot_config : string := "seed-generation-inputs.json".
Definition mirror_file : string := "idms.yaml".

Section names.
Context `{SeedEncoding} (pr : ProvisioningRequest).

(** At most 63 characters; a long name of the request is cut, with a hash of it. *)
Definition seedGenerationResourceName (suffix : string) : string :=
  let name := Name pr ++ "-seedgen-" ++ suffix in
  if (String.length name <=? 63)%nat then name
  else
    let hash := String.substring 0 8 (sha256_hex (Name pr)) in
    let maxPrefix := (63 - String.length suffix - 4 - String.length hash - 1)%nat in
    String.substring 0 (Nat.max 1 maxPrefix) (Name pr) ++ "-sg-" ++ hash ++ "-" ++ suffix.

Definition seedGenerationSnapshotNames : gmap string string :=
  list_to_map (map (fun '(key, suffix) => (key, seedGenerationResourceName suffix))
    [("config", "inputs"); ("seedAuth", "seed-auth"); ("spokeKubeconfig", "spoke-kubeconfig");
     ("pullSecret", "pull-secret"); ("upload", "upload")]).

(** The labels of all that belongs to the request. *)
Definition request_labels : gmap string string := {[labels.name := Name pr; labels.uid := UID pr]}.

Definition seedGenerationSnapshotLabels (kind : string) : gmap string string :=
  <[labels.snapshot := "true"]> (<[labels.snapshot_kind := kind]> (<[labels.run := "true"]> request_labels)).

Definition seedGenerationSnapshotOwnerReference : OwnerReference :=
  mkOwner GroupVersion "ProvisioningRequest" (Name pr) (UID pr) false.

Definition hasSeedGenerationSnapshotOwner (m : ObjectMeta) : bool :=
  existsb (fun r => bool_decide (or_APIVersion r = GroupVersion) && bool_decide (or_Kind r = "ProvisioningRequest")
                    && bool_decide (or_Name r = Name pr) && bool_decide (or_UID r = UID pr)) (OwnerReferences m).

Definition has_label (key expected : string) (m : ObjectMeta) : bool := bool_decide (entry key (Labels m) = expected).
Definition of_request (m : ObjectMeta) : bool := has_label labels.name (Name pr) m && has_label labels.uid (UID pr) m.

(** The text of the error, if any; no UIDs are pinned when the map is empty. *)
Definition validateSeedGenerationSnapshotOwner (m : ObjectMeta) (kind : string) (statusUIDs : gmap string string)
    : option string :=
  let it := "seed generation snapshot resource " ++ meta_Namespace m ++ "/" ++ meta_Name m in
  if negb (of_request m && has_label labels.snapshot "true" m && has_label labels.snapshot_kind kind m
           && hasSeedGenerationSnapshotOwner m)
  then Some (it ++ " is not owned by ProvisioningRequest " ++ Name pr ++ " with UID " ++ UID pr)
  else if negb (bool_decide (statusUIDs = ∅)) && negb (bool_decide (statusUIDs !! meta_Name m = Some (meta_UID m)))
  then Some (it ++ " UID does not match ProvisioningRequest status")
  else if negb (has_label labels.run "true" m)
  then Some ("seed generation resource " ++ meta_Namespace m ++ "/" ++ meta_Name m ++ " is missing its run label")
  else None.

Definition seedGenerationSnapshotStatusUIDs : gmap string string :=
  match seed_status pr with Some s => InputSnapshotResourceUIDs s | None => ∅ end.

(** The inputs are pinned, or the run has passed the point where it needs them. *)
Definition seedGenerationSnapshotFrozen : bool :=
  negb (bool_decide (seedGenerationSnapshotStatusUIDs = ∅))
  || match seed_status pr with Some s => DetachmentStarted s | None => false end.
End names.

Definition data_Name (o : DataObject) : string := meta_Name (data_Meta o).
Definition data_UID (o : DataObject) : string := meta_UID (data_Meta o).

Definition seedGenerationInputUIDs (s : Snapshot) : gmap string string :=
  <[data_Name (snap_ConfigMap s) := data_UID (snap_ConfigMap s)]>
    (list_to_map (map (fun '(_, o) => (data_Name o, data_UID o)) (map_to_list (Secrets s)))).

Definition seedGenerationSnapshotUIDsEqual (statusUIDs actualUIDs : gmap string string) : bool :=
  bool_decide (size statusUIDs = size actualUIDs)
  && forallb (fun '(name, uid) => bool_decide (entry name statusUIDs = uid)) (map_to_list actualUIDs).

(** ** Errors *)

Definition errIncompleteSeedGenerationSnapshot : error :=
  mkError false IncompleteSnapshot "incomplete seed generation input snapshot".
Definition errSeedGenerationSnapshotNotFound : error :=
  mkError false SnapshotNotFound "seed generation input snapshot not found".
Definition errSeedGenerationSnapshotUnavailable : error :=
  mkError false Transient "pinned seed generation input snapshot is incomplete or unavailable".

Definition is_kind (k : apiErrorKind) (e : error) : bool := bool_decide (kind e = k).

(** [errors.Join]: what [errors.As] finds is in the first of them, or in the second. *)
Definition join_errors (e f : error) : error :=
  mkError (input_error e || input_error f) (if decide (kind e = OtherKind) then kind f else kind e)
    (Error e ++ newline ++ Error f).

Definition fail_text (e : option string) : prog unit := match e with Some e => raise (Errorf e) | None => mret tt end.

(** ** The objects *)

Section make.
Context `{SeedEncoding} (namespace : string) (pr : ProvisioningRequest).

Definition snapshot_object (name kind : string) (data : gmap string string) : DataObject :=
  mkData (mkMeta name namespace "" (seedGenerationSnapshotLabels pr kind) ∅
            [seedGenerationSnapshotOwnerReference pr] [] false) true data.

(** The name of a credential's Secret; no other keys are supported. *)
Definition credential_name (key : string) : option string :=
  if decide (key = "config") then None else seedGenerationSnapshotNames pr !! key.

Definition make_secret (key : string) (data : gmap string string) (acc : string + gmap string DataObject)
    : string + gmap string DataObject :=
  match acc with
  | inl e => inl e
  | inr secrets =>
      match credential_name key with
      | None => inl ("unsupported seed generation credential snapshot " ++ Quote key)
      | Some name =>
          if decide (data = ∅) then inl ("seed generation credential snapshot " ++ Quote key ++ " is empty")
          else inr (<[key := snapshot_object name "credential" data]> secrets)
      end
  end.

Definition string_le (s t : string) : Prop := String.leb s t = true.
#[export] Instance string_le_dec : RelDecision string_le.
Proof. intros s t. unfold string_le. apply _. Defined.

(** The registries in order, each with the key of its certificate. *)
Definition ca_keys (cas : gmap string string) : list (string * string) :=
  imap (fun i registry => (registry, "registry-ca-" ++ itoa (Z.of_nat i)))
    (merge_sort string_le (map fst (map_to_list cas))).

Definition with_names (names caKeys : gmap string string) (d : InputDocument) : InputDocument :=
  mkDocument (ClusterTemplateName d) (ClusterTemplateNamespace d) (ClusterTemplateUID d) (doc_Release d) (SeedConfig d) (ToolsImage d)
    (ResolvedReleaseImage d) (ImageDigestSources d) (RegistryTrustedCAs d) caKeys names.

Definition seedGenerationMirrorConfigYAML (sources : list ImageDigestSource) : string + string :=
  match MarshalIDMSFile (mkIDMSFile "config.openshift.io/v1" "ImageDigestMirrorSet" "seed-generation-preflight" sources) with
  | Some encoded => inr encoded
  | None => inl "failed to encode release mirror configuration"
  end.

Definition makeSeedGenerationSnapshotObjects (document : InputDocument)
    (credentials : gmap string (gmap string string))
    : string + (InputDocument * DataObject * gmap string DataObject) :=
  if bool_decide (UID pr = "") || bool_decide (Name pr = "")
  then inl "provisioning request name and UID are required for a seed generation snapshot"
  else if decide (SeedConfig document = None) then inl "seed generation input document is incomplete"
  else
    match foldr (fun '(key, data) => make_secret key data) (inr ∅) (map_to_list credentials) with
    | inl e => inl e
    | inr secrets =>
        if decide (secrets !! "seedAuth" = None) then inl "seed generation snapshot is missing seedAuth credentials"
        else if decide (secrets !! "spokeKubeconfig" = None)
        then inl "seed generation snapshot is missing the spoke admin kubeconfig"
        else
          let keys := ca_keys (RegistryTrustedCAs document) in
          let document := with_names (data_Name <$> secrets) (list_to_map keys) document in
          match seedGenerationMirrorConfigYAML (ImageDigestSources document) with
          | inl e => inl e
          | inr mirrors =>
              match MarshalDocument document with
              | None => inl "failed to encode seed generation input document"
              | Some encoded =>
                  let cas := map (fun '(registry, key) => (key, entry registry (RegistryTrustedCAs document))) keys in
                  let data := <[snapshot_config := encoded]> (<[mirror_file := mirrors]> (list_to_map cas)) in
                  inr (document, snapshot_object (seedGenerationResourceName pr "inputs") "config" data, secrets)
              end
          end
    end.
End make.

(** ** Handlers *)

Section snapshot.
Context `{SeedEncoding} (env : Env).

Definition ask {A} (c : seed_call A) : prog A := trigger env (Seed c).

(** [client.IgnoreNotFound(t.client.Delete(...))]; the error has a prefix. *)
Definition delete_object (p : place) (kind what : string) (m : ObjectMeta) (propagation : Propagation) : prog unit :=
  r ← try (ask (Delete p kind m propagation));
  match r with
  | inl e => if IsNotFound e then mret tt else raise (wrap ("failed to " ++ what ++ " " ++ meta_Name m) e)
  | inr _ => mret tt
  end.

Definition snapshot_selector (o : ProvisioningRequest) : gmap string string :=
  <[labels.snapshot := "true"]> (request_labels o).

Definition removeIncompleteSeedGenerationSnapshot {A} (configMaps secrets : list DataObject) : prog A :=
  o ← get_object;
  if seedGenerationSnapshotFrozen o then raise errSeedGenerationSnapshotUnavailable
  else
    let check kind cm :=
      fail_text (validateSeedGenerationSnapshotOwner o (data_Meta cm) kind (seedGenerationSnapshotStatusUIDs o)) in
    _ ← for_each configMaps (check "config");
    _ ← for_each secrets (check "credential");
    _ ← for_each configMaps (fun cm => delete_object Hub "ConfigMap"
          "remove incomplete seed generation input ConfigMap" (data_Meta cm) Background);
    _ ← for_each secrets (fun s => delete_object Hub "Secret"
          "remove incomplete seed generation input Secret" (data_Meta s) Background);
    raise errIncompleteSeedGenerationSnapshot.

(** The Secret of one credential; [None] when it is missing. *)
Definition resolve_credential (o : ProvisioningRequest) (statusUIDs : gmap string string)
    (secretByName : gmap string DataObject) (name : string) : string + option DataObject :=
  match secretByName !! name with
  | None => inr None
  | Some secret =>
      match validateSeedGenerationSnapshotOwner o (data_Meta secret) "credential" statusUIDs with
      | Some e => inl e
      | None =>
          if negb (Immutable secret) then inl ("seed generation input Secret " ++ data_Name secret ++ " is not immutable")
          else if decide (Data secret = ∅) then inl ("seed generation input Secret " ++ data_Name secret ++ " has no data")
          else inr (Some secret)
      end
  end.

Fixpoint resolve_credentials (o : ProvisioningRequest) (statusUIDs : gmap string string)
    (secretByName : gmap string DataObject) (names : list (string * string)) (acc : gmap string DataObject)
    : string + option (gmap string DataObject) :=
  match names with
  | [] => inr (Some acc)
  | (key, name) :: rest =>
      match resolve_credential o statusUIDs secretByName name with
      | inl e => inl e
      | inr None => inr None
      | inr (Some secret) => resolve_credentials o statusUIDs secretByName rest (<[key := secret]> acc)
      end
  end.

Definition secrets_by_name (l : list DataObject) : gmap string DataObject :=
  foldl (fun m s => <[data_Name s := s]> m) ∅ l.

Definition resolveSeedGenerationSnapshotCredentials (configMap : DataObject) (document : InputDocument)
    (secretItems : list DataObject) (statusUIDs : gmap string string) : prog (gmap string DataObject) :=
  o ← get_object;
  let names := CredentialSecretNames document in
  let secretByName := secrets_by_name secretItems in
  if decide (names = ∅) then removeIncompleteSeedGenerationSnapshot [configMap] secretItems
  else if existsb (fun '(key, name) => negb (bool_decide (credential_name o key = Some name))) (map_to_list names)
  then raise (Errorf ("seed generation input ConfigMap " ++ data_Name configMap
                        ++ " contains an invalid credential reference"))
  else if bool_decide (names !! "seedAuth" = None) || bool_decide (names !! "spokeKubeconfig" = None)
          || negb (bool_decide (size secretByName = size names))
  then removeIncompleteSeedGenerationSnapshot [configMap] secretItems
  else
    match resolve_credentials o statusUIDs secretByName (map_to_list names) ∅ with
    | inl e => raise (Errorf e)
    | inr None => removeIncompleteSeedGenerationSnapshot [configMap] secretItems
    | inr (Some secrets) => mret secrets
    end.

Definition validateSeedGenerationSnapshotObjectsNotDeleting (configMaps secrets : list DataObject) : option string :=
  match list_find (fun o => Deleting (data_Meta o) = true) configMaps with
  | Some (_, o) => Some ("seed generation input ConfigMap " ++ data_Name o ++ " is being deleted")
  | None =>
      match list_find (fun o => Deleting (data_Meta o) = true) secrets with
      | Some (_, o) => Some ("seed generation input Secret " ++ data_Name o ++ " is being deleted")
      | None => None
      end
  end.

(** The document of the one ConfigMap. *)
Definition read_document (o : ProvisioningRequest) (configMap : DataObject) : string + InputDocument :=
  let it := "seed generation input ConfigMap " ++ data_Name configMap in
  match validateSeedGenerationSnapshotOwner o (data_Meta configMap) "config" (seedGenerationSnapshotStatusUIDs o) with
  | Some e => inl e
  | None =>
      if negb (bool_decide (data_Name configMap = seedGenerationResourceName o "inputs"))
      then inl (it ++ " does not have the expected deterministic name")
      else
        match Data configMap !! snapshot_config with
        | None => inl (it ++ " is missing its configuration document")
        | Some encoded =>
            match UnmarshalDocument encoded with
            | None => inl (it ++ " contains invalid JSON")
            | Some d =>
                if bool_decide (SeedConfig d = None) || bool_decide (ClusterTemplateName d = "")
                   || bool_decide (ClusterTemplateNamespace d = "")
                then inl (it ++ " contains an incomplete document")
                else inr d
            end
        end
  end.

Definition loadSeedGenerationInputSnapshot : prog Snapshot :=
  o ← get_object;
  configMaps ← wrapped "failed to list seed generation input ConfigMaps" (ask (ListConfigMaps (snapshot_selector o)));
  secrets ← wrapped "failed to list seed generation input Secrets" (ask (ListSecrets (snapshot_selector o)));
  let statusUIDs := seedGenerationSnapshotStatusUIDs o in
  match configMaps, secrets with
  | [], [] =>
      raise (if seedGenerationSnapshotFrozen o then errSeedGenerationSnapshotUnavailable
             else errSeedGenerationSnapshotNotFound)
  | _, _ =>
      _ ← fail_text (validateSeedGenerationSnapshotObjectsNotDeleting configMaps secrets);
      match configMaps with
      | [configMap] =>
          match read_document o configMap with
          | inl e => raise (Errorf e)
          | inr document =>
              resolved ← resolveSeedGenerationSnapshotCredentials configMap document secrets statusUIDs;
              if negb (Immutable configMap)
              then raise (Errorf ("seed generation input ConfigMap " ++ data_Name configMap ++ " is not immutable"))
              else if negb (bool_decide (statusUIDs = ∅)) && negb (bool_decide (size statusUIDs = S (size resolved)))
              then raise (Errorf "seed generation snapshot UID set does not match its resources")
              else mret (mkSnapshot document configMap resolved)
          end
      | _ => removeIncompleteSeedGenerationSnapshot configMaps secrets
      end
  end.

(** The objects that were created are deleted, the last first; the error is the cause,
    joined with what fails now. *)
Fixpoint rollback (created : list (string * DataObject)) (cause : error) : prog error :=
  match created with
  | [] => mret cause
  | (kind, o) :: rest =>
      r ← try (delete_object Hub kind "remove partial snapshot resource" (data_Meta o) Background);
      rollback rest (match r with inl e => join_errors cause e | inr _ => cause end)
  end.
Definition rollbackSeedGenerationSnapshot {A} (created : list (string * DataObject)) (cause : error) : prog A :=
  e ← rollback created cause; raise (wrap "seed generation snapshot rollback failed" e).

Definition with_object_uid (uid : string) (o : DataObject) : DataObject :=
  let m := data_Meta o in
  mkData (mkMeta (meta_Name m) (meta_Namespace m) uid (Labels m) (Annotations m) (OwnerReferences m) (Finalizers m)
            (Deleting m)) (Immutable o) (Data o).

(** The Secrets in the order of their keys; [created] has the last one first. *)
Fixpoint create_secrets (secrets : list (string * DataObject)) (created : list (string * DataObject))
    (acc : gmap string DataObject) : prog (gmap string DataObject) :=
  match secrets with
  | [] => mret acc
  | (key, secret) :: rest =>
      r ← try (ask (CreateSecret secret));
      match r with
      | inr uid =>
          let secret := with_object_uid uid secret in
          create_secrets rest (("Secret", secret) :: created) (<[key := secret]> acc)
      | inl e =>
          rollbackSeedGenerationSnapshot created
            (if is_kind AlreadyExists e
             then Errorf ("seed generation input Secret " ++ data_Name secret ++ " already exists without a complete snapshot")
             else wrap ("failed to create seed generation input Secret " ++ data_Name secret) e)
      end
  end.

#[local] Instance key_le_dec : RelDecision (fun a b : string * DataObject => string_le a.1 b.1).
Proof. intros a b. unfold string_le. apply _. Defined.

Definition createSeedGenerationInputSnapshot (document : InputDocument)
    (credentials : gmap string (gmap string string)) : prog Snapshot :=
  r ← try loadSeedGenerationInputSnapshot;
  match r with
  | inr existing => mret existing
  | inl e =>
      if negb (is_kind SnapshotNotFound e) then raise e
      else
        o ← get_object;
        match makeSeedGenerationSnapshotObjects (operator_namespace env) o document credentials with
        | inl e => raise (Errorf e)
        | inr (document, configMap, secrets) =>
            r ← try (ask (CreateConfigMap configMap));
            match r with
            | inl e =>
                if is_kind AlreadyExists e then loadSeedGenerationInputSnapshot
                else raise (wrap "failed to create seed generation input ConfigMap" e)
            | inr uid =>
                let configMap := with_object_uid uid configMap in
                secrets ← create_secrets (merge_sort (fun a b => string_le a.1 b.1) (map_to_list secrets))
                            [("ConfigMap", configMap)] ∅;
                mret (mkSnapshot document configMap secrets)
            end
        end
  end.

(** ** The status of the run *)

(** [t.object.Status.Extensions.ClusterDetails.SeedGenerationStatus], dereferenced. *)
Definition get_seed : prog SeedGenerationStatus :=
  d ← get_details; match SeedStatus d with Some s => mret s | None => panic end.
Definition modify_seed (f : SeedGenerationStatus -> SeedGenerationStatus) : prog unit :=
  s ← get_seed; modify_details (with_seed (Some (f s))).

(** ** Clean-up *)

Definition check_owner (kind : string) (m : ObjectMeta) : prog unit :=
  o ← get_object; fail_text (validateSeedGenerationSnapshotOwner o m kind ∅).

Definition delete_unless_deleting (p : place) (kind what : string) (m : ObjectMeta) : prog unit :=
  when (negb (Deleting m)) (delete_object p kind what m Background).

Definition cleanupSeedGenerationPreflightPods : prog bool :=
  o ← get_object;
  pods ← wrapped "failed to list seed generation preflight Pods"
           (ask (ListPods (<[labels.run := "true"]> (<[labels.snapshot_kind := "tooling"]> (snapshot_selector o)))));
  _ ← for_each pods (fun pod =>
        _ ← check_owner "tooling" (pod_Meta pod);
        delete_unless_deleting Hub "Pod" "delete seed generation preflight Pod" (pod_Meta pod));
  mret (negb (bool_decide (length pods = 0%nat))).

Definition cleanupSeedGenerationPreflightResources : prog bool :=
  podsPending ← cleanupSeedGenerationPreflightPods;
  o ← get_object;
  let selector := <[labels.run := "true"]> (snapshot_selector o) in
  configMaps ← wrapped "failed to list seed generation snapshot ConfigMaps" (ask (ListConfigMaps selector));
  secrets ← wrapped "failed to list seed generation snapshot Secrets" (ask (ListSecrets selector));
  _ ← for_each configMaps (fun cm =>
        _ ← check_owner "config" (data_Meta cm);
        delete_unless_deleting Hub "ConfigMap" "delete seed generation snapshot ConfigMap" (data_Meta cm));
  _ ← for_each secrets (fun s =>
        _ ← check_owner "credential" (data_Meta s);
        delete_unless_deleting Hub "Secret" "delete seed generation snapshot Secret" (data_Meta s));
  mret (podsPending || negb (bool_decide (length configMaps = 0%nat)) || negb (bool_decide (length secrets = 0%nat))).
End snapshot.
