(* ===== verification/SeedWorkloads.v ===== *)
(** * The pods and the job of a seed run
      (controllers/provisioningrequest_seedgeneration_tools.go, _iso.go, _iso_job.go,
      _iso_inputs.go)

    The specs that the controller makes, and the checks by which it knows them again:
    an object that it finds under its name is used only when it is its own.  Third-party
    parsers are [SeedLibraries]. *)
From Stdlib Require Import Ascii.
From stdpp Require Import sorting.
From S2P Require Import Prelude Conditions GoText MergeMaps Unstructured Handler ProvisioningStatus UpgradePlan SeedObjects ProvisioningTask SeedSnapshot.
#[local] Open Scope string_scope.
#[local] Open Scope Z_scope.

Class SeedLibraries := {
  ParseNormalizedNamed : string -> option (string * string);   (* distribution/reference: domain, path *)
  url_Parse : string -> option ParsedURL;
  url_String : ParsedURL -> string;
  IsIP : string -> bool;
  IsDNS1123Subdomain : string -> bool;
  EmbeddedISOScript : string;                                  (* scripts/seed-generation-iso.sh *)
}.

(** ** Formats *)

(** An entry of a Docker auth file, and the configuration of the installer of the ISO. *)
Record DockerAuth := mkDockerAuth {
  auth_Auth : string; auth_Username : string; auth_Password : string; auth_IdentityToken : string; auth_RegistryToken : string
}.
Record seedGenerationISOInstallationConfig := mkISOConfig {
  iso_APIVersion : string;
  iso_Kind : string;
  iso_MetadataName : string;
  iso_SeedImage : string;
  iso_SeedVersion : string;
  iso_InstallationDisk : string;
  iso_SSHKey : string;
  iso_PullSecret : string;
  iso_ImageDigestSources : list (string * list string);
  iso_AdditionalTrustBundle : string;
}.

(** What is read and written with encoding/json, encoding/base64, net/url, crypto/x509,
    client-go and yaml. *)
Class SeedFormats := {
  UnmarshalAuths : string -> option (gmap string string);      (* the entries, raw *)
  MarshalAuths : gmap string string -> option string;
  UnmarshalAuth : string -> option DockerAuth;
  DecodeToken : string -> option (string * string);            (* token, access_token *)
  DecodeBase64 : string -> option string;
  DecodeRawBase64 : string -> option string;
  EscapedPath : ParsedURL -> string;
  Port : ParsedURL -> string;
  QueryWith : string -> list (string * string) -> string;      (* the raw query with these keys set *)
  ResolveReference : ParsedURL -> ParsedURL -> ParsedURL;
  AppendCertsFromPEM : string -> bool;
  RESTConfigFromKubeConfig : string -> option (string * string * string);   (* bearer token, certificate, key *)
  X509KeyPair : string -> string -> option string;             (* the first certificate *)
  CommonName : string -> option string;                        (* of a certificate that can be parsed *)
  MarshalISOConfig : seedGenerationISOInstallationConfig -> option string;
}.

(** ** Text *)

Fixpoint all_chars (p : Ascii.ascii -> bool) (s : string) : bool :=
  match s with "" => true | String c s' => p c && all_chars p s' end.

Definition between (lo hi c : Ascii.ascii) : bool :=
  let n := Ascii.nat_of_ascii in ((n lo <=? n c) && (n c <=? n hi))%nat.
Definition is_lower := between "a"%char "z"%char.
Definition is_upper := between "A"%char "Z"%char.
Definition is_digit := between "0"%char "9"%char.
Definition is_one_of (s : string) (c : Ascii.ascii) : bool :=
  existsb (fun d => bool_decide (c = d)) (String.list_ascii_of_string s).

(** [strings.CutPrefix] *)
Fixpoint CutPrefix (prefix s : string) : option string :=
  match prefix, s with
  | "", _ => Some s
  | String c p, String d s' => if decide (c = d) then CutPrefix p s' else None
  | _, "" => None
  end.

(** Before and after the last of a character. *)
Fixpoint split_last (sep : Ascii.ascii) (s : string) : option (string * string) :=
  match s with
  | "" => None
  | String c s' =>
      match split_last sep s' with
      | Some (a, b) => Some (String c a, b)
      | None => if decide (c = sep) then Some ("", s') else None
      end
  end.

Fixpoint split_at (sep : Ascii.ascii) (s : string) : list string :=
  match s with
  | "" => [""]
  | String c s' =>
      if decide (c = sep) then "" :: split_at sep s'
      else match split_at sep s' with [] => [String c ""] | w :: l => String c w :: l end
  end.

(** [^sha256:[a-f0-9]{64}$] *)
Definition seedGenerationDigestPattern (s : string) : bool :=
  match CutPrefix "sha256:" s with
  | Some hex => (String.length hex =? 64)%nat && all_chars (fun c => is_digit c || between "a"%char "f"%char c) hex
  | None => false
  end.
Definition seedGenerationSSHUserPattern (s : string) : bool :=
  match s with
  | "" => false
  | String c s' => (is_lower c || is_upper c || is_one_of "_" c)
                   && all_chars (fun c => is_lower c || is_upper c || is_digit c || is_one_of "_.-" c) s'
  end.
Definition seedGenerationRemotePathPattern (s : string) : bool :=
  match CutPrefix "/" s with
  | Some rest => all_chars (fun c => is_lower c || is_upper c || is_digit c || is_one_of "/_.-" c) rest
  | None => false
  end.
Definition seedGenerationRunIDPattern (s : string) : bool :=
  negb (bool_decide (s = "")) && all_chars (fun c => is_lower c || is_upper c || is_digit c || is_one_of "-" c) s.

(** [path.Clean]: the elements that are left, the last first. *)
Fixpoint clean_elements (rooted : bool) (elements acc : list string) : list string :=
  match elements with
  | [] => acc
  | e :: rest =>
      if decide (e = "" \/ e = ".") then clean_elements rooted rest acc
      else if decide (e = "..") then
        clean_elements rooted rest
          match acc with
          | [] => if rooted then [] else [".."]
          | last :: acc' => if decide (last = "..") then ".." :: acc else acc'
          end
      else clean_elements rooted rest (e :: acc)
  end.
Definition path_Clean (p : string) : string :=
  let rooted := String.prefix "/" p in
  let s := Join "/" (reverse (clean_elements rooted (split_at "/"%char p) [])) in
  if rooted then "/" ++ s else if decide (s = "") then "." else s.
(** [path.Join]: empty elements are ignored. *)
Definition path_Join (elements : list string) : string :=
  match filter (fun e => e <> "") elements with [] => "" | l => path_Clean (Join "/" l) end.

Example path_Join_example : path_Join ["/srv//iso/../www/"; "seedgen"; "uid"] = "/srv/www/seedgen/uid".
Proof. vm_compute. reflexivity. Qed.

Definition TrimSuffix (s suffix : string) : string :=
  let n := (String.length s - String.length suffix)%nat in
  if bool_decide (String.substring n (String.length suffix) s = suffix) && (String.length suffix <=? String.length s)%nat
  then String.substring 0 n s else s.

(** ** Images *)

Section libraries.
Context `{SeedLibraries}.

Definition normalizeRegistryHost (registry : string) : string :=
  let registry := TrimSpace (ToLower registry) in
  let registry :=
    if Contains registry "://" then
      match url_Parse registry with
      | Some u => if decide (Hostname u = "") then registry else Host u
      | None => registry
      end
    else registry in
  let registry := TrimSuffix (TrimSuffix registry "/") "/v1" in
  if decide (registry = "index.docker.io" \/ registry = "registry-1.docker.io") then "docker.io" else registry.

Definition imageRepositoryFromPullSpec (image : string) : option (string * string) :=
  '(domain, path) ← ParseNormalizedNamed image; Some (normalizeRegistryHost domain, path).

Definition tools_image_env : string := "RELATED_IMAGE_SEED_GENERATION_TOOLS_IMAGE".

(** A tag, or a digest. *)
Definition validateSeedGenerationToolsImage (rawImage : string) : string + string :=
  let image := TrimSpace rawImage in
  match imageRepositoryFromPullSpec image with
  | None => inl (tools_image_env ++ " must contain a valid image reference")
  | Some _ =>
      match split_last "@"%char image with
      | Some (_, digest) =>
          if seedGenerationDigestPattern digest then inr image
          else inl (tools_image_env ++ " must contain a valid sha256 digest")
      | None =>
          let imageName := default image (CutPrefix "docker://" image) in
          let after_slash := match split_last "/"%char imageName with Some (_, b) => b | None => imageName end in
          if Contains after_slash ":" then inr image else inl (tools_image_env ++ " must use a tag or digest")
      end
  end.

(** The image by its digest. *)
Definition pinnedSeedGenerationReleaseImage (image digest : string) : string + string :=
  if negb (seedGenerationDigestPattern digest) then inl ("release image digest " ++ Quote digest ++ " is invalid")
  else match imageRepositoryFromPullSpec image with
       | None => inl "failed to parse resolved release image"
       | Some (registry, repository) => inr (registry ++ "/" ++ repository ++ "@" ++ digest)
       end.

(** ** Publication of the ISO *)

Record seedGenerationISOArtifact := mkArtifact {
  art_URL : string;
  RemoteDirectory : string;
  SSHTarget : string;
  SCPTarget : string;
}.

Definition seedGenerationCleanDirectory (directory : string) : bool :=
  seedGenerationRemotePathPattern directory
  && (bool_decide (directory = "/") || bool_decide (path_Clean directory = TrimSuffix directory "/")).

Definition validSeedGenerationISOHTTPSURL (rawURL : string) : bool :=
  match url_Parse rawURL with
  | Some u => bool_decide (Scheme u = "https") && negb (bool_decide (Hostname u = "")) && negb (HasUser u)
              && bool_decide (RawQuery u = "") && negb (ForceQuery u) && bool_decide (Fragment u = "")
              && negb (Contains rawURL "#")
  | None => false
  end.

Definition seedGenerationString (config : object_map) (key : string) : string + string :=
  match string_field key config with
  | Some s => if decide (TrimSpace s = "") then inl ("seed generation configuration requires a non-empty " ++ key) else inr s
  | None => inl ("seed generation configuration requires a non-empty " ++ key)
  end.

Definition with_url_path (p : string) (u : ParsedURL) : ParsedURL :=
  mkURL (Scheme u) (Host u) (Hostname u) (HasUser u) (RawQuery u) (ForceQuery u) (Fragment u) (RawPath u) p.

(** The SSH and the HTTPS view of the directory of the run. *)
Definition seedGenerationISOArtifactForRun (pr : ProvisioningRequest) (liveISO : object_map)
    (upload : option DataObject) : string + seedGenerationISOArtifact :=
  if negb (seedGenerationRunIDPattern (UID pr)) then
    inl "a valid ProvisioningRequest UID is required for ISO publication"
  else
    match upload with
    | None => inl "live ISO upload credentials are missing"
    | Some upload =>
        let host := entry "host" (Data upload) in
        let username := entry "username" (Data upload) in
        let remotePath := entry "remotePath" (Data upload) in
        if negb (IsIP host || IsDNS1123Subdomain host) then
          inl "live ISO upload host must be an IP address or DNS hostname"
        else if negb (seedGenerationSSHUserPattern username) then
          inl "live ISO upload username contains unsupported characters"
        else if negb (seedGenerationCleanDirectory remotePath) then
          inl "live ISO upload remotePath must be a clean absolute directory path without shell metacharacters"
        else
          match seedGenerationString liveISO "urlBase" with
          | inl e => inl e
          | inr base =>
              let bad := "liveISO.urlBase must be an HTTPS directory URL without credentials, escapes, query, or fragment" in
              match url_Parse base with
              | None => inl bad
              | Some u =>
                  if negb (bool_decide (Scheme u = "https")) || bool_decide (Hostname u = "") || HasUser u
                     || negb (bool_decide (RawQuery u = "")) || negb (bool_decide (Fragment u = ""))
                     || negb (bool_decide (RawPath u = ""))
                  then inl bad
                  else if negb (bool_decide (Path u = "")) && negb (seedGenerationCleanDirectory (Path u)) then
                    inl "liveISO.urlBase must have a clean directory path"
                  else
                    let runDirectory := path_Join ["seedgen"; UID pr] in
                    let p := path_Join [Path u; runDirectory; "rhcos-ibi.iso"] in
                    let p := if String.prefix "/" p then p else "/" ++ p in
                    let scpHost := if Contains host ":" then "[" ++ host ++ "]" else host in
                    inr (mkArtifact (url_String (with_url_path p u)) (path_Join [remotePath; runDirectory])
                           (username ++ "@" ++ host) (username ++ "@" ++ scpHost))
              end
          end
    end.

Definition seedGenerationISOUploadCleanupCommand (artifact : seedGenerationISOArtifact) (uid : string) : string :=
  let directory := RemoteDirectory artifact in
  let owner := path_Join [directory; ".oran-seedgen-owner"] in
  let final := path_Join [directory; "rhcos-ibi.iso"] in
  let q := "'" in
  let dq := String "034" "" in
  "set -eu; if test ! -e " ++ q ++ directory ++ q ++ "; then echo removed; "
  ++ "elif test -f " ++ q ++ owner ++ q ++ " && test " ++ dq ++ "$(cat " ++ q ++ owner ++ q ++ ")" ++ dq ++ " = " ++ q ++ uid ++ q ++ "; then "
  ++ "rm -f -- " ++ q ++ final ++ ".tmp-" ++ uid ++ q ++ " " ++ q ++ final ++ q ++ " " ++ q ++ owner ++ q ++ "; rmdir -- "
  ++ q ++ directory ++ q ++ "; echo removed; "
  ++ "elif rmdir -- " ++ q ++ directory ++ q ++ " 2>/dev/null; then echo removed; else echo unowned; fi".

(** ** Pods *)

Section workloads.
Context `{SeedEncoding} (namespace : string) (pr : ProvisioningRequest).

Definition string_pair_le (a b : string * string) : Prop := string_le a.1 b.1.
#[local] Instance string_pair_le_dec a b : Decision (string_pair_le a b).
Proof. unfold string_pair_le, string_le. apply _. Defined.

(** The certificates of the registries, in the order of their names. *)
Definition certificate_items (document : InputDocument) : list (string * string) :=
  map (fun '(registry, key) => (key, registry ++ "/ca.crt"))
    (merge_sort string_pair_le (map_to_list (RegistryTrustedCAKeys document))).
Definition certificate_volumes (s : Snapshot) : list (string * VolumeSource) :=
  if decide (RegistryTrustedCAKeys (Document s) = ∅) then []
  else [("registry-certs", ConfigMapVolume (data_Name (snap_ConfigMap s)) (certificate_items (Document s)))].
Definition certificate_mounts (s : Snapshot) : list (string * string * bool) :=
  if decide (RegistryTrustedCAKeys (Document s) = ∅) then []
  else [("registry-certs", "/etc/containers/certs.d", true)].

Definition restricted_container (name image : string) (command args : list string) (workingDir : string)
    (env : list (string * string)) (mounts : list (string * string * bool)) : Container :=
  mkContainer name image "IfNotPresent" command args workingDir env mounts (Some false) (Some true) [] ["ALL"].
Definition restricted_pod (volumes : list (string * VolumeSource)) (c : Container) : PodSpec :=
  mkPodSpec [c] [] volumes "Never" (Some false) "" false (Some true) (Some "RuntimeDefault").

(** [None] when the snapshot has no pull secret: its name is read through a nil pointer. *)
Definition makeSeedGenerationPreflightPod (s : Snapshot) (toolsImage name command argument : string) : option Pod :=
  pullSecret ← Secrets s !! "pullSecret";
  let volumes :=
    ([("snapshot-config", ConfigMapVolume (data_Name (snap_ConfigMap s)) [(mirror_file, mirror_file)]);
     ("pull-secret", SecretVolume (data_Name pullSecret) [(".dockerconfigjson", "config.json")]);
     ("tmp", EmptyDirVolume false)] ++ certificate_volumes s)%list in
  let mounts :=
    ([("snapshot-config", "/var/run/seedgen/config", true); ("pull-secret", "/var/run/seedgen/auth", true);
     ("tmp", "/tmp", false)] ++ certificate_mounts s)%list in
  Some (mkPod
    (mkMeta name namespace "" (seedGenerationSnapshotLabels pr "tooling") ∅
       [seedGenerationSnapshotOwnerReference pr] [] false)
    (restricted_pod volumes
       (restricted_container "preflight" toolsImage ["/bin/sh"; "-c"] [command; "seedgen"; argument] "/tmp"
          [("HOME", "/tmp")] mounts)) PodPending "" []).

Definition validateSeedGenerationPreflightContainer (actual expected : Container) : bool :=
  bool_decide (c_Name actual = c_Name expected) && bool_decide (c_Image actual = c_Image expected)
  && bool_decide (c_PullPolicy actual = c_PullPolicy expected) && bool_decide (c_Command actual = c_Command expected)
  && bool_decide (c_Args actual = c_Args expected) && bool_decide (c_WorkingDir actual = c_WorkingDir expected)
  && bool_decide (c_Env actual = c_Env expected) && bool_decide (c_Mounts actual = c_Mounts expected).

Definition restricted_security (c : Container) : bool :=
  bool_decide (AllowPrivilegeEscalation c = Some false) && bool_decide (ReadOnlyRootFilesystem c = Some true)
  && bool_decide (CapabilitiesAdd c = []) && bool_decide ("ALL" ∈ CapabilitiesDrop c).

(** The text of the error, if any. *)
Definition validateSeedGenerationPreflightPodSpec (actual expected : PodSpec) : option string :=
  match Containers actual, Containers expected with
  | [a], [e] =>
      if negb (validateSeedGenerationPreflightContainer a e) then
        Some "container command, image, or mounts do not match the expected preflight"
      else if negb (bool_decide (Volumes actual = Volumes expected)) then
        Some "volumes do not match the expected preflight inputs"
      else if negb (bool_decide (RestartPolicy actual = "Never"))
              || negb (bool_decide (AutomountServiceAccountToken actual = Some false)) || HostNamespaces actual then
        Some "pod security settings do not match the expected preflight"
      else if negb (bool_decide (RunAsNonRoot actual = Some true))
              || negb (bool_decide (SeccompProfile actual = Some "RuntimeDefault")) then
        Some "pod security context does not enforce non-root execution and the runtime-default seccomp profile"
      else if negb (restricted_security a) then
        Some "container security context does not meet the expected preflight restrictions"
      else None
  | _, _ => Some "expected exactly one container"
  end.

Definition seedGenerationPodFailureReason (pod : Pod) : string :=
  match omap (fun '(name, t) => if decide (name = "preflight") then t else None) (pod_Containers pod) with
  | t :: _ =>
      if decide (term_Reason t = "") then "container exited with code " ++ itoa (ExitCode t)
      else term_Reason t ++ " (exit code " ++ itoa (ExitCode t) ++ ")"
  | [] => if decide (pod_Reason pod = "") then "unknown failure" else pod_Reason pod
  end.

(** ** The live ISO *)

Definition seedGenerationISOResourceLabels (kind : string) : gmap string string :=
  <[labels.iso := "true"]> (<[labels.iso_kind := kind]> (request_labels pr)).

(** The text of the error, if any. *)
Definition validateSeedGenerationISOResourceOwner (m : ObjectMeta) (kind : string) : option string :=
  if of_request pr m && has_label labels.iso "true" m && has_label labels.iso_kind kind m
     && hasSeedGenerationSnapshotOwner pr m
  then None
  else Some ("resource " ++ meta_Namespace m ++ "/" ++ meta_Name m ++ " is not owned by provisioning request "
               ++ Name pr ++ " with UID " ++ UID pr).

(** One of two keys is there, and those that are have the value. *)
Definition seedGenerationISOJobLabelMatches (m : gmap string string) (current legacy expected : string) : bool :=
  let present := omap (fun key => m !! key) [current; legacy] in
  negb (bool_decide (present = [])) && forallb (fun v => bool_decide (v = expected)) present.

Definition validateSeedGenerationISOPodOwner (m : ObjectMeta) (jobName jobUID : string) (allowOrphan : bool)
    : option string :=
  let pod := "live ISO build Pod " ++ meta_Namespace m ++ "/" ++ meta_Name m in
  if negb (bool_decide (meta_Namespace m = namespace)) || bool_decide (jobUID = "")
     || negb (of_request pr m && has_label labels.iso "true" m && has_label labels.iso_kind "pod" m
              && has_label labels.iso_job jobName m
              && seedGenerationISOJobLabelMatches (Labels m) "batch.kubernetes.io/job-name" "job-name" jobName
              && seedGenerationISOJobLabelMatches (Labels m) "batch.kubernetes.io/controller-uid" "controller-uid" jobUID)
  then Some (pod ++ " does not belong to Job " ++ jobName ++ " with UID " ++ jobUID)
  else
    match list_find (fun r => or_Controller r = true) (OwnerReferences m) with
    | Some (_, r) =>
        if bool_decide (or_APIVersion r = "batch/v1") && bool_decide (or_Kind r = "Job")
           && bool_decide (or_Name r = jobName) && bool_decide (or_UID r = jobUID)
        then None else Some (pod ++ " is controlled by an unexpected resource")
    | None =>
        if allowOrphan && bool_decide (length (OwnerReferences m) = 0%nat) then None
        else Some (pod ++ " has no controlling Job " ++ jobName ++ " with UID " ++ jobUID)
    end.

Definition seedGenerationISOJobName : string := seedGenerationResourceName pr "iso-build".
Definition seedGenerationISOPVCName : string := seedGenerationResourceName pr "iso-workspace".

Definition liveISO_of (s : Snapshot) : option object_map := map_field "liveISO" (default [] (SeedConfig (Document s))).
Definition has_liveISO (s : Snapshot) : bool :=
  bool_decide (assoc_lookup "liveISO" (default [] (SeedConfig (Document s))) <> None).

(** 20Gi *)
Definition seedGenerationISOStorageRequest : Z := 20 * 2 ^ 30.

Definition makeSeedGenerationISOPVC (s : Snapshot) : string + PersistentVolumeClaim :=
  match liveISO_of s with
  | None => inl "frozen liveISO configuration is missing"
  | Some liveISO =>
      let claim class :=
        mkClaim (mkMeta seedGenerationISOPVCName namespace "" (seedGenerationISOResourceLabels "pvc") ∅
                   [seedGenerationSnapshotOwnerReference pr] [] false)
          ["ReadWriteOnce"] (Some seedGenerationISOStorageRequest) class false in
      match assoc_lookup "storageClass" liveISO with
      | None => inr (claim None)
      | Some _ =>
          match string_field "storageClass" liveISO with
          | None => inl "liveISO.storageClass must be a string"
          | Some class => inr (claim (if decide (class = "") then None else Some class))
          end
      end
  end.

Definition job_volumes (s : Snapshot) (pullSecret upload : DataObject) : list (string * VolumeSource) :=
  ([("workspace", ClaimVolume seedGenerationISOPVCName);
   ("installer-config", SecretVolume (data_Name pullSecret)
      [(".dockerconfigjson", "config.json");
       ("image-based-installation-config.yaml", "image-based-installation-config.yaml")]);
   ("upload-credentials", SecretVolume (data_Name upload) []);
   ("mirror-config", ConfigMapVolume (data_Name (snap_ConfigMap s)) [(mirror_file, mirror_file)]);
   ("tmp", EmptyDirVolume true)] ++ certificate_volumes s)%list.
Definition job_mounts (s : Snapshot) : list (string * string * bool) :=
  ([("workspace", "/workspace", false); ("installer-config", "/var/run/seedgen/config", true);
   ("upload-credentials", "/var/run/seedgen/upload", true); ("mirror-config", "/var/run/seedgen/mirror", true);
   ("tmp", "/tmp", false)] ++ certificate_mounts s)%list.

(** The override of the base image. *)
Definition job_override (liveISO : object_map) : string + list (string * string) :=
  match assoc_lookup "baseISOURL" liveISO with
  | None => inr []
  | Some _ =>
      match string_field "baseISOURL" liveISO with
      | Some url =>
          if validSeedGenerationISOHTTPSURL url then inr [("OPENSHIFT_INSTALL_OS_IMAGE_OVERRIDE", url)]
          else inl "frozen liveISO.baseISOURL is invalid"
      | None => inl "frozen liveISO.baseISOURL is invalid"
      end
  end.

Definition makeSeedGenerationISOJob (s : Snapshot) (artifact : seedGenerationISOArtifact) (releaseImage : string)
    (activeDeadline : Z) : string + Job :=
  match validateSeedGenerationToolsImage (ToolsImage (Document s)) with
  | inl e => inl e
  | inr toolsImage =>
      match split_last "@"%char releaseImage with
      | None => inl "pinned release image digest is missing or invalid"
      | Some (_, digest) =>
          if negb (seedGenerationDigestPattern digest) then inl "pinned release image digest is missing or invalid"
          else
            let complete p := negb (bool_decide (entry ".dockerconfigjson" (Data p) = ""))
                              && negb (bool_decide (entry "image-based-installation-config.yaml" (Data p) = "")) in
            match Secrets s !! "pullSecret", Secrets s !! "upload" with
            | Some pullSecret, Some upload =>
                if negb (complete pullSecret) then
                  inl "frozen live ISO credentials or installer configuration are missing"
                else
                  match liveISO_of s with
                  | None => inl "frozen liveISO configuration is missing"
                  | Some liveISO =>
                      match job_override liveISO with
                      | inl e => inl e
                      | inr override =>
                          let env :=
                            ([("HOME", "/tmp/seedgen/home"); ("TMPDIR", "/workspace/tmp");
                             ("XDG_CACHE_HOME", "/workspace/cache"); ("ISO_URL", art_URL artifact);
                             ("ISO_RELEASE_IMAGE", releaseImage); ("ISO_PR_UID", UID pr)] ++ override)%list in
                          inr (mkJob
                            (mkMeta seedGenerationISOJobName namespace "" (seedGenerationISOResourceLabels "job") ∅
                               [seedGenerationSnapshotOwnerReference pr] [] false)
                            (Some 0) (Some 1) (Some 1) (Some activeDeadline) None
                            (<[labels.iso_job := seedGenerationISOJobName]> (seedGenerationISOResourceLabels "pod"))
                            (restricted_pod (job_volumes s pullSecret upload)
                               (restricted_container "iso-builder" toolsImage ["/bin/bash"; "-c"] [EmbeddedISOScript]
                                  "/workspace" env (job_mounts s)))
                            0 0 0 [])
                      end
                  end
            | _, _ => inl "frozen live ISO credentials or installer configuration are missing"
            end
      end
  end.

(** What the fingerprint covers: not the pull policy and the working directory, which
    the API server may fill in. *)
Definition job_contract (pod : PodSpec) (c : Container) : PodSpec :=
  mkPodSpec
    [mkContainer (c_Name c) (c_Image c) "" (c_Command c) (c_Args c) "" (c_Env c) (c_Mounts c)
       (AllowPrivilegeEscalation c) (ReadOnlyRootFilesystem c) (CapabilitiesAdd c) (CapabilitiesDrop c)]
    (InitContainers pod) (Volumes pod) (RestartPolicy pod) (AutomountServiceAccountToken pod)
    (ServiceAccountName pod) (HostNamespaces pod) (RunAsNonRoot pod) (SeccompProfile pod).

Definition seedGenerationISOJobSpecHashV1 (job : Job) : string + string :=
  match Containers (TemplateSpec job) with
  | [c] =>
      match MarshalPodSpec (job_contract (TemplateSpec job) c) with
      | Some data => inr ("v1:sha256:" ++ sha256_hex data)
      | None => inl "failed to encode live ISO Job fingerprint"
      end
  | _ => inl "live ISO Job must have one container"
  end.

(** ** Whether a job is the one that was submitted: the text of the error, if any *)

Definition job_labels (job : Job) : list (string * string) :=
  [(labels.name, Name pr); (labels.uid, UID pr); (labels.iso, "true"); (labels.iso_kind, "pod");
   (labels.iso_job, meta_Name (job_Meta job))].

Definition validateSeedGenerationISOJobIdentity (job : Job) : option string :=
  if negb (bool_decide (meta_Name (job_Meta job) = seedGenerationISOJobName))
     || negb (bool_decide (meta_Namespace (job_Meta job) = namespace))
  then Some "job identity does not match"
  else
    match list_find (fun '(key, value) => entry key (TemplateLabels job) <> value) (job_labels job) with
    | Some (_, (key, _)) => Some ("job pod label " ++ key ++ " does not match")
    | None => if bool_decide (length (Containers (TemplateSpec job)) = 1%nat) then None
              else Some "job must have one container"
    end.

Definition validateSeedGenerationISOJobExecutionPolicy (job : Job) (timeoutSeconds : Z) : option string :=
  let pod := TemplateSpec job in
  if negb (bool_decide (RestartPolicy pod = "Never")) || negb (bool_decide (AutomountServiceAccountToken pod = Some false))
  then Some "pod restart or service account token settings do not match"
  else if bool_decide (BackoffLimit job = Some 0) && bool_decide (Completions job = Some 1)
          && bool_decide (Parallelism job = Some 1) && bool_decide (TTLSecondsAfterFinished job = None)
          && match ActiveDeadlineSeconds job with Some d => (0 <? d) && (d <=? timeoutSeconds) | None => false end
  then None
  else Some "job retry, deadline, or completion settings do not match".

Definition validateSeedGenerationISOJob (job : Job) : option string :=
  match seed_status pr with
  | None => Some "persisted live ISO Job run state is missing"
  | Some status =>
      match validateSeedGenerationISOJobIdentity job with
      | Some e => Some e
      | None =>
          if decide (ISOJobSpecHash status = "") then Some "persisted live ISO Job fingerprint is missing"
          else if negb (String.prefix "v1:sha256:" (ISOJobSpecHash status)) then
            Some "persisted live ISO Job fingerprint version is unsupported"
          else
            match seedGenerationISOJobSpecHashV1 job with
            | inl e => Some e
            | inr hash =>
                if negb (bool_decide (hash = ISOJobSpecHash status)) then
                  Some "job template fingerprint does not match submission intent"
                else validateSeedGenerationISOJobExecutionPolicy job (TimeoutSeconds status)
            end
      end
  end.

(** ** What a job reports *)

Definition job_failure (job : Job) : option string :=
  match list_find (fun '(type, status, _) => type = "Failed" /\ status = ConditionTrue) (job_Conditions job) with
  | Some (_, (_, _, reason)) => Some reason
  | None => None
  end.

Definition seedGenerationISOJobFailed (job : Job) : bool := bool_decide (job_failure job <> None).

Definition seedGenerationISOJobFailureMessage (job : Job) : string :=
  match job_failure job with
  | Some reason =>
      if decide (reason = "DeadlineExceeded") then "Live ISO build Job exceeded its active deadline"
      else "Live ISO build Job failed"
  | None => if 0 <? Failed job then "Live ISO build Job failed" else "Live ISO build Job did not complete successfully"
  end.

(** Any failed condition with this reason counts here, not only the first. *)
Definition seedGenerationISOJobFailureReason (job : Job) : string :=
  if existsb (fun '(type, status, reason) => bool_decide (type = "Failed") && bool_decide (status = ConditionTrue)
                                             && bool_decide (reason = "DeadlineExceeded")) (job_Conditions job)
  then CRconditionReasons.TimedOut else CRconditionReasons.Failed.

Definition progress_of (line : string) : option string :=
  match TrimSpace line with
  | "SEEDGEN_STATUS=extracting-release" => Some "Extracting the installer from the pinned release image"
  | "SEEDGEN_STATUS=building-iso" => Some "Generating the live ISO"
  | "SEEDGEN_STATUS=uploading-iso" => Some "Uploading the live ISO to the configured server"
  | "SEEDGEN_STATUS=verifying-https" => Some "Verifying the published ISO bytes over HTTPS"
  | _ => None
  end.

(** The last stage that the log names, or the empty string. *)
Definition seedGenerationISOProgressMessage (logs : string) : string :=
  default "" (last (omap progress_of (split_at "010"%char logs))).

Definition parseSeedGenerationISOJobResult (message expectedURL : string) : option (string * string) :=
  match split_at "010"%char (TrimSpace message) with
  | [url; digest] =>
      if bool_decide (url = expectedURL) && seedGenerationDigestPattern digest then Some (url, digest) else None
  | _ => None
  end.
End workloads.
End libraries.
