(* ===== verification/SeedRegistry.v ===== *)
(** * Credentials of registries, and the proof that they allow a push
      (controllers/provisioningrequest_seedgeneration_preflight.go)

    The entry of a Docker auth file for a repository is the one with the longest path; a
    push is proved by opening an upload session, and cancelling it, with the challenge of
    the registry answered as OAuth 2 asks for.  A request is a call ([Fetch]). *)
From Stdlib Require Import Ascii.
From stdpp Require Import sorting.
From S2P Require Import Prelude Conditions GoText MergeMaps Unstructured Handler ProvisioningStatus UpgradePlan SeedObjects ProvisioningTask SeedSnapshot SeedWorkloads.
#[local] Open Scope string_scope.
#[local] Open Scope Z_scope.

(** ** Text *)

(** What satisfies [p] at the start, and the rest. *)
Fixpoint span (p : Ascii.ascii -> bool) (s : string) : string * string :=
  match s with
  | "" => ("", "")
  | String c s' => if p c then let '(a, b) := span p s' in (String c a, b) else ("", s)
  end.

(** [strings.Cut] at a character. *)
Definition Cut (sep : Ascii.ascii) (s : string) : string * string * bool :=
  match span (fun c => negb (bool_decide (c = sep))) s with
  | (a, String _ b) => (a, b, true)
  | (a, "") => (a, "", false)
  end.

(** [strings.Trim(s, "/")] *)
Fixpoint trim_slashes_left (s : string) : string :=
  match s with String "/"%char s' => trim_slashes_left s' | _ => s end.
Fixpoint trim_slashes_right (s : string) : string :=
  match s with
  | "" => ""
  | String c s' =>
      match trim_slashes_right s' with
      | "" => if decide (c = "/"%char) then "" else String c ""
      | t => String c t
      end
  end.
Definition TrimSlashes (s : string) : string := trim_slashes_right (trim_slashes_left s).

(** [strings.Fields] *)
Fixpoint Fields (s : string) : list string :=
  match s with
  | "" => []
  | String c s' =>
      if is_space c then Fields s'
      else match s' with
           | "" => [String c ""]
           | String d _ => if is_space d then String c "" :: Fields s'
                           else match Fields s' with [] => [String c ""] | w :: l => String c w :: l end
           end
  end.

Definition contains_any (chars s : string) : bool := negb (all_chars (fun c => negb (is_one_of chars c)) s).

Example Cut_example : Cut "/"%char "quay.io/org/repo" = ("quay.io", "org/repo", true).
Proof. reflexivity. Qed.
Example Fields_example : Fields "  Bearer  a b " = ["Bearer"; "a"; "b"].
Proof. reflexivity. Qed.

(** An error that is a text. *)
Definition or_fail {A} (r : string + A) : prog A := match r with inl e => raise (Errorf e) | inr a => mret a end.

(** ** Credentials *)

Record registryCredentials := mkCreds { username : string; password : string; token : string; identityToken : string }.
Record registryAuthScope := mkScope { scope_host : string; scope_path : string }.

Section registry.
Context `{SeedLibraries} `{SeedFormats}.

(** [None] is an error; its text is not used. *)
Definition normalizeRegistryAuthScope (key : string) : option registryAuthScope :=
  let key := TrimSpace key in
  if decide (key = "") then None
  else
    '(host, path) ←
      (if Contains key "://" then
         match url_Parse key with
         | Some u =>
             if bool_decide (Hostname u = "") || HasUser u || negb (bool_decide (RawQuery u = ""))
                || negb (bool_decide (Fragment u = "")) then None
             else Some (Host u, EscapedPath u)
         | None => None
         end
       else Some (Cut "/"%char key).1);
    let path := TrimSlashes path in
    let path := if decide (path = "v1") then "" else path in
    Some (mkScope (normalizeRegistryHost host) path).

Definition registryAuthScopeMatches (scope : registryAuthScope) (registry repository : string) : bool :=
  if negb (bool_decide (scope_host scope = normalizeRegistryHost registry)) then false
  else if decide (scope_path scope = "") then true
  else bool_decide (repository = scope_path scope) || String.prefix (scope_path scope ++ "/") repository.

(** The keys that match, in order, with their scopes. *)
Definition matching_scopes (auths : gmap string string) (registry repository : string)
    : list (string * registryAuthScope) :=
  omap (fun key =>
    scope ← normalizeRegistryAuthScope key;
    if registryAuthScopeMatches scope registry repository then Some (key, scope) else None)
    (merge_sort string_le (map fst (map_to_list auths))).

(** The first with the longest path. *)
Definition longer (best x : string * registryAuthScope) : string * registryAuthScope :=
  if (String.length (scope_path best.2) <? String.length (scope_path x.2))%nat then x else best.

Definition decode_credentials (encoded : string) : option (string * string) :=
  decoded ← (match DecodeBase64 encoded with Some d => Some d | None => DecodeRawBase64 encoded end);
  let '(user, pass, ok) := Cut ":"%char decoded in
  if (ok : bool) && negb (bool_decide (user = "")) && negb (bool_decide (pass = "")) then Some (user, pass) else None.

(** What an entry has, a token before a name and a password. *)
Definition read_auth (raw : string) : string + registryCredentials :=
  match UnmarshalAuth raw with
  | None => inl "registry auth entry is invalid"
  | Some auth =>
      if negb (bool_decide (auth_RegistryToken auth = "")) then inr (mkCreds "" "" (auth_RegistryToken auth) "")
      else if negb (bool_decide (auth_IdentityToken auth = "")) then inr (mkCreds "" "" "" (auth_IdentityToken auth))
      else
        let use user pass :=
          if bool_decide (user = "") || bool_decide (pass = "")
          then inl "registry auth entry contains no usable credentials" else inr (mkCreds user pass "" "") in
        if negb (bool_decide (auth_Auth auth = ""))
           && (bool_decide (auth_Username auth = "") || bool_decide (auth_Password auth = "")) then
          match decode_credentials (auth_Auth auth) with
          | None => inl "registry auth entry has invalid encoded credentials"
          | Some (user, pass) => use user pass
          end
        else use (auth_Username auth) (auth_Password auth)
  end.

Definition credentialsForRepository (data registry repository : string) : string + registryCredentials :=
  match UnmarshalAuths data with
  | None => inl "credential data is not valid Docker auth JSON"
  | Some auths =>
      match matching_scopes auths registry repository with
      | [] => inl ("credential data has no auth entry for image repository " ++ registry ++ "/" ++ repository)
      | x :: l => read_auth (entry (foldl longer x l).1 auths)
      end
  end.

Definition validateDockerAuthForImage (data image : string) : option string :=
  match imageRepositoryFromPullSpec image with
  | None => Some "invalid image reference"
  | Some (registry, repository) =>
      match credentialsForRepository data registry repository with inl e => Some e | inr _ => None end
  end.

(** ** Files of credentials *)

Definition dockerAuthEntries (data : string) : string + gmap string string :=
  match UnmarshalAuths data with
  | None => inl "credential data is not valid Docker auth JSON"
  | Some auths => inr auths
  end.

(** An entry of [override] wins. *)
Definition mergeDockerAuthFiles (base override : string) : string + string :=
  match dockerAuthEntries base with
  | inl e => inl e
  | inr baseEntries =>
      match dockerAuthEntries override with
      | inl e => inl e
      | inr overrideEntries =>
          match MarshalAuths (overrideEntries ∪ baseEntries) with
          | None => inl "failed to encode merged Docker auth file"
          | Some merged => inr merged
          end
      end
  end.

(** ** The challenge of a registry *)

Definition is_letter (c : Ascii.ascii) : bool := is_lower c || is_upper c.
Definition is_name (c : Ascii.ascii) : bool := is_letter c || is_digit c || is_one_of "_-" c.
Definition dquote : Ascii.ascii := "034"%char.

(** [registryChallengeParam] at the start of a text: a name that starts with a letter, an
    equals sign and a text in quotes; and what is left. *)
Definition match_param (s : string) : option (string * string * string) :=
  match s with
  | "" => None
  | String c s' =>
      if negb (is_letter c) then None
      else
        let '(name, rest) := span is_name s' in
        rest ← CutPrefix (String "="%char (String dquote "")) rest;
        match span (fun d => negb (bool_decide (d = dquote))) rest with
        | (v, String _ rest) => Some (String c name, v, rest)
        | _ => None
        end
  end.

(** All matches; [skip] characters belong to the one before. *)
Fixpoint find_params (skip : nat) (s : string) : list (string * string) :=
  match s with
  | "" => []
  | String _ s' =>
      match skip with
      | S skip => find_params skip s'
      | O => match match_param s with
             | Some (name, v, rest) => (name, v) :: find_params (String.length s' - String.length rest)%nat s'
             | None => find_params O s'
             end
      end
  end.

(** The scheme and the parameters; a later parameter of a name wins. *)
Definition parseRegistryChallenge (header : string) : option (string * gmap string string) :=
  match Fields header with
  | [] => None
  | scheme :: rest =>
      Some (ToLower scheme,
            foldl (fun params '(name, v) => <[ToLower name := v]> params) ∅ (find_params O (Join " " rest)))
  end.

(** ** Requests *)

(** [http.NewRequest] keeps no empty port. *)
Definition removeEmptyPort (host : string) : string := TrimSuffix host ":".
Definition with_url_host (h : string) (u : ParsedURL) : ParsedURL :=
  mkURL (Scheme u) h (Hostname u) (HasUser u) (RawQuery u) (ForceQuery u) (Fragment u) (RawPath u) (Path u).
Definition with_url_query (q : string) (u : ParsedURL) : ParsedURL :=
  mkURL (Scheme u) (Host u) (Hostname u) (HasUser u) q (ForceQuery u) (Fragment u) (RawPath u) (Path u).
Definition NewRequest (method rawURL : string) (form : option (list (string * string))) : option Request :=
  u ← url_Parse rawURL; Some (mkRequest method (with_url_host (removeEmptyPort (Host u)) u) None form).
Definition with_authorization (a : option Authorization) (r : Request) : Request :=
  mkRequest (req_Method r) (req_URL r) a (req_Form r).

Lemma NewRequest_plain method rawURL form r :
  NewRequest method rawURL form = Some r -> req_Method r = method /\ req_Form r = form /\ with_authorization None r = r.
Proof. unfold NewRequest. destruct (url_Parse rawURL); [|done]. by intros [= <-]. Qed.
End registry.

Section push.
Context `{SeedEncoding} `{SeedLibraries} `{SeedFormats} (env : Env).
Abbreviation ask := (ask env).

(** Throttling, timeouts and the errors of the server may pass. *)
Definition seedGenerationHTTPError (status : Z) (text : string) : error :=
  if bool_decide (status = 408) || bool_decide (status = 429) || (500 <=? status)
  then mkError false Transient text else Errorf text.

Definition realm_ok (u : ParsedURL) : bool :=
  bool_decide (Scheme u = "https") && negb (bool_decide (Hostname u = "")) && negb (HasUser u).

(** The request for a token.  An identity token is exchanged in a form; a name and a
    password go into the header. *)
Definition token_request (u : ParsedURL) (service scope : string) (creds : registryCredentials) : option Request :=
  if decide (identityToken creds = "") then
    let settings := ((if decide (service = "") then [] else [("service", service)]) ++ [("scope", scope)])%list in
    r ← NewRequest "GET" (url_String (with_url_query (QueryWith (RawQuery u) settings) u)) None;
    Some (if decide (username creds = "") then r
          else with_authorization (Some (Basic (username creds) (password creds))) r)
  else
    NewRequest "POST" (url_String u)
      (Some [("grant_type", "refresh_token"); ("refresh_token", identityToken creds); ("client_id", "oran-o2ims");
             ("service", service); ("scope", scope)]).

(** The token of a reply. *)
Definition granted (response : Response) : string + string :=
  match DecodeToken (Body response) with
  | None => inl "registry token response was invalid"
  | Some (token, access_token) =>
      let token := if decide (token = "") then access_token else token in
      if decide (token = "") then inl "registry token response did not contain a token" else inr token
  end.

Definition registryToken (roots : string) (challenge : gmap string string) (scope : string) (creds : registryCredentials)
    : prog string :=
  let bad := Errorf "registry authentication challenge has an invalid HTTPS token realm" in
  match url_Parse (entry "realm" challenge) with
  | None => raise bad
  | Some u =>
      if negb (realm_ok u) then raise bad
      else
        match token_request u (entry "service" challenge) scope creds with
        | None => raise (Errorf "failed to create registry token request")
        | Some request =>
            response ← wrapped "registry token request failed" (ask (Fetch roots request));
            if (StatusCode response <? 200) || (300 <=? StatusCode response) then
              raise (seedGenerationHTTPError (StatusCode response)
                       ("registry token request returned HTTP " ++ itoa (StatusCode response)))
            else
              or_fail (granted response)
        end
  end.

Definition registryEndpoint (registry : string) : string :=
  if decide (registry = "docker.io") then "registry-1.docker.io" else registry.
Definition registryURL (registry repository : string) : string :=
  "https://" ++ registryEndpoint registry ++ "/v2/" ++ repository ++ "/blobs/uploads/".

(** The authorization that the registry asks for. *)
Definition answer_challenge (roots registry repository : string) (creds : registryCredentials) (response : Response)
    : prog Authorization :=
  if decide (token creds <> "") then
    raise (Errorf ("registry " ++ registry ++ " rejected the configured registry token"))
  else
    match parseRegistryChallenge (WWWAuthenticate response) with
    | None => raise (Errorf ("registry " ++ registry ++ " rejected authentication: registry did not provide an authentication challenge"))
    | Some (scheme, challenge) =>
        if decide (scheme = "bearer") then
          token ← wrapped ("registry " ++ registry ++ " push authorization failed")
                    (registryToken roots challenge ("repository:" ++ repository ++ ":push") creds);
          mret (Bearer token)
        else if decide (scheme = "basic") then
          if bool_decide (username creds = "") || bool_decide (password creds = "")
          then raise (Errorf ("registry " ++ registry ++ " requires username and password authentication"))
          else mret (Basic (username creds) (password creds))
        else raise (Errorf ("registry " ++ registry ++ " uses unsupported authentication scheme " ++ Quote scheme))
    end.

(** The session that was opened, if it is one of this registry. *)
Definition upload_session (upload : Request) (response : Response) : option Request :=
  if decide (Location response = "") then None
  else
    location ← url_Parse (Location response);
    let resolved := ResolveReference (req_URL upload) location in
    if bool_decide (Scheme resolved = "https") && bool_decide (Host resolved = Host (req_URL upload))
       && Contains (Path resolved) "/blobs/uploads/"
    then
      r ← NewRequest "DELETE" (url_String resolved) None;
      Some (with_authorization (req_Authorization upload) r)
    else None.

(** No blob is uploaded: a session is opened and cancelled. *)
Definition open_session (roots registry repository : string) (creds : registryCredentials) (upload : Request)
    : prog (Request * Response) :=
  let unreachable := "registry " ++ registry ++ " is not reachable" in
  let first := if decide (token creds = "") then upload else with_authorization (Some (Bearer (token creds))) upload in
  response ← wrapped unreachable (ask (Fetch roots first));
  if decide (StatusCode response = 401) then
    authorization ← answer_challenge roots registry repository creds response;
    let second := with_authorization (Some authorization) upload in
    response ← wrapped unreachable (ask (Fetch roots second));
    mret (second, response)
  else mret (first, response).

Definition cancel_session (roots : string) (upload : Request) (response : Response) : prog unit :=
  match upload_session upload response with
  | Some cancel => _ ← try (ask (Fetch roots cancel)); mret tt
  | None => mret tt
  end.

Definition validateRegistryPushAccessWithClient (image authJSON roots : string) : prog unit :=
  match imageRepositoryFromPullSpec image with
  | None => raise (Errorf "invalid image reference")
  | Some (registry, repository) =>
      creds ← or_fail (credentialsForRepository authJSON registry repository);
      if contains_any "/?#@" registry then raise (Errorf "image reference has an invalid registry host")
      else
        match NewRequest "POST" (registryURL registry repository) None with
        | None => raise (Errorf "failed to create registry access request")
        | Some upload =>
            '(upload, response) ← open_session roots registry repository creds upload;
            if decide (StatusCode response <> 202 /\ StatusCode response <> 201) then
              raise (seedGenerationHTTPError (StatusCode response)
                       ("registry " ++ registry ++ " did not grant push access (HTTP " ++ itoa (StatusCode response) ++ ")"))
            else when (bool_decide (StatusCode response = 202)) (cancel_session roots upload response)
        end
  end.

Definition seedGenerationRootCAs (ca : string) : prog unit :=
  _ ← wrapped "failed to load system certificate roots" (ask SystemCertPool);
  if negb (bool_decide (ca = "")) && negb (AppendCertsFromPEM ca)
  then raise (Errorf "no PEM certificates found") else mret tt.

Definition validateRegistryPushAccessWithCA (image authJSON ca : string) : prog unit :=
  _ ← seedGenerationRootCAs ca; validateRegistryPushAccessWithClient image authJSON ca.
End push.
