(* ===== verification/SeedMirrors.v ===== *)
(** * Mirrors of images, and the certificates that registries are trusted with
      (controllers/provisioningrequest_seedgeneration_mirrors.go)

    The mirrors of the configuration, or of the hub, with one entry for each source; a
    release that is named by a tag is looked up in the tag mirrors of the hub. *)
From Stdlib Require Import Ascii.
From stdpp Require Import sorting.
From S2P Require Import Prelude Conditions GoText MergeMaps Unstructured Handler ProvisioningStatus UpgradePlan SeedObjects ProvisioningTask SeedSnapshot SeedWorkloads SeedRegistry.
#[local] Open Scope string_scope.
#[local] Open Scope Z_scope.

(** ** Text *)

Definition TrimPrefix (s prefix : string) : string := default s (CutPrefix prefix s).
Definition HasSuffix (s suffix : string) : bool :=
  (String.length suffix <=? String.length s)%nat
  && bool_decide (String.substring (String.length s - String.length suffix) (String.length suffix) s = suffix).

(** [strings.Replace(s, old, new, 1)] *)
Fixpoint replace_first (s old new : string) : string :=
  match CutPrefix old s with
  | Some rest => new ++ rest
  | None => match s with "" => "" | String c s' => String c (replace_first s' old new) end
  end.

Definition blank (s : string) : bool := bool_decide (TrimSpace s = "").

(** ** One entry for each source *)

Definition NeverContactSource : string := "NeverContactSource".
Definition AllowContactingSource : string := "AllowContactingSource".

Definition trimmed (s : string) : string := TrimSuffix (TrimSpace s) "/".

(** Mirrors keep their first place. *)
Definition add_mirror (mirrors : list string) (mirror : string) : list string :=
  let mirror := trimmed mirror in
  if bool_decide (mirror = "") || bool_decide (mirror ∈ mirrors) then mirrors else (mirrors ++ [mirror])%list.

(** A policy to never contact the source wins, then the first policy. *)
Definition merge_policy (merged policy : string) : string :=
  if decide (policy = NeverContactSource) then policy else if decide (merged = "") then policy else merged.

Definition merge_source (bySource : gmap string ImageDigestSource) (e : ImageDigestSource) : gmap string ImageDigestSource :=
  let source := trimmed (src_Source e) in
  if decide (source = "") then bySource
  else
    let merged := default (mkSource source [] "") (bySource !! source) in
    <[source := mkSource source (foldl add_mirror (Mirrors merged) (Mirrors e))
                  (merge_policy (MirrorSourcePolicy merged) (MirrorSourcePolicy e))]> bySource.

Definition normalizeSeedGenerationImageDigestSources (sources : list ImageDigestSource) : list ImageDigestSource :=
  let bySource := foldl merge_source ∅ sources in
  omap (fun source => bySource !! source) (merge_sort string_le (map fst (map_to_list bySource))).

(** ** The mirrors of the configuration *)

Fixpoint parse_mirrors (at_ : string) (i : Z) (l : list value) : string + list string :=
  match l with
  | [] => inr []
  | v :: l =>
      let bad := inl (at_ ++ ".mirrors[" ++ itoa i ++ "] must be a non-empty string") in
      match v with
      | VLeaf "string" mirror =>
          if blank mirror then bad
          else match parse_mirrors at_ (i + 1) l with
               | inl e => inl e
               | inr mirrors => inr (TrimSuffix mirror "/" :: mirrors)
               end
      | _ => bad
      end
  end.

(** The policy, empty when there is none. *)
Definition parse_policy (at_ : string) (e : object_map) : string + string :=
  match assoc_lookup "mirrorSourcePolicy" e with
  | None => inr ""
  | Some (VLeaf "string" policy) =>
      if decide (policy = NeverContactSource \/ policy = AllowContactingSource) then inr policy
      else inl (at_ ++ ".mirrorSourcePolicy is invalid")
  | Some _ => inl (at_ ++ ".mirrorSourcePolicy is invalid")
  end.

Definition parse_source (at_ : string) (v : value) : string + ImageDigestSource :=
  match v with
  | VMap e =>
      let source := string_or_empty "source" e in
      if blank source then inl (at_ ++ ".source must be a non-empty string")
      else
        match slice_field "mirrors" e with
        | None | Some [] => inl (at_ ++ ".mirrors must be a non-empty array")
        | Some mirrors =>
            match parse_mirrors at_ 0 mirrors with
            | inl e => inl e
            | inr mirrors =>
                match parse_policy at_ e with
                | inl e => inl e
                | inr policy => inr (mkSource (TrimSuffix source "/") mirrors policy)
                end
            end
        end
  | _ => inl (at_ ++ " must be an object")
  end.

Fixpoint parse_sources (i : Z) (l : list value) : string + list ImageDigestSource :=
  match l with
  | [] => inr []
  | v :: l =>
      match parse_source ("liveISO.imageDigestSources[" ++ itoa i ++ "]") v with
      | inl e => inl e
      | inr source => match parse_sources (i + 1) l with inl e => inl e | inr sources => inr (source :: sources) end
      end
  end.

Definition parseSeedGenerationImageDigestSources (raw : value) : string + list ImageDigestSource :=
  match raw with
  | VSlice items =>
      match parse_sources 0 items with
      | inl e => inl e
      | inr sources => inr (normalizeSeedGenerationImageDigestSources sources)
      end
  | _ => inl "liveISO.imageDigestSources must be an array"
  end.

(** ** The mirrors of the hub *)

(** [unstructured.NestedStringSlice] *)
Definition string_slice (key : string) (m : object_map) : option (list string) :=
  l ← slice_field key m; mapM (fun v => match v with VLeaf "string" s => Some s | _ => None end) l.

Fixpoint policy_sources (l : list value) : string + list ImageDigestSource :=
  match l with
  | [] => inr []
  | VMap e :: l =>
      let source := string_or_empty "source" e in
      if blank source then inl "hub ImageContentSourcePolicy contains an invalid repositoryDigestMirrors source"
      else
        match string_slice "mirrors" e with
        | None => inl ("hub ImageContentSourcePolicy contains invalid repositoryDigestMirrors for " ++ Quote source)
        | Some mirrors =>
            match policy_sources l with inl e => inl e | inr sources => inr (mkSource source mirrors "" :: sources) end
        end
  | _ :: _ => inl "hub ImageContentSourcePolicy contains an invalid repositoryDigestMirrors entry"
  end.

Fixpoint policies_sources (l : list ImageContentSourcePolicy) : string + list ImageDigestSource :=
  match l with
  | [] => inr []
  | icsp :: l =>
      match NestedSlice2 "spec" "repositoryDigestMirrors" (icsp_Object icsp) with
      | None => inl "failed to read ImageContentSourcePolicy repositoryDigestMirrors"
      | Some entries =>
          match policy_sources (default [] entries) with
          | inl e => inl e
          | inr sources =>
              match policies_sources l with inl e => inl e | inr rest => inr (sources ++ rest)%list end
          end
      end
  end.

(** ** Which images a mirror is for *)

Definition seedGenerationImageHasDigest (image : string) : bool := Contains image "@sha256:".
Definition seedGenerationImageHasTag (image : string) : bool := negb (seedGenerationImageHasDigest image).

Section libraries.
Context `{SeedLibraries}.

(** A host that starts with an asterisk stands for its subdomains. *)
Definition host_matches (sourceHost registry : string) : bool :=
  if String.prefix "*." sourceHost then
    let suffix := TrimPrefix sourceHost "*" in
    HasSuffix registry suffix && negb (bool_decide (registry = TrimPrefix suffix "."))
  else bool_decide (normalizeRegistryHost sourceHost = registry).

Definition source_parts (source : string) : string * string * bool := Cut "/"%char (ToLower (TrimSuffix source "/")).

Definition seedGenerationMirrorSourceMatches (source registry repository : string) : bool :=
  let '(sourceHost, sourceRepository, hasRepository) := source_parts source in
  if negb (host_matches sourceHost (normalizeRegistryHost registry)) then false
  else if negb hasRepository || bool_decide (sourceRepository = "") then true
  else bool_decide (repository = sourceRepository) || String.prefix (sourceRepository ++ "/") repository.

Definition hasDigestMirrorForImage (image : string) (sources : list ImageDigestSource) : bool :=
  match imageRepositoryFromPullSpec image with
  | None => false
  | Some (registry, repository) =>
      existsb (fun s => negb (bool_decide (Mirrors s = []))
                        && seedGenerationMirrorSourceMatches (src_Source s) registry repository) sources
  end.

(** The tag of the image, with the colon; or its digest. *)
Definition seedGenerationImageTagSuffix (image : string) : string :=
  let image := TrimPrefix image "docker://" in
  match split_last "@"%char image with
  | Some (_, digest) => "@" ++ digest
  | None =>
      let name := match split_last "/"%char image with Some (_, name) => name | None => image end in
      match split_last ":"%char name with Some (_, tag) => ":" ++ tag | None => ":latest" end
  end.

(** The sources that match with the longest text, and its length. *)
Definition add_candidate (registry repository : string) (acc : Z * list ImageTagMirrors) (source : ImageTagMirrors)
    : Z * list ImageTagMirrors :=
  let '(longest, candidates) := acc in
  let n := Z.of_nat (String.length (itm_Source source)) in
  if negb (seedGenerationMirrorSourceMatches (itm_Source source) registry repository) then acc
  else if longest <? n then (n, [source])
  else if n =? longest then (longest, (candidates ++ [source])%list)
  else acc.

Definition candidates (registry repository : string) (sets : list ImageTagMirrorSet) : list ImageTagMirrors :=
  (foldl (add_candidate registry repository) (-1, []) (concat (map TagMirrors sets))).2.

(** What of the repository is not in the source. *)
Definition repository_suffix (source repository : string) : string :=
  let sourceRepository := (source_parts source).1.2 in
  if decide (sourceRepository = repository) then ""
  else if decide (sourceRepository = "") then "/" ++ repository
  else TrimPrefix repository sourceRepository.

(** The image at its mirror, and whether there is one. *)
Definition resolveSeedGenerationImageTagMirror (image : string) (sets : list ImageTagMirrorSet) : string + string * bool :=
  match imageRepositoryFromPullSpec image with
  | None => inl "invalid image reference"
  | Some (registry, repository) =>
      match candidates registry repository sets with
      | [] => inr (image, false)
      | (candidate :: _) as candidates =>
          match concat (map itm_Mirrors candidates) with
          | [] => inl ("hub ImageTagMirrorSet has no mirror for releaseImage " ++ Quote image)
          | mirror :: _ =>
              let resolved := TrimSuffix mirror "/" ++ repository_suffix (itm_Source candidate) repository
                                ++ seedGenerationImageTagSuffix image in
              match imageRepositoryFromPullSpec resolved with
              | None => inl "image tag mirror set resolved releaseImage to an invalid reference"
              | Some _ => inr (resolved, true)
              end
          end
      end
  end.

(** ** Certificates *)

(** A key of a ConfigMap has two dots for the colon before a port. *)
Definition normalizeSeedGenerationRegistryTrustHost (registry : string) : string :=
  normalizeRegistryHost (replace_first registry ".." ":").

Definition blanks : string := String "009" (String "013" (String "010" "")).
Definition validRegistryCertificateHost (v : string) : bool :=
  negb (bool_decide (v = "")) && negb (contains_any ("/\?#@ " ++ blanks) v)
  && negb (Contains v "..") && negb (String.prefix "*" v).

Definition trusted (bundle : TrustBundle) : gmap string string :=
  foldl (fun m '(registry, ca) => <[normalizeSeedGenerationRegistryTrustHost registry := ca]> m) ∅
    (tb_Data bundle ++ tb_BinaryData bundle)%list.

Context `{SeedFormats}.

Definition validateSeedGenerationCertificateBundle (bundle : string) : option string :=
  if AppendCertsFromPEM bundle then None else Some "no PEM certificates found".

Fixpoint check_trusted (l : list (string * string)) : option string :=
  match l with
  | [] => None
  | (registry, bundle) :: l =>
      if negb (validRegistryCertificateHost registry)
      then Some ("additional trusted CA ConfigMap has invalid registry key " ++ Quote registry)
      else match validateSeedGenerationCertificateBundle bundle with
           | Some e => Some ("additional trusted CA for " ++ registry ++ " is invalid: " ++ e)
           | None => check_trusted l
           end
  end.
End libraries.

(** ** Handlers *)

Section mirrors.
Context `{SeedEncoding} `{SeedLibraries} `{SeedFormats} (env : Env).
Abbreviation ask := (ask env).

Definition refuse_deleting (what : string) (l : list (string * bool)) : prog unit :=
  match list_find (fun x => x.2 = true) l with
  | Some (_, (name, _)) => raise (Errorf (what ++ " " ++ name ++ " is being deleted"))
  | None => mret tt
  end.

Definition hubSeedGenerationImageDigestSources : prog (list ImageDigestSource) :=
  idms ← wrapped "failed to list hub ImageDigestMirrorSets" (ask ListIDMS);
  _ ← refuse_deleting "hub ImageDigestMirrorSet" (map (fun x => (idms_Name x, idms_Deleting x)) idms);
  icsp ← wrapped "failed to list hub ImageContentSourcePolicies" (ask ListICSP);
  _ ← refuse_deleting "hub ImageContentSourcePolicy" (map (fun x => (icsp_Name x, icsp_Deleting x)) icsp);
  older ← or_fail (policies_sources icsp);
  mret (normalizeSeedGenerationImageDigestSources (concat (map ImageDigestMirrors idms) ++ older)%list).

Definition seedGenerationImageDigestSources (liveISO : object_map) : prog (list ImageDigestSource) :=
  match assoc_lookup "imageDigestSources" liveISO with
  | Some raw => or_fail (parseSeedGenerationImageDigestSources raw)
  | None => hubSeedGenerationImageDigestSources
  end.

Definition get_trust (what name namespace : string) : prog TrustBundle :=
  bundle ← wrapped ("failed to get " ++ what ++ " ConfigMap " ++ namespace ++ "/" ++ name) (ask (HubTrustBundle name namespace));
  if tb_Deleting bundle then raise (Errorf (what ++ " ConfigMap " ++ namespace ++ "/" ++ name ++ " is being deleted"))
  else mret bundle.

(** The certificates of the hub's own image configuration, if it names any. *)
Definition hub_trust : prog (option TrustBundle) :=
  r ← try (ask ImageConfig);
  match r with
  | inl e => if IsNotFound e then mret None else raise (wrap "failed to get hub image config" e)
  | inr (deleting, name) =>
      if (deleting : bool) then raise (Errorf "hub image config is being deleted")
      else if decide (name = "") then mret None
      else bundle ← get_trust "hub additional trusted CA" name "openshift-config"; mret (Some bundle)
  end.

Definition seedGenerationRegistryTrust (namespace : string) (liveISO : object_map) : prog (gmap string string) :=
  bundle ← match assoc_lookup "additionalTrustBundleConfigMapRef" liveISO with
           | Some (VMap reference) =>
               match seedGenerationString reference "name" with
               | inl _ => raise (Errorf "liveISO.additionalTrustBundleConfigMapRef requires name")
               | inr name => bundle ← get_trust "additional trust" name namespace; mret (Some bundle)
               end
           | Some _ => raise (Errorf "liveISO.additionalTrustBundleConfigMapRef must be an object")
           | None => hub_trust
           end;
  match bundle with
  | None => mret ∅
  | Some bundle =>
      _ ← fail_text (check_trusted (map_to_list (trusted bundle)));
      mret (trusted bundle)
  end.

Definition resolveSeedGenerationMirrorInputs (namespace : string) (liveISO : object_map) (releaseImage : string)
    : prog (string * list ImageDigestSource * gmap string string) :=
  sources ← seedGenerationImageDigestSources liveISO;
  trustedCAs ← seedGenerationRegistryTrust namespace liveISO;
  if seedGenerationImageHasTag releaseImage then
    sets ← wrapped "failed to list hub ImageTagMirrorSets" (ask ListITMS);
    _ ← refuse_deleting "hub ImageTagMirrorSet" (map (fun x => (itms_Name x, itms_Deleting x)) sets);
    '(resolved, matched) ← or_fail (resolveSeedGenerationImageTagMirror releaseImage sets);
    if negb matched && hasDigestMirrorForImage releaseImage sources then
      raise (Errorf ("releaseImage " ++ Quote releaseImage ++ " uses a mutable tag covered only by digest mirrors; use a direct mirror pull-spec or configure an ImageTagMirrorSet"))
    else mret (resolved, sources, trustedCAs)
  else mret (releaseImage, sources, trustedCAs).
End mirrors.

(** * Theory *)

(** ** One entry for each source *)

(** The entries of a source, and what they are merged to. *)
Definition entries_of (source : string) (sources : list ImageDigestSource) : list ImageDigestSource :=
  filter (fun e => trimmed (src_Source e) = source) sources.
Definition merge_all (source : string) (d : ImageDigestSource) (es : list ImageDigestSource) : ImageDigestSource :=
  mkSource source (foldl add_mirror (Mirrors d) (concat (map Mirrors es)))
    (foldl merge_policy (MirrorSourcePolicy d) (map MirrorSourcePolicy es)).

Lemma merge_source_lookup source acc e :
  source <> "" ->
  merge_source acc e !! source =
    if decide (trimmed (src_Source e) = source)
    then Some (merge_all source (default (mkSource source [] "") (acc !! source)) [e]) else acc !! source.
Proof.
  intros Hs. unfold merge_source. cbv zeta. destruct (decide (trimmed (src_Source e) = source)) as [He|He].
  - rewrite He, decide_False, lookup_insert_eq by done. unfold merge_all. cbn [map concat foldl]. by rewrite app_nil_r.
  - case_decide; [done|]. by rewrite lookup_insert_ne.
Qed.

Lemma merge_sources_lookup source sources acc :
  source <> "" ->
  foldl merge_source acc sources !! source =
    match entries_of source sources with
    | [] => acc !! source
    | es => Some (merge_all source (default (mkSource source [] "") (acc !! source)) es)
    end.
Proof.
  intros Hs. revert acc. unfold entries_of. induction sources as [|e sources IH]; intros acc; [done|].
  cbn [foldl]. rewrite IH, merge_source_lookup by done. rewrite filter_cons. case_decide as He; [|done].
  destruct (filter _ sources) as [|e' es]; [done|]. unfold merge_all.
  cbn [default from_option id Mirrors MirrorSourcePolicy map concat foldl]. by rewrite app_nil_r, !foldl_app.
Qed.

Lemma merge_sources_empty sources acc : foldl merge_source acc sources !! "" = acc !! "".
Proof.
  revert acc. induction sources as [|e sources IH]; intros acc; [done|]. cbn [foldl]. rewrite IH.
  unfold merge_source. case_decide; [done|]. by rewrite lookup_insert_ne.
Qed.

Lemma merge_sources_Some source sources s :
  foldl merge_source ∅ sources !! source = Some s <->
  source <> "" /\ entries_of source sources <> [] /\ s = merge_all source (mkSource source [] "") (entries_of source sources).
Proof.
  destruct (decide (source = "")) as [->|Hs]; [rewrite merge_sources_empty, lookup_empty; naive_solver|].
  rewrite merge_sources_lookup, lookup_empty by done. cbn [default from_option].
  destruct (entries_of source sources); naive_solver.
Qed.

Lemma elem_of_entries source sources e : e ∈ entries_of source sources <-> e ∈ sources /\ trimmed (src_Source e) = source.
Proof. unfold entries_of. rewrite list_elem_of_filter. naive_solver. Qed.

(** *** Its mirrors and its policy *)

Lemma add_mirrors acc l :
  NoDup acc -> NoDup (foldl add_mirror acc l)
  /\ (forall m, m ∈ foldl add_mirror acc l <-> m ∈ acc \/ m <> "" /\ m ∈ map trimmed l)
  /\ (foldl add_mirror acc l `sublist_of` acc ++ map trimmed l)%list.
Proof.
  revert acc. induction l as [|x l IH]; intros acc Hn; cbn [foldl map].
  { split_and!; [done|set_solver|by rewrite app_nil_r]. }
  assert (NoDup (add_mirror acc x) /\ (forall m, m ∈ add_mirror acc x <-> m ∈ acc \/ m <> "" /\ m = trimmed x)
          /\ (add_mirror acc x `sublist_of` acc ++ [trimmed x])%list) as (Hn' & Hm' & Hs').
  { unfold add_mirror. cbv zeta. destruct (_ || _) eqn:E.
    - apply orb_true_iff in E. rewrite !bool_decide_eq_true in E.
      split_and!; [done|naive_solver|by apply sublist_inserts_r].
    - bools. split_and!; [|set_solver|done]. apply NoDup_app. split_and!; [done|set_solver|apply NoDup_singleton]. }
  destruct (IH _ Hn') as (H1 & H2 & H3). split_and!; [done| |].
  - intros m. rewrite H2, Hm', elem_of_cons. naive_solver.
  - etransitivity; [exact H3|]. change (trimmed x :: map trimmed l)%list with ([trimmed x] ++ map trimmed l)%list.
    rewrite app_assoc. by apply sublist_app.
Qed.

Lemma merge_policies acc l :
  foldl merge_policy acc l = NeverContactSource <-> acc = NeverContactSource \/ NeverContactSource ∈ l.
Proof.
  revert acc. induction l as [|p l IH]; intros acc; cbn [foldl]; [set_solver|].
  rewrite IH, elem_of_cons. unfold merge_policy. repeat case_decide; naive_solver.
Qed.

Lemma string_le_total : Total string_le.
Proof. intros s t. unfold string_le. destruct (String.leb_total s t); auto. Qed.

Lemma normalized_sources sources :
  map src_Source (normalizeSeedGenerationImageDigestSources sources)
  = merge_sort string_le (map fst (map_to_list (foldl merge_source ∅ sources))).
Proof.
  unfold normalizeSeedGenerationImageDigestSources. cbv zeta. set (m := foldl merge_source ∅ sources).
  assert (Forall (fun source => exists s, m !! source = Some s) (merge_sort string_le (map fst (map_to_list m)))) as Hall.
  { apply Forall_forall. intros source Hs. rewrite merge_sort_Permutation in Hs.
    apply list_elem_of_fmap in Hs as ([k s] & -> & Hs). apply elem_of_map_to_list in Hs. by exists s. }
  induction Hall as [|source l [s Hs] Hl IH]; [done|]. cbn [omap list_omap]. rewrite Hs. cbn [map]. f_equal; [|exact IH].
  by apply merge_sources_Some in Hs as (_ & _ & ->).
Qed.

Lemma elem_of_normalized sources s :
  s ∈ normalizeSeedGenerationImageDigestSources sources <->
  exists source, source <> "" /\ entries_of source sources <> []
    /\ s = merge_all source (mkSource source [] "") (entries_of source sources).
Proof.
  unfold normalizeSeedGenerationImageDigestSources. cbv zeta. rewrite list_elem_of_omap. split.
  - intros (source & _ & Hs). apply merge_sources_Some in Hs. by exists source.
  - intros (source & Hs). apply merge_sources_Some in Hs. exists source. split; [|done].
    rewrite merge_sort_Permutation. apply list_elem_of_fmap. exists (source, s). split; [done|]. by apply elem_of_map_to_list.
Qed.

(** Lemma. *)
Lemma elem_of_concat_mirrors source sources raw :
  raw ∈ concat (map Mirrors (entries_of source sources)) <->
  exists e, e ∈ sources /\ trimmed (src_Source e) = source /\ raw ∈ Mirrors e.
Proof.
  rewrite list_elem_of_In, in_concat. setoid_rewrite <- list_elem_of_In. setoid_rewrite list_elem_of_fmap.
  setoid_rewrite elem_of_entries. naive_solver.
Qed.

(** C15: The mirrors of the configuration and of the hub are normalized.  There is one entry
    for each source that is named, in order; it has exactly the mirrors of all entries of
    that source, once each and in their order, without spaces, trailing slashes and blank
    ones; and the source is never to be contacted exactly when one of these entries says so. *)
Theorem normalized_mirrors sources :
  let l := normalizeSeedGenerationImageDigestSources sources in
  Sorted string_le (map src_Source l) /\ NoDup (map src_Source l)
  /\ (forall source, source ∈ map src_Source l <->
        source <> "" /\ exists e, e ∈ sources /\ trimmed (src_Source e) = source)
  /\ forall s, s ∈ l ->
       NoDup (Mirrors s)
       /\ (forall m, m ∈ Mirrors s <->
             m <> "" /\ exists e raw, e ∈ sources /\ trimmed (src_Source e) = src_Source s /\ raw ∈ Mirrors e /\ trimmed raw = m)
       /\ Mirrors s `sublist_of` map trimmed (concat (map Mirrors (entries_of (src_Source s) sources)))
       /\ (MirrorSourcePolicy s = NeverContactSource <->
             exists e, e ∈ sources /\ trimmed (src_Source e) = src_Source s /\ MirrorSourcePolicy e = NeverContactSource).
Proof.
  cbv zeta. split_and!.
  - rewrite normalized_sources. apply Sorted_merge_sort, string_le_total.
  - rewrite normalized_sources, merge_sort_Permutation. apply NoDup_fst_map_to_list.
  - intros source. rewrite normalized_sources, merge_sort_Permutation, list_elem_of_fmap. split.
    + intros ([k s] & -> & Hs). cbn [fst]. apply elem_of_map_to_list, merge_sources_Some in Hs as (Hk & He & _). split; [done|].
      destruct (entries_of k sources) as [|e es] eqn:E; [done|]. exists e. apply elem_of_entries. rewrite E. by left.
    + intros (Hs & e & He). apply elem_of_entries in He. eexists (source, _). split; [done|]. apply elem_of_map_to_list.
      apply merge_sources_Some. split_and!; [done| |done]. intros E. rewrite E in He. by apply not_elem_of_nil in He.
  - intros s (source & Hs & He & ->)%elem_of_normalized. cbn [src_Source Mirrors MirrorSourcePolicy merge_all].
    destruct (add_mirrors [] (concat (map Mirrors (entries_of source sources))) (NoDup_nil_2)) as (H1 & H2 & H3).
    split_and!; [done| |done|].
    + intros m. rewrite H2, elem_of_nil, list_elem_of_fmap. split.
      * intros [[]|(Hm & raw & -> & (e & ?)%elem_of_concat_mirrors)]. split; [done|]. exists e, raw. naive_solver.
      * intros (Hm & e & raw & Hin & E & Hr & <-). right. split; [done|]. exists raw. split; [done|].
        apply elem_of_concat_mirrors. by exists e.
    + rewrite merge_policies, list_elem_of_fmap. split.
      * intros [E|(e & E & (Hin & E')%elem_of_entries)]; [done|]. by exists e.
      * intros (e & Hin & E & Ep). right. exists e. split; [done|]. by apply elem_of_entries.
Qed.
