(* ===== verification/SeedInputs.v ===== *)
(** * The inputs of a seed run, resolved and frozen
      (controllers/provisioningrequest_seedgeneration_preflight.go, _iso_inputs.go, _iso_ssh.go)

    What a run needs is read from the template, the hub and the cluster, each credential is
    proved where it is used (a push session at the registry, TLS and SSH at the server of
    the ISO), and the result is frozen in the snapshot. *)
From Stdlib Require Import Ascii.
From stdpp Require Import sorting.
From S2P Require Import Prelude Conditions GoText MergeMaps Unstructured Handler ProvisioningStatus UpgradePlan SeedObjects ProvisioningTask ProvisioningValidation NodeConfiguration ProvisioningCluster SeedSnapshot SeedWorkloads SeedRegistry SeedMirrors.
#[local] Open Scope string_scope.
#[local] Open Scope Z_scope.

(** ** The document *)

Definition seedGenerationSecretReference (config : object_map) (key : string) : string + string :=
  match map_field key config with
  | Some ref => seedGenerationString ref "name"
  | None => inl ("seed generation configuration requires " ++ key ++ ".name")
  end.

Definition seedGenerationSnapshotInputDocument (ct : ClusterTemplate) (seedGeneration : object_map) : InputDocument :=
  mkDocument (ct_Name ct) (ct_Namespace ct) (ct_UID ct) (Release ct) (Some seedGeneration) "" "" [] ∅ ∅ ∅.

Definition document_with_config (config : object_map) (d : InputDocument) : InputDocument :=
  mkDocument (ClusterTemplateName d) (ClusterTemplateNamespace d) (ClusterTemplateUID d) (doc_Release d) (Some config)
    (ToolsImage d) (ResolvedReleaseImage d) (ImageDigestSources d) (RegistryTrustedCAs d) (RegistryTrustedCAKeys d)
    (CredentialSecretNames d).
Definition with_mirrors (image : string) (sources : list ImageDigestSource) (cas : gmap string string) (d : InputDocument)
    : InputDocument :=
  mkDocument (ClusterTemplateName d) (ClusterTemplateNamespace d) (ClusterTemplateUID d) (doc_Release d) (SeedConfig d)
    (ToolsImage d) image sources cas (RegistryTrustedCAKeys d) (CredentialSecretNames d).
Definition with_tools_image (image : string) (d : InputDocument) : InputDocument :=
  mkDocument (ClusterTemplateName d) (ClusterTemplateNamespace d) (ClusterTemplateUID d) (doc_Release d) (SeedConfig d)
    image (ResolvedReleaseImage d) (ImageDigestSources d) (RegistryTrustedCAs d) (RegistryTrustedCAKeys d)
    (CredentialSecretNames d).

(** The configuration of the live ISO in the document. *)
Definition document_liveISO (d : InputDocument) : option object_map := config ← SeedConfig d; map_field "liveISO" config.

Definition docker_key : string := ".dockerconfigjson".

(** ** The configuration of the installer *)

Section config.
Context `{SeedFormats}.

(** The certificates in the order of their registries, each on lines of its own. *)
Definition trust_bundle (cas : gmap string string) : string :=
  foldr (fun registry rest => TrimSpace (entry registry cas) ++ newline ++ rest) ""
    (merge_sort string_le (map fst (map_to_list cas))).

Definition seedGenerationISOConfig (document : InputDocument) (pullSecret : string) : string + string :=
  match document_liveISO document with
  | None => inl "frozen liveISO configuration is missing"
  | Some liveISO =>
      if decide (pullSecret = "") then inl "frozen ISO pull credentials are missing"
      else
        match seedGenerationString (default [] (SeedConfig document)) "seedImage" with
        | inl e => inl e
        | inr seedImage =>
            match seedGenerationString liveISO "installationDisk" with
            | inl e => inl e
            | inr disk =>
                let config :=
                  mkISOConfig "v1beta1" "ImageBasedInstallationConfig" "ibi-config" seedImage (doc_Release document) disk
                    (string_or_empty "sshKey" liveISO) pullSecret
                    (map (fun s => (src_Source s, Mirrors s)) (ImageDigestSources document))
                    (trust_bundle (RegistryTrustedCAs document)) in
                match MarshalISOConfig config with
                | Some data => inr data
                | None => inl "failed to encode ISO installation configuration"
                end
            end
        end
  end.
End config.

(** ** Access over SSH *)

(** [path.Dir] *)
Definition path_Dir (p : string) : string :=
  match split_last "/"%char p with Some (directory, _) => path_Clean (directory ++ "/") | None => "." end.

(** A directory is made and removed again under the parent of the run's own. *)
Definition seedGenerationSSHPreflightCommand (parent probe : string) : string :=
  let dq := String "034" "" in
  "set -eu; umask 022; mkdir -p -- '" ++ parent ++ "'; (umask 077; mkdir -- '" ++ probe
  ++ "'; trap 'rm -f -- " ++ dq ++ probe ++ "/access" ++ dq ++ "; rmdir -- " ++ dq ++ probe ++ dq ++ "' EXIT; : > '"
  ++ probe ++ "/access')".

(** [net.JoinHostPort] *)
Definition JoinHostPort (host port : string) : string :=
  if Contains host ":" then "[" ++ host ++ "]:" ++ port else host ++ ":" ++ port.

(** ** Handlers *)

(** A credential by its name, with its data. *)
Abbreviation credentials := (gmap string (gmap string string)).

Section inputs.
Context `{SeedEncoding} `{SeedLibraries} `{SeedFormats} (env : Env).
Abbreviation ask := (ask env).

Definition getTemplateSecret (ct : ClusterTemplate) (name field : string) : prog DataObject :=
  let it := field ++ " Secret " ++ ct_Namespace ct ++ "/" ++ name in
  secret ← wrapped ("failed to get " ++ it) (ask (HubSecret name (ct_Namespace ct)));
  if Deleting (data_Meta secret) then raise (Errorf (it ++ " is being deleted")) else mret secret.

(** *** The kubeconfig of the spoke's administrator *)

Definition cluster_name (o : ProvisioningRequest) : string :=
  match Cluster o with Some d => cd_Name d | None => "" end.

Definition getSeedGenerationClusterDeployment : prog ClusterDeployment :=
  o ← get_object;
  let name := cluster_name o in
  if decide (name = "") then raise (Errorf "provisioning request has no spoke cluster name")
  else
    cd ← wrapped ("failed to get spoke ClusterDeployment " ++ name ++ "/" ++ name) (ask (HubClusterDeployment name));
    if cdep_Deleting cd then raise (Errorf ("spoke ClusterDeployment " ++ name ++ "/" ++ name ++ " is being deleted"))
    else mret cd.

(** It must be a certificate of the administrator, with its key. *)
Definition admin_kubeconfig (it kubeconfig : string) : option string :=
  match RESTConfigFromKubeConfig kubeconfig with
  | None => Some (it ++ " is malformed")
  | Some (bearerToken, certData, keyData) =>
      if negb (bool_decide (bearerToken = "")) || bool_decide (certData = "") || bool_decide (keyData = "")
      then Some (it ++ " must use a client certificate")
      else
        match X509KeyPair certData keyData with
        | None => Some (it ++ " has an invalid client certificate and key")
        | Some leaf =>
            if decide (CommonName leaf = Some "system:admin") then None
            else Some (it ++ " must authenticate as system:admin")
        end
  end.

Definition getSeedGenerationAdminKubeconfig : prog string :=
  cd ← getSeedGenerationClusterDeployment;
  o ← get_object;
  let namespace := cluster_name o in
  let name := match cdep_Metadata cd with Some m => AdminKubeconfigSecretRef m | None => "" end in
  if decide (name = "") then
    raise (Errorf ("spoke ClusterDeployment " ++ namespace ++ "/" ++ namespace ++ " does not reference an admin kubeconfig Secret"))
  else
    let it := "spoke admin kubeconfig Secret " ++ namespace ++ "/" ++ name in
    secret ← wrapped ("failed to get " ++ it) (ask (HubSecret name namespace));
    if Deleting (data_Meta secret) then raise (Errorf (it ++ " is being deleted"))
    else
      let kubeconfig := entry "kubeconfig" (Data secret) in
      if decide (kubeconfig = "") then raise (Errorf (it ++ " is missing non-empty kubeconfig data"))
      else _ ← fail_text (admin_kubeconfig it kubeconfig); mret kubeconfig.

(** *** The credentials of the seed image's registry *)

Definition resolveSeedGenerationRegistryCredentials (ct : ClusterTemplate) (seedGeneration : object_map) : prog string :=
  seedImage ← or_fail (seedGenerationString seedGeneration "seedImage");
  match imageRepositoryFromPullSpec seedImage with
  | None => raise (Errorf "invalid seedImage: invalid image reference")
  | Some (registry, repository) =>
      seedAuthRef ← or_fail (seedGenerationSecretReference seedGeneration "seedAuthSecretRef");
      source ← getTemplateSecret ct seedAuthRef "seedAuthSecretRef";
      let seedAuth := entry "seedAuth" (Data source) in
      if decide (seedAuth = "") then
        raise (Errorf ("secret " ++ ct_Namespace ct ++ "/" ++ seedAuthRef ++ " is missing non-empty " ++ Quote "seedAuth" ++ " data"))
      else
        match validateDockerAuthForImage seedAuth seedImage with
        | Some e =>
            raise (Errorf ("invalid seed registry credentials for image repository " ++ registry ++ "/" ++ repository ++ ": " ++ e))
        | None =>
            trustedCAs ← seedGenerationRegistryTrust env (ct_Namespace ct) [];
            _ ← wrapped "seed image registry push preflight failed"
                  (validateRegistryPushAccessWithCA env seedImage seedAuth (entry registry trustedCAs));
            mret seedAuth
        end
  end.

(** *** The server of the ISO *)

Definition validateSeedGenerationHTTPS (rawURL ca : string) : prog unit :=
  match url_Parse rawURL with
  | None => raise (Errorf "the URL must use HTTPS with a host and no user info, query, or fragment")
  | Some u =>
      if negb (bool_decide (Scheme u = "https")) || bool_decide (Hostname u = "") || HasUser u
         || negb (bool_decide (RawQuery u = "")) || negb (bool_decide (Fragment u = ""))
      then raise (Errorf "the URL must use HTTPS with a host and no user info, query, or fragment")
      else
        _ ← seedGenerationRootCAs env ca;
        let port := if decide (Port u = "") then "443" else Port u in
        _ ← wrapped ("failed to connect to " ++ Host u) (ask (DialTCP (JoinHostPort (Hostname u) port)));
        wrapped ("tls handshake to " ++ Host u ++ " failed") (ask (TLSHandshake (Hostname u) ca))
  end.

Definition validateSeedGenerationSSHUploadAccess (upload : gmap string string) (artifact : seedGenerationISOArtifact)
    (uid : string) : prog unit :=
  if negb (seedGenerationRunIDPattern uid) then raise (Errorf "valid run identity and upload paths are required")
  else
    let parent := path_Dir (RemoteDirectory artifact) in
    uuid ← ask NewUUID;
    let probe := path_Join [parent; ".oran-seedgen-preflight-" ++ uid ++ "-" ++ uuid] in
    _ ← wrapped "upload target SSH authentication, host key, or path validation failed"
          (ask (RunSSHCommand (entry "host" upload) upload (seedGenerationSSHPreflightCommand parent probe)));
    mret tt.

Definition upload_keys : list string := ["host"; "username"; "privateKey"; "remotePath"; "knownHosts"].

Definition validateSeedGenerationISOUploadInputs (liveISO : object_map) (upload : DataObject) : prog unit :=
  match list_find (fun key => blank (entry key (Data upload)) = true) upload_keys with
  | Some (_, key) => raise (Errorf ("upload Secret is missing non-empty " ++ Quote key ++ " data"))
  | None =>
      o ← get_object;
      artifact ← or_fail (seedGenerationISOArtifactForRun o liveISO (Some upload));
      urlBase ← or_fail (seedGenerationString liveISO "urlBase");
      let ca := entry "caCert" (Data upload) in
      _ ← wrapped "liveISO.urlBase TLS preflight failed" (validateSeedGenerationHTTPS urlBase ca);
      _ ← match assoc_lookup "baseISOURL" liveISO with
          | None => mret tt
          | Some _ =>
              let bad := Errorf "liveISO.baseISOURL must be an HTTPS URL with a host and no user info, query, or fragment" in
              match string_field "baseISOURL" liveISO with
              | None => raise bad
              | Some baseISOURL =>
                  if negb (validSeedGenerationISOHTTPSURL baseISOURL) then raise bad
                  else wrapped "liveISO.baseISOURL TLS preflight failed" (validateSeedGenerationHTTPS baseISOURL ca)
              end
          end;
      validateSeedGenerationSSHUploadAccess (Data upload) artifact (UID o)
  end.

(** *** The inputs of the ISO *)

(** The device of the only node of the ClusterInstance. *)
Definition installation_disk (ci : ClusterInstance) : option string :=
  match spec_nodes (ci_Spec ci) with
  | Some [VMap node] =>
      hints ← map_field "rootDeviceHints" node;
      let disk := string_or_empty "deviceName" hints in
      if blank disk then None else Some disk
  | _ => None
  end.

Definition spec_string (key : string) (ci : ClusterInstance) : string :=
  match ci_Spec ci with VMap m => string_or_empty key m | _ => "" end.

Definition derive_release_image (ci : ClusterInstance) (liveISO : object_map) : prog object_map :=
  let imageSet := spec_string "clusterImageSetNameRef" ci in
  if decide (imageSet = "") then
    raise (Errorf ("liveISO.releaseImage is unset and ClusterInstance " ++ ci_Name ci ++ "/" ++ ci_Name ci
                     ++ " has no clusterImageSetNameRef"))
  else
    image ← wrapped ("cannot derive liveISO.releaseImage from ClusterImageSet " ++ imageSet) (ask (HubClusterImageSet imageSet));
    if blank image then
      raise (Errorf ("clusterImageSet " ++ imageSet ++ " has no releaseImage; set liveISO.releaseImage explicitly"))
    else mret (set_key "releaseImage" (VStr image) liveISO).

Definition derive_installation_disk (ci : ClusterInstance) (liveISO : object_map) : prog object_map :=
  match installation_disk ci with
  | None => raise (Errorf "cannot derive liveISO.installationDisk from a single ClusterInstance node's rootDeviceHints.deviceName; set it explicitly for the target servers")
  | Some disk => mret (set_key "installationDisk" (VStr disk) liveISO)
  end.

(** What the configuration leaves out is filled in from the ClusterInstance, in the
    document only. *)
Definition resolveISOInstallInputs (liveISO : object_map) (document : InputDocument) : prog (string * InputDocument) :=
  match SeedConfig document, document_liveISO document with
  | Some config, Some frozen =>
      let has key := negb (bool_decide (assoc_lookup key liveISO = None)) in
      frozen ←
        (if has "releaseImage" && has "installationDisk" then mret frozen
         else
           ci ← wrapped "cannot derive live ISO installation inputs" (getExistingClusterInstance env);
           frozen ← if has "releaseImage" then mret frozen else derive_release_image ci frozen;
           if has "installationDisk" then mret frozen else derive_installation_disk ci frozen);
      image ← or_fail (seedGenerationString frozen "releaseImage");
      mret (image, document_with_config (set_key "liveISO" (VMap frozen) config) document)
  | _, _ => raise (Errorf "frozen liveISO configuration is missing")
  end.

Definition upload_data (upload : DataObject) : gmap string string :=
  filter (fun x => x.1 ∈ ("caCert" :: upload_keys)) (Data upload).

(** The one that the configuration names, or the hub's with the credentials of the seed image. *)
Definition resolve_pull_secret (ct : ClusterTemplate) (liveISO : object_map) (seedAuth : string) : prog string :=
  match assoc_lookup "pullSecretRef" liveISO with
  | Some (VMap ref) =>
      match seedGenerationString ref "name" with
      | inl _ => raise (Errorf "liveISO.pullSecretRef requires name")
      | inr name =>
          secret ← getTemplateSecret ct name "liveISO.pullSecretRef";
          let pullSecret := entry docker_key (Data secret) in
          if decide (pullSecret = "") then
            raise (Errorf ("pull Secret " ++ ct_Namespace ct ++ "/" ++ name ++ " is missing non-empty " ++ Quote docker_key ++ " data"))
          else mret pullSecret
      end
  | Some _ => raise (Errorf "liveISO.pullSecretRef must be an object")
  | None =>
      let it := "hub pull Secret openshift-config/pull-secret" in
      secret ← wrapped ("failed to get " ++ it) (ask (HubSecret "pull-secret" "openshift-config"));
      if Deleting (data_Meta secret) then raise (Errorf (it ++ " is being deleted"))
      else
        wrapped "failed to merge hub and seed registry pull credentials"
          (or_fail (mergeDockerAuthFiles (entry docker_key (Data secret)) seedAuth))
  end.

Definition resolveISOInputs (ct : ClusterTemplate) (liveISO : object_map) (document : InputDocument) (seedAuth : string)
    (creds : credentials) : prog (InputDocument * credentials) :=
  '(releaseImage, document) ← resolveISOInstallInputs liveISO document;
  match imageRepositoryFromPullSpec releaseImage with
  | None => raise (Errorf "invalid liveISO.releaseImage: invalid image reference")
  | Some _ =>
      '(image, sources, cas) ← wrapped "failed to resolve release image mirror configuration"
                                 (resolveSeedGenerationMirrorInputs env (ct_Namespace ct) liveISO releaseImage);
      let document := with_mirrors image sources cas document in
      name ← or_fail (seedGenerationSecretReference liveISO "uploadSecretRef");
      upload ← getTemplateSecret ct name "liveISO.uploadSecretRef";
      _ ← wrapped "frozen live ISO upload credentials failed validation" (validateSeedGenerationISOUploadInputs liveISO upload);
      pullSecret ← resolve_pull_secret ct liveISO seedAuth;
      _ ← wrapped "effective ISO pull Secret is invalid" (or_fail (dockerAuthEntries pullSecret));
      mret (document, <["pullSecret" := {[docker_key := pullSecret]}]> (<["upload" := upload_data upload]> creds))
  end.

(** *** All of them *)

Definition seedGenerationToolsImage : prog string :=
  image ← ask (Getenv tools_image_env); or_fail (validateSeedGenerationToolsImage image).

Definition UpgradeDefaultsSeedGenerationKey : string := "seedGeneration".

Definition resolveSeedGenerationInputSnapshot (ct : ClusterTemplate) : prog (InputDocument * credentials) :=
  merged ← wrapped "failed to resolve seed generation configuration" (trigger env MergeUpgradeData);
  match map_field UpgradeDefaultsSeedGenerationKey merged with
  | None => raise (Errorf "effective seedGeneration configuration is missing")
  | Some seedGeneration =>
      let document := seedGenerationSnapshotInputDocument ct seedGeneration in
      adminKubeconfig ← getSeedGenerationAdminKubeconfig;
      seedAuth ← resolveSeedGenerationRegistryCredentials ct seedGeneration;
      let creds : credentials :=
        {["spokeKubeconfig" := {["kubeconfig" := adminKubeconfig]}; "seedAuth" := {["seedAuth" := seedAuth]}]} in
      match assoc_lookup "liveISO" seedGeneration with
      | None => mret (document, creds)
      | Some (VMap liveISO) =>
          '(document, creds) ← resolveISOInputs ct liveISO document seedAuth creds;
          toolsImage ← seedGenerationToolsImage;
          let document := with_tools_image toolsImage document in
          let pullSecret := default ∅ (creds !! "pullSecret") in
          if decide (entry docker_key pullSecret = "") then raise (Errorf "frozen ISO pull credentials are missing")
          else
            isoConfig ← or_fail (seedGenerationISOConfig document (entry docker_key pullSecret));
            mret (document, <["pullSecret" := <["image-based-installation-config.yaml" := isoConfig]> pullSecret]> creds)
      | Some _ => raise (Errorf "liveISO must be an object")
      end
  end.

(** [None]: retry.  The UIDs of the snapshot are pinned in the status. *)
Definition ensureSeedGenerationInputSnapshot : prog (option Snapshot) :=
  o ← get_object;
  let statusUIDs := seedGenerationSnapshotStatusUIDs o in
  match seed_status o with
  | Some (mkSeed (Some _) _ _ _ _ _ _ _ _ _ _ _ _ _ _ _ _ _ _ _ _ _ _ _) =>
      r ← try (loadSeedGenerationInputSnapshot env);
      r ← match r with
          | inr s => mret (inr s)
          | inl e =>
              if is_kind SnapshotNotFound e then
                ct ← wrapped "failed to get ClusterTemplate for seed generation inputs" (GetClusterTemplateRef env);
                if ct_Deleting ct then
                  raise (Errorf ("cluster template " ++ ct_Namespace ct ++ "/" ++ ct_Name ct ++ " is being deleted"))
                else
                  '(document, credentials) ← resolveSeedGenerationInputSnapshot ct;
                  try (createSeedGenerationInputSnapshot env document credentials)
              else mret (inl e)
          end;
      match r with
      | inl e => if is_kind IncompleteSnapshot e then mret None else raise e
      | inr snapshot =>
          let actualUIDs := seedGenerationInputUIDs snapshot in
          if negb (bool_decide (statusUIDs = ∅)) && negb (seedGenerationSnapshotUIDsEqual statusUIDs actualUIDs)
          then raise (Errorf "seed generation snapshot UIDs do not match ProvisioningRequest status")
          else
            _ ← when (bool_decide (statusUIDs = ∅)) (
                  _ ← modify_seed (with_uids actualUIDs);
                  wrapped "failed to record seed generation snapshot UIDs" (UpdateK8sCRStatus env));
            mret (Some snapshot)
      end
  | _ => raise (Errorf "seed generation must be started before snapshot creation")
  end.

End inputs.
