(* ===== verification/SeedPreflight.v ===== *)
(** * The preflight of a seed run
      (controllers/provisioningrequest_seedgeneration_spoke.go, _tools.go)

    Before anything is removed, the cluster that the frozen kubeconfig opens must be the
    one that the hub knows, and fit for a seed image; its identity is pinned in the status.
    For a live ISO, pods prove that the release can be read and its installer extracted. *)
From Stdlib Require Import Ascii.
From S2P Require Import Prelude Conditions GoText MergeMaps Unstructured Handler ProvisioningStatus UpgradePlan SeedObjects ProvisioningTask ProvisioningValidation SeedSnapshot SeedWorkloads SeedRegistry SeedMirrors SeedInputs.
#[local] Open Scope string_scope.
#[local] Open Scope Z_scope.

(** Of the libraries: the JSON of [oc adm release info], as the digest and the version;
    [json.Unmarshal] into any; the encoding by base64; [ReplaceAllString] of a pattern of
    [regexp], with the replacement; [strings.ToValidUTF8]; [time.Format] with RFC 3339. *)
Class SeedText := {
  DecodeReleaseInfo : string -> option (string * string);
  UnmarshalAny : string -> option value;
  EncodeBase64 : string -> string;
  ReplaceAllString : string -> string -> string -> string;   (* pattern, replacement, text *)
  ToValidUTF8 : string -> string;
  FormatRFC3339 : Z -> string;
}.

Section preflight.
Context `{Semver} `{SeedEncoding} `{SeedLibraries} `{SeedFormats} `{SeedText} (env : Env).
Abbreviation ask := (ask env).

(** ** The client of the spoke *)

Definition seedGenerationSpokeClient (snapshot : Snapshot) : prog unit :=
  let kubeconfig := match Secrets snapshot !! "spokeKubeconfig" with
                    | Some secret => entry "kubeconfig" (Data secret) | None => "" end in
  if decide (kubeconfig = "") then raise (Errorf "seed generation snapshot is missing the spoke admin kubeconfig")
  else ask (OpenSpoke kubeconfig).

(** Every use of the spoke after the preflight goes through this check. *)
Definition verifiedSeedGenerationSpokeClient (snapshot : Snapshot) : prog unit :=
  o ← get_object;
  match seed_status o with
  | None => raise (Errorf "seed generation has no pinned spoke identity")
  | Some s =>
      if decide (ClusterID s = "") then raise (Errorf "seed generation has no pinned spoke identity")
      else
        _ ← seedGenerationSpokeClient snapshot;
        version ← wrapped "failed to verify spoke cluster identity" (ask SpokeVersion);
        if decide (version.1 = ClusterID s) then mret tt
        else raise (Errorf ("spoke cluster identity mismatch: got " ++ Quote version.1 ++ ", expected " ++ Quote (ClusterID s)))
  end.

(** ** Identity *)

(** The first claim of the identity. *)
Definition claimed_id (mc : HubCluster) : string :=
  match list_find (fun c => c.1 = "id.k8s.io") (ClusterClaims mc) with Some (_, c) => c.2 | None => "" end.

Definition validateSeedGenerationSpokeIdentity : prog unit :=
  clusterDeployment ← getSeedGenerationClusterDeployment env;
  o ← get_object;
  let name := cluster_name o in
  let expected := match cdep_Metadata clusterDeployment with Some m => cm_ClusterID m | None => "" end in
  if blank expected then raise (Errorf ("spoke ClusterDeployment " ++ name ++ "/" ++ name ++ " has no cluster ID"))
  else
    mc ← wrapped ("failed to get hub ManagedCluster " ++ name ++ " for identity validation") (ask (HubManagedCluster name));
    if Deleting (hc_Meta mc) then raise (Errorf ("hub ManagedCluster " ++ name ++ " is being deleted"))
    else if blank (claimed_id mc) then
      raise (Errorf ("hub ManagedCluster " ++ name ++ " has no id.k8s.io cluster claim"))
    else if negb (bool_decide (expected = claimed_id mc)) then
      raise (Errorf ("cluster identity mismatch: ClusterDeployment " ++ name ++ "/" ++ name ++ " records " ++ Quote expected
                       ++ ", hub ManagedCluster " ++ name ++ " claims " ++ Quote (claimed_id mc)))
    else
      version ← wrapped "failed to get spoke ClusterVersion for identity validation" (ask SpokeVersion);
      if blank version.1 then raise (Errorf "spoke ClusterVersion is missing spec.clusterID")
      else if decide (version.1 = claimed_id mc) then mret tt
      else raise (Errorf ("spoke cluster identity mismatch: kubeconfig targets cluster ID " ++ Quote version.1
                            ++ ", hub ManagedCluster " ++ name ++ " claims " ++ Quote (claimed_id mc))).

Definition klusterlet_name : string := "klusterlet".

(** What must remain stable after ACM stops reporting is pinned. *)
Definition pinSeedGenerationIdentity (snapshot : Snapshot) : prog unit :=
  o ← get_object;
  match seed_status o with
  | None => raise (Errorf "seed generation run state is missing")
  | Some status =>
      mc ← wrapped "failed to pin ManagedCluster identity" (ask (HubManagedCluster (cluster_name o)));
      version ← wrapped "failed to pin spoke cluster identity" (ask SpokeVersion);
      let clusterID := version.1 in
      if negb (existsb (fun c => bool_decide (c = ("id.k8s.io", clusterID))) (ClusterClaims mc)) || Deleting (hc_Meta mc)
      then raise (Errorf "managedCluster identity changed during seed preflight")
      else if negb (bool_decide (version.2 = doc_Release (Document snapshot))) then
        raise (Errorf ("spoke release " ++ Quote version.2 ++ " does not match the seed template release"))
      else
        nodes ← wrapped "failed to validate seed cluster node count" (ask SpokeNodes);
        if negb (bool_decide (length nodes = 1%nat)) then
          raise (Errorf ("seed generation requires a single-node cluster, found " ++ itoa (Z.of_nat (length nodes)) ++ " nodes"))
        else
          klusterlets ← wrapped "failed to inspect spoke Klusterlets" (ask ListKlusterlets);
          match klusterlets with
          | [kl] =>
              let klusterletUID := meta_UID (kl_Meta kl) in
              let managedUID := meta_UID (hc_Meta mc) in
              if negb (bool_decide (meta_Name (kl_Meta kl) = klusterlet_name)) then
                raise (Errorf ("seed generation requires exactly one Klusterlet named " ++ klusterlet_name))
              else if decide (kl_Mode kl = "Hosted") then
                raise (Errorf "seed generation does not support hosted Klusterlets")
              else if bool_decide (clusterID = "") || bool_decide (managedUID = "") || bool_decide (klusterletUID = "") then
                raise (Errorf "seed generation cluster identity is incomplete")
              else if negb (bool_decide (ClusterID status = ""))
                      && negb (bool_decide (ClusterID status = clusterID) && bool_decide (ManagedClusterUID status = managedUID)
                               && bool_decide (KlusterletUID status = klusterletUID))
              then raise (Errorf "seed generation cluster identity changed after preflight")
              else
                _ ← modify_seed (with_identity clusterID managedUID klusterletUID);
                wrapped "failed to persist seed generation cluster identity" (UpdateK8sCRStatus env)
          | _ => raise (Errorf ("seed generation requires exactly one Klusterlet named " ++ klusterlet_name))
          end
  end.

(** ** Fitness of the spoke *)

Definition containers_label : string := "var-lib-containers".

(** The partition, and the file system on it. *)
Definition machineConfigSharedContainersPartitionParts (ignition : option (list string * list (string * string)))
    : bool * bool :=
  match ignition with
  | None => (false, false)
  | Some (partitions, filesystems) =>
      (bool_decide (containers_label ∈ partitions),
       bool_decide (("/dev/disk/by-partlabel/" ++ containers_label, "/var/lib/containers") ∈ filesystems))
  end.

Definition validateSeedGenerationContainersPartition : prog unit :=
  configs ← wrapped "failed to list spoke MachineConfigs" (ask ListMachineConfigs);
  let parts := map (fun c => machineConfigSharedContainersPartitionParts (Ignition c))
                 (filter (fun c => mcfg_Deleting c = false) configs) in
  if existsb fst parts && existsb snd parts then mret tt
  else raise (Errorf ("spoke is missing MachineConfig configuration for the shared " ++ containers_label
                        ++ " partition and filesystem")).

Definition validateSeedGenerationLCAAvailable : prog unit :=
  let it := "openshift-lifecycle-agent/lifecycle-agent-controller-manager" in
  d ← wrapped ("failed to get LCA operator Deployment " ++ it) (ask LCADeployment);
  if dep_Deleting d || (AvailableReplicas d =? 0) || negb (dep_Available d)
  then raise (Errorf ("lca operator Deployment " ++ it ++ " is not Available")) else mret tt.

(** Nothing of an earlier run is left. *)
Definition absent {A} (what : string) (c : seed_call A) : prog unit :=
  r ← try (ask c);
  match r with
  | inr _ => raise (Errorf ("spoke resource " ++ what ++ " already exists; finish the existing seed run before starting another"))
  | inl e => if IsNotFound e then mret tt else raise (wrap "failed to inspect LCA seed generation resources" e)
  end.

Definition validateSeedGenerationSpokePrerequisites (snapshot : Snapshot) : prog unit :=
  o ← get_object;
  if negb (IsClusterZtpDone o) then raise (Errorf "spoke cluster has not reached ZTP Done")
  else if decide (cluster_name o = "") then raise (Errorf "provisioning request has no spoke cluster name")
  else
    _ ← seedGenerationSpokeClient snapshot;
    _ ← validateSeedGenerationSpokeIdentity;
    _ ← validateSeedGenerationContainersPartition;
    _ ← validateSeedGenerationLCAAvailable;
    _ ← absent "/seedimage" GetSeedGenerator;
    _ ← absent "openshift-lifecycle-agent/seedgen" GetSeedSecret;
    pinSeedGenerationIdentity snapshot.

(** ** The tools *)

Definition line (s : string) : string := s ++ newline.
Definition quoted (s : string) : string := String "034"%char (s ++ String "034"%char "").
Definition tab (s : string) : string := String "009"%char s.
Definition dollar1 : string := quoted "$1".

Definition seedGenerationReleaseInfoCommand : string :=
  line "set -eu"
  ++ line ("if ! oc adm release info --registry-config=/var/run/seedgen/auth/config.json --idms-file=/var/run/seedgen/config/idms.yaml -o json "
             ++ dollar1 ++ " >/tmp/release-info.json 2>/tmp/oc.stderr; then")
  ++ line (tab "echo 'Failed to read release metadata with the frozen registry inputs' >&2")
  ++ line (tab "exit 1")
  ++ line "fi"
  ++ "cat /tmp/release-info.json".

Definition seedGenerationInstallerCommand : string :=
  let binary := quoted "$binary" in
  line "set -eu"
  ++ line "for binary in bash ssh scp sha256sum curl oc cat cp chmod mkdir cut mv rm ln rmdir python3; do"
  ++ line (tab ("command -v " ++ binary ++ " >/dev/null 2>&1 || { echo " ++ quoted "required tool is missing: $binary" ++ " >&2; exit 1; }"))
  ++ line "done"
  ++ line "mkdir -p /tmp/seedgen-installer"
  ++ line ("if ! oc adm release extract --registry-config=/var/run/seedgen/auth/config.json --idms-file=/var/run/seedgen/config/idms.yaml --command=openshift-install --to=/tmp/seedgen-installer "
             ++ dollar1 ++ " >/tmp/release-extract.log 2>&1; then")
  ++ line (tab "echo 'Failed to extract the installer with the frozen registry inputs' >&2")
  ++ line (tab "exit 1")
  ++ line "fi"
  ++ "test -x /tmp/seedgen-installer/openshift-install".

(** The digest and the version. *)
Definition parseSeedGenerationReleaseInfo (output : string) : string + (string * string) :=
  match DecodeReleaseInfo output with
  | None => inl "failed to decode release metadata"
  | Some (digest, version) =>
      if decide (version = "") then inl "release metadata has no version"
      else if negb (seedGenerationDigestPattern digest) then inl "release metadata has no valid sha256 digest"
      else inr (digest, version)
  end.

Definition validateSeedGenerationReleaseVersion (expected actual : string) : option string :=
  match NewVersion expected with
  | None => Some ("invalid ClusterTemplate release version " ++ Quote expected)
  | Some e =>
      match NewVersion actual with
      | None => Some ("invalid release image version " ++ Quote actual)
      | Some a =>
          match Compare e a with
          | Eq => None
          | _ => Some ("release image version " ++ actual ++ " does not match ClusterTemplate release " ++ expected)
          end
      end
  end.

(** [None]: not finished. *)
Definition observeSeedGenerationPreflightPod (snapshot : Snapshot) (toolsImage name command argument : string)
    : prog (option (Pod * string)) :=
  let it := "seed generation preflight Pod " ++ name in
  o ← get_object;
  let made := makeSeedGenerationPreflightPod (operator_namespace env) o snapshot toolsImage name command argument in
  r ← try (ask (HubPod name));
  match r with
  | inl e =>
      if negb (IsNotFound e) then raise (wrap ("failed to get " ++ it) e)
      else
        match made with
        | None => panic
        | Some pod =>
            r ← try (ask (CreatePod pod));
            match r with
            | inl e => if is_kind AlreadyExists e then mret None else raise (wrap ("failed to create " ++ it) e)
            | inr _ => mret None
            end
        end
  | inr pod =>
      if Deleting (pod_Meta pod) then mret None
      else
        _ ← check_owner "tooling" (pod_Meta pod);
        match made with
        | None => panic
        | Some expected =>
            match validateSeedGenerationPreflightPodSpec (pod_Spec pod) (pod_Spec expected) with
            | Some e => raise (Errorf (it ++ " is invalid: " ++ e))
            | None =>
                match pod_Phase pod with
                | PodPending | PodRunning | PodUnknown => mret None
                | PodFailed => raise (Errorf (it ++ " failed: " ++ seedGenerationPodFailureReason pod))
                | PodSucceeded =>
                    logs ← wrapped ("failed to read " ++ it ++ " logs") (ask (PodLogs name));
                    mret (Some (pod, logs))
                | PodPhaseOther phase => raise (Errorf (it ++ " has unsupported phase " ++ Quote phase))
                end
            end
        end
  end.

Definition persistSeedGenerationReleaseDigest (digest : string) : prog unit :=
  status ← get_seed;
  if decide (ReleaseImageDigest status = "") then
    _ ← modify_seed (with_release_digest digest);
    wrapped "failed to persist resolved release image digest" (UpdateK8sCRStatus env)
  else if decide (ReleaseImageDigest status = digest) then mret tt
  else raise (Errorf ("resolved release image digest changed from " ++ ReleaseImageDigest status ++ " to " ++ digest)).

Definition deleteSeedGenerationPreflightPod (pod : Pod) : prog unit :=
  delete_object env Hub "Pod" "delete seed generation preflight Pod" (pod_Meta pod) Background.

(** Whether it is still there. *)
Definition deleteSeedGenerationPreflightPodIfPresent (name : string) : prog bool :=
  r ← try (ask (HubPod name));
  match r with
  | inl e => if IsNotFound e then mret false else raise (wrap ("failed to get seed generation preflight Pod " ++ name) e)
  | inr pod =>
      if Deleting (pod_Meta pod) then mret true
      else
        _ ← check_owner "tooling" (pod_Meta pod);
        _ ← deleteSeedGenerationPreflightPod pod;
        mret true
  end.

(** The digest of the release, once the pod has read it. *)
Definition resolve_release (snapshot : Snapshot) (toolsImage infoPodName : string) : prog unit :=
  r ← observeSeedGenerationPreflightPod snapshot toolsImage infoPodName seedGenerationReleaseInfoCommand
        (ResolvedReleaseImage (Document snapshot));
  match r with
  | None => mret tt
  | Some (pod, logs) =>
      match parseSeedGenerationReleaseInfo logs with
      | inl e => raise (Errorf ("release info preflight output is invalid: " ++ e))
      | inr (digest, version) =>
          _ ← fail_text (validateSeedGenerationReleaseVersion (doc_Release (Document snapshot)) version);
          match pinnedSeedGenerationReleaseImage (ResolvedReleaseImage (Document snapshot)) digest with
          | inl e => raise (Errorf e)
          | inr reference =>
              _ ← persistSeedGenerationReleaseDigest reference;
              deleteSeedGenerationPreflightPod pod
          end
      end
  end.

(** Whether it is complete; if not, the reconcile is retried. *)
Definition ensureSeedGenerationToolsPreflight (snapshot : Snapshot) : prog bool :=
  if negb (has_liveISO snapshot) then mret true
  else
    match liveISO_of snapshot with
    | None => raise (Errorf "frozen liveISO configuration is not an object")
    | Some _ =>
        if decide (ResolvedReleaseImage (Document snapshot) = "") then
          raise (Errorf "frozen resolved release image is missing")
        else
          match validateSeedGenerationToolsImage (ToolsImage (Document snapshot)) with
          | inl e => raise (Errorf e)
          | inr toolsImage =>
              o ← get_object;
              status ← get_seed;
              let infoPodName := seedGenerationResourceName o "release-info" in
              if decide (ReleaseImageDigest status = "") then
                _ ← resolve_release snapshot toolsImage infoPodName; mret false
              else
                pending ← deleteSeedGenerationPreflightPodIfPresent infoPodName;
                if (pending : bool) then mret false
                else
                  let extractPodName := seedGenerationResourceName o "installer" in
                  r ← observeSeedGenerationPreflightPod snapshot toolsImage extractPodName
                        seedGenerationInstallerCommand (ReleaseImageDigest status);
                  match r with
                  | None => mret false
                  | Some _ =>
                      _ ← set_condition env PRconditionTypes.SeedGenerationCompleted CRconditionReasons.InProgress
                            ConditionFalse "Seed generation inputs and installer are validated and frozen";
                      _ ← wrapped "failed to record seed generation installer preflight completion" (UpdateK8sCRStatus env);
                      pending ← deleteSeedGenerationPreflightPodIfPresent extractPodName;
                      mret (negb pending)
                  end
          end
    end.
End preflight.
