(* ===== verification/SeedDetachment.v ===== *)
(** * The detachment of the spoke (controllers/
      provisioningrequest_seedgeneration_detachment.go)

    A seed image must not carry the agents of ACM.  The hub stops placing and importing,
    the add-ons are removed while their agents still run, then the Klusterlet, the records
    of applied works, the CRD and what observability left.  Every step waits for the one
    before, a reconcile at a time. *)
From stdpp Require Import sorting.
From S2P Require Import Prelude Conditions GoText MergeMaps Unstructured Handler ProvisioningStatus UpgradePlan SeedObjects ProvisioningTask ProvisioningValidation SeedSnapshot SeedWorkloads SeedRegistry SeedMirrors SeedInputs SeedPreflight.
#[local] Open Scope string_scope.
#[local] Open Scope Z_scope.

(** ** Dynamic objects *)

(** [unstructured.NestedString]: [None] is an error, [Some None] is not found. *)
Fixpoint NestedString (keys : list string) (v : value) : option (option string) :=
  match keys with
  | [] => match v with VLeaf "string" s => Some (Some s) | _ => None end
  | k :: rest =>
      match v with
      | VNil => Some None
      | VMap m => match assoc_lookup k m with Some v' => NestedString rest v' | None => Some None end
      | _ => None
      end
  end.

(** [unstructured.SetNestedSlice(config, kept, component, field)] *)
Definition set_nested_slice (component field : string) (kept : list value) (config : object_map) : object_map :=
  set_key component (VMap (set_key field (VSlice kept) (default [] (map_field component config)))) config.

Section detachment.
Context `{Semver} `{SeedEncoding} `{SeedLibraries} `{SeedFormats} `{SeedText} (env : Env).
Abbreviation ask := (ask env).

(** ** Progress (provisioningrequest_seedgeneration.go) *)

Definition shows_progress (reason message : string) (o : ProvisioningRequest) : bool :=
  condition_is o PRconditionTypes.SeedGenerationCompleted (fun c =>
    bool_decide (cond_Status c = ConditionFalse) && has_reason [reason] c && bool_decide (cond_Message c = message))
  && bool_decide (Phase o = StateProgressing) && bool_decide (Details o = message).

(** Whether there was something to set. *)
Definition setSeedGenerationProgress (reason message : string) : prog bool :=
  o ← get_object;
  if shows_progress reason message o then mret false
  else
    _ ← set_condition env PRconditionTypes.SeedGenerationCompleted reason ConditionFalse message;
    _ ← set_in_progress env message;
    mret true.

Definition updateSeedGenerationProgress (reason message : string) : prog unit :=
  changed ← setSeedGenerationProgress reason message;
  when changed (wrapped "failed to record seed generation progress" (UpdateK8sCRStatus env)).

Definition waitForSeedGenerationDetachment (message : string) : prog bool :=
  _ ← updateSeedGenerationProgress CRconditionReasons.CleaningACMResources message; mret true.

(** ** Deletion, with the UID as a precondition *)

Definition deleteSeedGenerationObject (p : place) (kind : string) (m : ObjectMeta) (propagation : Propagation) : prog unit :=
  when (negb (Deleting m)) (
    r ← try (ask (Delete p kind m propagation));
    match r with
    | inl e =>
        if IsNotFound e then mret tt
        else raise (wrap ("failed to delete seed generation resource " ++ meta_Namespace m ++ "/" ++ meta_Name m) e)
    | inr _ => mret tt
    end).

(** ** Placement and import *)

Definition detached_taint : string := "seed-generation.clcm.openshift.io/detached".
Definition disableAutoImportAnnotation : string := "import.open-cluster-management.io/disable-auto-import".
Definition no_select : Taint := mkTaint detached_taint "true" "NoSelect".

Definition with_labels (labels annotations : gmap string string) (m : ObjectMeta) : ObjectMeta :=
  mkMeta (meta_Name m) (meta_Namespace m) (meta_UID m) labels annotations (OwnerReferences m) (Finalizers m) (Deleting m).

Definition ensureSeedGenerationNoSelectTaint (clusterName : string) : prog unit :=
  mc ← wrapped "failed to get seed ManagedCluster" (ask (HubManagedCluster clusterName));
  status ← get_seed;
  let m := hc_Meta mc in
  if bool_decide (ManagedClusterUID status = "") || negb (bool_decide (meta_UID m = ManagedClusterUID status)) || Deleting m
  then raise (Errorf "seed ManagedCluster identity changed or deletion has started")
  else
    let ours := filter (fun t => taint_Key t = detached_taint) (Taints mc) in
    if existsb (fun t => negb (bool_decide (taint_Value t = "true") && bool_decide (taint_Effect t = "NoSelect"))) ours
    then raise (Errorf "seed ManagedCluster has a conflicting detachment taint")
    else
      let found := negb (bool_decide (length ours = 0%nat)) in
      if found && bool_decide (Annotations m !! disableAutoImportAnnotation <> None)
         && bool_decide (entry "observability" (Labels m) = "disabled")
      then mret tt
      else
        let m' := with_labels (<["observability" := "disabled"]> (Labels m))
                    (<[disableAutoImportAnnotation := "true"]> (Annotations m)) m in
        wrapped "failed to disable ACM placement and import for seed cluster"
          (ask (PatchHubCluster (mkHubCluster m' (ClusterClaims mc)
                  (if found then Taints mc else (Taints mc ++ [no_select])%list)))).

Definition addon_pause : string := "klusterletaddonconfig-pause".

(** Whether one of them is not paused for certain yet. *)
Fixpoint pause_configs (configs : list ObjectMeta) (pending : bool) : prog bool :=
  match configs with
  | [] => mret pending
  | config :: rest =>
      if Deleting config then pause_configs rest true
      else if EqualFold (entry addon_pause (Annotations config)) "true" then pause_configs rest pending
      else
        _ ← wrapped ("failed to pause KlusterletAddonConfig " ++ meta_Namespace config ++ "/" ++ meta_Name config)
              (ask (PatchAddonConfig (with_labels (Labels config) (<[addon_pause := "true"]> (Annotations config)) config)));
        pause_configs rest true
  end.

Definition pauseSeedGenerationAddonConfigs (clusterName : string) : prog bool :=
  r ← try (ask (ListAddonConfigs clusterName));
  match r with
  | inl e =>
      if is_kind NoMatch e || IsNotFound e then mret false
      else raise (wrap "failed to read seed cluster KlusterletAddonConfigs" e)
  | inr configs => pause_configs configs false
  end.

(** ** Import works *)

Definition seedGenerationReadOnlyConfig (existing : list ManifestConfig) (manifest : option Manifest) : prog ManifestConfig :=
  match manifest with
  | None => raise (Errorf "invalid import manifest")
  | Some m =>
      if bool_decide (mf_Kind m = "") || bool_decide (mf_Version m = "") || bool_decide (mf_Name m = "")
      then raise (Errorf "import manifest is missing apiVersion, kind or name")
      else
        resource ← wrapped "failed to resolve import resource" (ask (RESTMapping (mf_Group m) (mf_Kind m) (mf_Version m)));
        let identifier := (mf_Group m, resource, mf_Name m, mf_Namespace m) in
        let rest := match list_find (fun c => cfg_Identifier c = identifier) existing with
                    | Some (_, c) => cfg_Rest c | None => "" end in
        mret (mkConfig identifier (Some "ReadOnly") rest)
  end.

Fixpoint seedGenerationReadOnlyConfigs (existing : list ManifestConfig) (manifests : list (option Manifest))
    : prog (list ManifestConfig) :=
  match manifests with
  | [] => mret []
  | m :: rest =>
      c ← seedGenerationReadOnlyConfig existing m;
      l ← seedGenerationReadOnlyConfigs existing rest;
      mret (c :: l)
  end.

Definition with_configs (configs : list ManifestConfig) (w : ManifestWork) : ManifestWork :=
  mkWork (work_Meta w) (Manifests w) configs (work_Applied w) (work_Generation w).

(** The work is applied at its present generation. *)
Definition acknowledged (w : ManifestWork) : bool :=
  match work_Applied w with
  | Some (status, g) => bool_decide (status = ConditionTrue) && (g =? work_Generation w)
  | None => false
  end.

Definition pause_work (w : ManifestWork) : prog bool :=
  if Deleting (work_Meta w) then mret false
  else
    configs ← wrapped ("failed to configure import ManifestWork " ++ meta_Name (work_Meta w))
                (seedGenerationReadOnlyConfigs (ManifestConfigs w) (Manifests w));
    if decide (ManifestConfigs w = configs) then mret (acknowledged w)
    else
      _ ← wrapped ("failed to pause import ManifestWork " ++ meta_Name (work_Meta w))
            (ask (PatchImportWork (with_configs configs w)));
      mret false.

Fixpoint pause_works (works : list ManifestWork) (paused : bool) : prog bool :=
  match works with
  | [] => mret paused
  | w :: rest => p ← pause_work w; pause_works rest (paused && p)
  end.

Definition ensureSeedGenerationImportPaused (clusterName : string) : prog bool :=
  works ← wrapped "failed to inspect import ManifestWorks" (ask (ListImportWorks clusterName));
  pause_works works true.

(** ** The Klusterlet and the works that were applied *)

(** Another agent would share what is removed. *)
Definition removeSeedGenerationKlusterlet (clusterName : string) : prog bool :=
  status ← get_seed;
  r ← try (ask ListKlusterlets);
  klusterlets ← match r with
                | inr l => mret l
                | inl e => if is_kind NoMatch e || IsNotFound e then mret []
                           else raise (wrap "failed to inspect remaining spoke Klusterlets" e)
                end;
  if existsb (fun k => negb (bool_decide (meta_Name (kl_Meta k) = klusterlet_name))
                       || negb (bool_decide (meta_UID (kl_Meta k) = KlusterletUID status))) klusterlets
  then raise (Errorf "spoke has a different Klusterlet; refusing to remove shared ACM resources")
  else
    r ← try (ask GetKlusterlet);
    match r with
    | inr k =>
        if negb (bool_decide (meta_UID (kl_Meta k) = KlusterletUID status))
        then raise (Errorf "spoke Klusterlet identity changed after preflight")
        else
          paused ← ensureSeedGenerationImportPaused clusterName;
          if negb paused then waitForSeedGenerationDetachment "Waiting for import ManifestWorks to acknowledge ReadOnly"
          else
            _ ← deleteSeedGenerationObject Spoke "Klusterlet" (kl_Meta k) Background;
            waitForSeedGenerationDetachment "Waiting for Klusterlet removal on the spoke"
    | inl e =>
        if IsNotFound e || is_kind NoMatch e then mret false else raise (wrap "failed to read spoke Klusterlet" e)
    end.

(** Only the import works take their resources along. *)
Definition work_propagation (clusterName : string) (w : AppliedWork) : Propagation :=
  if decide (ManifestWorkName w = clusterName ++ "-klusterlet" \/ ManifestWorkName w = clusterName ++ "-klusterlet-crds")
  then Background else Orphan.

Fixpoint delete_works (clusterName : string) (works : list AppliedWork) : prog bool :=
  match works with
  | [] => mret false
  | w :: rest =>
      if negb (bool_decide (length (Finalizers (aw_Meta w)) = 0%nat)) then mret true
      else
        _ ← deleteSeedGenerationObject Spoke "AppliedManifestWork" (aw_Meta w) (work_propagation clusterName w);
        delete_works clusterName rest
  end.

Definition cleanupSeedGenerationAppliedWorks : prog bool :=
  o ← get_object;
  status ← get_seed;
  if decide (KlusterletUID status = "") then raise (Errorf "seed generation has no pinned ACM agent identity")
  else
    r ← try (ask ListAppliedWorks);
    match r with
    | inl e =>
        if IsNotFound e || is_kind NoMatch e then mret false
        else raise (wrap "failed to list spoke AppliedManifestWorks" e)
    | inr works =>
        match list_find (fun w => AgentID w <> KlusterletUID status) works with
        | Some (_, w) =>
            waitForSeedGenerationDetachment
              ("Waiting for AppliedManifestWork " ++ meta_Name (aw_Meta w) ++ " owned by a different ACM agent ("
                 ++ Quote (AgentID w) ++ "); expected agent " ++ Quote (KlusterletUID status))
        | None =>
            unfinished ← delete_works (cluster_name o) works;
            if (unfinished : bool) || negb (bool_decide (length works = 0%nat))
            then waitForSeedGenerationDetachment "Waiting for AppliedManifestWork cleanup on the spoke"
            else mret false
        end
    end.

(** ** What observability left *)

Definition seedGenerationObservabilitySecret (name : string) : bool :=
  existsb (fun prefix => bool_decide (name = prefix) || String.prefix (prefix ++ "-") name)
    ["hub-alertmanager-router-ca"; "observability-alertmanager-accessor"; "obs-alertmanager-mtls-ca";
     "obs-alertmanager-mtls-cert"; "hub-mtls-ca"].

(** The entries that do not refer to a Secret of ACM, or the text of an error. *)
Fixpoint kept_entries (entries : list value) : string + list value :=
  match entries with
  | [] => inr []
  | VMap m :: rest =>
      match NestedString ["tlsConfig"; "ca"; "name"] (VMap m) with
      | None => inl "invalid monitoring alertmanager CA reference"
      | Some secret =>
          match kept_entries rest with
          | inl e => inl e
          | inr kept => inr (if seedGenerationObservabilitySecret (default "" secret) then kept else VMap m :: kept)
          end
      end
  | _ => inl "monitoring alertmanager configuration must be an object"
  end.

(** The ConfigMap of a namespace, with the component and its field. *)
Definition monitoring_names (namespace : string) : string * string * string :=
  if decide (namespace = "openshift-user-workload-monitoring")
  then ("user-workload-monitoring-config", "prometheus", "additionalAlertmanagerConfigs")
  else ("cluster-monitoring-config", "prometheusK8s", "additionalAlertManagerConfigs").

Definition cleanupSeedGenerationMonitoringConfig (namespace : string) : prog unit :=
  let '(name, component, field) := monitoring_names namespace in
  r ← try (ask (MonitoringConfig name namespace));
  match r with
  | inl e => if IsNotFound e then mret tt else raise (wrap "failed to read monitoring config" e)
  | inr (deleting, config) =>
      if (deleting : bool) then mret tt
      else
        match config with
        | None => raise (Errorf ("failed to decode monitoring config " ++ namespace ++ "/" ++ name))
        | Some config =>
            match NestedSlice2 component field config with
            | None => raise (Errorf "invalid monitoring alertmanager configuration")
            | Some entries =>
                let entries := default [] entries in
                match kept_entries entries with
                | inl e => raise (Errorf e)
                | inr kept =>
                    when (negb (bool_decide (length kept = length entries)))
                      (wrapped "failed to remove ACM monitoring configuration"
                         (ask (PatchMonitoringConfig name namespace (set_nested_slice component field kept config))))
                end
            end
        end
  end.

Fixpoint cleanup_namespaces (namespaces : list string) (pending : bool) : prog bool :=
  match namespaces with
  | [] => mret pending
  | namespace :: rest =>
      _ ← cleanupSeedGenerationMonitoringConfig namespace;
      secrets ← wrapped "failed to inspect residual observability Secrets" (ask (SpokeSecrets namespace));
      let ours := filter (fun s => seedGenerationObservabilitySecret (meta_Name s) = true) secrets in
      _ ← for_each ours (fun s => deleteSeedGenerationObject Spoke "Secret" s Background);
      cleanup_namespaces rest (pending || negb (bool_decide (length ours = 0%nat)))
  end.

Definition cleanupSeedGenerationObservabilitySecrets : prog bool :=
  cleanup_namespaces ["openshift-monitoring"; "openshift-user-workload-monitoring"] false.

(** ** The detachment *)

Definition is_agent_namespace (name : string) : bool :=
  String.prefix "open-cluster-management-agent" name || String.prefix "open-cluster-management-addon-" name.

(** From the CRD on; [crd] is [None] when it is gone. *)
Definition detach_spoke (clusterName : string) (crd : option ObjectMeta) : prog bool :=
  pending ← match crd with Some _ => removeSeedGenerationKlusterlet clusterName | None => mret false end;
  if (pending : bool) then mret true
  else
    pending ← cleanupSeedGenerationAppliedWorks;
    if (pending : bool) then mret true
    else
      match crd with
      | Some crd =>
          _ ← deleteSeedGenerationObject Spoke "CustomResourceDefinition" crd Background;
          waitForSeedGenerationDetachment "Waiting for Klusterlet CRD removal on the spoke"
      | None =>
          namespaces ← wrapped "failed to check ACM namespace removal" (ask SpokeNamespaces);
          match list_find (fun name => is_agent_namespace name = true) namespaces with
          | Some (_, name) => waitForSeedGenerationDetachment ("Waiting for ACM namespace removal: " ++ name)
          | None =>
              pending ← cleanupSeedGenerationObservabilitySecrets;
              if (pending : bool) then waitForSeedGenerationDetachment "Waiting for ACM observability artifact cleanup"
              else
                _ ← modify_seed (with_agents_gone true);
                _ ← setSeedGenerationProgress CRconditionReasons.InProgress
                      "ACM detachment completed; preparing LCA seed generation";
                _ ← wrapped "failed to record ACM detachment completion" (UpdateK8sCRStatus env);
                mret false
          end
      end.

(** Whether it is still going on. *)
Definition reconcileSeedGenerationAgentDetachment (snapshot : Snapshot) : prog bool :=
  d ← get_details;
  match SeedStatus d with
  | None => raise (Errorf "seed generation run state is missing")
  | Some status =>
      if AgentDetachmentCompleted status then mret false
      else
        _ ← verifiedSeedGenerationSpokeClient env snapshot;
        let clusterName := cd_Name d in
        _ ← ensureSeedGenerationNoSelectTaint clusterName;
        pending ← pauseSeedGenerationAddonConfigs clusterName;
        if (pending : bool) then waitForSeedGenerationDetachment "Waiting for KlusterletAddonConfig reconciliation to pause"
        else
          addons ← wrapped "failed to list seed cluster add-ons" (ask (ListAddons clusterName));
          _ ← for_each addons (fun a => deleteSeedGenerationObject Hub "ManagedClusterAddOn" a Background);
          match addons with
          | _ :: _ =>
              waitForSeedGenerationDetachment
                ("Waiting for ACM add-on removal: " ++ Join ", " (merge_sort string_le (map meta_Name addons)))
          | [] =>
              r ← try (ask KlusterletCRD);
              match r with
              | inr crd => detach_spoke clusterName (Some crd)
              | inl e =>
                  if IsNotFound e then detach_spoke clusterName None
                  else raise (wrap "failed to read Klusterlet CRD" e)
              end
          end
  end.
End detachment.
