(* ===== verification/SeedCleanup.v ===== *)
(** * The end of a seed run
      (controllers/provisioningrequest_seedgeneration.go, _lifecycle.go, _iso.go,
      _iso_cleanup.go)

    What a run leaves behind is removed in order: the objects on the spoke while the
    frozen kubeconfig can still open it, the job of the ISO before its pods and both before
    the upload, and the frozen inputs last. *)
From S2P Require Import Prelude Conditions GoText MergeMaps Unstructured Handler ProvisioningStatus UpgradePlan SeedObjects ProvisioningTask ProvisioningValidation SeedSnapshot SeedWorkloads SeedRegistry SeedMirrors SeedInputs SeedPreflight SeedDetachment.
#[local] Open Scope string_scope.
#[local] Open Scope Z_scope.

Definition Hour : Z := 60 * Minute.

Section cleanup.
Context `{Semver} `{SeedEncoding} `{SeedLibraries} `{SeedFormats} `{SeedText} (env : Env).
Abbreviation ask := (ask env).

(** ** The spoke *)

(** The text of the error, if any. *)
Definition validateSeedGenerationLCAOwnership (m : ObjectMeta) (pr : ProvisioningRequest) : option string :=
  if of_request pr m && has_label labels.run "true" m then None
  else Some ("lca resource " ++ meta_Namespace m ++ "/" ++ meta_Name m ++ " is not owned by ProvisioningRequest "
               ++ Name pr ++ " with UID " ++ UID pr).
Definition owned_by (pr : ProvisioningRequest) (m : ObjectMeta) : bool :=
  bool_decide (validateSeedGenerationLCAOwnership m pr = None).

Definition seedGenerationLCACondition : list Condition -> string -> option Condition := FindStatusCondition.
Definition LCA_completed (sg : SeedGenerator) : bool :=
  match seedGenerationLCACondition (sg_Conditions sg) "SeedGenCompleted" with
  | Some c => is_true c && has_reason ["Completed"] c | None => false
  end.
Definition LCA_failed (sg : SeedGenerator) : option string :=
  match seedGenerationLCACondition (sg_Conditions sg) "SeedGenCompleted" with
  | Some c => if bool_decide (cond_Status c = ConditionFalse) && has_reason ["Failed"] c then Some (cond_Message c) else None
  | None => None
  end.

(** The SeedGenerator: [None] when the agent may still work, else whether it was gone
    already.  Deleting it does not stop the agent. *)
Definition cleanup_generator : prog (option bool) :=
  o ← get_object;
  r ← try (ask GetSeedGenerator);
  status ← get_seed;
  match r with
  | inr sg =>
      if negb (owned_by o (sg_Meta sg)) then mret (Some true)
      else
        let stopped := SeedGeneratorFinished status || LCA_completed sg || bool_decide (LCA_failed sg <> None) in
        if negb stopped then mret None
        else
          _ ← when (negb (SeedGeneratorFinished status)) (
                _ ← modify_seed (with_finished true);
                wrapped "failed to record LCA termination before cleanup" (UpdateK8sCRStatus env));
          _ ← deleteSeedGenerationObject env Spoke "SeedGenerator" (sg_Meta sg) Background;
          mret (Some false)
  | inl e =>
      if negb (IsNotFound e) then raise (wrap "failed to get spoke SeedGenerator during cleanup" e)
      else mret (if SeedGeneratorSubmitted status && negb (SeedGeneratorFinished status) then None else Some true)
  end.

Definition cleanup_seed_secret : prog bool :=
  o ← get_object;
  r ← try (ask GetSeedSecret);
  match r with
  | inr secret =>
      if owned_by o (data_Meta secret) then
        _ ← deleteSeedGenerationObject env Spoke "Secret" (data_Meta secret) Background; mret false
      else mret true
  | inl e =>
      if IsNotFound e then mret true else raise (wrap "failed to get spoke seedgen Secret during cleanup" e)
  end.

(** Whether something is left. *)
Definition cleanupSeedGenerationDetachedResources : prog bool :=
  o ← get_object;
  match seed_status o with
  | None => mret false
  | Some status =>
      if negb (DetachmentStarted status) then mret false
      else
        snapshot ← wrapped "failed to load seed generation snapshot for spoke cleanup" (loadSeedGenerationInputSnapshot env);
        _ ← verifiedSeedGenerationSpokeClient env snapshot;
        r ← cleanup_generator;
        match r with
        | None => mret true
        | Some clean => secret_clean ← cleanup_seed_secret; mret (negb (clean && secret_clean))
        end
  end.

(** The completion is recorded before the snapshot goes, which alone opens the spoke. *)
Definition cleanupSeedGenerationDetachedResourcesAndRecordCompletion : prog bool :=
  o ← get_object;
  match seed_status o with
  | None => mret false
  | Some status =>
      if negb (DetachmentStarted status) || DetachedCleanupCompleted status then mret false
      else
        pending ← cleanupSeedGenerationDetachedResources;
        if (pending : bool) then mret true
        else
          _ ← modify_seed (with_spoke_cleaned true);
          _ ← wrapped "failed to record spoke seed generation cleanup completion" (UpdateK8sCRStatus env);
          mret false
  end.

(** ** The job of the live ISO and its pods *)

Definition iso_selector (o : ProvisioningRequest) : gmap string string := <[labels.iso := "true"]> (request_labels o).

(** The jobs have one UID, which is returned. *)
Fixpoint check_jobs (o : ProvisioningRequest) (jobs : list Job) (jobUID : string) : string + string :=
  match jobs with
  | [] => inr jobUID
  | job :: rest =>
      let m := job_Meta job in
      if negb (bool_decide (meta_Name m = seedGenerationISOJobName o)) || bool_decide (meta_UID m = "")
      then inl ("unexpected live ISO build Job " ++ meta_Namespace m ++ "/" ++ meta_Name m)
      else
        match validateSeedGenerationISOResourceOwner o m "job" with
        | Some e => inl e
        | None =>
            if negb (bool_decide (jobUID = "")) && negb (bool_decide (jobUID = meta_UID m))
            then inl "live ISO build Job UID does not match the persisted run state"
            else check_jobs o rest (meta_UID m)
        end
  end.

(** The job is pinned before it is deleted, so that its pods are still known after an
    interruption. *)
Definition pin_job (jobUID : string) : prog unit :=
  o ← get_object;
  if decide (jobUID = "") then mret tt
  else
    match seed_status o with
    | None => raise (Errorf "live ISO cleanup has no persisted run state")
    | Some status =>
        when (bool_decide (ISOJobUID status = "")) (
          _ ← modify_seed (with_job_uid jobUID);
          r ← try (UpdateK8sCRStatus env);
          match r with
          | inr _ => mret tt
          | inl e =>
              _ ← modify_seed (with_job_uid "");
              raise (wrap "failed to pin live ISO build Job UID before cleanup" e)
          end)
    end.

Definition deleteSeedGenerationISOJobAndPods : prog bool :=
  o ← get_object;
  jobs ← wrapped "failed to list live ISO build Jobs" (ask (ListJobs (iso_selector o)));
  pods ← wrapped "failed to list live ISO build Pods" (ask (ListPods (iso_selector o)));
  let pinned := match seed_status o with Some s => ISOJobUID s | None => "" end in
  match check_jobs o jobs pinned with
  | inl e => raise (Errorf e)
  | inr jobUID =>
      _ ← for_each pods (fun pod =>
            fail_text (validateSeedGenerationISOPodOwner (operator_namespace env) o (pod_Meta pod)
                         (seedGenerationISOJobName o) jobUID true));
      _ ← pin_job jobUID;
      _ ← for_each jobs (fun job => delete_unless_deleting env Hub "Job" "delete live ISO build Job" (job_Meta job));
      _ ← for_each pods (fun pod => delete_unless_deleting env Hub "Pod" "delete live ISO build Pod" (pod_Meta pod));
      mret (negb (bool_decide (length jobs = 0%nat)) || negb (bool_decide (length pods = 0%nat)))
  end.

(** ** The upload *)

Definition seedGenerationISOCompleted (o : ProvisioningRequest) : bool :=
  condition_is o PRconditionTypes.SeedGenerationCompleted (fun c => is_true c && has_reason [CRconditionReasons.Completed] c).

Definition manual_cleanup (o : ProvisioningRequest) : string :=
  "Incomplete live ISO upload could not be safely removed; check the upload server's seedgen/" ++ UID o
    ++ " directory and remove this run's files manually".

Definition append_message (message : string) (c : Condition) : Condition :=
  if Contains (cond_Message c) message then c
  else mkCondition (cond_Type c) (cond_Status c) (cond_Reason c) (cond_Message c ++ "; " ++ message)
         (cond_LastTransitionTime c) (cond_ObservedGeneration c).

(** The message is added to the first condition of the type, and to the details. *)
Fixpoint append_to_condition (conditionType message : string) (cs : list Condition) : list Condition :=
  match cs with
  | [] => []
  | c :: rest => if decide (cond_Type c = conditionType) then append_message message c :: rest
                 else c :: append_to_condition conditionType message rest
  end.

Definition note_manual_cleanup : prog unit :=
  o ← get_object;
  let message := manual_cleanup o in
  _ ← modify_object (fun o =>
        with_conditions (append_to_condition PRconditionTypes.SeedGenerationCompleted message (Conditions o)) o);
  when (bool_decide (Phase o = StateFailed))
    (modify_object (fun o => with_phase (Phase o) (Details o ++ "; " ++ message) (UpdateTime o) o)).

Definition completeSeedGenerationISOUploadCleanup (manual : bool) : prog unit :=
  _ ← when manual note_manual_cleanup;
  _ ← modify_seed (with_upload_cleaned true);
  wrapped "failed to record ISO upload cleanup completion" (UpdateK8sCRStatus env).

(** Whether it must be tried again: until a deadline, with the frozen credentials. *)
Definition cleanupSeedGenerationISOUpload : prog bool :=
  o ← get_object;
  match seed_status o with
  | None => mret false
  | Some status =>
      if negb (ISOJobSubmitted status) || ISOUploadCleanupCompleted status || seedGenerationISOCompleted o then mret false
      else
        time ← now env;
        let deadline := default (time + 5 * Minute) (ISOUploadCleanupDeadline status) in
        _ ← when (bool_decide (ISOUploadCleanupDeadline status = None)) (
              _ ← modify_seed (with_cleanup_deadline (Some deadline));
              wrapped "failed to record ISO upload cleanup deadline" (UpdateK8sCRStatus env));
        time ← now env;
        if deadline <=? time then _ ← completeSeedGenerationISOUploadCleanup true; mret false
        else
          r ← try (loadSeedGenerationInputSnapshot env);
          match r with
          | inl _ => mret true
          | inr snapshot =>
              let upload := Secrets snapshot !! "upload" in
              match seedGenerationISOArtifactForRun o (default [] (liveISO_of snapshot)) upload with
              | inl _ => _ ← completeSeedGenerationISOUploadCleanup true; mret false
              | inr artifact =>
                  let credentials := match upload with Some u => Data u | None => ∅ end in
                  r ← try (ask (RunSSHCommand (entry "host" credentials) credentials
                                  (seedGenerationISOUploadCleanupCommand artifact (UID o))));
                  match r with
                  | inl _ => mret true
                  | inr output =>
                      _ ← completeSeedGenerationISOUploadCleanup (negb (bool_decide (TrimSpace output = "removed")));
                      mret false
                  end
              end
          end
  end.

(** ** What is left of the live ISO *)

(** The time until retained diagnostics expire, an hour at most. *)
Definition seedGenerationISOFailureRetentionDelay : prog Z :=
  o ← get_object;
  time ← now env;
  mret match s ← seed_status o; ISOFailureDiagnosticsExpiresAt s with
       | Some expiresAt => if expiresAt - time <=? 0 then 0 else Z.min (expiresAt - time) Hour
       | None => 0
       end.

(** Whether one was there to delete. *)
Fixpoint delete_ISO_objects (preserved : list string) (kind : string) (objects : list ObjectMeta) (pending : bool)
    : prog bool :=
  match objects with
  | [] => mret pending
  | m :: rest =>
      o ← get_object;
      let isoKind := entry labels.iso_kind (Labels m) in
      _ ← fail_text (validateSeedGenerationISOResourceOwner o m isoKind);
      if bool_decide (isoKind ∈ preserved) then delete_ISO_objects preserved kind rest pending
      else
        _ ← delete_unless_deleting env Hub kind "delete live ISO resource" m;
        delete_ISO_objects preserved kind rest true
  end.

Definition deleteSeedGenerationISOResources (preserveCA retainFailureDiagnostics : bool) : prog bool :=
  o ← get_object;
  let preserved := ((if preserveCA then ["ca"] else []) ++ (if retainFailureDiagnostics then ["diagnostics"] else []))%list in
  claims ← wrapped "failed to list live ISO resources" (ask (ListClaims (iso_selector o)));
  pending ← delete_ISO_objects preserved "PersistentVolumeClaim" (map claim_Meta claims) false;
  configMaps ← wrapped "failed to list live ISO resources" (ask (ListConfigMaps (iso_selector o)));
  delete_ISO_objects preserved "ConfigMap" (map data_Meta configMaps) pending.

Definition cleanupSeedGenerationISOResources (preserveCA preserveDiagnostics : bool) : prog bool :=
  pending ← deleteSeedGenerationISOJobAndPods;
  if (pending : bool) then mret true
  else
    pending ← cleanupSeedGenerationISOUpload;
    if (pending : bool) then mret true
    else
      delay ← seedGenerationISOFailureRetentionDelay;
      deleteSeedGenerationISOResources preserveCA (preserveDiagnostics && (0 <? delay)).

(** ** The end of a run *)

Definition cleanupSeedGenerationRunResources : prog bool :=
  pending ← cleanupSeedGenerationDetachedResourcesAndRecordCompletion;
  if (pending : bool) then mret true
  else
    o ← get_object;
    pending ← cleanupSeedGenerationISOResources (seedGenerationISOCompleted o) true;
    if (pending : bool) then mret true else cleanupSeedGenerationPreflightResources env.

(** After the clean-up: come back while something is pending or retained. *)
Definition after_cleanup (pending : bool) : prog Result :=
  if pending then mret requeueWithShortInterval
  else
    delay ← seedGenerationISOFailureRetentionDelay;
    mret (if 0 <? delay then mkResult false delay else doNotRequeue).

Definition failSeedGeneration (reason message : string) : prog Result :=
  _ ← set_condition env PRconditionTypes.SeedGenerationCompleted reason ConditionFalse message;
  _ ← set_failed env message;
  _ ← wrapped "failed to record seed generation failure" (UpdateK8sCRStatus env);
  pending ← wrapped "failed to clean up seed generation preflight resources after failure" cleanupSeedGenerationRunResources;
  after_cleanup pending.

Definition handle_error (reason operation : string) (e : error) : prog Result :=
  if isSeedGenerationTransientError e then raise (wrap operation e)
  else failSeedGeneration reason (operation ++ ": " ++ Error e).
Definition handleSeedGenerationLifecycleError : string -> error -> prog Result := handle_error CRconditionReasons.Failed.
Definition handleSeedGenerationPreflightError : string -> error -> prog Result :=
  handle_error CRconditionReasons.PreconditionChecksFailed.

(** ** The deletion of the request *)

Definition delete_labelled (kind : string) (objects : list ObjectMeta) : prog bool :=
  _ ← for_each objects (delete_unless_deleting env Hub kind "delete seed generation resource");
  mret (bool_decide (length objects = 0%nat)).

Definition delete_all_kinds : prog bool :=
  o ← get_object;
  let labels := request_labels o in
  let list_kind {A} (c : seed_call (list A)) := wrapped "failed to list seed generation resources" (ask c) in
  jobs ← list_kind (ListJobs labels);
  c1 ← delete_labelled "Job" (map job_Meta jobs);
  pods ← list_kind (ListPods labels);
  c2 ← delete_labelled "Pod" (map pod_Meta pods);
  claims ← list_kind (ListClaims labels);
  c3 ← delete_labelled "PersistentVolumeClaim" (map claim_Meta claims);
  secrets ← list_kind (ListSecrets labels);
  c4 ← delete_labelled "Secret" (map data_Meta secrets);
  configMaps ← list_kind (ListConfigMaps labels);
  c5 ← delete_labelled "ConfigMap" (map data_Meta configMaps);
  mret (c1 && c2 && c3 && c4 && c5).

(** Whether all is gone.  The spoke is scrubbed only when its node is retained: otherwise
    the deletion of the NodeAllocationRequest wipes it. *)
Definition cleanupSeedGenerationResources : prog bool :=
  o ← get_object;
  if bool_decide (seed_status o = None) && bool_decide (seedGenerationCondition o = None) then mret true
  else if decide (UID o = "") then
    raise (Errorf ("cannot clean seed resources for ProvisioningRequest " ++ Name o ++ " without a UID"))
  else
    pending ← cleanupSeedGenerationISOResources false false;
    if (pending : bool) then mret false
    else
      let scrub := SkipCleanup o && match seed_status o with Some s => DetachmentStarted s | None => false end in
      pending ← (if scrub then wrapped "failed to clean up spoke seed generation resources"
                                 cleanupSeedGenerationDetachedResourcesAndRecordCompletion
                 else mret false);
      if (pending : bool) then mret false else delete_all_kinds.
End cleanup.
