(* ===== verification/SeedISO.v ===== *)
(** * The live ISO of a seed run
      (controllers/provisioningrequest_seedgeneration_iso.go, _iso_diagnostics.go)

    One job builds, uploads and verifies the ISO.  The intent to submit it is stored before
    it is created, with the time and a fingerprint, so it is submitted once; what it reports
    is accepted only from its own pods.  The log of a failed job is kept for a day. *)
From Stdlib Require Import Ascii.
From stdpp Require Import sorting.
From S2P Require Import Prelude Conditions GoText MergeMaps Unstructured Handler ProvisioningStatus UpgradePlan SeedObjects ProvisioningTask ProvisioningValidation SeedSnapshot SeedWorkloads SeedRegistry SeedMirrors SeedInputs SeedPreflight SeedDetachment SeedCleanup.
#[local] Open Scope string_scope.
#[local] Open Scope Z_scope.

(** ** What a log says *)

(** Only fixed stage codes are trusted. *)
Definition failure_stages : list (string * string) :=
  [("initializing", "initializing the build workspace");
   ("loading-build-result", "loading a previously verified build result");
   ("loading-https-trust", "loading HTTPS trust");
   ("preparing-upload", "loading the upload configuration");
   ("connecting-to-upload-server", "checking SSH connectivity, authentication, and the upload server host key");
   ("preparing-remote-directory", "creating the remote upload directory");
   ("preparing-remote-file", "reserving a new remote run directory and upload file");
   ("extracting-installer", "extracting the installer from the pinned release image");
   ("building-iso", "generating the live ISO");
   ("uploading-iso", "uploading the live ISO over SSH");
   ("checking-remote-digest", "verifying the remote upload SHA-256 checksum (unreadable file or checksum mismatch)");
   ("publishing-remote-file", "publishing the verified remote file");
   ("verifying-https-content", "retrieving the published ISO over HTTPS");
   ("checking-https-digest", "verifying the HTTPS content SHA-256 checksum (checksum mismatch)")].

(** The empty string when there is none. *)
Definition seedGenerationISOFailureMessage (message : string) : string :=
  match stage ← CutPrefix "SEEDGEN_FAILURE=" (TrimSpace message); assoc_lookup stage failure_stages with
  | Some description => "Live ISO build failed while " ++ description
  | None => ""
  end.

Definition drop (n : nat) (s : string) : string := String.substring n (String.length s - n) s.
Fixpoint after_newline (s : string) : option string :=
  match s with
  | "" => None
  | String c s' => if decide (String c "" = newline) then Some s' else after_newline s'
  end.

Section diagnostics.
Context `{SeedText}.

(** The last bytes, from the start of a line if there is one. *)
Definition seedGenerationISODiagnosticsTail (logs : string) (limit : nat) : string :=
  if (limit =? 0)%nat then ""
  else if (String.length logs <=? limit)%nat then TrimSpace (ToValidUTF8 logs)
  else
    let logs := drop (String.length logs - limit) logs in
    TrimSpace (ToValidUTF8 (default logs (after_newline logs))).

(** The texts in a decoded value. *)
Fixpoint appendSeedGenerationJSONStrings (v : value) : list string :=
  match v with
  | VLeaf "string" s => if decide (s = "") then [] else [s]
  | VSlice l => concat (map appendSeedGenerationJSONStrings l)
  | VMap m => concat (map (fun x => appendSeedGenerationJSONStrings x.2) m)
  | _ => []
  end.

(** A credential as it is, in base64, and the texts in its JSON. *)
Definition credential_texts (data : string) : list string :=
  if decide (data = "") then []
  else data :: EncodeBase64 data :: match UnmarshalAny data with Some v => appendSeedGenerationJSONStrings v | None => [] end.

Definition longer (s t : string) : Prop := (String.length t <= String.length s)%nat.
#[local] Instance longer_dec : RelDecision longer.
Proof. intros s t. unfold longer. apply _. Defined.

(** The longest first; the order of others of a length is the map's. *)
Definition snapshot_credentials (snapshot : Snapshot) : list string :=
  merge_sort longer
    (concat (map (fun s => concat (map (fun d => credential_texts d.2) (map_to_list (Data s.2)))) (map_to_list (Secrets snapshot)))).

Definition private_key_pattern : string :=
  "(?is)-----BEGIN [^-]*PRIVATE KEY-----.*?-----END [^-]*PRIVATE KEY-----".
Definition url_credential_pattern : string := "(?i)(https?://)[^/@\s]+:[^/@\s]+@".
Definition bearer_pattern : string := "(?i)(bearer\s+)[a-z0-9._~+/-]+=*".
Definition sensitive_pattern : string :=
  "(?im)^.*(?:authorization|password|token|secret|credential|private[_ -]?key|auth)\s*[:=].*$".

(** A line feed, a tab, or not a control character. *)
Definition retained_char (c : ascii) : bool :=
  let n := nat_of_ascii c in (n =? 10)%nat || (n =? 9)%nat || ((32 <=? n)%nat && negb (n =? 127)%nat).
Fixpoint filter_chars (p : ascii -> bool) (s : string) : string :=
  match s with
  | "" => ""
  | String c s' => if p c then String c (filter_chars p s') else filter_chars p s'
  end.

Definition redactSeedGenerationISODiagnostics (logs : string) (snapshot : Snapshot) : string :=
  let redacted := fold_left (fun s c => ReplaceAll s c "[REDACTED]") (snapshot_credentials snapshot) logs in
  let redacted := ReplaceAllString private_key_pattern "[REDACTED PRIVATE KEY]" redacted in
  let redacted := ReplaceAllString url_credential_pattern "${1}[REDACTED]@" redacted in
  let redacted := ReplaceAllString bearer_pattern "${1}[REDACTED]" redacted in
  let redacted := ReplaceAllString sensitive_pattern "[REDACTED SENSITIVE LOG LINE]" redacted in
  filter_chars retained_char (ToValidUTF8 redacted).
End diagnostics.

Section iso.
Context `{Semver} `{SeedEncoding} `{SeedLibraries} `{SeedFormats} `{SeedText} (env : Env).
Abbreviation ask := (ask env).
Abbreviation failed := CRconditionReasons.Failed.

(** ** The workspace *)

Definition ensureSeedGenerationISOPVC (snapshot : Snapshot) : prog bool :=
  o ← get_object;
  match makeSeedGenerationISOPVC (operator_namespace env) o snapshot with
  | inl e => raise (Errorf e)
  | inr expected =>
      let name := meta_Name (claim_Meta expected) in
      r ← try (ask (HubClaim name));
      match r with
      | inl e =>
          if IsNotFound e then
            r ← try (ask (CreateClaim expected));
            match r with
            | inl e => if is_kind AlreadyExists e then mret false
                       else raise (wrap ("failed to create ISO workspace PVC " ++ name) e)
            | inr _ => mret false
            end
          else raise (wrap ("failed to get ISO workspace PVC " ++ name) e)
      | inr actual =>
          let it := "workspace PVC " ++ meta_Name (claim_Meta actual) in
          if Deleting (claim_Meta actual) then raise (Errorf (it ++ " is being deleted"))
          else
            _ ← fail_text (validateSeedGenerationISOResourceOwner o (claim_Meta actual) "pvc");
            if negb (bool_decide (AccessModes actual = AccessModes expected)) then
              raise (Errorf (it ++ " has unexpected access modes"))
            else if match StorageRequest actual with Some r => r <? seedGenerationISOStorageRequest | None => true end then
              raise (Errorf (it ++ " is smaller than the required 20Gi"))
            else if negb (bool_decide (StorageClassName expected = None))
                    && negb (bool_decide (StorageClassName actual = StorageClassName expected)) then
              raise (Errorf (it ++ " uses a different storage class than the frozen configuration"))
            else if ClaimLost actual then raise (Errorf (it ++ " is lost"))
            else mret true
      end
  end.

(** ** The pods of the job *)

Definition list_job_pods (what : string) (job : Job) : prog (list Pod) :=
  o ← get_object;
  wrapped ("failed to list " ++ what)
    (ask (ListPods (<[labels.iso_job := meta_Name (job_Meta job)]> (iso_selector o)))).

(** A pod of the job itself. *)
Definition pod_of_job (o : ProvisioningRequest) (job : Job) (pod : Pod) : option string :=
  validateSeedGenerationISOPodOwner (operator_namespace env) o (pod_Meta pod) (meta_Name (job_Meta job))
    (meta_UID (job_Meta job)) false.

Fixpoint pods_progress (job : Job) (pods : list Pod) : prog string :=
  match pods with
  | [] => mret "Generating the live ISO"
  | pod :: rest =>
      o ← get_object;
      _ ← fail_text (pod_of_job o job pod);
      if decide (pod_Phase pod = PodPending) then pods_progress job rest
      else
        logs ← wrapped "failed to read ISO build Pod progress" (ask (PodLogs (meta_Name (pod_Meta pod))));
        let message := seedGenerationISOProgressMessage logs in
        if decide (message = "") then pods_progress job rest else mret message
  end.
Definition seedGenerationISOJobProgress (job : Job) : prog string :=
  pods ← list_job_pods "ISO build Pods" job; pods_progress job pods.

(** The results of the containers that succeeded; all must agree. *)
Fixpoint container_results (containers : list (string * option Terminated)) (expectedURL : string)
    (result : option (string * string)) : string + option (string * string) :=
  match containers with
  | [] => inr result
  | (name, t) :: rest =>
      match t with
      | Some t =>
          if bool_decide (name = "iso-builder") && (ExitCode t =? 0) then
            match parseSeedGenerationISOJobResult (term_Message t) expectedURL with
            | None => inl "job result did not contain the expected HTTPS URL and a SHA-256 digest"
            | Some observed =>
                if negb (bool_decide (result = None)) && negb (bool_decide (result = Some observed))
                then inl "successful ISO build Pods reported different results"
                else container_results rest expectedURL (Some observed)
            end
          else container_results rest expectedURL result
      | None => container_results rest expectedURL result
      end
  end.

Fixpoint pods_result (o : ProvisioningRequest) (job : Job) (pods : list Pod) (expectedURL : string)
    (result : option (string * string)) : string + option (string * string) :=
  match pods with
  | [] => inr result
  | pod :: rest =>
      match pod_of_job o job pod with
      | Some e => inl e
      | None =>
          if decide (pod_Phase pod = PodSucceeded) then
            match container_results (pod_Containers pod) expectedURL result with
            | inl e => inl e
            | inr result => pods_result o job rest expectedURL result
            end
          else pods_result o job rest expectedURL result
      end
  end.

(** The URL and the digest, once there are. *)
Definition seedGenerationISOJobResult (job : Job) (expectedURL : string) : prog (option (string * string)) :=
  pods ← list_job_pods "completed ISO build Pods" job;
  o ← get_object;
  match pods_result o job pods expectedURL None with inl e => raise (Errorf e) | inr r => mret r end.

(** ** Diagnostics of a failed job *)

Definition pod_name_le (p q : Pod) : Prop := string_le (meta_Name (pod_Meta p)) (meta_Name (pod_Meta q)).
#[local] Instance pod_name_le_dec p q : Decision (pod_name_le p q).
Proof using. unfold pod_name_le, string_le. apply _. Defined.

Definition container_failures (pod : Pod) : list string :=
  filter (fun m => m <> "")
    (omap (fun '(name, t) => if decide (name = "iso-builder") then seedGenerationISOFailureMessage <$> (term_Message <$> t)
                             else None) (pod_Containers pod)).

(** The logs and the last failure.  A pod that is not the job's ends the search with
    nothing; a log that cannot be read is left out. *)
Fixpoint pods_logs (job : Job) (pods : list Pod) (logs failure : string) : prog (string * string) :=
  match pods with
  | [] => mret (logs, failure)
  | pod :: rest =>
      o ← get_object;
      match pod_of_job o job pod with
      | Some _ => mret ("", "")
      | None =>
          if bool_decide (pod_Phase pod = PodPending) || bool_decide (pod_Phase pod = PodUnknown)
          then pods_logs job rest logs failure
          else
            let failures := container_failures pod in
            let logs := logs ++ Join "" (map (fun m => m ++ newline) failures) in
            let failure := default failure (last failures) in
            r ← try (ask (PodLogs (meta_Name (pod_Meta pod))));
            pods_logs job rest match r with inr text => logs ++ text ++ newline | inl _ => logs end failure
      end
  end.
Definition seedGenerationISOJobFailureLogs (job : Job) : prog (string * string) :=
  r ← try (list_job_pods "live ISO build Pods" job);
  match r with
  | inl _ => mret ("", "")
  | inr pods => pods_logs job (merge_sort pod_name_le pods) "" ""
  end.

Definition iso_object (o : ProvisioningRequest) (name kind key text : string) : DataObject :=
  mkData (mkMeta name (operator_namespace env) "" (seedGenerationISOResourceLabels o kind) ∅
            [seedGenerationSnapshotOwnerReference o] [] false) true {[key := text]}.

Definition createSeedGenerationISODiagnostics (logs : string) : prog ConfigMapKeyRef :=
  o ← get_object;
  let name := seedGenerationResourceName o "iso-diagnostics" in
  let expected := iso_object o name "diagnostics" "build.log" logs in
  let it := "redacted live ISO diagnostics ConfigMap" in
  r ← try (ask (HubConfigMap name));
  actual ← match r with
           | inr actual => mret actual
           | inl e =>
               if IsNotFound e then
                 r ← try (ask (CreateConfigMap expected));
                 match r with
                 | inr uid => mret (with_object_uid uid expected)
                 | inl e =>
                     if is_kind AlreadyExists e
                     then wrapped ("failed to get existing " ++ it) (ask (HubConfigMap name))
                     else raise (wrap ("failed to create " ++ it) e)
                 end
               else raise (wrap ("failed to get " ++ it) e)
           end;
  _ ← fail_text (validateSeedGenerationISOResourceOwner o (data_Meta actual) "diagnostics");
  if Deleting (data_Meta actual) || negb (Immutable actual) || negb (bool_decide (entry "build.log" (Data actual) = logs))
  then raise (Errorf (it ++ " does not match this failed run"))
  else mret (mkKeyRef name (operator_namespace env) "build.log").

Definition seedGenerationISODiagnosticsLogLimit : nat := 256 * 1024.
Definition seedGenerationISODiagnosticsMessageLimit : nat := 4 * 1024.
Definition seedGenerationISODiagnosticsRetention : Z := 24 * Hour.

Definition deadline_of (s : SeedGenerationStatus) : option Z :=
  start ← seed_StartedAt s; if 0 <? TimeoutSeconds s then Some (start + TimeoutSeconds s * Second) else None.

(** The retained text; a failure to retain it that may pass is retried until the deadline. *)
Definition retain_diagnostics (reason retained : string) : prog unit :=
  r ← try (createSeedGenerationISODiagnostics retained);
  status ← get_seed;
  time ← now env;
  match r with
  | inr ref => modify_seed (with_diagnostics (Some ref) (Some (time + seedGenerationISODiagnosticsRetention)))
  | inl e =>
      if isSeedGenerationTransientError e && match deadline_of status with Some d => time <? d | None => false end then
        _ ← updateSeedGenerationProgress env CRconditionReasons.BuildingISO
              (if decide (reason = CRconditionReasons.TimedOut)
               then "Live ISO build timed out; waiting to retain redacted diagnostics before cleanup"
               else "Live ISO build failed; waiting to retain redacted diagnostics before cleanup");
        raise (wrap "failed to retain redacted live ISO diagnostics" e)
      else mret tt
  end.

(** The message of the failure, and the tail of the log. *)
Definition diagnose (reason message : string) (job : Job) (snapshot : Snapshot) : prog (string * string) :=
  status ← get_seed;
  if negb (bool_decide (ISOFailureDiagnosticsRef status = None)) then mret (message, "")
  else
    '(logs, failure) ← seedGenerationISOJobFailureLogs job;
    let message := if negb (bool_decide (failure = "")) && bool_decide (reason = failed) then failure else message in
    if decide (logs = "") then mret (message, "")
    else
      let retained := seedGenerationISODiagnosticsTail (redactSeedGenerationISODiagnostics logs snapshot)
                        seedGenerationISODiagnosticsLogLimit in
      if decide (retained = "") then mret (message, "")
      else
        _ ← retain_diagnostics reason retained;
        mret (message, seedGenerationISODiagnosticsTail retained seedGenerationISODiagnosticsMessageLimit).

Definition diagnostics_note (s : SeedGenerationStatus) : string :=
  match ISOFailureDiagnosticsRef s with
  | Some ref =>
      "; redacted build logs are in ConfigMap " ++ ref_Namespace ref ++ "/" ++ ref_Name ref
        ++ match ISOFailureDiagnosticsExpiresAt s with Some t => " until " ++ FormatRFC3339 t | None => "" end
  | None => "; redacted build logs could not be retained"
  end.

Definition failSeedGenerationISOJob (reason message : string) (job : Job) (snapshot : Snapshot) : prog Result :=
  o ← get_object;
  match seed_status o with
  | None => failSeedGeneration env reason message
  | Some _ =>
      '(message, summary) ← diagnose reason message job snapshot;
      status ← get_seed;
      time ← now env;
      _ ← when (negb (bool_decide (ISOFailureDiagnosticsRef status = None))
                && bool_decide (ISOFailureDiagnosticsExpiresAt status = None))
            (modify_seed (with_diagnostics (ISOFailureDiagnosticsRef status)
                            (Some (time + seedGenerationISODiagnosticsRetention))));
      status ← get_seed;
      failSeedGeneration env reason
        (message ++ diagnostics_note status
           ++ (if decide (summary = "") then "" else newline ++ "Redacted log tail:" ++ newline ++ summary))
  end.

(** A run that is over its time; the log of a job of its own is kept. *)
Definition failSeedGenerationISOTimeout (message : string) : prog Result :=
  o ← get_object;
  let plain := failSeedGeneration env CRconditionReasons.TimedOut message in
  match seed_status o with
  | None => plain
  | Some status =>
      if negb (ISOJobSubmitted status) then plain
      else
        r ← try (ask (HubJob (seedGenerationISOJobName o)));
        match r with
        | inl _ => plain
        | inr job =>
            if bool_decide (validateSeedGenerationISOResourceOwner o (job_Meta job) "job" = None)
               && (bool_decide (ISOJobUID status = "") || bool_decide (ISOJobUID status = meta_UID (job_Meta job)))
            then
              r ← try (loadSeedGenerationInputSnapshot env);
              match r with
              | inl _ => plain
              | inr snapshot => failSeedGenerationISOJob CRconditionReasons.TimedOut message job snapshot
              end
            else plain
        end
  end.

(** ** Completion *)

(** The certificate of the server is kept after the run. *)
Definition ensureSeedGenerationISOCAConfigMap (snapshot : Snapshot) : prog (option ConfigMapKeyRef) :=
  match Secrets snapshot !! "upload" with
  | None => panic
  | Some upload =>
      let caCert := entry "caCert" (Data upload) in
      if decide (caCert = "") then mret None
      else
        o ← get_object;
        let name := seedGenerationResourceName o "iso-ca" in
        let expected := iso_object o name "ca" "ca-bundle.crt" caCert in
        let ref := Some (mkKeyRef name (operator_namespace env) "ca-bundle.crt") in
        r ← try (ask (HubConfigMap name));
        match r with
        | inl e =>
            if IsNotFound e then
              r ← try (ask (CreateConfigMap expected));
              match r with
              | inl e => if is_kind AlreadyExists e then mret ref
                         else raise (wrap "failed to create live ISO CA ConfigMap" e)
              | inr _ => mret ref
              end
            else raise (wrap "failed to get live ISO CA ConfigMap" e)
        | inr actual =>
            _ ← fail_text (validateSeedGenerationISOResourceOwner o (data_Meta actual) "ca");
            if Deleting (data_Meta actual) || negb (bool_decide (Data actual = Data expected))
            then raise (Errorf "live ISO CA ConfigMap does not match the frozen upload trust")
            else mret ref
        end
  end.

(** The condition becomes true and the request is fulfilled. *)
Definition complete_run (message what : string) : prog Result :=
  _ ← set_condition env PRconditionTypes.SeedGenerationCompleted CRconditionReasons.Completed ConditionTrue message;
  _ ← set_phase env SetProvisioningStateFulfilled;
  _ ← wrapped ("failed to record " ++ what ++ " completion") (UpdateK8sCRStatus env);
  mret requeueWithShortInterval.

Definition completeSeedGenerationISO (snapshot : Snapshot) (result : string * string) : prog Result :=
  let '(url, digest) := result in
  status ← get_seed;
  let differs persisted observed := negb (bool_decide (persisted = "")) && negb (bool_decide (persisted = observed)) in
  if differs (ISOURL status) url then
    failSeedGeneration env failed "verified live ISO URL does not match the persisted run result"
  else if differs (ISODigest status) digest then
    failSeedGeneration env failed "verified live ISO digest does not match the persisted run result"
  else
    r ← try (ensureSeedGenerationISOCAConfigMap snapshot);
    match r with
    | inl e => handleSeedGenerationLifecycleError env "failed to persist live ISO HTTPS trust" e
    | inr ca =>
        _ ← modify_seed (with_result url digest ca);
        complete_run "Live ISO generation, upload, and HTTPS content verification completed" "live ISO generation"
    end.

(** ** The job *)

Definition seedGenerationISOJobAdoptionWindow : Z := 2 * Minute.

Definition missing_job (status : SeedGenerationStatus) : prog Result :=
  time ← now env;
  if match ISOJobSubmittedAt status with Some t => time - t <? seedGenerationISOJobAdoptionWindow | None => false end
  then mret requeueWithShortInterval
  else failSeedGeneration env failed "submitted live ISO build Job is missing; it will not be resubmitted".

(** A job that is known to be ours, with its UID pinned.  A success counts before the
    failures of other attempts. *)
Definition job_outcome (artifact : seedGenerationISOArtifact) (snapshot : Snapshot) (job : Job) : prog Result :=
  if (Succeeded job =? 0) && ((0 <? Failed job) || seedGenerationISOJobFailed job) then
    failSeedGenerationISOJob (seedGenerationISOJobFailureReason job) (seedGenerationISOJobFailureMessage job) job snapshot
  else if Succeeded job =? 0 then
    message ← (if 0 <? Active job
               then wrapped "failed to read live ISO build progress" (seedGenerationISOJobProgress job)
               else mret "Waiting for the live ISO build Job to start");
    _ ← updateSeedGenerationProgress env CRconditionReasons.BuildingISO message;
    mret requeueWithMediumInterval
  else
    r ← try (seedGenerationISOJobResult job (art_URL artifact));
    match r with
    | inl e =>
        failSeedGenerationISOJob failed ("live ISO build Job completed without a valid result: " ++ Error e) job snapshot
    | inr None => mret requeueWithShortInterval
    | inr (Some result) => completeSeedGenerationISO snapshot result
    end.

Definition observeSeedGenerationISOJob (artifact : seedGenerationISOArtifact) : prog Result :=
  o ← get_object;
  status ← get_seed;
  let name := seedGenerationISOJobName o in
  r ← try (ask (HubJob name));
  match r with
  | inl e => if IsNotFound e then missing_job status else raise (wrap ("failed to get live ISO build Job " ++ name) e)
  | inr job =>
      match validateSeedGenerationISOResourceOwner o (job_Meta job) "job" with
      | Some e => failSeedGeneration env failed e
      | None =>
          let uid := meta_UID (job_Meta job) in
          if Deleting (job_Meta job) then mret requeueWithShortInterval
          else if negb (bool_decide (ISOJobUID status = "")) && negb (bool_decide (ISOJobUID status = uid)) then
            failSeedGeneration env failed "live ISO build Job UID does not match the persisted run state"
          else if negb (ISOJobSubmitted status) then
            failSeedGeneration env failed "live ISO build Job exists without persisted submission intent"
          else
            match validateSeedGenerationISOJob (operator_namespace env) o job with
            | Some e => failSeedGeneration env failed ("live ISO build Job does not match frozen inputs: " ++ e)
            | None =>
                r ← try (loadSeedGenerationInputSnapshot env);
                match r with
                | inl e => handleSeedGenerationLifecycleError env "failed to load live ISO inputs" e
                | inr snapshot =>
                    if decide (ISOJobUID status = "") then
                      _ ← modify_seed (with_job_uid uid);
                      _ ← wrapped "failed to pin live ISO build Job UID" (UpdateK8sCRStatus env);
                      mret requeueWithShortInterval
                    else job_outcome artifact snapshot job
                end
            end
      end
  end.

(** The intent is stored, the job created, its UID stored.  An answer which says that it
    was not created takes the intent back. *)
Definition submit_job (job : Job) (hash : string) : prog Result :=
  time ← now env;
  _ ← modify_seed (with_job true (Some time) hash);
  _ ← setSeedGenerationProgress env CRconditionReasons.BuildingISO "Live ISO build Job has been submitted";
  r ← try (UpdateK8sCRStatus env);
  match r with
  | inl e =>
      _ ← modify_seed (with_job false None "");
      raise (wrap "failed to record live ISO Job submission intent" e)
  | inr _ =>
      r ← try (ask (CreateJob job));
      match r with
      | inr uid =>
          _ ← when (negb (bool_decide (uid = ""))) (
                _ ← modify_seed (with_job_uid uid);
                wrapped "failed to record live ISO Job UID" (UpdateK8sCRStatus env));
          mret requeueWithShortInterval
      | inl e =>
          if is_kind AlreadyExists e then mret requeueWithShortInterval
          else if bool_decide (kind e ∈ [Invalid; Forbidden; BadRequest; TooManyRequests]) then
            _ ← modify_seed (with_job false None "");
            _ ← setSeedGenerationProgress env CRconditionReasons.BuildingISO
                  "Retrying live ISO build Job creation after API rejection";
            _ ← wrapped "failed to clear live ISO Job submission intent" (UpdateK8sCRStatus env);
            raise (wrap "failed to create live ISO build Job" e)
          else handleSeedGenerationLifecycleError env "failed to create live ISO build Job" e
      end
  end.

Definition prepare_job (snapshot : Snapshot) (artifact : seedGenerationISOArtifact) (status : SeedGenerationStatus)
    : prog Result :=
  o ← get_object;
  time ← now env;
  match seed_StartedAt status with
  | None => panic
  | Some start =>
      let remaining := start + TimeoutSeconds status * Second - time in
      if remaining <=? 0 then
        failSeedGeneration env CRconditionReasons.TimedOut "Seed generation timed out while preparing the live ISO workspace"
      else
        let activeDeadline := Z.max 1 (remaining / Second) in
        match makeSeedGenerationISOJob (operator_namespace env) o snapshot artifact (ReleaseImageDigest status)
                activeDeadline with
        | inl e => failSeedGeneration env failed ("live ISO Job configuration is invalid: " ++ e)
        | inr job =>
            match seedGenerationISOJobSpecHashV1 job with
            | inl e => failSeedGeneration env failed ("failed to fingerprint live ISO Job: " ++ e)
            | inr hash => submit_job job hash
            end
        end
  end.

Definition reconcileSeedGenerationISO (snapshot : Snapshot) : prog Result :=
  o ← get_object;
  status ← get_seed;
  if negb (DetachedCleanupCompleted status) then mret requeueWithShortInterval
  else if bool_decide (SeedImage status = "") || bool_decide (ReleaseImageDigest status = "") then
    failSeedGeneration env failed "verified seed image or pinned release image is missing before live ISO generation"
  else
    match liveISO_of snapshot with
    | None => failSeedGeneration env failed "frozen liveISO configuration is missing"
    | Some liveISO =>
        match seedGenerationISOArtifactForRun o liveISO (Secrets snapshot !! "upload") with
        | inl e => failSeedGeneration env failed ("live ISO publication inputs are invalid: " ++ e)
        | inr artifact =>
            if ISOJobSubmitted status then observeSeedGenerationISOJob artifact
            else
              r ← try (ensureSeedGenerationISOPVC snapshot);
              match r with
              | inl e => handleSeedGenerationLifecycleError env "failed to prepare live ISO workspace" e
              | inr false =>
                  _ ← updateSeedGenerationProgress env CRconditionReasons.BuildingISO "Waiting for live ISO workspace storage";
                  mret requeueWithMediumInterval
              | inr true => prepare_job snapshot artifact status
              end
        end
    end.
End iso.
