(* ===== verification/SeedGeneration.v ===== *)
(** * A run of seed generation
      (controllers/provisioningrequest_seedgeneration.go, _lifecycle.go)

    The run goes through its phases, a reconcile at a time: the inputs are validated and
    frozen, the spoke is detached, the lifecycle agent makes the seed image, and a job the
    live ISO.  Every step that cannot be taken back is stored as an intent before it is
    taken: the start with its timeout, the detachment, the submission. *)
From S2P Require Import Prelude Conditions GoText MergeMaps Unstructured Handler ProvisioningStatus UpgradePlan SeedObjects ProvisioningTask ProvisioningValidation ProvisioningRequest Upgrade SeedSnapshot SeedWorkloads SeedRegistry SeedMirrors SeedInputs SeedPreflight SeedDetachment SeedCleanup SeedISO.
#[local] Open Scope string_scope.
#[local] Open Scope Z_scope.

(** ** The SeedGenerator *)

Definition seed_config (s : Snapshot) : object_map := default [] (SeedConfig (Document s)).
Definition seedGenerationRecertImage (s : Snapshot) : string := default "" (string_field "recertImage" (seed_config s)).

(** The reference of the image, unless it is missing or blank. *)
Definition frozen_seed_image (s : Snapshot) : option string :=
  image ← string_field "seedImage" (seed_config s); if blank image then None else Some image.

Definition seedGenerationLCAOwnershipLabels (pr : ProvisioningRequest) : gmap string string :=
  <[labels.run := "true"]> (request_labels pr).

Definition seed_CR_name : string := "seedimage".
Definition seed_secret_name : string := "seedgen".
Definition lca_namespace : string := "openshift-lifecycle-agent".
Definition lca_meta (pr : ProvisioningRequest) (name namespace : string) : ObjectMeta :=
  mkMeta name namespace "" (seedGenerationLCAOwnershipLabels pr) ∅ [] [] false.

(** [seedGenerationSeedGeneratorSpec] is inlined. *)
Definition desiredSeedGenerator (pr : ProvisioningRequest) (s : Snapshot) : string + SeedGenerator :=
  match frozen_seed_image s with
  | None => inl "seed generation snapshot seedImage must be a non-empty string"
  | Some image => inr (mkGenerator (lca_meta pr seed_CR_name "") (Some image) (seedGenerationRecertImage s) [])
  end.

(** The text of the error, if any. *)
Definition validateSeedGeneratorSpec (sg : SeedGenerator) (s : Snapshot) : option string :=
  if bool_decide (sg_SeedImage sg = Some (default "" (string_field "seedImage" (seed_config s))))
     && bool_decide (sg_RecertImage sg = seedGenerationRecertImage s)
  then None
  else Some "existing spoke SeedGenerator spec does not match the frozen seed generation configuration".

(** An answer of the API from 400 to 499, but a timeout, a conflict and throttling: the
    object was not created. *)
Definition seedGeneratorCreateDefinitelyRejected (e : error) : bool :=
  bool_decide (kind e ∈ [NotFound; Invalid; BadRequest; Forbidden; Rejected]).

(** ** The timeout *)

Definition DefaultSeedGenerationTimeout : Z := 2 * Hour.
Definition DefaultSeedGenerationWithISOTimeout : Z := 3 * Hour.

Definition has_key (key : string) (m : object_map) : bool := bool_decide (assoc_lookup key m <> None).

Definition seedGenerationTimeout (parse : string -> option Z) (config : object_map) : string + Z :=
  if has_key "clusterUpgradeTimeout" config then inl "clusterUpgradeTimeout is not valid for seed generation"
  else if has_key "seedGenerationTimeout" config then
    inl "seedGenerationTimeout must be nested under seedGeneration"
  else
    match map_field "seedGeneration" config with
    | None => inl "seedGeneration must be an object"
    | Some seed =>
        match assoc_lookup "seedGenerationTimeout" seed with
        | Some (VLeaf "string" text) =>
            match parse text with
            | Some parsed =>
                if parsed <=? 0 then inl ("seedGenerationTimeout must be a positive duration: " ++ Quote text)
                else inr parsed
            | None => inl ("seedGenerationTimeout must be a positive duration: " ++ Quote text)
            end
        | Some _ => inl "seedGenerationTimeout must be a duration string"
        | None => inr (if has_key "liveISO" seed then DefaultSeedGenerationWithISOTimeout
                       else DefaultSeedGenerationTimeout)
        end
    end.

(** Whole seconds, rounded up. *)
Definition timeout_seconds (timeout : Z) : Z :=
  let seconds := Z.quot timeout Second + (if Z.rem timeout Second =? 0 then 0 else 1) in
  if seconds =? 0 then 1 else seconds.

Section run.
Context `{Semver} `{SeedEncoding} `{SeedLibraries} `{SeedFormats} `{SeedText} (env : Env).
Abbreviation ask := (ask env).
Abbreviation failed := CRconditionReasons.Failed.
Abbreviation in_progress := CRconditionReasons.InProgress.

(** ** What the lifecycle agent reports *)

Definition handleSeedGeneratorObservationError (operation : string) (e : error) : prog Result :=
  status ← get_seed;
  _ ← when (SeedGeneratorSubmitted status && isSeedGenerationTransientError e)
        (updateSeedGenerationProgress env in_progress
           "Waiting to reconnect to the spoke API and observe LCA seed generation completion; API downtime is expected during image creation");
  handleSeedGenerationLifecycleError env operation e.

Definition waitForSeedGeneratorStatus : prog Result :=
  _ ← updateSeedGenerationProgress env in_progress
        "Waiting for LCA seed generation status; LCA temporarily removes the SeedGenerator during image creation";
  mret requeueWithMediumInterval.

(** The seed image is there. *)
Definition record_seed_image (snapshot : Snapshot) : prog Result :=
  match frozen_seed_image snapshot with
  | None => failSeedGeneration env failed "completed LCA SeedGenerator has no configured seed image reference"
  | Some image =>
      _ ← modify_seed (with_finished true);
      status ← get_seed;
      if negb (bool_decide (SeedImage status = "")) && negb (bool_decide (SeedImage status = image)) then
        failSeedGeneration env failed "persisted seed image reference does not match the frozen seed generation configuration"
      else
        _ ← modify_seed (with_seed_image image);
        if has_liveISO snapshot then
          _ ← setSeedGenerationProgress env CRconditionReasons.BuildingISO
                "Seed image generation and push completed; preparing the live ISO build";
          _ ← wrapped "failed to record seed image completion before ISO generation" (UpdateK8sCRStatus env);
          mret requeueWithShortInterval
        else complete_run env "Seed image generation and push completed" "seed generation"
  end.

Definition LCA_progress (sg : SeedGenerator) : string :=
  match seedGenerationLCACondition (sg_Conditions sg) "SeedGenInProgress" with
  | Some c => if blank (cond_Message c) then "Waiting for LCA to report seed generation progress"
              else "LCA seed generation last reported: " ++ cond_Message c
  | None => "Waiting for LCA to report seed generation progress"
  end.

Definition observeSeedGenerator (sg : SeedGenerator) (snapshot : Snapshot) : prog Result :=
  match LCA_failed sg with
  | Some message =>
      _ ← modify_seed (with_finished true);
      failSeedGeneration env failed ("LCA seed generation failed: " ++ message)
  | None =>
      if LCA_completed sg then record_seed_image snapshot
      else
        _ ← updateSeedGenerationProgress env in_progress (LCA_progress sg);
        mret requeueWithMediumInterval
  end.

(** ** The submission *)

Definition handleSeedGeneratorSubmissionError (e : error) : prog Result :=
  if bool_decide (kind e ∈ [AlreadyExists; Conflict]) then mret requeueWithShortInterval
  else
    _ ← when (is_kind TooManyRequests e) (
          _ ← modify_seed (with_submitted false);
          _ ← setSeedGenerationProgress env in_progress "Waiting to retry SeedGenerator submission after API throttling";
          wrapped "failed to record rejected SeedGenerator submission" (UpdateK8sCRStatus env));
    _ ← when (seedGeneratorCreateDefinitelyRejected e) (modify_seed (with_submitted false));
    handleSeedGenerationLifecycleError env "failed to create spoke SeedGenerator" e.

(** The intent is stored before the agent is asked, so that it is asked once: the answer
    may be lost, and the agent removes its own request while it works. *)
Definition submit_generator (desired : SeedGenerator) : prog Result :=
  _ ← modify_seed (with_submitted true);
  _ ← setSeedGenerationProgress env in_progress "Starting LCA seed image generation and push";
  _ ← wrapped "failed to record SeedGenerator submission intent" (UpdateK8sCRStatus env);
  r ← try (ask (CreateSeedGenerator desired));
  match r with
  | inl e => handleSeedGeneratorSubmissionError e
  | inr _ => mret requeueWithShortInterval
  end.

Definition seed_auth (s : Snapshot) : string :=
  match Secrets s !! "seedAuth" with Some c => entry "seedAuth" (Data c) | None => "" end.

Definition seed_secret (pr : ProvisioningRequest) (credential : string) : DataObject :=
  mkData (lca_meta pr seed_secret_name lca_namespace) false {["seedAuth" := credential]}.

(** The credentials of the agent come first; they are [inr], or the reconcile ends. *)
Definition ensure_seed_secret (snapshot : Snapshot) : prog (Result + unit) :=
  o ← get_object;
  let fail message := r ← failSeedGeneration env failed message; mret (inl r) in
  r ← try (ask GetSeedSecret);
  match r with
  | inl e =>
      if IsNotFound e then
        if decide (seed_auth snapshot = "") then fail "seed generation snapshot is missing seedAuth credentials"
        else
          r ← try (ask (CreateSeedSecret (seed_secret o (seed_auth snapshot))));
          match r with
          | inl e =>
              if bool_decide (kind e ∈ [AlreadyExists; Conflict]) then mret (inl requeueWithShortInterval)
              else r ← handleSeedGenerationLifecycleError env "failed to create spoke seedgen Secret" e; mret (inl r)
          | inr _ => mret (inr tt)
          end
      else r ← handleSeedGenerationLifecycleError env "failed to get spoke seedgen Secret" e; mret (inl r)
  | inr secret =>
      match validateSeedGenerationLCAOwnership (data_Meta secret) o with
      | Some e => fail e
      | None =>
          if Deleting (data_Meta secret) then mret (inl requeueWithShortInterval)
          else if bool_decide (Secrets snapshot !! "seedAuth" = None)
                  || negb (bool_decide (entry "seedAuth" (Data secret) = seed_auth snapshot))
          then fail "existing spoke seedgen Secret does not match the frozen seedAuth credentials"
          else mret (inr tt)
      end
  end.

(** A SeedGenerator that is there is observed if it is the one of this run. *)
Definition adopt_generator (sg : SeedGenerator) (snapshot : Snapshot) : prog Result :=
  o ← get_object;
  match validateSeedGenerationLCAOwnership (sg_Meta sg) o with
  | Some e => failSeedGeneration env failed e
  | None =>
      match validateSeedGeneratorSpec sg snapshot with
      | Some e => failSeedGeneration env failed e
      | None =>
          if Deleting (sg_Meta sg) then waitForSeedGeneratorStatus
          else
            status ← get_seed;
            _ ← when (negb (SeedGeneratorSubmitted status)) (
                  _ ← modify_seed (with_submitted true);
                  wrapped "failed to record SeedGenerator submission" (UpdateK8sCRStatus env));
            observeSeedGenerator sg snapshot
      end
  end.

Definition reconcileSeedGenerator (snapshot : Snapshot) : prog Result :=
  o ← get_object;
  match desiredSeedGenerator o snapshot with
  | inl e => failSeedGeneration env failed e
  | inr desired =>
      r ← try (verifiedSeedGenerationSpokeClient env snapshot);
      match r with
      | inl e => handleSeedGeneratorObservationError "failed to create spoke client for LCA" e
      | inr _ =>
          r ← try (ask GetSeedGenerator);
          match r with
          | inr sg => adopt_generator sg snapshot
          | inl e =>
              if negb (IsNotFound e) then handleSeedGeneratorObservationError "failed to get spoke SeedGenerator" e
              else
                status ← get_seed;
                if SeedGeneratorSubmitted status then waitForSeedGeneratorStatus
                else
                  r ← ensure_seed_secret snapshot;
                  match r with inl r => mret r | inr _ => submit_generator desired end
          end
      end
  end.

(** Once the agent has finished, the spoke is used again only to clean it. *)
Definition reconcileSeedGenerationDetached (snapshot : Snapshot) : prog Result :=
  status ← get_seed;
  if SeedGeneratorFinished status && has_liveISO snapshot then
    r ← try (cleanupSeedGenerationDetachedResourcesAndRecordCompletion env);
    match r with
    | inl e => handleSeedGenerationLifecycleError env "failed to clean up spoke seed generation resources" e
    | inr true => mret requeueWithShortInterval
    | inr false => reconcileSeedGenerationISO env snapshot
    end
  else
    r ← try (reconcileSeedGenerationAgentDetachment env snapshot);
    match r with
    | inl e => handleSeedGenerationLifecycleError env "failed to detach ACM agents" e
    | inr true => mret requeueWithShortInterval
    | inr false => reconcileSeedGenerator snapshot
    end.

(** ** The phases of a run *)

Definition reconcileSeedGenerationPreflight : prog Result :=
  r ← try (ensureSeedGenerationInputSnapshot env);
  match r with
  | inl e => handleSeedGenerationPreflightError env "seed generation preflight failed" e
  | inr None => mret requeueWithShortInterval
  | inr (Some snapshot) =>
      r ← try (validateSeedGenerationSpokePrerequisites env snapshot);
      match r with
      | inl e => handleSeedGenerationPreflightError env "seed generation spoke preflight failed" e
      | inr _ =>
          r ← try (ensureSeedGenerationToolsPreflight env snapshot);
          match r with
          | inl e => handleSeedGenerationPreflightError env "seed generation tools preflight failed" e
          | inr false => mret requeueWithShortInterval
          | inr true =>
              o ← get_object;
              _ ← when (condition_is o PRconditionTypes.SeedGenerationCompleted (has_reason [CRconditionReasons.Validating]))
                    (updateSeedGenerationProgress env in_progress "Seed generation inputs are validated and frozen");
              mret requeueWithMediumInterval
          end
      end
  end.

(** The detachment, which cannot be taken back, starts when this has been stored. *)
Definition start_detachment : prog Result :=
  _ ← modify_seed (with_detachment true);
  _ ← setSeedGenerationProgress env CRconditionReasons.CleaningACMResources "Removing ACM agents from the spoke";
  r ← try (UpdateK8sCRStatus env);
  match r with
  | inl e => _ ← modify_seed (with_detachment false); raise (wrap "failed to record ACM detachment intent" e)
  | inr _ => mret requeueWithShortInterval
  end.

Definition reconcileSeedGenerationSnapshot : prog Result :=
  o ← get_object;
  if decide (seedGenerationSnapshotStatusUIDs o = ∅) then
    failSeedGeneration env CRconditionReasons.PreconditionChecksFailed
      "seed generation input snapshot UIDs are missing after preflight"
  else
    r ← try (loadSeedGenerationInputSnapshot env);
    match r with
    | inl e => handleSeedGenerationPreflightError env "failed to adopt frozen seed generation inputs" e
    | inr snapshot =>
        status ← get_seed;
        if has_liveISO snapshot && bool_decide (ReleaseImageDigest status = "") then
          failSeedGeneration env CRconditionReasons.PreconditionChecksFailed
            "resolved release image digest is missing after ISO preflight"
        else
          r ← try (cleanupSeedGenerationPreflightPods env);
          match r with
          | inl e => handleSeedGenerationPreflightError env "failed to clean up seed generation preflight Pods" e
          | inr true => mret requeueWithShortInterval
          | inr false =>
              status ← get_seed;
              if DetachmentStarted status then reconcileSeedGenerationDetached snapshot
              else if bool_decide (ClusterID status = "") || bool_decide (ManagedClusterUID status = "")
                      || bool_decide (KlusterletUID status = "")
              then failSeedGeneration env CRconditionReasons.PreconditionChecksFailed
                     "seed generation cluster identity was not pinned during preflight"
              else start_detachment
          end
    end.

Definition timed_out_message (o : ProvisioningRequest) (seconds : Z) : string :=
  "Seed generation timed out after " ++ Duration_String (seconds * Second)
    ++ match seedGenerationCondition o with
       | Some c => if decide (cond_Message c = "") then "" else ": " ++ cond_Message c
       | None => ""
       end.

Definition waits_for (reason : string) (o : ProvisioningRequest) : bool :=
  condition_is o PRconditionTypes.SeedGenerationCompleted (fun c =>
    bool_decide (cond_Status c = ConditionFalse) && has_reason [reason] c).

(** A run that was started. *)
Definition advance_run (status : SeedGenerationStatus) (deadline : Z) : prog Result :=
  o ← get_object;
  time ← now env;
  if deadline <=? time then failSeedGenerationISOTimeout env (timed_out_message o (TimeoutSeconds status))
  else if DetachmentStarted status then reconcileSeedGenerationSnapshot
  else if waits_for CRconditionReasons.Validating o then reconcileSeedGenerationPreflight
  else if waits_for in_progress o then reconcileSeedGenerationSnapshot
  else mret requeueWithMediumInterval.

Definition reconcileSeedGeneration : prog Result :=
  o ← get_object;
  if seedGenerationTerminal o then
    pending ← wrapped "failed to clean up seed generation resources" (cleanupSeedGenerationRunResources env);
    after_cleanup env pending
  else
    match s ← seed_status o; d ← deadline_of s; Some (s, d) with
    | None => failSeedGeneration env failed "Seed generation has incomplete persisted run state"
    | Some (status, deadline) => advance_run status deadline
    end.

(** ** The start *)

Definition run_exists (o : ProvisioningRequest) : bool :=
  match seed_status o with
  | Some s => bool_decide (seed_StartedAt s <> None) || DetachmentStarted s
  | None => false
  end.

Definition startSeedGeneration (timeout : Z) : prog unit :=
  o ← get_object;
  if (timeout <=? 0) || bool_decide (Cluster o = None) || bool_decide (seedGenerationCondition o <> None)
  then raise (Errorf "cannot start seed generation from the current state")
  else if run_exists o then raise (Errorf "seed generation has already started")
  else
    time ← now env;
    _ ← modify_details (with_seed (Some (new_seed time (timeout_seconds timeout))));
    _ ← setSeedGenerationProgress env CRconditionReasons.Validating "Seed generation validation is in progress";
    wrapped "failed to record seed generation start" (UpdateK8sCRStatus env).

Definition startOrResumeSeedGeneration (ct : ClusterTemplate) : prog Result :=
  o ← get_object;
  if seedGenerationTerminal o then mret doNotRequeue
  else if bool_decide (seedGenerationCondition o = None) then
    r ← try (trigger env MergeUpgradeData);
    match r with
    | inl e => failSeedGeneration env CRconditionReasons.PreconditionChecksFailed
                 ("invalid seed generation configuration: " ++ Error e)
    | inr config =>
        match seedGenerationTimeout (parse_duration env) config with
        | inl e => failSeedGeneration env CRconditionReasons.PreconditionChecksFailed
                     ("invalid seed generation timeout: " ++ e)
        | inr timeout =>
            _ ← wrapped "failed to start seed generation" (startSeedGeneration timeout);
            mret requeueWithShortInterval
        end
    end
  else reconcileSeedGeneration.

(** ** The component *)

Definition seed_generation : SeedGeneration := {|
  seed_reconcile := reconcileSeedGeneration;
  seed_cleanup_preflight := cleanupSeedGenerationPreflightResources env;
  seed_start := startOrResumeSeedGeneration;
  seed_cleanup := cleanupSeedGenerationResources env;
|}.

(** The program: the reconciler with the upgrades and seed generation in place. *)
Definition all_subsystems `{Urls} : Subsystems := @with_upgrades _ _ seed_generation env.
End run.
