(* ===== verification/SeedWorkloadFacts.v ===== *)
(** * The controller recognises what it made (theory of SeedSnapshot and SeedWorkloads)

    Names are bounded and do not collide, and a job that was submitted is accepted again,
    with what the API server fills in, while a job with another pod is refused. *)
From S2P Require Import Prelude Conditions GoText MergeMaps Unstructured ProvisioningStatus SeedObjects ProvisioningTask SeedSnapshot SeedWorkloads.
#[local] Open Scope string_scope.
#[local] Open Scope Z_scope.

(** ** Names *)

Lemma length_substring m s : (String.length (String.substring 0 m s) <= m)%nat.
Proof. revert s. induction m as [|m IH]; intros [|c s]; simpl; [lia..|]. specialize (IH s). lia. Qed.

Lemma string_app_assoc (s t u : string) : (s ++ t) ++ u = s ++ (t ++ u).
Proof. induction s as [|c s IH]; [done|]. exact (f_equal (String c) IH). Qed.
Lemma string_length_app (s t : string) : String.length (s ++ t) = (String.length s + String.length t)%nat.
Proof. induction s as [|c s IH]; [done|]. exact (f_equal S IH). Qed.

(** Of two ends of a text one is an end of the other. *)
Lemma app_ends (a b s t : string) : a ++ s = b ++ t -> (exists u, s = u ++ t) \/ (exists u, t = u ++ s).
Proof.
  revert b. induction a as [|c a IH]; intros b E; [left; by exists b|].
  destruct b as [|d b]; [right; by exists (String c a)|].
  change (String c (a ++ s) = String d (b ++ t)) in E. injection E as _ E. by eapply IH.
Qed.

Definition is_end (s t : string) : bool :=
  (String.length s <=? String.length t)%nat
  && bool_decide (String.substring (String.length t - String.length s) (String.length s) t = s).
Lemma substring_app (u s : string) : String.substring (String.length u) (String.length s) (u ++ s) = s.
Proof.
  induction u as [|c u IH]; [|exact IH]. change ("" ++ s) with s. simpl.
  induction s as [|c s IH]; [done|]. simpl. by rewrite IH.
Qed.
Lemma is_end_app (u s : string) : is_end s (u ++ s) = true.
Proof.
  unfold is_end. rewrite string_length_app. apply andb_true_iff. split; [apply Nat.leb_le; lia|].
  rewrite Nat.add_sub, substring_app. by apply bool_decide_eq_true.
Qed.

Section names.
Context `{SeedEncoding} (pr : ProvisioningRequest).

(** A name ends in its suffix. *)
Lemma resource_name_ends suffix : exists a, seedGenerationResourceName pr suffix = a ++ suffix.
Proof using.
  unfold seedGenerationResourceName. case_match.
  - exists (Name pr ++ "-seedgen-"). by rewrite string_app_assoc.
  - eexists. by rewrite <- !string_app_assoc.
Qed.

Lemma resource_names_differ suffix suffix' :
  is_end suffix suffix' = false -> is_end suffix' suffix = false ->
  seedGenerationResourceName pr suffix <> seedGenerationResourceName pr suffix'.
Proof using.
  intros H1 H2 E. destruct (resource_name_ends suffix) as [a Ea], (resource_name_ends suffix') as [b Eb].
  rewrite Ea, Eb in E. apply app_ends in E as [[u E]|[u E]].
  - pose proof (is_end_app u suffix') as He. rewrite <- E in He. congruence.
  - pose proof (is_end_app u suffix) as He. rewrite <- E in He. congruence.
Qed.

(** The names of a run's objects are at most 63 characters long, however long the name
    of the request is, and two objects of a request have different names: their suffixes,
    of at most 49 characters, are not ends of each other. *)
Theorem resource_names_fit suffix suffix' :
  (String.length suffix <= 49)%nat ->
  (String.length (seedGenerationResourceName pr suffix) <= 63)%nat /\
  (is_end suffix suffix' = false -> is_end suffix' suffix = false ->
   seedGenerationResourceName pr suffix <> seedGenerationResourceName pr suffix').
Proof using.
  intros Hs. split; [|apply resource_names_differ].
  unfold seedGenerationResourceName. destruct (Nat.leb_spec (String.length (Name pr ++ "-seedgen-" ++ suffix)) 63); [done|].
  pose proof (length_substring 8 (sha256_hex (Name pr))) as Hh.
  set (hash := String.substring 0 8 _) in *.
  pose proof (length_substring (Nat.max 1 (63 - String.length suffix - 4 - String.length hash - 1)) (Name pr)).
  rewrite !string_length_app. cbn [String.length]. lia.
Qed.
End names.

(** ** The job of the live ISO *)

Section job.
Context `{SeedEncoding} `{SeedLibraries} (namespace : string).

(** What the API server and the job controller may change of a job: its UID and its
    status, labels that are added to its pods (the name of the job and the UID of its
    controller), and in its container the pull policy and the working directory. *)
Definition admitted (job job' : Job) : Prop :=
  (meta_Name (job_Meta job'), meta_Namespace (job_Meta job'), Labels (job_Meta job'), OwnerReferences (job_Meta job'))
    = (meta_Name (job_Meta job), meta_Namespace (job_Meta job), Labels (job_Meta job), OwnerReferences (job_Meta job))
  /\ (BackoffLimit job', Completions job', Parallelism job', ActiveDeadlineSeconds job', TTLSecondsAfterFinished job')
    = (BackoffLimit job, Completions job, Parallelism job, ActiveDeadlineSeconds job, TTLSecondsAfterFinished job)
  /\ TemplateLabels job ⊆ TemplateLabels job'
  /\ forall c, Containers (TemplateSpec job) = [c] ->
       exists c', Containers (TemplateSpec job') = [c'] /\ job_contract (TemplateSpec job') c' = job_contract (TemplateSpec job) c.

Definition same_request (pr pr' : ProvisioningRequest) : Prop := Name pr' = Name pr /\ UID pr' = UID pr.

Lemma entry_insert key key' value (m : gmap string string) :
  entry key (<[key' := value]> m) = if decide (key = key') then value else entry key m.
Proof using. unfold entry. case_decide; [by subst; rewrite lookup_insert_eq|by rewrite lookup_insert_ne]. Qed.

Lemma make_job_shape pr s artifact image deadline job :
  makeSeedGenerationISOJob namespace pr s artifact image deadline = inr job ->
  exists c volumes,
    job = mkJob (mkMeta (seedGenerationISOJobName pr) namespace "" (seedGenerationISOResourceLabels pr "job") ∅
            [seedGenerationSnapshotOwnerReference pr] [] false) (Some 0) (Some 1) (Some 1) (Some deadline) None
            (<[labels.iso_job := seedGenerationISOJobName pr]> (seedGenerationISOResourceLabels pr "pod"))
            (restricted_pod volumes c) 0 0 0 [].
Proof using.
  unfold makeSeedGenerationISOJob. intros E. repeat (case_match; try discriminate). injection E as <-. by do 2 eexists.
Qed.

Lemma list_find_none {A} (P : A -> Prop) `{!forall x, Decision (P x)} l : Forall (fun x => ~ P x) l -> list_find P l = None.
Proof using. intros Hl. induction Hl as [|x l Hx _ IH]; [done|]. simpl. rewrite decide_False by done. by rewrite IH. Qed.

Lemma name_same_request pr pr' : same_request pr pr' -> seedGenerationISOJobName pr' = seedGenerationISOJobName pr.
Proof using. intros [Hn _]. unfold seedGenerationISOJobName, seedGenerationResourceName. by rewrite Hn. Qed.

(** The labels and the owner of a job that was made. *)
Lemma made_owner pr pr' m :
  same_request pr pr' -> Labels m = seedGenerationISOResourceLabels pr "job" ->
  OwnerReferences m = [seedGenerationSnapshotOwnerReference pr] ->
  validateSeedGenerationISOResourceOwner pr' m "job" = None.
Proof using.
  intros [Hn Hu] Hl Ho. unfold validateSeedGenerationISOResourceOwner, of_request, has_label, hasSeedGenerationSnapshotOwner.
  rewrite Hl, Ho, Hn, Hu. unfold seedGenerationISOResourceLabels, request_labels. cbn [existsb seedGenerationSnapshotOwnerReference
    or_APIVersion or_Kind or_Name or_UID]. rewrite !entry_insert. cbn. unfold entry.
  rewrite lookup_singleton_eq. cbn. by rewrite !bool_decide_eq_true_2.
Qed.
Lemma made_labels pr pr' name m :
  same_request pr pr' -> <[labels.iso_job := name]> (seedGenerationISOResourceLabels pr "pod") ⊆ m ->
  Forall (fun x => ~ (let '(key, value) := x in entry key m <> value))
    [(labels.name, Name pr'); (labels.uid, UID pr'); (labels.iso, "true"); (labels.iso_kind, "pod"); (labels.iso_job, name)].
Proof using.
  intros [Hn Hu] Hm. rewrite Hn, Hu.
  assert (forall key value, <[labels.iso_job := name]> (seedGenerationISOResourceLabels pr "pod") !! key = Some value ->
    ~ (entry key m <> value)) as Hentry.
  { intros key value Hk Hne. apply Hne. unfold entry. by rewrite (lookup_weaken _ _ _ _ Hk Hm). }
  unfold seedGenerationISOResourceLabels, request_labels in Hentry.
  repeat constructor; apply Hentry; rewrite ?lookup_insert_eq; by simplify_map_eq.
Qed.

(** C17: The controller recognises its own job, and no other.  The job that was submitted is
    accepted in later reconciles, with the UID, the status, the labels of its pods, the pull
    policy and the working directory that the API server filled in, so that a run does not fail over the job it
    made; and a job is accepted only if its pod has the fingerprint that was stored with
    the intent. *)
Theorem own_job_recognised pr pr' s artifact image deadline job hash st :
  makeSeedGenerationISOJob namespace pr s artifact image deadline = inr job ->
  seedGenerationISOJobSpecHashV1 job = inr hash ->
  same_request pr pr' -> seed_status pr' = Some st -> ISOJobSpecHash st = hash ->
  0 < deadline <= TimeoutSeconds st ->
  (forall job', admitted job job' ->
     validateSeedGenerationISOResourceOwner pr' (job_Meta job') "job" = None
     /\ validateSeedGenerationISOJob namespace pr' job' = None) /\
  (forall job', validateSeedGenerationISOJob namespace pr' job' = None -> seedGenerationISOJobSpecHashV1 job' = inr hash).
Proof using.
  intros Hm Hh Hp Hst Hs Hd. split.
  - intros job' (Em & Ek & El & Ec). apply make_job_shape in Hm as (c & volumes & ->).
    destruct (Ec c eq_refl) as (c' & Ec' & Econtract). cbn in Em, Ek, El. injection Em as En Ens Elab Eo.
    injection Ek as Eb Ecp Epar Ead Ettl. split; [by apply (made_owner pr)|].
    unfold validateSeedGenerationISOJob, validateSeedGenerationISOJobIdentity. rewrite Hst, En, Ens, (name_same_request pr pr' Hp).
    rewrite !bool_decide_eq_true_2 by done. cbn [negb orb]. unfold job_labels. rewrite En.
    rewrite list_find_none by (by apply (made_labels pr)). rewrite Ec'. cbn [length]. rewrite bool_decide_eq_true_2 by done.
    assert (seedGenerationISOJobSpecHashV1 job' = inr hash) as Hh'.
    { unfold seedGenerationISOJobSpecHashV1 in *. rewrite Ec', Econtract. exact Hh. }
    rewrite Hh', Hs. unfold seedGenerationISOJobSpecHashV1 in Hh. cbn [Containers TemplateSpec restricted_pod] in Hh.
    destruct (MarshalPodSpec _) as [s0|]; [|done]. injection Hh as <-. cbn. rewrite bool_decide_eq_true_2 by done. cbn.
    unfold validateSeedGenerationISOJobExecutionPolicy. rewrite Eb, Ecp, Epar, Ead, Ettl.
    pose proof (f_equal RestartPolicy Econtract) as Er. pose proof (f_equal AutomountServiceAccountToken Econtract) as Ea.
    cbn in Er, Ea. rewrite Er, Ea. rewrite !bool_decide_eq_true_2 by done. cbn [negb orb andb].
    rewrite (proj2 (Z.ltb_lt 0 deadline)), (proj2 (Z.leb_le deadline _)) by lia.
    by rewrite prefix_app, decide_False.
  - intros job'. unfold validateSeedGenerationISOJob. rewrite Hst, Hs. intros Hv.
    repeat (case_match; try discriminate). simplify_eq.
    match goal with H : negb (bool_decide _) = false |- _ => apply negb_false_iff, bool_decide_eq_true in H; by subst end.
Qed.
End job.
