(* ===== verification/SeedSnapshotFacts.v ===== *)
(** * What was frozen is what is loaded (theory of SeedSnapshot)

    The snapshot that is made of a document and of credentials, once its objects have been
    created, is read back as it was made. *)
From S2P Require Import Prelude Conditions GoText MergeMaps Unstructured Handler ProvisioningStatus SeedObjects ProvisioningTask SeedSnapshot SeedWorkloads SeedWorkloadFacts.
#[local] Open Scope string_scope.

(** ** Maps that are built from lists *)

Lemma secrets_by_name_lookup l s :
  NoDup (map data_Name l) -> s ∈ l -> secrets_by_name l !! data_Name s = Some s.
Proof.
  intros Hnd Hs. unfold secrets_by_name.
  assert (forall l (m : gmap string DataObject), NoDup (map data_Name l) -> (forall s, s ∈ l -> m !! data_Name s = None) -> forall s,
    s ∈ l \/ m !! data_Name s = Some s -> foldl (fun m s => <[data_Name s := s]> m) m l !! data_Name s = Some s) as Hg.
  { clear. induction l as [|x l IH]; intros m Hnd Hm s Hs; cbn [foldl]; [by destruct Hs as [Hs%not_elem_of_nil|]|].
    simpl in Hnd. apply NoDup_cons in Hnd as [Hx Hnd]. apply IH; [done|..].
    - intros y Hy. rewrite lookup_insert_ne; [apply Hm; by right|]. intros E. apply Hx. rewrite E. by apply list_elem_of_fmap_2.
    - destruct Hs as [[->|Hs]%elem_of_cons|Hs]; [right; by rewrite lookup_insert_eq|by left|right].
      rewrite lookup_insert_ne; [done|]. intros E. specialize (Hm x ltac:(by left)). congruence. }
  apply Hg; auto.
Qed.

Lemma secrets_by_name_size l : NoDup (map data_Name l) -> size (secrets_by_name l) = length l.
Proof.
  intros Hnd. unfold secrets_by_name.
  assert (forall l (m : gmap string DataObject), NoDup (map data_Name l) -> (forall s, s ∈ l -> m !! data_Name s = None) ->
    size (foldl (fun m s => <[data_Name s := s]> m) m l) = (size m + length l)%nat) as Hg.
  { clear. induction l as [|x l IH]; intros m Hnd Hm; cbn [foldl length]; [lia|].
    simpl in Hnd. apply NoDup_cons in Hnd as [Hx Hnd]. rewrite IH; [|done|].
    - rewrite map_size_insert_None by (apply Hm; by left). lia.
    - intros y Hy. rewrite lookup_insert_ne; [apply Hm; by right|]. intros E. apply Hx. rewrite E. by apply list_elem_of_fmap_2. }
  rewrite Hg; [|done|done]. by rewrite map_size_empty.
Qed.

(** ** Names of credentials *)

Section names.
Context `{SeedEncoding} (pr : ProvisioningRequest).

Definition credential_suffixes : list (string * string) :=
  [("seedAuth", "seed-auth"); ("spokeKubeconfig", "spoke-kubeconfig"); ("pullSecret", "pull-secret"); ("upload", "upload")].

Lemma credential_name_suffix key name :
  credential_name pr key = Some name -> exists suffix, (key, suffix) ∈ credential_suffixes /\ name = seedGenerationResourceName pr suffix.
Proof using.
  unfold credential_name. case_decide as Hk; [done|]. intros Hn%elem_of_list_to_map_2.
  apply list_elem_of_fmap in Hn as ([k s] & [= -> ->] & Hin). exists s. split; [|done].
  apply elem_of_cons in Hin as [[= -> _]|Hin]; done.
Qed.

Lemma credential_name_inj key key' name :
  credential_name pr key = Some name -> credential_name pr key' = Some name -> key = key'.
Proof using.
  intros (s & Hs & ->)%credential_name_suffix (s' & Hs' & E)%credential_name_suffix.
  unfold credential_suffixes in *. set_unfold in Hs. set_unfold in Hs'.
  destruct_or! Hs; destruct_or! Hs'; simplify_eq; try done;
    exfalso; revert E; apply resource_names_differ; vm_compute; reflexivity.
Qed.
End names.

(** ** The objects that are made *)

Section made.
Context `{SeedEncoding} (namespace : string) (pr : ProvisioningRequest).

(** A Secret of a credential. *)
Definition credential_secret (key : string) (s : DataObject) : Prop :=
  exists name data, credential_name pr key = Some name /\ data <> ∅ /\ s = snapshot_object namespace pr name "credential" data.

Lemma make_secrets credentials secrets :
  foldr (fun '(key, data) => make_secret namespace pr key data) (inr ∅) credentials = inr secrets ->
  forall key s, secrets !! key = Some s -> credential_secret key s.
Proof using.
  revert secrets. induction credentials as [|[key data] credentials IH]; intros secrets; cbn [foldr].
  { intros [= <-] k s. by rewrite lookup_empty. }
  destruct (foldr _ _ credentials) as [e|acc] eqn:E; [done|]. unfold make_secret.
  destruct (credential_name pr key) as [name|] eqn:En; [|done]. case_decide as Hd; [done|].
  intros [= <-] k s. rewrite lookup_insert. case_decide as Hk; [|by apply IH].
  intros [= <-]. subst. by exists name, data.
Qed.

Lemma make_objects document credentials document' cm secrets :
  makeSeedGenerationSnapshotObjects namespace pr document credentials = inr (document', cm, secrets) ->
  (forall key s, secrets !! key = Some s -> credential_secret key s) /\
  (exists sa sk, secrets !! "seedAuth" = Some sa /\ secrets !! "spokeKubeconfig" = Some sk) /\
  (exists keys, document' = with_names (data_Name <$> secrets) keys document) /\ SeedConfig document <> None /\
  exists encoded data, MarshalDocument document' = Some encoded /\
    cm = snapshot_object namespace pr (seedGenerationResourceName pr "inputs") "config" (<[snapshot_config := encoded]> data).
Proof using.
  unfold makeSeedGenerationSnapshotObjects. destruct (_ || _); [done|]. case_decide as Hc; [done|].
  destruct (foldr _ _ _) as [e|acc] eqn:E; [done|]. pose proof (make_secrets _ _ E) as Hs.
  case_decide as Ha; [done|]. case_decide as Hk; [done|]. destruct (seedGenerationMirrorConfigYAML _) as [e|mirrors]; [done|].
  destruct (MarshalDocument _) as [encoded|] eqn:Ee; [|done]. intros [= <- <- <-]. split_and!; [done|..|done|].
  - destruct (acc !! "seedAuth") as [sa|]; [|done]. destruct (acc !! "spokeKubeconfig") as [sk|]; [|done]. by exists sa, sk.
  - by eexists.
  - by do 2 eexists.
Qed.

(** ** The objects that are found *)

Context (pr' : ProvisioningRequest) (Hpr : same_request pr pr').

(** An object with the UID that the API server gave it; the status pins it, unless it pins
    nothing yet. *)
Definition pins (uids : gmap string string) (o : DataObject) : Prop := uids = ∅ \/ uids !! data_Name o = Some (data_UID o).

Lemma made_valid name kind data uid :
  pins (seedGenerationSnapshotStatusUIDs pr') (with_object_uid uid (snapshot_object namespace pr name kind data)) ->
  validateSeedGenerationSnapshotOwner pr' (data_Meta (with_object_uid uid (snapshot_object namespace pr name kind data))) kind
    (seedGenerationSnapshotStatusUIDs pr') = None.
Proof using Hpr.
  intros Hu. destruct Hpr as [Hn Hu']. unfold validateSeedGenerationSnapshotOwner, of_request, has_label,
    hasSeedGenerationSnapshotOwner. cbn [data_Meta with_object_uid snapshot_object Labels OwnerReferences meta_Name meta_UID meta_Namespace].
  unfold seedGenerationSnapshotLabels, request_labels. rewrite Hn, Hu'. rewrite !entry_insert.
  cbn [existsb seedGenerationSnapshotOwnerReference or_APIVersion or_Kind or_Name or_UID].
  rewrite !decide_False by done. rewrite !decide_True by done. unfold entry. rewrite lookup_singleton_eq. cbn [default].
  rewrite !(bool_decide_eq_true_2 _ eq_refl). cbn [andb orb negb].
  destruct Hu as [->|Hu]; [by rewrite bool_decide_eq_true_2|].
  cbn [data_Name data_UID data_Meta with_object_uid snapshot_object meta_Name meta_UID] in Hu. rewrite Hu.
  rewrite (bool_decide_eq_true_2 (Some _ = Some _)) by done. by rewrite andb_false_r.
Qed.

Lemma credential_name_same key : credential_name pr' key = credential_name pr key.
Proof using Hpr. destruct Hpr as [Hn _]. unfold credential_name, seedGenerationSnapshotNames, seedGenerationResourceName. by rewrite Hn. Qed.

(** A Secret that was created. *)
Definition created (key : string) (s s' : DataObject) : Prop := credential_secret key s /\ exists uid, s' = with_object_uid uid s.

Lemma created_resolves key s s' byName :
  created key s s' -> pins (seedGenerationSnapshotStatusUIDs pr') s' -> byName !! data_Name s = Some s' ->
  resolve_credential pr' (seedGenerationSnapshotStatusUIDs pr') byName (data_Name s) = inr (Some s').
Proof using Hpr.
  intros [(name & data & _ & Hd & ->) [uid ->]] Hp Hb. unfold resolve_credential. rewrite Hb.
  rewrite (made_valid name "credential" data uid Hp). cbn. by rewrite decide_False.
Qed.

Lemma created_all_resolve (secrets stored : gmap string DataObject) byName l acc :
  map_Forall2 created secrets stored ->
  (forall key s', stored !! key = Some s' -> pins (seedGenerationSnapshotStatusUIDs pr') s') ->
  (forall key s s', secrets !! key = Some s -> stored !! key = Some s' -> byName !! data_Name s = Some s') ->
  (forall key name, (key, name) ∈ l -> exists s, secrets !! key = Some s /\ name = data_Name s) ->
  exists result, resolve_credentials pr' (seedGenerationSnapshotStatusUIDs pr') byName l acc = inr (Some result)
    /\ forall key, result !! key = if decide (key ∈ l.*1) then stored !! key else acc !! key.
Proof using Hpr.
  intros Hc Hp Hb. revert acc. induction l as [|[key name] l IH]; intros acc Hl; cbn [resolve_credentials].
  { exists acc. by split; [|intros key; rewrite decide_False by (by apply not_elem_of_nil)]. }
  destruct (Hl key name ltac:(by left)) as (s & Hs & ->). pose proof (Hc key) as Hk. rewrite Hs in Hk. inversion Hk as [? s' Hcr Es Es'|].
  rewrite (created_resolves key s s' byName) by (by eauto). symmetry in Es'.
  destruct (IH (<[key := s']> acc)) as (result & Hr & Hres). { intros k n Hin. apply Hl. by right. }
  exists result. split; [done|]. intros k. rewrite Hres. cbn [fmap list_fmap fst].
  destruct (decide (k ∈ l.*1)) as [Hin|Hin]; [by rewrite decide_True by (by right)|].
  rewrite lookup_insert. case_decide as E; [subst; by rewrite decide_True by (by left)|].
  by rewrite decide_False by (intros [->|?]%elem_of_cons; done).
Qed.

Lemma created_name (secrets stored : gmap string DataObject) k s' :
  map_Forall2 created secrets stored -> stored !! k = Some s' -> credential_name pr k = Some (data_Name s').
Proof using.
  intros Hc Hs. specialize (Hc k). rewrite Hs in Hc. by inversion Hc as [? ? [(n & d & Hn & _ & ->) [u ->]]|].
Qed.
Lemma created_names (secrets stored : gmap string DataObject) :
  map_Forall2 created secrets stored -> NoDup (map data_Name (map_to_list stored).*2).
Proof using.
  intros Hc. change (NoDup (data_Name <$> (map_to_list stored).*2)). rewrite <- list_fmap_compose.
  apply NoDup_fmap_2_strong; [|apply NoDup_map_to_list].
  intros [k s] [k' s'] Hs%elem_of_map_to_list Hs'%elem_of_map_to_list E. cbn in E.
  pose proof (created_name _ _ _ _ Hc Hs) as Hn. pose proof (created_name _ _ _ _ Hc Hs') as Hn'. rewrite <- E in Hn'.
  assert (k = k') as <- by (by eapply credential_name_inj). congruence.
Qed.

Lemma created_lookup (secrets stored : gmap string DataObject) l key s s' :
  map_Forall2 created secrets stored -> l ≡ₚ (map_to_list stored).*2 ->
  secrets !! key = Some s -> stored !! key = Some s' -> secrets_by_name l !! data_Name s = Some s'.
Proof using.
  intros Hc Hl Hs Hs'. pose proof (Hc key) as Hk. rewrite Hs, Hs' in Hk. inversion_clear Hk as [? ? [_ [u Eu]]|]. subst s'.
  change (data_Name s) with (data_Name (with_object_uid u s)). apply secrets_by_name_lookup.
  - change (NoDup (data_Name <$> l)). rewrite Hl. by apply (created_names secrets).
  - rewrite Hl. apply list_elem_of_fmap. exists (key, with_object_uid u s). split; [done|]. by apply elem_of_map_to_list.
Qed.

Lemma created_size (secrets stored : gmap string DataObject) l :
  map_Forall2 created secrets stored -> l ≡ₚ (map_to_list stored).*2 ->
  size (secrets_by_name l) = size secrets.
Proof using.
  intros Hc Hl. rewrite secrets_by_name_size by (change (NoDup (data_Name <$> l)); rewrite Hl; by apply (created_names secrets)).
  rewrite Hl, length_fmap, length_map_to_list. rewrite <- !size_dom. f_equal. apply set_eq. intros k. rewrite !elem_of_dom.
  pose proof (Hc k) as Hk. inversion Hk; by split; intros [].
Qed.
End made.

(** ** The snapshot is loaded *)

Section load.
Context `{SeedEncoding} `{SeedLibraries} (env : Env).

Lemma loaded_document namespace pr pr' document credentials document' cm secrets uid :
  same_request pr pr' -> makeSeedGenerationSnapshotObjects namespace pr document credentials = inr (document', cm, secrets) ->
  (forall encoded, MarshalDocument document' = Some encoded -> UnmarshalDocument encoded = Some document') ->
  ClusterTemplateName document <> "" -> ClusterTemplateNamespace document <> "" ->
  pins (seedGenerationSnapshotStatusUIDs pr') (with_object_uid uid cm) ->
  read_document pr' (with_object_uid uid cm) = inr document' /\ Immutable (with_object_uid uid cm) = true
  /\ Deleting (data_Meta (with_object_uid uid cm)) = false.
Proof using.
  intros Hpr Hm Hd Hn Hns Hp. apply make_objects in Hm as (_ & _ & [keys Ek] & Hs & encoded & data & He & ->).
  split; [|done]. unfold read_document. rewrite (made_valid namespace pr pr' Hpr _ _ _ _ Hp).
  cbn [data_Name data_Meta with_object_uid snapshot_object meta_Name Data]. destruct Hpr as [Hname _].
  rewrite bool_decide_eq_true_2 by (unfold seedGenerationResourceName; by rewrite Hname). cbn [negb].
  rewrite lookup_insert_eq, (Hd _ He), Ek. cbn. by rewrite !bool_decide_eq_false_2.
Qed.

Lemma names_of_pairs (l : list (string * DataObject)) :
  (map (fun '(_, o) => (data_Name o, data_UID o)) l).*1 = map data_Name l.*2.
Proof using. induction l as [|[k s] l IH]; [done|]. exact (f_equal (cons (data_Name s)) IH). Qed.

(** The UIDs of the snapshot pin its objects, and no others. *)
Definition pinned_snapshot (uids : gmap string string) (s : Snapshot) : Prop := uids = ∅ \/ uids = seedGenerationInputUIDs s.

Lemma input_uids namespace pr (secrets stored : gmap string DataObject) document data uid :
  map_Forall2 (created namespace pr) secrets stored ->
  let cm := with_object_uid uid (snapshot_object namespace pr (seedGenerationResourceName pr "inputs") "config" data) in
  let uids := seedGenerationInputUIDs (mkSnapshot document cm stored) in
  uids !! data_Name cm = Some (data_UID cm) /\ size uids = S (size stored)
  /\ forall key s, stored !! key = Some s -> uids !! data_Name s = Some (data_UID s).
Proof using.
  intros Hc cm uids. pose proof (created_names _ _ _ _ Hc) as Hnd.
  set (pairs := map (fun '(_, o) => (data_Name o, data_UID o)) (map_to_list stored)).
  assert (NoDup pairs.*1) as Hp.
  { unfold pairs. by rewrite names_of_pairs. }
  assert (forall key s, stored !! key = Some s -> data_Name s <> data_Name cm) as Hne.
  { intros key s Hs E. pose proof (created_name _ _ _ _ _ _ Hc Hs) as (suffix & Hin & En)%credential_name_suffix.
    rewrite E in En. cbn in En. unfold credential_suffixes in Hin. set_unfold in Hin.
    destruct_or! Hin; simplify_eq; revert En; apply resource_names_differ; vm_compute; reflexivity. }
  assert ((list_to_map pairs : gmap string string) !! data_Name cm = None) as Hn.
  { apply not_elem_of_list_to_map_1. unfold pairs. rewrite list_elem_of_fmap. intros ([n u] & E & Hin).
    apply list_elem_of_fmap in Hin as ([k s] & [= -> ->] & Hs%elem_of_map_to_list). by eapply Hne. }
  unfold uids, seedGenerationInputUIDs. cbn [snap_ConfigMap SeedObjects.Secrets]. fold pairs. split_and!.
  - by rewrite lookup_insert_eq.
  - rewrite map_size_insert_None by done. rewrite map_size_list_to_map by done. unfold pairs.
    rewrite length_map, length_map_to_list. done.
  - intros key s Hs. rewrite lookup_insert_ne by (by intros E; eapply Hne).
    apply elem_of_list_to_map_1; [done|]. apply list_elem_of_fmap. exists (key, s). split; [done|]. by apply elem_of_map_to_list.
Qed.

Lemma bind_ret {A B} (m : prog A) (k : A -> prog B) t t1 a : m t = (t1, Ret a) -> (m ≫= k) t = k a t1.
Proof using. unfold mbind, handler_bind. by intros ->. Qed.
Lemma wrapped_ask {A} prefix (c : seed_call A) t a :
  api env (Seed c) (log t) = inr a -> wrapped prefix (ask env c) t = (with_event (Ev (object t) (Seed c)) t, Ret a).
Proof using. intros Ha. unfold wrapped, try, ask, trigger, mbind, handler_bind. by rewrite Ha. Qed.

(** The calls that find the objects. *)
Definition finds (t : task) (cm : DataObject) (l : list DataObject) : Prop :=
  let selector := snapshot_selector (object t) in
  api env (Seed (ListConfigMaps selector)) (log t) = inr [cm]
  /\ api env (Seed (ListSecrets selector)) (log t ++ [Ev (object t) (Seed (ListConfigMaps selector))])%list = inr l.

Lemma stored_created namespace pr document credentials document' cm (secrets stored : gmap string DataObject) :
  makeSeedGenerationSnapshotObjects namespace pr document credentials = inr (document', cm, secrets) ->
  map_Forall2 (fun _ s s' => exists uid, s' = with_object_uid uid s) secrets stored ->
  map_Forall2 (created namespace pr) secrets stored.
Proof using.
  intros Hm Hst key. apply make_objects in Hm as [Hs _]. specialize (Hst key). specialize (Hs key).
  destruct (secrets !! key) as [s|], (stored !! key) as [s'|]; inversion Hst; subst; constructor. by split; [apply Hs|].
Qed.

(** The credentials are found again. *)
Lemma loaded_credentials namespace pr document credentials document' cm (secrets stored : gmap string DataObject) l configMap t :
  makeSeedGenerationSnapshotObjects namespace pr document credentials = inr (document', cm, secrets) ->
  map_Forall2 (created namespace pr) secrets stored -> same_request pr (object t) -> l ≡ₚ (map_to_list stored).*2 ->
  (forall key s', stored !! key = Some s' -> pins (seedGenerationSnapshotStatusUIDs (object t)) s') ->
  resolveSeedGenerationSnapshotCredentials env configMap document' l (seedGenerationSnapshotStatusUIDs (object t)) t
    = (t, Ret stored).
Proof using.
  intros Hm Hc Hpr Hl Hp. apply make_objects in Hm as (Hs & (sa & sk & Ha & Hk) & [keys ->] & _).
  unfold resolveSeedGenerationSnapshotCredentials, mbind, handler_bind. cbn [get_object fst CredentialSecretNames with_names].
  rewrite decide_False; cycle 1. { intros E. apply (f_equal (.!! "seedAuth")) in E. by rewrite lookup_fmap, Ha, lookup_empty in E. }
  destruct (existsb _ _) eqn:Ee.
  { apply existsb_exists in Ee as ([key name] & Hin%list_elem_of_In%elem_of_map_to_list & Hn).
    apply lookup_fmap_Some in Hin as (s & <- & Hin). destruct (Hs _ _ Hin) as (n & d & En & _ & ->).
    rewrite (credential_name_same pr _ Hpr), En in Hn. by rewrite bool_decide_eq_true_2 in Hn. }
  rewrite !lookup_fmap, Ha, Hk, (created_size namespace pr secrets stored l Hc Hl), map_size_fmap.
  rewrite (bool_decide_eq_true_2 (size secrets = size secrets)) by done. cbn.
  destruct (created_all_resolve namespace pr (object t) Hpr secrets stored (secrets_by_name l)
              (map_to_list (data_Name <$> secrets)) ∅ Hc Hp) as (result & -> & Hr).
  - intros key s s'. by apply (created_lookup namespace pr).
  - intros key name Hin%elem_of_map_to_list. apply lookup_fmap_Some in Hin as (s & <- & Hin). by exists s.
  - replace result with stored; [done|]. apply map_eq. intros key. rewrite Hr. case_decide as Hin; [done|].
    rewrite lookup_empty. specialize (Hc key). destruct (stored !! key) as [s'|] eqn:E; [|done].
    inversion Hc as [s ? _ Es|]. exfalso. apply Hin. apply list_elem_of_fmap. exists (key, data_Name s).
    split; [done|]. apply elem_of_map_to_list. by rewrite lookup_fmap, <- Es.
Qed.

(** C16: What was frozen is what is loaded.  When the ConfigMap and the Secrets that were
    made of a document and its credentials have been created, and the status pins their
    UIDs or none yet, then every later reconcile of the request, whatever else changed in
    it, reads back exactly the document, with the names and the certificates that were
    recorded in it, and exactly those credentials. *)
Theorem frozen_is_loaded namespace pr document credentials document' cm secrets stored uid l t :
  makeSeedGenerationSnapshotObjects namespace pr document credentials = inr (document', cm, secrets) ->
  (forall encoded, MarshalDocument document' = Some encoded -> UnmarshalDocument encoded = Some document') ->
  ClusterTemplateName document <> "" -> ClusterTemplateNamespace document <> "" ->
  map_Forall2 (fun _ s s' => exists uid, s' = with_object_uid uid s) secrets stored -> l ≡ₚ (map_to_list stored).*2 ->
  same_request pr (object t) -> finds t (with_object_uid uid cm) l ->
  pinned_snapshot (seedGenerationSnapshotStatusUIDs (object t)) (mkSnapshot document' (with_object_uid uid cm) stored) ->
  (loadSeedGenerationInputSnapshot env t).2 = Ret (mkSnapshot document' (with_object_uid uid cm) stored).
Proof using.
  intros Hm Hd Hn Hns Hst Hl Hpr [Hcm Hsec] Hpin.
  pose proof (stored_created _ _ _ _ _ _ _ _ Hm Hst) as Hc.
  assert (exists data, cm = snapshot_object namespace pr (seedGenerationResourceName pr "inputs") "config" data) as [data Ecm].
  { by apply make_objects in Hm as (_ & _ & _ & _ & encoded & data & _ & ->); eexists. }
  pose proof (input_uids namespace pr secrets stored document' data uid Hc) as (Hu1 & Hu2 & Hu3). rewrite <- Ecm in Hu1, Hu2, Hu3.
  assert (pins (seedGenerationSnapshotStatusUIDs (object t)) (with_object_uid uid cm)) as Hp1.
  { destruct Hpin as [E|E]; [by left|right]. rewrite E. exact Hu1. }
  assert (forall key s', stored !! key = Some s' -> pins (seedGenerationSnapshotStatusUIDs (object t)) s') as Hp2.
  { intros key s' Hs'. destruct Hpin as [E|E]; [by left|right]. rewrite E. by eapply Hu3. }
  destruct (loaded_document namespace pr (object t) document credentials document' cm secrets uid Hpr Hm Hd Hn Hns Hp1) as (Hr & Hi & Hdel).
  assert (validateSeedGenerationSnapshotObjectsNotDeleting [with_object_uid uid cm] l = None) as Hv.
  { unfold validateSeedGenerationSnapshotObjectsNotDeleting.
    rewrite !list_find_none; [done|..].
    - apply Forall_forall. intros s Hs. rewrite Hl in Hs. apply list_elem_of_fmap in Hs as ([k s'] & -> & Hs%elem_of_map_to_list).
      specialize (Hc k). rewrite Hs in Hc. inversion Hc as [? ? [(? & ? & _ & _ & ->) [? E]]|]. cbn in E |- *. by subst s'.
    - constructor; [|done]. by rewrite Hdel. }
  unfold loadSeedGenerationInputSnapshot. rewrite (bind_ret get_object _ t t (object t)) by done.
  erewrite bind_ret by (apply wrapped_ask; exact Hcm). erewrite bind_ret by (apply wrapped_ask; exact Hsec).
  cbv beta iota zeta. erewrite bind_ret by (rewrite Hv; done). rewrite Hr.
  match goal with |- context [(resolveSeedGenerationSnapshotCredentials _ _ _ _ _ ≫= _) ?t'] =>
    erewrite bind_ret by exact (loaded_credentials namespace pr document credentials document' cm secrets stored l _ t' Hm Hc Hpr Hl Hp2) end.
  rewrite Hi. cbn [negb].
  destruct Hpin as [-> | ->]; [by rewrite bool_decide_eq_true_2|].
  rewrite Hu2, (bool_decide_eq_true_2 (S _ = S _)) by done. by rewrite andb_false_r.
Qed.
End load.
