(* ===== verification/SeedFrame.v ===== *)
(** * What the parts of a run of seed generation do (theory of SeedGeneration)

    The parts are walked through once, against an interface: a relation between the task
    before and after a part which the calls and assignments of a kind preserve.  A call is
    quiet unless it changes the spoke, what the hub has of it, or submits work; an
    assignment is quiet unless it changes the marks of the run: what was started, what was
    submitted, and which cluster was pinned. *)
From S2P Require Import Prelude Conditions GoText Unstructured Handler ProvisioningStatus MergeMaps UpgradePlan SeedObjects ProvisioningTask ProvisioningValidation ProvisioningCluster ProvisioningRequest Upgrade SeedSnapshot SeedWorkloads SeedRegistry SeedMirrors SeedInputs SeedPreflight SeedDetachment SeedCleanup SeedISO SeedGeneration.
#[local] Open Scope string_scope.
#[local] Open Scope Z_scope.

(** ** Kinds of calls and assignments *)

Definition hub_workload (kind : string) : bool :=
  bool_decide (kind ∈ ["ConfigMap"; "Secret"; "Pod"; "Job"; "PersistentVolumeClaim"]).

(** Of what changes the spoke, or what the hub has of it, the calls that may be made
    again; the request to its lifecycle agent is made once, and is below. *)
Definition acts {A} (c : seed_call A) : bool :=
  match c with
  | Delete Hub kind _ _ => negb (hub_workload kind)
  | Delete Spoke _ _ _ | PatchHubCluster _ | PatchAddonConfig _ | PatchImportWork _ | CreateSeedSecret _
  | PatchMonitoringConfig _ _ _ => true
  | _ => false
  end.
Definition submits {A} (c : seed_call A) : bool :=
  match c with CreateSeedGenerator _ | CreateJob _ => true | _ => false end.
Definition quiet {A} (c : seed_call A) : bool := negb (acts c) && negb (submits c).

(** What else the inputs are read from. *)
Definition hub_read {A} (c : call A) : bool :=
  match c with ListClusterTemplates | MergeUpgradeData | GetClusterInstance _ => true | _ => false end.

Definition marks (s : SeedGenerationStatus) : bool * bool * bool * string :=
  (DetachmentStarted s, SeedGeneratorSubmitted s, ISOJobSubmitted s, ClusterID s).
Definition keeps_marks (f : SeedGenerationStatus -> SeedGenerationStatus) : Prop :=
  forall s, marks (f s) = marks s.

(** ** The interface *)

Class QuietFrame (env : Env) (R : relation task) : Prop := {
  frame_preorder :: PreOrder R;
  frame_ask {A} (c : seed_call A) : quiet c = true -> preserves R (ask env c);
  frame_read {A} (c : call A) : hub_read c = true -> preserves R (trigger env c);
  frame_seed f : keeps_marks f -> preserves R (modify_seed f);
  frame_condition reason message :
    preserves R (set_condition env PRconditionTypes.SeedGenerationCompleted reason ConditionFalse message);
  frame_progress message : preserves R (set_in_progress env message);
  frame_failed message : preserves R (set_failed env message);
  frame_update : preserves R (UpdateK8sCRStatus env);
  frame_manual : preserves R note_manual_cleanup;
}.

Lemma preserves_wrapped {R : relation task} `{!PreOrder R} {A} prefix (m : prog A) :
  preserves R m -> preserves R (wrapped prefix m).
Proof.
  intros Hm. unfold wrapped. apply preserves_bind; [by apply preserves_try|].
  intros []; [apply preserves_raise|apply preserves_ret].
Qed.
Lemma preserves_read {R : relation task} `{!PreOrder R} {A} (m : prog A) :
  (forall t, (m t).1 = t) -> preserves R m.
Proof. intros Hm t. by rewrite Hm. Qed.

Create HintDb frame.
#[export] Hint Extern 0 (QuietFrame _ _) => typeclasses eauto : frame.
#[export] Hint Resolve frame_condition frame_progress frame_failed frame_update frame_manual : frame.

Ltac frame_step :=
  cbv beta iota zeta;
  lazymatch goal with
  | |- preserves _ (mret _) => apply preserves_ret
  | |- preserves _ (raise _) => apply preserves_raise
  | |- preserves _ panic => apply preserves_panic
  | |- preserves _ get_object => by apply preserves_read
  | |- preserves _ (now _) => by apply preserves_read
  | |- preserves _ (_ ≫= _) => apply preserves_bind; [|intros ?]
  | |- preserves _ (try _) => apply preserves_try
  | |- preserves _ (when _ _) => apply preserves_when
  | |- preserves _ (for_each _ _) => apply preserves_for_each; intros ?
  | |- preserves _ (wrapped _ _) => apply preserves_wrapped
  | |- preserves _ (match ?x with _ => _ end) => destruct x
  | |- preserves _ (ask _ _) => apply frame_ask; reflexivity
  | |- preserves _ (trigger _ _) => apply frame_read; reflexivity
  | |- preserves _ (modify_seed _) => apply frame_seed; by intros []
  end.
Ltac frame_walk :=
  repeat first [ solve [eauto with frame nocore] | frame_step
               | match goal with |- preserves _ ?m => let h := head m in unfold h end ].

(** ** Quiet parts *)

Section quiet.
Context `{Semver} `{SeedEncoding} `{SeedLibraries} `{SeedFormats} `{SeedText} (env : Env) {R : relation task} `{!QuietFrame env R}.

Lemma get_seed_frame : preserves R get_seed.
Proof using QuietFrame0. unfold get_seed, get_details. frame_walk. Qed.
Lemma fail_text_frame e : preserves R (fail_text e).
Proof using QuietFrame0. unfold fail_text. frame_walk. Qed.
#[local] Hint Resolve get_seed_frame fail_text_frame : frame.

Lemma delete_object_frame kind what m q :
  hub_workload kind = true -> preserves R (delete_object env Hub kind what m q).
Proof using QuietFrame0.
  intros Hk. assert (preserves R (ask env (Delete Hub kind m q))).
  { apply frame_ask. unfold quiet. simpl. by rewrite Hk. }
  unfold delete_object. frame_walk.
Qed.
Lemma delete_unless_deleting_frame kind what m :
  hub_workload kind = true -> preserves R (delete_unless_deleting env Hub kind what m).
Proof using QuietFrame0. intros Hk. pose proof delete_object_frame. unfold delete_unless_deleting. frame_walk. Qed.
Lemma check_owner_frame kind m : preserves R (check_owner kind m).
Proof using QuietFrame0. unfold check_owner. frame_walk. Qed.
Lemma setProgress_frame reason message : preserves R (setSeedGenerationProgress env reason message).
Proof using QuietFrame0. unfold setSeedGenerationProgress. frame_walk. Qed.
#[local] Hint Resolve delete_object_frame delete_unless_deleting_frame check_owner_frame setProgress_frame : frame.
#[local] Hint Extern 1 (hub_workload _ = true) => reflexivity : frame.
Lemma updateProgress_frame reason message : preserves R (updateSeedGenerationProgress env reason message).
Proof using QuietFrame0. unfold updateSeedGenerationProgress. frame_walk. Qed.
#[local] Hint Resolve updateProgress_frame : frame.

(** *** The snapshot *)

Lemma removeIncomplete_frame {A} configMaps secrets :
  preserves R (removeIncompleteSeedGenerationSnapshot env configMaps secrets : prog A).
Proof using QuietFrame0. unfold removeIncompleteSeedGenerationSnapshot. frame_walk. Qed.
#[local] Hint Resolve removeIncomplete_frame : frame.
Lemma resolve_frame configMap document secrets uids :
  preserves R (resolveSeedGenerationSnapshotCredentials env configMap document secrets uids).
Proof using QuietFrame0. unfold resolveSeedGenerationSnapshotCredentials. frame_walk. Qed.
#[local] Hint Resolve resolve_frame : frame.
Lemma load_frame : preserves R (loadSeedGenerationInputSnapshot env).
Proof using QuietFrame0. unfold loadSeedGenerationInputSnapshot. frame_walk. Qed.
#[local] Hint Resolve load_frame : frame.
Lemma rollback_frame created e :
  Forall (fun x => hub_workload x.1 = true) created -> preserves R (rollback env created e).
Proof using QuietFrame0.
  intros Hc. revert e. induction Hc as [|[kind o] created Hk Hc IH]; intros e; cbn [rollback]; [frame_walk|].
  cbn [fst] in Hk. frame_walk.
Qed.
#[local] Hint Resolve rollback_frame : frame.
Lemma rollbackSnapshot_frame {A} created e :
  Forall (fun x => hub_workload x.1 = true) created ->
  preserves R (rollbackSeedGenerationSnapshot env created e : prog A).
Proof using QuietFrame0. intros Hc. unfold rollbackSeedGenerationSnapshot. frame_walk. Qed.
#[local] Hint Resolve rollbackSnapshot_frame : frame.
Lemma create_secrets_frame secrets created acc :
  Forall (fun x => hub_workload x.1 = true) created -> preserves R (create_secrets env secrets created acc).
Proof using QuietFrame0.
  revert created acc. induction secrets as [|[] secrets IH]; intros created acc Hc; cbn [create_secrets]; [frame_walk|].
  assert (forall x, preserves R (create_secrets env secrets (("Secret", x.1) :: created) x.2)) as Hs.
  { intros x. apply IH. by constructor. }
  apply preserves_bind; [frame_walk|]. intros [e|uid]; [frame_walk|]. apply (Hs (_, _)).
Qed.
#[local] Hint Resolve create_secrets_frame : frame.
#[local] Hint Extern 1 (Forall _ _) => by repeat constructor : frame.
Lemma create_snapshot_frame d c : preserves R (createSeedGenerationInputSnapshot env d c).
Proof using QuietFrame0. unfold createSeedGenerationInputSnapshot. frame_walk. Qed.
#[local] Hint Resolve create_snapshot_frame : frame.

(** *** Its inputs *)

Lemma or_fail_frame {A} (r : string + A) : preserves R (or_fail r).
Proof using QuietFrame0. unfold or_fail. frame_walk. Qed.
#[local] Hint Resolve or_fail_frame : frame.
Lemma secret_frame ct name field : preserves R (getTemplateSecret env ct name field).
Proof using QuietFrame0. unfold getTemplateSecret. frame_walk. Qed.
Lemma deployment_frame : preserves R (getSeedGenerationClusterDeployment env).
Proof using QuietFrame0. unfold getSeedGenerationClusterDeployment. frame_walk. Qed.
#[local] Hint Resolve secret_frame deployment_frame : frame.
Lemma kubeconfig_frame : preserves R (getSeedGenerationAdminKubeconfig env).
Proof using QuietFrame0. unfold getSeedGenerationAdminKubeconfig. frame_walk. Qed.
Lemma trust_frame namespace liveISO : preserves R (seedGenerationRegistryTrust env namespace liveISO).
Proof using QuietFrame0. unfold seedGenerationRegistryTrust, hub_trust, get_trust. frame_walk. Qed.
Lemma root_CAs_frame ca : preserves R (seedGenerationRootCAs env ca).
Proof using QuietFrame0. unfold seedGenerationRootCAs. frame_walk. Qed.
Lemma token_frame roots challenge scope creds : preserves R (registryToken env roots challenge scope creds).
Proof using QuietFrame0. unfold registryToken. frame_walk. Qed.
#[local] Hint Resolve kubeconfig_frame trust_frame root_CAs_frame token_frame : frame.
Lemma session_frame roots registry repository creds upload :
  preserves R (open_session env roots registry repository creds upload).
Proof using QuietFrame0. unfold open_session, answer_challenge. frame_walk. Qed.
#[local] Hint Resolve session_frame : frame.
Lemma push_frame image auth ca : preserves R (validateRegistryPushAccessWithCA env image auth ca).
Proof using QuietFrame0.
  unfold validateRegistryPushAccessWithCA, validateRegistryPushAccessWithClient, cancel_session. frame_walk.
Qed.
#[local] Hint Resolve push_frame : frame.
Lemma registry_frame ct config : preserves R (resolveSeedGenerationRegistryCredentials env ct config).
Proof using QuietFrame0. unfold resolveSeedGenerationRegistryCredentials. frame_walk. Qed.
Lemma mirrors_frame namespace liveISO image : preserves R (resolveSeedGenerationMirrorInputs env namespace liveISO image).
Proof using QuietFrame0.
  unfold resolveSeedGenerationMirrorInputs, seedGenerationImageDigestSources, hubSeedGenerationImageDigestSources, refuse_deleting.
  frame_walk.
Qed.
Lemma HTTPS_frame url ca : preserves R (validateSeedGenerationHTTPS env url ca).
Proof using QuietFrame0. unfold validateSeedGenerationHTTPS. frame_walk. Qed.
#[local] Hint Resolve registry_frame mirrors_frame HTTPS_frame : frame.
Lemma upload_inputs_frame liveISO upload : preserves R (validateSeedGenerationISOUploadInputs env liveISO upload).
Proof using QuietFrame0. unfold validateSeedGenerationISOUploadInputs, validateSeedGenerationSSHUploadAccess. frame_walk. Qed.
Lemma install_inputs_frame liveISO document : preserves R (resolveISOInstallInputs env liveISO document).
Proof using QuietFrame0.
  unfold resolveISOInstallInputs, getExistingClusterInstance, DoesK8SResourceExist, derive_release_image, derive_installation_disk.
  frame_walk.
Qed.
Lemma pull_secret_frame ct liveISO auth : preserves R (resolve_pull_secret env ct liveISO auth).
Proof using QuietFrame0. unfold resolve_pull_secret. frame_walk. Qed.
#[local] Hint Resolve upload_inputs_frame install_inputs_frame pull_secret_frame : frame.
Lemma ISO_inputs_frame ct liveISO document auth creds : preserves R (resolveISOInputs env ct liveISO document auth creds).
Proof using QuietFrame0. unfold resolveISOInputs. frame_walk. Qed.
#[local] Hint Resolve ISO_inputs_frame : frame.
Lemma inputs_frame ct : preserves R (resolveSeedGenerationInputSnapshot env ct).
Proof using QuietFrame0. unfold resolveSeedGenerationInputSnapshot, seedGenerationToolsImage. frame_walk. Qed.
#[local] Hint Resolve inputs_frame : frame.
Lemma ensure_snapshot_frame : preserves R (ensureSeedGenerationInputSnapshot env).
Proof using QuietFrame0. unfold ensureSeedGenerationInputSnapshot, GetClusterTemplateRef. frame_walk. Qed.
Lemma cleanup_pods_frame : preserves R (cleanupSeedGenerationPreflightPods env).
Proof using QuietFrame0. unfold cleanupSeedGenerationPreflightPods. frame_walk. Qed.
#[local] Hint Resolve ensure_snapshot_frame cleanup_pods_frame : frame.
Lemma cleanup_preflight_frame : preserves R (cleanupSeedGenerationPreflightResources env).
Proof using QuietFrame0. unfold cleanupSeedGenerationPreflightResources. frame_walk. Qed.
#[local] Hint Resolve cleanup_preflight_frame : frame.

(** *** The preflight, but the identity *)

Lemma spoke_client_frame s : preserves R (seedGenerationSpokeClient env s).
Proof using QuietFrame0. unfold seedGenerationSpokeClient. frame_walk. Qed.
#[local] Hint Resolve spoke_client_frame : frame.
Lemma verified_client_frame s : preserves R (verifiedSeedGenerationSpokeClient env s).
Proof using QuietFrame0. unfold verifiedSeedGenerationSpokeClient. frame_walk. Qed.
Lemma spoke_identity_frame : preserves R (validateSeedGenerationSpokeIdentity env).
Proof using QuietFrame0. unfold validateSeedGenerationSpokeIdentity. frame_walk. Qed.
#[local] Hint Resolve verified_client_frame spoke_identity_frame : frame.
Lemma preflight_pod_frame s tools name command argument : preserves R (observeSeedGenerationPreflightPod env s tools name command argument).
Proof using QuietFrame0. unfold observeSeedGenerationPreflightPod. frame_walk. Qed.
#[local] Hint Resolve preflight_pod_frame : frame.
Lemma resolve_release_frame s tools name : preserves R (resolve_release env s tools name).
Proof using QuietFrame0. unfold resolve_release. frame_walk. Qed.
#[local] Hint Resolve resolve_release_frame : frame.
Lemma tools_frame s : preserves R (ensureSeedGenerationToolsPreflight env s).
Proof using QuietFrame0. unfold ensureSeedGenerationToolsPreflight. frame_walk. Qed.
#[local] Hint Resolve tools_frame : frame.

(** *** The objects of the live ISO *)

Lemma pin_job_frame uid : preserves R (pin_job env uid).
Proof using QuietFrame0. unfold pin_job. frame_walk. Qed.
#[local] Hint Resolve pin_job_frame : frame.
Lemma delete_job_frame : preserves R (deleteSeedGenerationISOJobAndPods env).
Proof using QuietFrame0. unfold deleteSeedGenerationISOJobAndPods. frame_walk. Qed.
Lemma upload_frame : preserves R (cleanupSeedGenerationISOUpload env).
Proof using QuietFrame0. unfold cleanupSeedGenerationISOUpload. frame_walk. Qed.
Lemma delete_ISO_objects_frame preserved kind objects b :
  hub_workload kind = true -> preserves R (delete_ISO_objects env preserved kind objects b).
Proof using QuietFrame0.
  intros Hk. revert b. induction objects as [|m objects IH]; intros b; cbn [delete_ISO_objects]; frame_walk.
Qed.
#[local] Hint Resolve delete_job_frame upload_frame delete_ISO_objects_frame : frame.
Lemma ISO_resources_frame b c : preserves R (cleanupSeedGenerationISOResources env b c).
Proof using QuietFrame0. unfold cleanupSeedGenerationISOResources, deleteSeedGenerationISOResources. frame_walk. Qed.
#[local] Hint Resolve ISO_resources_frame : frame.
Lemma pods_progress_frame job pods : preserves R (pods_progress env job pods).
Proof using QuietFrame0. induction pods as [|p pods IH]; cbn [pods_progress]; frame_walk. Qed.
Lemma pods_logs_frame job pods logs failure : preserves R (pods_logs env job pods logs failure).
Proof using QuietFrame0. revert logs failure. induction pods as [|p pods IH]; intros logs failure; cbn [pods_logs]; frame_walk. Qed.
#[local] Hint Resolve pods_progress_frame pods_logs_frame : frame.
Lemma list_job_pods_frame what job : preserves R (list_job_pods env what job).
Proof using QuietFrame0. unfold list_job_pods. frame_walk. Qed.
Lemma ISO_PVC_frame s : preserves R (ensureSeedGenerationISOPVC env s).
Proof using QuietFrame0. unfold ensureSeedGenerationISOPVC. frame_walk. Qed.
Lemma diagnostics_frame logs : preserves R (createSeedGenerationISODiagnostics env logs).
Proof using QuietFrame0. unfold createSeedGenerationISODiagnostics. frame_walk. Qed.
#[local] Hint Resolve list_job_pods_frame ISO_PVC_frame diagnostics_frame : frame.
Lemma retain_frame reason retained : preserves R (retain_diagnostics env reason retained).
Proof using QuietFrame0. unfold retain_diagnostics. frame_walk. Qed.
#[local] Hint Resolve retain_frame : frame.
Lemma diagnose_frame reason message job s : preserves R (diagnose env reason message job s).
Proof using QuietFrame0. unfold diagnose, seedGenerationISOJobFailureLogs. frame_walk. Qed.
#[local] Hint Resolve diagnose_frame : frame.
Lemma CA_frame s : preserves R (ensureSeedGenerationISOCAConfigMap env s).
Proof using QuietFrame0. unfold ensureSeedGenerationISOCAConfigMap. frame_walk. Qed.
#[local] Hint Resolve CA_frame : frame.
Lemma wait_frame : preserves R (waitForSeedGeneratorStatus env).
Proof using QuietFrame0. unfold waitForSeedGeneratorStatus. frame_walk. Qed.
#[local] Hint Resolve wait_frame : frame.

(** ** The end of a run that fails *)

(** With the clean-up of the spoke. *)
Context (Hdetached : preserves R (cleanupSeedGenerationDetachedResources env)).

Lemma detached_record_frame : preserves R (cleanupSeedGenerationDetachedResourcesAndRecordCompletion env).
Proof using QuietFrame0 Hdetached. unfold cleanupSeedGenerationDetachedResourcesAndRecordCompletion. frame_walk. Qed.
#[local] Hint Resolve detached_record_frame : frame.
Lemma run_resources_frame : preserves R (cleanupSeedGenerationRunResources env).
Proof using QuietFrame0 Hdetached. unfold cleanupSeedGenerationRunResources. frame_walk. Qed.
#[local] Hint Resolve run_resources_frame : frame.
Lemma fail_frame reason message : preserves R (failSeedGeneration env reason message).
Proof using QuietFrame0 Hdetached. unfold failSeedGeneration. frame_walk. Qed.
#[local] Hint Resolve fail_frame : frame.
Lemma handle_error_frame reason operation e : preserves R (handle_error env reason operation e).
Proof using QuietFrame0 Hdetached. unfold handle_error. frame_walk. Qed.
#[local] Hint Resolve handle_error_frame : frame.
Lemma cleanup_frame : preserves R (cleanupSeedGenerationResources env).
Proof using QuietFrame0 Hdetached. unfold cleanupSeedGenerationResources, delete_all_kinds, delete_labelled. frame_walk. Qed.
Lemma fail_ISO_frame reason message job s : preserves R (failSeedGenerationISOJob env reason message job s).
Proof using QuietFrame0 Hdetached. unfold failSeedGenerationISOJob. frame_walk. Qed.
#[local] Hint Resolve fail_ISO_frame : frame.
Lemma timeout_frame message : preserves R (failSeedGenerationISOTimeout env message).
Proof using QuietFrame0 Hdetached. unfold failSeedGenerationISOTimeout. frame_walk. Qed.
Lemma missing_job_frame status : preserves R (missing_job env status).
Proof using QuietFrame0 Hdetached. unfold missing_job. frame_walk. Qed.
Lemma observation_error_frame operation e : preserves R (handleSeedGeneratorObservationError env operation e).
Proof using QuietFrame0 Hdetached. unfold handleSeedGeneratorObservationError. frame_walk. Qed.
#[local] Hint Resolve timeout_frame missing_job_frame observation_error_frame : frame.
End quiet.

#[export] Hint Resolve get_seed_frame fail_text_frame setProgress_frame updateProgress_frame load_frame
  ensure_snapshot_frame cleanup_pods_frame cleanup_preflight_frame spoke_client_frame verified_client_frame
  spoke_identity_frame tools_frame list_job_pods_frame pods_progress_frame ISO_PVC_frame CA_frame wait_frame
  detached_record_frame run_resources_frame fail_frame handle_error_frame cleanup_frame fail_ISO_frame
  timeout_frame missing_job_frame observation_error_frame : frame.

(** ** Parts that act on the spoke *)

Section acting.
Context `{Semver} `{SeedEncoding} `{SeedLibraries} `{SeedFormats} `{SeedText} (env : Env) {R : relation task} `{!QuietFrame env R}.
Context (Hacts : forall A (c : seed_call A), acts c = true -> preserves R (ask env c)).
#[local] Hint Extern 2 (preserves _ (ask _ _)) => apply Hacts; reflexivity : frame.

Lemma deleteObject_frame p kind m q : preserves R (deleteSeedGenerationObject env p kind m q).
Proof using QuietFrame0 Hacts.
  assert (preserves R (ask env (Delete p kind m q))).
  { destruct (acts (Delete p kind m q)) eqn:E; [by apply Hacts|]. apply frame_ask. unfold quiet. by rewrite E. }
  unfold deleteSeedGenerationObject. frame_walk.
Qed.
#[local] Hint Resolve deleteObject_frame : frame.

Lemma taint_frame name : preserves R (ensureSeedGenerationNoSelectTaint env name).
Proof using QuietFrame0 Hacts. unfold ensureSeedGenerationNoSelectTaint. frame_walk. Qed.
Lemma pause_configs_frame configs b : preserves R (pause_configs env configs b).
Proof using QuietFrame0 Hacts. revert b. induction configs as [|c configs IH]; intros b; cbn [pause_configs]; frame_walk. Qed.
Lemma read_only_frame existing manifests : preserves R (seedGenerationReadOnlyConfigs env existing manifests).
Proof using QuietFrame0. induction manifests as [|m manifests IH]; cbn [seedGenerationReadOnlyConfigs]; frame_walk. Qed.
#[local] Hint Resolve taint_frame pause_configs_frame read_only_frame : frame.
Lemma pause_works_frame works b : preserves R (pause_works env works b).
Proof using QuietFrame0 Hacts. revert b. induction works as [|w works IH]; intros b; cbn [pause_works]; frame_walk. Qed.
Lemma delete_works_frame name works : preserves R (delete_works env name works).
Proof using QuietFrame0 Hacts. induction works as [|w works IH]; cbn [delete_works]; frame_walk. Qed.
Lemma monitoring_frame namespace : preserves R (cleanupSeedGenerationMonitoringConfig env namespace).
Proof using QuietFrame0 Hacts. unfold cleanupSeedGenerationMonitoringConfig. frame_walk. Qed.
#[local] Hint Resolve pause_works_frame delete_works_frame monitoring_frame : frame.
Lemma cleanup_namespaces_frame namespaces b : preserves R (cleanup_namespaces env namespaces b).
Proof using QuietFrame0 Hacts. revert b. induction namespaces as [|n namespaces IH]; intros b; cbn [cleanup_namespaces]; frame_walk. Qed.
Lemma klusterlet_frame name : preserves R (removeSeedGenerationKlusterlet env name).
Proof using QuietFrame0 Hacts. unfold removeSeedGenerationKlusterlet. frame_walk. Qed.
Lemma applied_works_frame : preserves R (cleanupSeedGenerationAppliedWorks env).
Proof using QuietFrame0 Hacts. unfold cleanupSeedGenerationAppliedWorks. frame_walk. Qed.
#[local] Hint Resolve cleanup_namespaces_frame klusterlet_frame applied_works_frame : frame.
Lemma detach_spoke_frame name crd : preserves R (detach_spoke env name crd).
Proof using QuietFrame0 Hacts. unfold detach_spoke. frame_walk. Qed.
#[local] Hint Resolve detach_spoke_frame : frame.
Lemma detachment_frame s : preserves R (reconcileSeedGenerationAgentDetachment env s).
Proof using QuietFrame0 Hacts. unfold reconcileSeedGenerationAgentDetachment. frame_walk. Qed.
Lemma cleanup_generator_frame : preserves R (cleanup_generator env).
Proof using QuietFrame0 Hacts. unfold cleanup_generator. frame_walk. Qed.
Lemma cleanup_seed_secret_frame : preserves R (cleanup_seed_secret env).
Proof using QuietFrame0 Hacts. unfold cleanup_seed_secret. frame_walk. Qed.
#[local] Hint Resolve cleanup_generator_frame cleanup_seed_secret_frame : frame.
Lemma detached_frame : preserves R (cleanupSeedGenerationDetachedResources env).
Proof using QuietFrame0 Hacts. unfold cleanupSeedGenerationDetachedResources. frame_walk. Qed.
#[local] Hint Resolve detached_frame : frame.
Lemma ensure_seed_secret_frame s : preserves R (ensure_seed_secret env s).
Proof using QuietFrame0 Hacts. unfold ensure_seed_secret. frame_walk. Qed.
End acting.

#[export] Hint Resolve taint_frame pause_configs_frame cleanup_generator_frame cleanup_seed_secret_frame detach_spoke_frame
  detachment_frame detached_frame ensure_seed_secret_frame : frame.

(** ** The phases *)

(** What is left to a client of the interface: the pinning of the cluster, the intent to
    detach, and the steps after it. *)
Section run.
Context `{Semver} `{SeedEncoding} `{SeedLibraries} `{SeedFormats} `{SeedText} (env : Env) {R : relation task} `{!QuietFrame env R}.
Context (Hdetached : preserves R (cleanupSeedGenerationDetachedResources env)).
Context (Hpin : forall s, preserves R (pinSeedGenerationIdentity env s)).
Context (Hstart : preserves R (start_detachment env)).
Context (Hsteps : forall s, preserves R (reconcileSeedGenerationDetached env s)).

Lemma preflight_frame : preserves R (reconcileSeedGenerationPreflight env).
Proof using QuietFrame0 Hdetached Hpin. unfold reconcileSeedGenerationPreflight. frame_walk. Qed.
Lemma snapshot_frame : preserves R (reconcileSeedGenerationSnapshot env).
Proof using QuietFrame0 Hdetached Hstart Hsteps. unfold reconcileSeedGenerationSnapshot. frame_walk. Qed.
#[local] Hint Resolve preflight_frame snapshot_frame : frame.
Lemma run_frame : preserves R (reconcileSeedGeneration env).
Proof using QuietFrame0 Hdetached Hpin Hstart Hsteps. unfold reconcileSeedGeneration, advance_run. frame_walk. Qed.
End run.

(** ** The end of a reconcile *)

(** Quiet parts lead from [P] to [P]; a part that ends a reconcile leads from [P] to [Q]. *)
Create HintDb ends.

Section ends.
Context `{Semver} `{SeedEncoding} `{SeedLibraries} `{SeedFormats} `{SeedText} (env : Env) {R : relation task} `{!QuietFrame env R}.
Context (P Q : task -> Prop) (HR : forall t t', P t -> R t t' -> P t') (HPQ : forall t, P t -> Q t).
Abbreviation ends m := (leads P m (fun _ => Q) Q).

Lemma ends_quiet {A} (m : prog A) : preserves R m -> ends m.
Proof using HR HPQ. intros Hm. eapply leads_mono; [by eapply (leads_frame R P P)|done|auto..]. Qed.
Lemma ends_bind {A B} (m : prog A) (k : A -> prog B) : preserves R m -> (forall a, ends (k a)) -> ends (m ≫= k).
Proof using HR HPQ.
  intros Hm Hk. eapply leads_bind; [|exact Hk]. eapply leads_mono; [by eapply (leads_frame R P P)|done|done|auto].
Qed.
Lemma ends_get_seed {A} (k : SeedGenerationStatus -> prog A) :
  (forall s, leads (fun t => P t /\ seed_status (object t) = Some s) (k s) (fun _ => Q) Q) -> ends (get_seed ≫= k).
Proof using HPQ.
  intros Hk t Ht. apply wp_bind. unfold wp, get_seed, get_details, mbind, handler_bind. simpl.
  destruct (Cluster (object t)) as [d|] eqn:Ed; simpl; [|by apply HPQ].
  destruct (SeedStatus d) as [s|] eqn:Es; simpl; [|by apply HPQ].
  apply Hk. split; [done|]. unfold seed_status. by rewrite Ed.
Qed.
Lemma leads_both {A} F (m : prog A) : ends m -> leads (fun t => P t /\ F t) m (fun _ => Q) Q.
Proof using. intros Hm. eapply leads_when; [|exact Hm]. by intros t []. Qed.
End ends.

(** Walk to the ends of a program: [HR] and [HPQ] are the hypotheses above. *)
Ltac ends_step HR HPQ :=
  cbv beta iota zeta;
  lazymatch goal with
  | |- leads _ (_ ≫= _) _ _ => apply (ends_bind _ _ HR HPQ); [solve [frame_walk]|intros ?]
  | |- leads _ (match ?x with _ => _ end) _ _ => destruct x
  | |- leads _ ?m _ _ => first [solve [auto with ends] | solve [apply (ends_quiet _ _ HR HPQ); frame_walk]
                                | let h := head m in unfold h]
  end.
Ltac ends_walk HR HPQ := repeat ends_step HR HPQ.

Section run_ends.
Context `{Semver} `{SeedEncoding} `{SeedLibraries} `{SeedFormats} `{SeedText} (env : Env) {R : relation task} `{!QuietFrame env R}.
Context (P Q : task -> Prop) (HR : forall t t', P t -> R t t' -> P t') (HPQ : forall t, P t -> Q t).
Abbreviation ends m := (leads P m (fun _ => Q) Q).
Context (Hdetached : preserves R (cleanupSeedGenerationDetachedResources env)).
Context (Hpin : forall s, preserves R (pinSeedGenerationIdentity env s)).
Context (Hstart : ends (start_detachment env)).
Context (Hsteps : forall s st, DetachmentStarted st = true ->
  leads (fun t => P t /\ seed_status (object t) = Some st) (reconcileSeedGenerationDetached env s) (fun _ => Q) Q).

Lemma snapshot_ends : ends (reconcileSeedGenerationSnapshot env).
Proof using QuietFrame0 HR HPQ Hdetached Hstart Hsteps.
  unfold reconcileSeedGenerationSnapshot. apply (ends_bind _ _ HR HPQ); [frame_walk|]. intros o. destruct (decide _); [ends_walk HR HPQ|].
  apply (ends_bind _ _ HR HPQ); [frame_walk|]. intros [e|s]; [ends_walk HR HPQ|].
  apply (ends_bind _ _ HR HPQ); [frame_walk|]. intros st. destruct (_ && _); [ends_walk HR HPQ|].
  apply (ends_bind _ _ HR HPQ); [frame_walk|]. intros [e|[]]; [ends_walk HR HPQ..|].
  apply (ends_get_seed _ _ HPQ). intros st'. destruct (DetachmentStarted st') eqn:E; [auto|]. apply leads_both. ends_walk HR HPQ.
Qed.

Lemma run_ends : ends (reconcileSeedGeneration env).
Proof using QuietFrame0 HR HPQ Hdetached Hpin Hstart Hsteps.
  pose proof (preflight_frame env Hdetached Hpin). pose proof snapshot_ends.
  unfold reconcileSeedGeneration, advance_run. ends_walk HR HPQ.
Qed.
End run_ends.

(** * Traces of a run of seed generation (theory of SeedGeneration) *)

(** A reconcile only appends to its log of calls.  [traced] says of every call that is
    appended what holds of it and of the calls before it; it composes like the parts do,
    and so do the two ways to combine it with a property of the task. *)
#[local] Close Scope string_scope.

(** ** Traces *)

(** Given the calls before it, every new call is as it should be. *)
Definition traced (ok : list event -> event -> Prop) (t t' : task) : Prop :=
  exists es, log t' = log t ++ es /\ forall l1 e l2, es = l1 ++ e :: l2 -> ok (log t ++ l1) e.

#[export] Instance traced_preorder ok : PreOrder (traced ok).
Proof.
  split.
  - intros t. exists []. split; [by rewrite app_nil_r|]. by intros [] ? ?.
  - intros t1 t2 t3 (es & E1 & H1) (fs & E2 & H2). exists (es ++ fs). split; [by rewrite E2, E1, app_assoc|].
    intros l1 e l2 E. symmetry in E. apply app_eq_app in E as (l & [[-> E]|[-> E]]).
    + rewrite app_assoc, <- E1. by eapply H2.
    + destruct l as [|e' l]; simpl in E; [|injection E as -> ->; by eapply H1].
      specialize (H2 [] e l2 (eq_sym E)). by rewrite app_nil_r, E1, app_nil_r in H2.
Qed.

Lemma traced_refl ok t t' : log t' = log t -> traced ok t t'.
Proof. intros E. unfold traced. rewrite E. exists []. split; [by rewrite app_nil_r|]. by intros [] ? ?. Qed.
Lemma traced_event ok t e : ok (log t) e -> traced ok t (with_event e t).
Proof.
  intros He. exists [e]. split; [done|]. intros l1 e' l2 E.
  destruct l1 as [|? l1]; [|by destruct l1]. injection E as <- <-. by rewrite app_nil_r.
Qed.
Lemma traced_mono (ok ok' : list event -> event -> Prop) t t' :
  (forall h e, ok h e -> ok' h e) -> traced ok t t' -> traced ok' t t'.
Proof. intros Hok (es & E & H). exists es. split; [done|]. eauto. Qed.
(** A call that is in the log now was there, or is as it should be. *)
Lemma traced_in ok t t' h e l : traced ok t t' -> log t' = log t ++ h ++ e :: l -> ok (log t ++ h) e.
Proof. intros (es & E & H) E'. rewrite E in E'. apply app_inv_head in E'. by eapply H. Qed.

(** ** Frames *)

Definition run_marks (o : ProvisioningRequest) : option (bool * bool * bool * string) := marks <$> seed_status o.
Definition completed (o : ProvisioningRequest) : bool :=
  condition_is o PRconditionTypes.SeedGenerationCompleted is_true.

(** A quiet part keeps the marks of the run and does not complete it. *)
Definition quiet_change (o o' : ProvisioningRequest) : Prop :=
  run_marks o' = run_marks o /\ (completed o' = true -> completed o = true).
#[export] Instance quiet_change_preorder : PreOrder quiet_change.
Proof. split; [done|]. intros ? ? ? [] []. split; [congruence|auto]. Qed.

Lemma completed_false_condition now cs reason message :
  match FindStatusCondition (SetStatusCondition now cs PRconditionTypes.SeedGenerationCompleted reason ConditionFalse message)
          PRconditionTypes.SeedGenerationCompleted with Some c => is_true c | None => false end = false.
Proof.
  unfold SetStatusCondition. match goal with |- context [meta_SetStatusCondition ?cs ?new] =>
    pose proof (Find_SetStatusCondition_eq cs new) as E end.
  cbn [cond_Type] in E. rewrite E. clear E. by destruct (FindStatusCondition _ _).
Qed.

Lemma append_keeps_truth cs t message :
  match FindStatusCondition (append_to_condition t message cs) t with Some c => is_true c | None => false end =
  match FindStatusCondition cs t with Some c => is_true c | None => false end.
Proof.
  induction cs as [|c cs IH]; [done|]. cbn [append_to_condition FindStatusCondition].
  destruct (decide (cond_Type c = t)) as [E|E]; cbn [FindStatusCondition].
  - unfold append_message. destruct (Contains _ _); cbn [cond_Type]; rewrite !decide_True by done; done.
  - by rewrite !decide_False by done.
Qed.

(** An assignment to the status of the run, if there is one. *)
Lemma modify_seed_cases (R : relation task) `{!PreOrder R} f :
  (forall t d st, Cluster (object t) = Some d -> SeedStatus d = Some st ->
     R t (with_object (with_cluster (Some (with_seed (Some (f st)) d)) (object t)) t)) -> preserves R (modify_seed f).
Proof.
  intros Hf t. unfold modify_seed, get_seed, get_details, modify_details, mbind, handler_bind. simpl.
  destruct (Cluster (object t)) as [d|] eqn:Ed; simpl; [|reflexivity].
  destruct (SeedStatus d) as [s|] eqn:Es; simpl; [|reflexivity].
  unfold get_details, mbind, handler_bind. simpl. rewrite Ed. by apply Hf.
Qed.

(** A relation that holds of quiet changes and calls is a quiet frame. *)
Section frame.
Context `{Semver} `{SeedEncoding} `{SeedLibraries} `{SeedFormats} `{SeedText} (env : Env) (R : relation task) `{!PreOrder R}.
Context (Hobject : forall t o, quiet_change (object t) o -> R t (with_object o t)).
Context (Hask : forall t A (c : seed_call A), quiet c = true -> R t (with_event (Ev (object t) (Seed c)) t)).
Context (Hread : forall t A (c : call A), hub_read c = true -> R t (with_event (Ev (object t) c) t)).
Context (Hupdate : forall t, R t (with_event (Ev (object t) (UpdateStatus (object t))) t)).

Lemma trigger_frame {A} (c : call A) :
  (forall t, R t (with_event (Ev (object t) c) t)) -> preserves R (trigger env c).
Proof using. intros Hc t. unfold trigger. by destruct (api env c (log t)). Qed.

Lemma object_frame f : (forall o, quiet_change o (f o)) -> preserves R (modify_object f).
Proof using Hobject. intros Hf t. by apply Hobject. Qed.

Lemma quiet_frame : QuietFrame env R.
Proof using PreOrder0 Hobject Hask Hread Hupdate.
  split; [done|..].
  - intros A c Hc. apply trigger_frame. auto.
  - intros A c Hc. apply trigger_frame. auto.
  - intros f Hf. apply modify_seed_cases; [done|]. intros t d s Ed Es. apply Hobject. split; [|done].
    unfold run_marks, seed_status. simpl. rewrite Ed, Es. simpl. by rewrite Hf.
  - intros reason message. unfold set_condition. apply preserves_bind; [by apply preserves_read|]. intros time.
    apply object_frame. intros o. split; [done|]. unfold completed, condition_is.
    simpl. by rewrite completed_false_condition.
  - intros message. unfold set_in_progress, set_phase. apply preserves_bind; [by apply preserves_read|]. intros time.
    apply object_frame. intros o. unfold SetProvisioningStateInProgress, set_state. by case_match.
  - intros message. unfold set_failed, set_phase. apply preserves_bind; [by apply preserves_read|]. intros time.
    apply object_frame. intros o. unfold SetProvisioningStateFailed, set_state. by case_match.
  - unfold UpdateK8sCRStatus. apply preserves_bind; [by apply object_frame|]. intros _ t.
    unfold wrapped, try, trigger, get_object, mbind, handler_bind. simpl.
    by destruct (api env (UpdateStatus (object t)) (log t)); apply Hupdate.
  - unfold note_manual_cleanup. apply preserves_bind; [by apply preserves_read|]. intros o.
    apply preserves_bind; [|intros _; apply preserves_when; by apply object_frame].
    apply object_frame. intros o'. split; [done|]. unfold completed, condition_is. simpl. by rewrite append_keeps_truth.
Qed.
End frame.

(** The end of a run leaves its status alone. *)
Lemma complete_run_keeps env (R : relation task) `{!QuietFrame env R} message what :
  (forall t o, seed_status o = seed_status (object t) -> R t (with_object o t)) ->
  preserves R (complete_run env message what).
Proof.
  intros HR.
  assert (preserves R (set_condition env PRconditionTypes.SeedGenerationCompleted CRconditionReasons.Completed
                         ConditionTrue message)).
  { unfold set_condition. apply preserves_bind; [by apply preserves_read|]. intros time t. by apply HR. }
  assert (preserves R (set_phase env SetProvisioningStateFulfilled)).
  { unfold set_phase. apply preserves_bind; [by apply preserves_read|]. intros time t. apply HR.
    unfold SetProvisioningStateFulfilled. by case_decide. }
  unfold complete_run. frame_walk.
Qed.
