(* ===== verification/SeedOnce.v ===== *)
(** * Work is submitted once (theory of SeedGeneration)

    The agent of the spoke and the job of the live ISO are asked only after the intent has
    been stored, and not again while it stands. *)
From S2P Require Import Prelude Conditions GoText Unstructured Handler ProvisioningStatus MergeMaps UpgradePlan SeedObjects ProvisioningTask ProvisioningValidation ProvisioningRequest Upgrade SeedSnapshot SeedWorkloads SeedRegistry SeedMirrors SeedInputs SeedPreflight SeedDetachment SeedCleanup SeedISO SeedGeneration SeedFrame.
#[local] Open Scope Z_scope.

Definition run_flag (flag : SeedGenerationStatus -> bool) (o : ProvisioningRequest) : bool :=
  match seed_status o with Some s => flag s | None => false end.

(** The intent that goes with a submission. *)
Definition intent_flag {A} (c : seed_call A) : SeedGenerationStatus -> bool :=
  match c with
  | CreateSeedGenerator _ => SeedGeneratorSubmitted
  | CreateJob _ => ISOJobSubmitted
  | _ => fun _ => false
  end.
Definition intent {A} (c : seed_call A) (o : ProvisioningRequest) : bool := run_flag (intent_flag c) o.

(** The last call stored the request as it is. *)
Definition stored (env : Env) (h : list event) (o : ProvisioningRequest) : Prop :=
  exists h0, h = h0 ++ [Ev o (UpdateStatus o)] /\ api env (UpdateStatus o) h0 = inr tt.

Definition intended (env : Env) (h : list event) (e : event) : Prop :=
  match e with
  | Ev o c => match c with
              | Seed c => submits c = true -> intent c o = true /\ stored env h o
              | _ => True
              end
  end.

Lemma not_submits {A} (c : seed_call A) : quiet c = true \/ acts c = true -> submits c = false.
Proof. intros [Hc|Hc]; destruct c; try done; by destruct p. Qed.

(** ** The state after a step *)

Section steps.
Context `{Semver} `{SeedEncoding} `{SeedLibraries} `{SeedFormats} `{SeedText} (env : Env).

Lemma modify_seed_leads f (Q : SeedGenerationStatus -> Prop) :
  (forall s, Q (f s)) ->
  leads (fun _ => True) (modify_seed f) (fun _ t => exists s, seed_status (object t) = Some s /\ Q s) (fun _ => True).
Proof using.
  intros HQ t _. unfold wp, modify_seed, get_seed, get_details, modify_details, mbind, handler_bind. simpl.
  destruct (Cluster (object t)) as [d|] eqn:Ed; simpl; [|done].
  destruct (SeedStatus d) as [s|] eqn:Es; simpl; [|done].
  unfold get_details, mbind, handler_bind. simpl. rewrite Ed. simpl. by exists (f s).
Qed.

(** The status that is read is that of the request. *)
Lemma preserves_get_seed (R : relation task) `{!PreOrder R} {A} (k : SeedGenerationStatus -> prog A) :
  (forall s t, seed_status (object t) = Some s -> R t (k s t).1) -> preserves R (get_seed ≫= k).
Proof using.
  intros Hk t. unfold get_seed, get_details, mbind, handler_bind. simpl.
  destruct (Cluster (object t)) as [d|] eqn:Ed; simpl; [|reflexivity].
  destruct (SeedStatus d) as [s|] eqn:Es; simpl; [|reflexivity].
  apply Hk. unfold seed_status. by rewrite Ed.
Qed.

Definition same_marks (t t' : task) : Prop := run_marks (object t') = run_marks (object t).
#[export] Instance same_marks_preorder : PreOrder same_marks.
Proof. split; [done|]. intros ? ? ? ? ?. unfold same_marks in *. congruence. Qed.
Lemma same_marks_frame : QuietFrame env same_marks.
Proof using. apply quiet_frame; [apply _|..]; unfold same_marks; try done. by intros t o []. Qed.

Lemma run_flag_marks (flag : bool * bool * bool * string -> bool) o o' :
  run_marks o' = run_marks o -> run_flag (fun s => flag (marks s)) o' = run_flag (fun s => flag (marks s)) o.
Proof using.
  intros E. assert (forall r, run_flag (fun s => flag (marks s)) r = default false (flag <$> run_marks r)) as Hf.
  { intros r. unfold run_flag, run_marks. by destruct (seed_status r). }
  by rewrite !Hf, E.
Qed.
Lemma intent_marks {A} (c : seed_call A) o o' : run_marks o' = run_marks o -> intent c o' = intent c o.
Proof using.
  intros E. destruct c; try by (unfold intent, run_flag; do 2 case_match).
  - by apply (run_flag_marks (fun m => m.1.2)).
  - by apply (run_flag_marks (fun m => m.1.1.2)).
Qed.

(** A store that succeeds. *)
Lemma update_stored P :
  (forall t t', P t -> same_marks t t' -> P t') ->
  leads P (UpdateK8sCRStatus env) (fun _ t => P t /\ stored env (log t) (object t)) (fun _ => True).
Proof using.
  intros HP t Ht. unfold wp, UpdateK8sCRStatus, wrapped, try, trigger, get_object, mbind, handler_bind. simpl.
  set (o := with_observed (Generation (object t)) (object t)).
  destruct (api env (UpdateStatus o) (log t)) as [e|[]] eqn:E; simpl; [done|].
  split; [by apply (HP t)|]. by exists (log t).
Qed.
End steps.

(** ** No submission without its intent *)

Section intended.
Context `{Semver} `{SeedEncoding} `{SeedLibraries} `{SeedFormats} `{SeedText} (env : Env).
Abbreviation R := (traced (intended env)).

Lemma intended_frame : QuietFrame env R.
Proof using.
  apply quiet_frame; [apply _|..]; intros; first [by apply traced_refl|apply traced_event]; try done; [|by destruct c].
  simpl. by rewrite not_submits by auto.
Qed.
#[local] Existing Instance intended_frame.

Lemma acts_intended {A} (c : seed_call A) : acts c = true -> preserves R (ask env c).
Proof using. intros Hc. apply trigger_frame. intros t. apply traced_event. simpl. by rewrite not_submits by auto. Qed.
Lemma modify_seed_intended f : preserves R (modify_seed f).
Proof using. apply modify_seed_cases; [apply _|]. intros. by apply traced_refl. Qed.
Lemma modify_object_intended f : preserves R (modify_object f).
Proof using. intros t. by apply traced_refl. Qed.
#[local] Hint Resolve acts_intended modify_seed_intended modify_object_intended : frame.

(** What is asked once the intent is stored. *)
Lemma submit_intended {A} (c : seed_call A) t :
  intent c (object t) = true /\ stored env (log t) (object t) -> R t (try (ask env c) t).1.
Proof using.
  intros Hc. unfold try, ask, trigger. destruct (api env (Seed c) (log t)); simpl; apply traced_event; by intros _.
Qed.

(** The steps that store an intent, and what comes then. *)
Lemma intend_intended {A B C} (c : seed_call A) f reason message (store : prog B) (next : B -> prog C) F :
  (forall s, intent_flag c (f s) = true) ->
  leads (fun t => intent c (object t) = true) store F (fun _ => True) -> preserves R store ->
  (forall b t, F b t -> R t (next b t).1) ->
  preserves R (_ ← modify_seed f; _ ← setSeedGenerationProgress env reason message; b ← store; next b).
Proof using.
  intros Hf Hs Hr Hk t.
  apply (from_bind_post _ _ _ (fun _ t => intent c (object t) = true)); [apply modify_seed_intended|..].
  { eapply wp_mono; [by apply (modify_seed_leads f (fun s => intent_flag c s = true) Hf)|].
    intros s' [] Hs'; try done. destruct Hs' as (s & E & Hi). unfold intent, run_flag. by rewrite E. }
  intros _ t1 Ht1.
  apply (from_bind_post _ _ _ (fun _ t => intent c (object t) = true)).
  - apply (setProgress_frame env).
  - eapply wp_mono; [eapply (leads_keep same_marks (fun t => intent c (object t) = true)
                               (fun t => intent c (object t) = true)); [|..|exact Ht1]|by intros ? []].
    + apply (setProgress_frame env (QuietFrame0 := same_marks_frame env)).
    + intros s s' Hi E. by rewrite (intent_marks c (object s)).
  - intros _ t2 Ht2. eapply (from_bind_post _ _ _ F); [apply Hr|..|exact Hk].
    eapply wp_mono; [by apply Hs|]. by intros ? [].
Qed.

Lemma intent_stored {A} (c : seed_call A) :
  leads (fun t => intent c (object t) = true) (UpdateK8sCRStatus env)
    (fun _ t => intent c (object t) = true /\ stored env (log t) (object t)) (fun _ => True).
Proof using. apply update_stored. intros t t' Hi E. by rewrite (intent_marks c (object t)). Qed.

Lemma submit_generator_intended sg : preserves R (submit_generator env sg).
Proof using.
  apply (intend_intended (CreateSeedGenerator sg) _ _ _ _ _
    (fun _ t => intent (CreateSeedGenerator sg) (object t) = true /\ stored env (log t) (object t))); [by intros []|..].
  - unfold wrapped. eapply leads_bind; [apply leads_try, intent_stored|].
    by intros [e|[]]; [apply leads_raise|apply leads_ret].
  - frame_walk.
  - intros _ t Ht. apply from_bind; [by apply submit_intended|].
    intros []; unfold handleSeedGeneratorSubmissionError; frame_walk.
Qed.

Lemma submit_job_intended job hash : preserves R (submit_job env job hash).
Proof using.
  unfold submit_job. apply preserves_bind; [by apply preserves_read|]. intros time.
  apply (intend_intended (CreateJob job) _ _ _ _ _
    (fun r t => match r with inr _ => intent (CreateJob job) (object t) = true /\ stored env (log t) (object t)
                | inl _ => True end)); [by intros []|..].
  - eapply leads_mono; [apply leads_try, (intent_stored (CreateJob job))|done| |done]. by intros [].
  - frame_walk.
  - intros [e|u] t Ht.
    + revert t Ht. match goal with |- forall t, _ -> R t (?m t).1 => assert (preserves R m) by frame_walk end. auto.
    + apply from_bind; [by apply submit_intended|]. intros []; frame_walk.
Qed.
#[local] Hint Resolve submit_generator_intended submit_job_intended : frame.

Lemma complete_run_intended message what : preserves R (complete_run env message what).
Proof using.
  unfold complete_run, set_condition, set_phase. frame_walk.
Qed.
#[local] Hint Resolve complete_run_intended : frame.
Lemma ISO_intended s : preserves R (reconcileSeedGenerationISO env s).
Proof using.
  unfold reconcileSeedGenerationISO, prepare_job, observeSeedGenerationISOJob, job_outcome, completeSeedGenerationISO.
  frame_walk.
Qed.
#[local] Hint Resolve ISO_intended : frame.
Lemma steps_intended s : preserves R (reconcileSeedGenerationDetached env s).
Proof using.
  unfold reconcileSeedGenerationDetached, reconcileSeedGenerator, adopt_generator, observeSeedGenerator, record_seed_image.
  frame_walk.
Qed.
Lemma run_intended : preserves R (reconcileSeedGeneration env).
Proof using.
  pose proof steps_intended. apply run_frame; [apply _|auto with frame| | |done].
  - intros s. unfold pinSeedGenerationIdentity. frame_walk.
  - unfold start_detachment. frame_walk.
Qed.
End intended.

(** ** An intent stands *)

(** While something holds it goes on, and the calls are as they should be. *)
Definition while (G : task -> Prop) (ok : list event -> event -> Prop) (t t' : task) : Prop :=
  G t -> G t' /\ traced ok t t'.
#[export] Instance while_preorder G ok : PreOrder (while G ok).
Proof.
  split; [done|]. intros t1 t2 t3 H12 H23 H1. destruct (H12 H1) as [H2 E2]. destruct (H23 H2) as [H3 E3].
  split; [done|by etransitivity].
Qed.

Section standing.
Context `{Semver} `{SeedEncoding} `{SeedLibraries} `{SeedFormats} `{SeedText} (env : Env).
Context (g : bool * bool * bool * string -> bool) (pick : forall A, seed_call A -> bool).
Context (Hpick : forall A (c : seed_call A), pick A c = true -> submits c = true).

Definition flagged (t : task) : Prop := run_flag (fun s => g (marks s)) (object t) = true.
Definition unpicked (h : list event) (e : event) : Prop :=
  match e with Ev o c => match c with Seed c => pick _ c = false | _ => True end end.
Abbreviation R := (while flagged unpicked).

Lemma standing_call t {A} (c : call A) : unpicked (log t) (Ev (object t) c) -> R t (with_event (Ev (object t) c) t).
Proof using. intros Hc Ht. split; [done|by apply traced_event]. Qed.
Lemma unpicked_ask {A} (c : seed_call A) : quiet c = true \/ acts c = true -> pick A c = false.
Proof using Hpick.
  intros Hc%not_submits. destruct (pick A c) eqn:E; [|done]. by rewrite (Hpick _ _ E) in Hc.
Qed.

Lemma standing_frame : QuietFrame env R.
Proof using Hpick.
  apply quiet_frame; [apply _|..].
  - intros t o [E _] Ht. split; [|by apply traced_refl]. unfold flagged in *. simpl. by rewrite (run_flag_marks g (object t)).
  - intros t A c Hc. apply standing_call. simpl. auto using unpicked_ask.
  - intros t A c Hc. apply standing_call. by destruct c.
  - intros t. by apply standing_call.
Qed.
#[local] Existing Instance standing_frame.

Lemma acts_standing {A} (c : seed_call A) : acts c = true -> preserves R (ask env c).
Proof using Hpick. intros Hc. apply trigger_frame. intros t. apply standing_call. simpl. auto using unpicked_ask. Qed.
Lemma modify_seed_standing f : (forall s, g (marks s) = true -> g (marks (f s)) = true) -> preserves R (modify_seed f).
Proof using.
  intros Hf. apply modify_seed_cases; [apply _|]. intros t d s Ed Es Ht. split; [|by apply traced_refl].
  unfold flagged, run_flag, seed_status in *. simpl. rewrite Ed, Es in Ht. auto.
Qed.
Lemma complete_run_standing message what : preserves R (complete_run env message what).
Proof using Hpick.
  apply complete_run_keeps; [apply _|]. intros t o E Ht. split; [|by apply traced_refl].
  unfold flagged, run_flag in *. simpl. by rewrite E.
Qed.
#[local] Hint Resolve acts_standing complete_run_standing : frame.

(** A read of a run that is not flagged: there is nothing to keep. *)
Lemma get_seed_standing {A} (k : SeedGenerationStatus -> prog A) :
  (forall s, g (marks s) = true -> preserves R (k s)) -> preserves R (get_seed ≫= k).
Proof using.
  intros Hk. apply preserves_get_seed; [apply _|]. intros s t Hs Ht. apply Hk; [|done].
  unfold flagged, run_flag in Ht. by rewrite Hs in Ht.
Qed.

(** Submissions of the other kind. *)
Lemma unpicked_call {A} (c : seed_call A) : pick A c = false -> preserves R (ask env c).
Proof using. intros Hc. apply trigger_frame. intros t. by apply standing_call. Qed.
Lemma submit_generator_standing sg :
  pick _ (CreateSeedGenerator sg) = false ->
  (forall b s, g (marks s) = true -> g (marks (with_submitted b s)) = true) -> preserves R (submit_generator env sg).
Proof using Hpick.
  intros Hc Hf. pose proof (unpicked_call _ Hc). pose proof (fun b => modify_seed_standing _ (Hf b)).
  unfold submit_generator, handleSeedGeneratorSubmissionError. frame_walk.
Qed.
Lemma submit_job_standing job hash :
  pick _ (CreateJob job) = false ->
  (forall b time h s, g (marks s) = true -> g (marks (with_job b time h s)) = true) ->
  preserves R (submit_job env job hash).
Proof using Hpick.
  intros Hc Hf. pose proof (unpicked_call _ Hc). pose proof (fun b time h => modify_seed_standing _ (Hf b time h)).
  unfold submit_job. frame_walk.
Qed.

(** A run whose work is submitted does not come to the submission. *)
Context (Hsubmitted : forall s, g (marks s) = true -> g (marks (with_submitted true s)) = true).
Context (Hgenerator : forall s sg, g (marks s) = true -> SeedGeneratorSubmitted s = false ->
  preserves R (submit_generator env sg)).
Context (Hjob : forall s job hash, g (marks s) = true -> ISOJobSubmitted s = false ->
  preserves R (submit_job env job hash)).
Context (Hidentity : forall a b c s, g (marks s) = true -> g (marks (with_identity a b c s)) = true).
Context (Hdetachment : forall b s, g (marks s) = true -> g (marks (with_detachment b s)) = true).

Lemma adopt_standing sg s : preserves R (adopt_generator env sg s).
Proof using Hpick Hsubmitted.
  pose proof (modify_seed_standing _ Hsubmitted).
  unfold adopt_generator, observeSeedGenerator, record_seed_image. frame_walk.
Qed.
#[local] Hint Resolve adopt_standing : frame.

Lemma generator_standing s : preserves R (reconcileSeedGenerator env s).
Proof using Hpick Hsubmitted Hgenerator.
  unfold reconcileSeedGenerator. apply preserves_bind; [frame_walk|]. intros o.
  destruct (desiredSeedGenerator o s) as [e|sg]; [frame_walk|].
  do 2 (apply preserves_bind; [frame_walk|]; intros [?|?]; [|]; first [by frame_walk|idtac]).
  destruct (negb _); [frame_walk|]. apply get_seed_standing. intros st Hg.
  destruct (SeedGeneratorSubmitted st) eqn:E; [frame_walk|]. pose proof (fun sg => Hgenerator st sg Hg E). frame_walk.
Qed.
Lemma ISO_standing s : preserves R (reconcileSeedGenerationISO env s).
Proof using Hpick Hjob.
  unfold reconcileSeedGenerationISO. apply preserves_bind; [frame_walk|]. intros o.
  apply get_seed_standing. intros st Hg.
  destruct (ISOJobSubmitted st) eqn:E.
  - unfold observeSeedGenerationISOJob, job_outcome, completeSeedGenerationISO. frame_walk.
  - pose proof (fun job hash => Hjob st job hash Hg E). unfold prepare_job. frame_walk.
Qed.
#[local] Hint Resolve generator_standing ISO_standing : frame.

Lemma run_standing : preserves R (reconcileSeedGeneration env).
Proof using Hpick Hsubmitted Hgenerator Hjob Hidentity Hdetachment.
  apply run_frame; [apply _|auto with frame|..].
  - intros s. pose proof (fun a b c => modify_seed_standing _ (Hidentity a b c)).
    unfold pinSeedGenerationIdentity. frame_walk.
  - pose proof (fun b => modify_seed_standing _ (Hdetachment b)). unfold start_detachment. frame_walk.
  - intros s. unfold reconcileSeedGenerationDetached. frame_walk.
Qed.
End standing.

(** ** The two intents *)

Definition asks_agent A (c : seed_call A) : bool := match c with CreateSeedGenerator _ => true | _ => false end.
Definition makes_job A (c : seed_call A) : bool := match c with CreateJob _ => true | _ => false end.

Section intents.
Context `{Semver} `{SeedEncoding} `{SeedLibraries} `{SeedFormats} `{SeedText} (env : Env).

Lemma agent_stands : preserves (while (flagged (fun m => m.1.1.2)) (unpicked asks_agent)) (reconcileSeedGeneration env).
Proof using.
  apply run_standing; try by intros.
  - by intros A [].
  - intros s sg Hs E. unfold marks in Hs. simpl in Hs. congruence.
  - intros s job hash _ _. apply submit_job_standing; [by intros A []|done|done].
Qed.
Lemma job_stands : preserves (while (flagged (fun m => m.1.2)) (unpicked makes_job)) (reconcileSeedGeneration env).
Proof using.
  apply run_standing; try by intros.
  - by intros A [].
  - intros s sg _ _. apply submit_generator_standing; [by intros A []|done|done].
  - intros s job hash Hs E. unfold marks in Hs. simpl in Hs. congruence.
Qed.

Lemma intent_stands t A (c : seed_call A) :
  submits c = true -> intent c (object t) = true ->
  intent c (object (reconcileSeedGeneration env t).1) = true
  /\ forall h o l, log (reconcileSeedGeneration env t).1 <> log t ++ h ++ Ev o (Seed c) :: l.
Proof using.
  intros Hc Hi.
  assert (forall g pick, preserves (while (flagged g) (unpicked pick)) (reconcileSeedGeneration env) ->
    flagged g t -> pick A c = true -> flagged g (reconcileSeedGeneration env t).1
    /\ forall h o l, log (reconcileSeedGeneration env t).1 <> log t ++ h ++ Ev o (Seed c) :: l) as Hw.
  { intros g pick Hp Hg Hk. destruct (Hp t Hg) as [Hg' Ht]. split; [done|]. intros h o l Hl.
    pose proof (traced_in _ _ _ _ _ _ Ht Hl) as Hn. simpl in Hn. congruence. }
  destruct c; try done.
  - by apply (Hw _ _ job_stands).
  - by apply (Hw _ _ agent_stands).
Qed.
End intents.
