(* ===== verification/SeedSpoke.v ===== *)
(** * The spoke is left alone until it is to be detached (theory of SeedGeneration)

    What changes the spoke, or what the hub has of it, and the request to the lifecycle
    agent to make its seed image, is called only in a run whose
    detachment had been stored before, and after the cluster that the frozen kubeconfig
    opens has said, in the same reconcile, that it is the one that was pinned. *)
From S2P Require Import Prelude Conditions GoText Unstructured Handler ProvisioningStatus MergeMaps UpgradePlan SeedObjects ProvisioningTask ProvisioningValidation ProvisioningRequest Upgrade SeedSnapshot SeedWorkloads SeedRegistry SeedMirrors SeedInputs SeedPreflight SeedDetachment SeedCleanup SeedISO SeedGeneration SeedFrame SeedOnce.
#[local] Open Scope Z_scope.

Definition pinned (o : ProvisioningRequest) : string :=
  match seed_status o with Some s => ClusterID s | None => "" end.

(** The spoke has said who it is. *)
Definition seen (env : Env) (h : list event) (id : string) : Prop :=
  id <> ""%string /\ exists h1 o h2 v,
    h = h1 ++ Ev o (Seed SpokeVersion) :: h2 /\ api env (Seed SpokeVersion) h1 = inr v /\ v.1 = id.

(** The calls that change the spoke, or what the hub has of it: what the detachment and
    the clean-up do, and the request to the lifecycle agent. *)
Definition changes_spoke {A} (c : seed_call A) : bool :=
  acts c || match c with CreateSeedGenerator _ => true | _ => false end.

Lemma quiet_keeps_spoke {A} (c : seed_call A) : quiet c = true -> changes_spoke c = false.
Proof. unfold quiet, changes_spoke. by intros [->%negb_true_iff Hs%negb_true_iff]%andb_true_iff; destruct c. Qed.

Definition allowed (env : Env) (h : list event) (e : event) : Prop :=
  match e with
  | Ev o c => match c with
              | Seed c => changes_spoke c = true -> run_flag DetachmentStarted o = true /\ seen env h (pinned o)
              | _ => True
              end
  end.
Definition no_act (h : list event) (e : event) : Prop :=
  match e with Ev o c => match c with Seed c => changes_spoke c = false | _ => True end end.

Lemma seen_app env h l id : seen env h id -> seen env (h ++ l) id.
Proof.
  intros [Hid (h1 & o & h2 & v & -> & Ha & Hv)]. split; [done|]. exists h1, o, (h2 ++ l), v.
  split_and!; [by rewrite <- app_assoc|done..].
Qed.

Lemma pinned_marks o o' : run_marks o' = run_marks o -> pinned o' = pinned o.
Proof.
  unfold run_marks, pinned. destruct (seed_status o), (seed_status o'); simpl; try done.
  unfold marks. intros E. by injection E.
Qed.
Lemma started_marks o o' : run_marks o' = run_marks o -> run_flag DetachmentStarted o' = run_flag DetachmentStarted o.
Proof. apply (run_flag_marks (fun m => m.1.1.1)). Qed.

Section spoke.
Context `{Semver} `{SeedEncoding} `{SeedLibraries} `{SeedFormats} `{SeedText} (env : Env).

Definition Started (t : task) : Prop := run_flag DetachmentStarted (object t) = true.
Definition Verified (t : task) : Prop := Started t /\ seen env (log t) (pinned (object t)).
Abbreviation Rs := (while Started (allowed env)).
Abbreviation Rv := (while Verified (allowed env)).

(** ** Frames *)

Lemma started_frame : QuietFrame env Rs.
Proof using.
  apply quiet_frame; [apply _|..].
  - intros t o [E _] Ht. split; [|by apply traced_refl]. unfold Started in *. simpl. by rewrite (started_marks (object t)).
  - intros t A c Hc Ht. split; [done|]. apply traced_event. simpl. by rewrite (quiet_keeps_spoke c Hc).
  - intros t A c Hc Ht. split; [done|]. apply traced_event. by destruct c.
  - intros t Ht. split; [done|by apply traced_event].
Qed.
Lemma verified_event t {A} (c : call A) : allowed env (log t) (Ev (object t) c) -> Rv t (with_event (Ev (object t) c) t).
Proof using. intros Hc [Hs Hv]. split; [split; [exact Hs|exact (seen_app _ _ _ _ Hv)]|by apply traced_event]. Qed.
Lemma verified_object t o : run_flag DetachmentStarted o = run_flag DetachmentStarted (object t) ->
  pinned o = pinned (object t) -> Rv t (with_object o t).
Proof using.
  intros Es Ep [Hs Hv]. split; [|by apply traced_refl]. unfold Verified, Started in *. simpl. by rewrite Es, Ep.
Qed.
Lemma verified_frame : QuietFrame env Rv.
Proof using.
  apply quiet_frame; [apply _|..].
  - intros t o [E _]. apply verified_object; [by apply started_marks|by apply pinned_marks].
  - intros t A c Hc. apply verified_event. simpl. by rewrite (quiet_keeps_spoke c Hc).
  - intros t A c Hc. apply verified_event. by destruct c.
  - intros t. by apply (verified_event t (UpdateStatus _)).
Qed.
#[local] Existing Instances started_frame verified_frame.

(** A spoke that is verified may be acted on. *)
Lemma acts_verified {A} (c : seed_call A) : preserves Rv (ask env c).
Proof using. apply trigger_frame. intros t Ht. apply verified_event; [|done]. by intros _. Qed.
#[local] Hint Resolve acts_verified : frame.

Lemma modify_object_frame (R : relation task) (f : ProvisioningRequest -> ProvisioningRequest) :
  (forall t, R t (with_object (f (object t)) t)) -> preserves R (modify_object f).
Proof using. by intros Hf t. Qed.

(** ** Verification *)

Lemma verified_leads s :
  leads Started (verifiedSeedGenerationSpokeClient env s) (fun _ => Verified) (fun _ => True).
Proof using.
  intros t Ht. unfold verifiedSeedGenerationSpokeClient. apply wp_bind. unfold wp at 1. cbn [get_object fst snd through].
  unfold Started, run_flag in Ht. destruct (seed_status (object t)) as [st|] eqn:E; [|done].
  destruct (decide _) as [|Hid]; [done|].
  apply wp_bind. eapply wp_mono; [eapply (leads_keep same_marks (fun t' => same_marks t t') (same_marks t)); [..|done]|].
  { apply (spoke_client_frame env (QuietFrame0 := same_marks_frame env)). }
  { intros ? ? ? ?. by etransitivity. }
  intros t1 [] Ht1; cbn [through]; try done. apply wp_bind.
  unfold wrapped, wp, try, ask, trigger, mbind, handler_bind.
  destruct (api env (Seed SpokeVersion) (log t1)) as [e|v] eqn:Ev; cbn; [done|].
  assert (pinned (object t1) = ClusterID st) as Hp.
  { rewrite (pinned_marks (object t)) by done. unfold pinned. by rewrite E. }
  destruct (decide _) as [Hv|]; [|done]. cbn. split.
  - unfold Started. simpl. rewrite (started_marks (object t)) by done. unfold run_flag. by rewrite E.
  - simpl. rewrite Hp. split; [done|]. by exists (log t1), (object t1), [], v.
Qed.

(** After the verification the rest may act. *)
Lemma try_verified {A} s (k : error + unit -> prog A) :
  (forall e, preserves Rs (k (inl e))) -> preserves Rv (k (inr tt)) ->
  preserves Rs (r ← try (verifiedSeedGenerationSpokeClient env s); k r).
Proof using.
  intros He Hk t Ht. pose proof (verified_client_frame env (QuietFrame0 := started_frame) s t Ht) as [Hs Htr].
  pose proof (verified_leads s t Ht) as Hv. unfold wp in Hv. unfold mbind, handler_bind, try.
  destruct (verifiedSeedGenerationSpokeClient env s t) as [t1 [[]|e| |]]; cbn [fst snd] in *; try done.
  - destruct (Hk t1 Hv) as [[Hs2 _] Htr2]. split; [done|by etransitivity].
  - destruct (He e t1 Hs) as [Hs2 Htr2]. split; [done|by etransitivity].
Qed.
Lemma after_verified {A} s (m : prog A) :
  preserves Rv m -> preserves Rs (_ ← verifiedSeedGenerationSpokeClient env s; m).
Proof using.
  intros Hm t Ht. pose proof (verified_client_frame env (QuietFrame0 := started_frame) s t Ht) as [Hs Htr].
  pose proof (verified_leads s t Ht) as Hv. unfold wp in Hv. unfold mbind, handler_bind.
  destruct (verifiedSeedGenerationSpokeClient env s t) as [t1 [[]|e| |]]; cbn [fst snd] in *; try done.
  destruct (Hm t1 Hv) as [[Hs2 _] Htr2]. split; [done|by etransitivity].
Qed.

(** ** The run *)

Lemma detached_started : preserves Rs (cleanupSeedGenerationDetachedResources env).
Proof using.
  unfold cleanupSeedGenerationDetachedResources. apply preserves_bind; [by apply preserves_read|]. intros o.
  destruct (seed_status o) as [st|]; [|frame_walk]. destruct (negb _); [frame_walk|].
  apply preserves_bind; [frame_walk|]. intros s. apply after_verified. frame_walk.
Qed.
Lemma detachment_started s : preserves Rs (reconcileSeedGenerationAgentDetachment env s).
Proof using.
  unfold reconcileSeedGenerationAgentDetachment. apply preserves_bind; [unfold get_details; frame_walk|]. intros d.
  destruct (SeedStatus d) as [st|]; [|frame_walk]. destruct (AgentDetachmentCompleted st); [frame_walk|].
  apply after_verified. frame_walk.
Qed.
#[local] Hint Resolve detached_started detachment_started : frame.

(** Assignments that keep the start, or the pinned cluster as well. *)
Lemma modify_seed_started f :
  (forall s, DetachmentStarted s = true -> DetachmentStarted (f s) = true) -> preserves Rs (modify_seed f).
Proof using.
  intros Hf. apply modify_seed_cases; [apply _|]. intros t d st Ed Es Ht. split; [|by apply traced_refl].
  unfold Started, run_flag, seed_status in *. simpl. rewrite Ed, Es in Ht. auto.
Qed.
Lemma modify_seed_verified f :
  (forall s, DetachmentStarted (f s) = DetachmentStarted s) -> (forall s, ClusterID (f s) = ClusterID s) ->
  preserves Rv (modify_seed f).
Proof using.
  intros Hs Hc. apply modify_seed_cases; [apply _|]. intros t d st Ed Es. apply verified_object;
    unfold run_flag, pinned, seed_status; simpl; by rewrite Ed, Es.
Qed.
Lemma ISO_started s : preserves Rs (reconcileSeedGenerationISO env s).
Proof using.
  assert (forall b time hash, preserves Rs (modify_seed (with_job b time hash))) by (intros; by apply modify_seed_started).
  assert (forall job, preserves Rs (ask env (CreateJob job))).
  { intros job. apply trigger_frame. intros t Ht. split; [done|by apply traced_event]. }
  assert (forall message what, preserves Rs (complete_run env message what)).
  { intros. apply complete_run_keeps; [apply _|]. intros t o E Ht. split; [|by apply traced_refl].
    unfold Started, run_flag in *. simpl. by rewrite E. }
  unfold reconcileSeedGenerationISO, prepare_job, submit_job, observeSeedGenerationISOJob, job_outcome,
    completeSeedGenerationISO. frame_walk.
Qed.

Lemma generator_started s : preserves Rs (reconcileSeedGenerator env s).
Proof using.
  assert (forall b, preserves Rv (modify_seed (with_submitted b))) by (intros; by apply modify_seed_verified).
  assert (forall message what, preserves Rv (complete_run env message what)).
  { intros. apply complete_run_keeps; [apply _|]. intros t o E. apply verified_object; unfold run_flag, pinned; by rewrite E. }
  unfold reconcileSeedGenerator. apply preserves_bind; [by apply preserves_read|]. intros o.
  destruct (desiredSeedGenerator o s) as [e|sg]; [frame_walk|]. apply try_verified; [intros e; frame_walk|].
  cbv beta iota. unfold adopt_generator, observeSeedGenerator, record_seed_image, submit_generator,
    handleSeedGeneratorSubmissionError. frame_walk.
Qed.
#[local] Hint Resolve ISO_started generator_started : frame.

Lemma steps_started s : preserves Rs (reconcileSeedGenerationDetached env s).
Proof using. unfold reconcileSeedGenerationDetached. frame_walk. Qed.
End spoke.

(** ** Both ways a reconcile may begin *)

Section begin.
Context `{Semver} `{SeedEncoding} `{SeedLibraries} `{SeedFormats} `{SeedText} (env : Env).

(** An assignment never shows in a trace. *)
Lemma start_detachment_traced ok :
  (forall h o, ok h (Ev o (UpdateStatus o))) -> (forall h o A (c : call A), hub_read c = true -> ok h (Ev o c)) ->
  (forall h o A (c : seed_call A), quiet c = true -> ok h (Ev o (Seed c))) ->
  preserves (traced ok) (start_detachment env).
Proof using.
  intros Hu Hl Hq.
  assert (QuietFrame env (traced ok)) by
    (apply quiet_frame; [apply _|..]; intros; first [by apply traced_refl|apply traced_event]; auto).
  assert (forall f, preserves (traced ok) (modify_seed f)).
  { intros f. apply modify_seed_cases; [apply _|]. intros. by apply traced_refl. }
  unfold start_detachment. frame_walk.
Qed.

(** A property that quiet parts keep, and that the steps after the start may lose. *)
Lemma run_traced (G : task -> Prop) ok t :
  QuietFrame env (while G ok) -> preserves (while G ok) (cleanupSeedGenerationDetachedResources env) ->
  (forall s, preserves (while G ok) (pinSeedGenerationIdentity env s)) ->
  preserves (traced ok) (start_detachment env) ->
  (forall s st t1, DetachmentStarted st = true -> G t1 -> seed_status (object t1) = Some st ->
     traced ok t1 (reconcileSeedGenerationDetached env s t1).1) ->
  G t -> traced ok t (reconcileSeedGeneration env t).1.
Proof using.
  intros Hf Hd Hp Hs Hsteps Ht.
  assert (forall t1 t2, G t1 /\ traced ok t t1 -> while G ok t1 t2 -> G t2 /\ traced ok t t2) as HR.
  { intros t1 t2 [H1' E1] H12. destruct (H12 H1') as [H2' E2]. split; [done|by etransitivity]. }
  assert (leads (fun t' => G t' /\ traced ok t t') (reconcileSeedGeneration env) (fun _ => traced ok t) (traced ok t)) as Hrun.
  { apply (run_ends env _ _ HR); [by intros ? []|done|done|..].
    - eapply leads_mono; [eapply (leads_frame (traced ok) (traced ok t) (traced ok t)); [done|]| |done|done].
      + intros; by etransitivity.
      + by intros ? [].
    - intros s st Es t1 [[HG E1] E]. pose proof (Hsteps s st t1 Es HG E) as E2. unfold wp.
      destruct (reconcileSeedGenerationDetached env s t1) as [t2 []]; simpl in *; by etransitivity. }
  pose proof (Hrun t (conj Ht (reflexivity t))) as Hw. unfold wp in Hw. by destruct (reconcileSeedGeneration env t) as [t' []].
Qed.

(** A run that was started acts on a spoke that has said who it is. *)
Lemma run_started t : Started t -> traced (allowed env) t (reconcileSeedGeneration env t).1.
Proof using.
  pose proof (started_frame env). apply (run_traced Started); [done|apply detached_started|..].
  - intros s. assert (forall a b c, preserves (while Started (allowed env)) (modify_seed (with_identity a b c)))
      by (intros; by apply modify_seed_started).
    unfold pinSeedGenerationIdentity. frame_walk.
  - apply start_detachment_traced; [done|by intros h o A []|].
    intros h o A c Hc. simpl. by rewrite (quiet_keeps_spoke c Hc).
  - intros s st t1 _ Ht1 _. by apply (steps_started env s t1 Ht1).
Qed.

(** One that was not does not act. *)
Definition NotStarted (t : task) : Prop := run_flag DetachmentStarted (object t) = false.

Lemma not_started_object t o :
  run_flag DetachmentStarted o = run_flag DetachmentStarted (object t) -> while NotStarted no_act t (with_object o t).
Proof using. intros E Ht. split; [|by apply traced_refl]. unfold NotStarted in *. simpl. by rewrite E. Qed.
Lemma not_started_frame : QuietFrame env (while NotStarted no_act).
Proof using.
  apply quiet_frame; [apply _|intros t o [E _]; by apply not_started_object, started_marks|..];
    intros; intros Ht; (split; [exact Ht|]); apply traced_event; try done; [|by destruct c].
  simpl. by apply quiet_keeps_spoke.
Qed.
Lemma run_not_started t : NotStarted t -> traced no_act t (reconcileSeedGeneration env t).1.
Proof using.
  pose proof not_started_frame. apply (run_traced NotStarted); [done|..].
  - intros t1 Ht1. pose proof Ht1 as Hn. unfold cleanupSeedGenerationDetachedResources, mbind, handler_bind.
    cbn [get_object fst]. unfold NotStarted, run_flag in Hn.
    destruct (seed_status (object t1)) as [st|]; [rewrite Hn|]; by split.
  - intros s. assert (forall a b c, preserves (while NotStarted no_act) (modify_seed (with_identity a b c))).
    { intros a b c. apply modify_seed_cases; [apply _|]. intros t1 d st Ed Es. apply not_started_object.
      unfold run_flag, seed_status. simpl. by rewrite Ed, Es. }
    unfold pinSeedGenerationIdentity. frame_walk.
  - apply start_detachment_traced; [done|by intros h o A []|].
    intros h o A c Hc. simpl. by rewrite (quiet_keeps_spoke c Hc).
  - intros s st t1 Es Hn E. unfold NotStarted, run_flag in Hn. rewrite E in Hn. congruence.
Qed.
End begin.
