(* ===== verification/ProvisioningFacts.v ===== *)
(** * What a reconcile may change (theory of the ProvisioningRequest files)

    Every assignment of the reconciler but the one that fulfills a request is a
    [change]; a part of the reconciler leads from a task to one that [evolves] from it,
    by changes of the conditions of some types and by calls of some kind.  One walk
    through the programs shows this; the invariants are read off the changes. *)
From S2P Require Import Prelude Conditions GoText Unstructured Handler ProvisioningStatus MergeMaps ProvisioningTask ProvisioningPolicy NodeConfiguration ProvisioningHardware ProvisioningValidation ProvisioningCluster ProvisioningRequest.
#[local] Open Scope Z_scope.

(** ** Changes *)

Definition ztp_done (o : ProvisioningRequest) : Prop := IsClusterZtpDone o = true.

(** What a part may do: the types of the conditions that it sets, and whether it may
    fulfill the request. *)
Record scope := mkScope { scope_types : list string; may_fulfill : bool }.

Definition scope_le (T T' : scope) : Prop :=
  scope_types T ⊆ scope_types T' /\ (may_fulfill T = true -> may_fulfill T' = true).

Inductive change (T : scope) (o : ProvisioningRequest) : ProvisioningRequest -> Prop :=
| change_observed : change T o (with_observed (Generation o) o)
| change_conditions cs :
    (forall t, t ∉ scope_types T -> FindStatusCondition cs t = FindStatusCondition (Conditions o) t) ->
    change T o (with_conditions cs o)
| change_phase p details time :
    (p = StateFulfilled -> may_fulfill T = true) -> change T o (with_phase p details time o)
| change_cluster c :
    (ztp_done o -> ZtpStatus c = "ZTP Done"%string) -> change T o (with_cluster (Some c) o)
| change_cluster_id id : change T o (with_cluster_id id o)
| change_host_map m : change T o (with_host_map m o)
| change_policies ps : change T o (with_policies ps o)
| change_resources rs : change T o (with_resources rs o)
| change_finalizer b : change T o (with_finalizer b o).

Lemma change_mono T T' o o' : scope_le T T' -> change T o o' -> change T' o o'.
Proof. intros [HT Hf]. destruct 1; constructor; auto. Qed.

(** A property of requests that changes keep is kept by sequences of them. *)
Lemma changes_keep T (I : ProvisioningRequest -> Prop) :
  (forall o o', change T o o' -> I o -> I o') -> forall o o', rtc (change T) o o' -> I o -> I o'.
Proof. intros Hc o o'. induction 1; eauto. Qed.

Lemma changes_not_fulfilled T o o' :
  may_fulfill T = false -> rtc (change T) o o' -> Phase o <> StateFulfilled -> Phase o' <> StateFulfilled.
Proof.
  intros HT. apply (changes_keep T (fun o => Phase o <> StateFulfilled)). destruct 1; simpl; try done.
  intros _ Hp. rewrite H in HT; done.
Qed.

Lemma changes_ztp_done T o o' : rtc (change T) o o' -> ztp_done o -> ztp_done o'.
Proof.
  apply (changes_keep T ztp_done). intros ? ? Hc Hz. destruct Hc as [| | | c Hd | | | | |]; try exact Hz.
  unfold ztp_done, IsClusterZtpDone. simpl. apply bool_decide_eq_true. auto.
Qed.

Lemma changes_condition T t o o' :
  t ∉ scope_types T -> rtc (change T) o o' ->
  FindStatusCondition (Conditions o') t = FindStatusCondition (Conditions o) t.
Proof.
  intros Ht. induction 1 as [|o o1 o2 Hc _ IH]; [done|]. rewrite IH. destruct Hc; simpl; auto.
Qed.

Lemma changes_details T o o' : rtc (change T) o o' -> Cluster o <> None -> Cluster o' <> None.
Proof. apply (changes_keep T (fun o => Cluster o <> None)). by destruct 1. Qed.

(** What no change touches. *)
Definition same_identity (o o' : ProvisioningRequest) : Prop :=
  Name o' = Name o /\ Generation o' = Generation o /\ BeingDeleted o' = BeingDeleted o
  /\ SkipCleanup o' = SkipCleanup o.

Lemma changes_identity T o o' : rtc (change T) o o' -> same_identity o o'.
Proof.
  intros Hc. apply (changes_keep T (same_identity o)) with (o := o); [|done|by repeat split].
  intros a b Hab Ha. by destruct Hab.
Qed.

(** ** Evolution of a task *)

(** The payload of a status update is the request in memory. *)
Definition sent (e : event) : Prop :=
  match e with Ev o c => match c with UpdateStatus o' => o' = o | _ => True end end.

Record evolves (T : scope) (P : event -> Prop) (t t' : task) : Prop := mkEvolves {
  ev_changes : rtc (change T) (object t) (object t');
  ev_log : exists es, log t' = log t ++ es /\
    Forall (fun e => P e /\ sent e /\ rtc (change T) (object t) (ev_object e)) es;
}.

#[export] Instance evolves_preorder T P : PreOrder (evolves T P).
Proof.
  split.
  - intros t. split; [done|]. exists []. by rewrite app_nil_r.
  - intros t1 t2 t3 [H12 (es & He & Hes)] [H23 (fs & Hf & Hfs)]. split; [by etransitivity|].
    exists (es ++ fs). split; [by rewrite Hf, He, app_assoc|]. apply Forall_app_2; [done|].
    eapply Forall_impl; [exact Hfs|]. intros e (?&?&?). split_and!; [done..|by etransitivity].
Qed.

Lemma evolves_mono T T' (P P' : event -> Prop) t t' :
  scope_le T T' -> (forall e, P e -> P' e) -> evolves T P t t' -> evolves T' P' t t'.
Proof.
  intros HT HP [Hc (es & He & Hes)].
  assert (Hm : forall o o', rtc (change T) o o' -> rtc (change T') o o').
  { intros o o'. apply rtc_subrel. intros ? ?. by apply change_mono. }
  split; [auto|]. exists es. split; [done|]. eapply Forall_impl; [exact Hes|]. intros e (?&?&?). auto.
Qed.

Section leaves.
Context {T : scope} {P : event -> Prop}.

(** A program that only changes the request. *)
Lemma evolves_object (f : ProvisioningRequest -> ProvisioningRequest) :
  (forall o, rtc (change T) o (f o)) -> preserves (evolves T P) (modify_object f).
Proof. intros Hf t. split; [apply Hf|]. exists []. by rewrite app_nil_r. Qed.

Lemma evolves_change (f : ProvisioningRequest -> ProvisioningRequest) :
  (forall o, change T o (f o)) -> preserves (evolves T P) (modify_object f).
Proof. intros Hf. apply evolves_object. intros o. by apply rtc_once. Qed.

Lemma evolves_state f :
  (forall t, object (f t) = object t) -> (forall t, log (f t) = log t) -> preserves (evolves T P) (modify f : prog unit).
Proof. intros Ho Hl t. split; simpl; [by rewrite Ho|]. exists []. by rewrite app_nil_r, Hl. Qed.

Lemma evolves_get_object : preserves (evolves T P) get_object.
Proof. intros t. reflexivity. Qed.
Lemma evolves_now env : preserves (evolves T P) (now env).
Proof. intros t. reflexivity. Qed.

Lemma evolves_details f :
  (forall c, ZtpStatus c = "ZTP Done"%string -> ZtpStatus (f c) = "ZTP Done"%string) ->
  preserves (evolves T P) (modify_details f).
Proof.
  intros Hf t. unfold modify_details, get_details. unfold mbind, handler_bind. simpl.
  destruct (Cluster (object t)) as [c|] eqn:E; simpl; [|reflexivity].
  split; simpl; [|exists []; by rewrite app_nil_r]. apply rtc_once, change_cluster.
  unfold ztp_done, IsClusterZtpDone. rewrite E. intros Hz%bool_decide_eq_true. auto.
Qed.

Lemma evolves_get_details : preserves (evolves T P) get_details.
Proof.
  intros t. unfold get_details, mbind, handler_bind. simpl. by destruct (Cluster (object t)).
Qed.

(** A call, unless it is a status update. *)
Definition plain {A} (c : call A) : Prop := match c with UpdateStatus _ => False | _ => True end.

Lemma evolves_trigger env {A} (c : call A) :
  plain c -> (forall o, P (Ev o c)) -> preserves (evolves T P) (trigger env c).
Proof.
  intros Hs HP t. unfold trigger. destruct (api env c (log t)); simpl;
    (split; simpl; [done|]); exists [Ev (object t) c]; (split; [done|]); repeat constructor; auto;
    by destruct c.
Qed.

Lemma evolves_condition env conditionType reason status message :
  conditionType ∈ scope_types T -> preserves (evolves T P) (set_condition env conditionType reason status message).
Proof.
  intros Ht. unfold set_condition. apply preserves_bind; [apply evolves_now|]. intros time.
  apply evolves_change. intros o. apply change_conditions. intros t Hn.
  apply Find_SetStatusCondition_ne. simpl. by intros ->.
Qed.

Lemma evolves_set_state env p message :
  (p = StateFulfilled -> may_fulfill T = true) -> preserves (evolves T P) (set_phase env (fun t => set_state p t message)).
Proof.
  intros Hp. unfold set_phase. apply preserves_bind; [apply evolves_now|]. intros time.
  apply evolves_object. intros o. unfold set_state. case_match; [|done]. by apply rtc_once, change_phase.
Qed.

Lemma evolves_fulfilled env :
  may_fulfill T = true -> preserves (evolves T P) (set_phase env SetProvisioningStateFulfilled).
Proof.
  intros Hf. unfold set_phase. apply preserves_bind; [apply evolves_now|]. intros time. apply evolves_object. intros o.
  unfold SetProvisioningStateFulfilled. case_decide; [done|]. by apply rtc_once, change_phase.
Qed.

Lemma evolves_wrapped {A} prefix (m : prog A) :
  preserves (evolves T P) m -> preserves (evolves T P) (wrapped prefix m).
Proof.
  intros Hm. unfold wrapped. apply preserves_bind; [by apply preserves_try|].
  intros []; [apply preserves_raise|apply preserves_ret].
Qed.

Lemma evolves_input_wrapped {A} prefix (m : prog A) :
  preserves (evolves T P) m -> preserves (evolves T P) (input_wrapped prefix m).
Proof.
  intros Hm. unfold input_wrapped. apply preserves_bind; [by apply preserves_try|].
  intros []; [apply preserves_raise|apply preserves_ret].
Qed.

(** A status update sends the request that is in memory. *)
Lemma evolves_update env :
  (forall o, P (Ev o (UpdateStatus o))) -> preserves (evolves T P) (UpdateK8sCRStatus env).
Proof.
  intros HP. unfold UpdateK8sCRStatus. apply preserves_bind.
  { apply evolves_change. intros o. constructor. }
  intros _ t. unfold wrapped, try, trigger, get_object, mbind, handler_bind.
  destruct (api env (UpdateStatus (object t)) (log t)); simpl;
    (split; simpl; [done|]); exists [Ev (object t) (UpdateStatus (object t))]; (split; [done|]); by repeat constructor.
Qed.
End leaves.

(** What is known of the parts of the reconciler. *)
Create HintDb evolve.
#[export] Hint Resolve evolves_get_object evolves_now evolves_get_details : evolve.

(** Walk through a program down to its assignments and calls. *)
Ltac walk_step :=
  cbv beta iota zeta;
  lazymatch goal with
  | |- preserves _ (mret _) => apply preserves_ret
  | |- preserves _ (raise _) => apply preserves_raise
  | |- preserves _ panic => apply preserves_panic
  | |- preserves _ get_state => apply preserves_get
  | |- preserves _ (_ ≫= _) => apply preserves_bind; [|intros ?]
  | |- preserves _ (try _) => apply preserves_try
  | |- preserves _ (when _ _) => apply preserves_when
  | |- preserves _ (for_each _ _) => apply preserves_for_each; intros ?
  | |- preserves _ (wrapped _ _) => apply evolves_wrapped
  | |- preserves _ (input_wrapped _ _) => apply evolves_input_wrapped
  | |- preserves _ (match ?x with _ => _ end) => destruct x
  | |- preserves _ (UpdateK8sCRStatus _) => apply evolves_update; by auto
  | |- preserves _ (trigger _ _) => apply evolves_trigger; [exact I|by auto]
  | |- preserves _ (set_phase _ (fun _ => SetProvisioningStateFailed _ _)) => by apply evolves_set_state
  | |- preserves _ (set_phase _ (fun _ => SetProvisioningStatePending _ _)) => by apply evolves_set_state
  | |- preserves _ (set_phase _ (fun _ => SetProvisioningStateInProgress _ _)) => by apply evolves_set_state
  | |- preserves _ (modify_details _) => apply evolves_details; by intros [] ?
  | |- preserves _ (modify_object _) => apply evolves_change; intros ?; by constructor
  | |- preserves _ (modify _) => by apply evolves_state
  end.

Ltac walk :=
  repeat first [ solve [eauto with evolve nocore] | walk_step
               | match goal with |- preserves _ ?m => let h := head m in unfold h end ].

(** ** Parts that leave the conditions alone *)

Section no_conditions.
Context {T : scope} {P : event -> Prop} (env : Env).
Context (HP : forall o A (c : call A), P (Ev o c)).

Lemma update_status_evolves : preserves (evolves T P) (update_status env).
Proof using HP. unfold update_status. walk. Qed.

Lemma checkProvisioningConditionsForFailures_evolves :
  preserves (evolves T P) (checkProvisioningConditionsForFailures env).
Proof using HP. pose proof update_status_evolves. unfold checkProvisioningConditionsForFailures. walk. Qed.

Lemma checkOverallProvisioningTimeout_evolves : preserves (evolves T P) (checkOverallProvisioningTimeout env).
Proof using HP. unfold checkOverallProvisioningTimeout. walk. Qed.

Lemma syncNARSkipCleanup_evolves : preserves (evolves T P) (syncNARSkipCleanup env).
Proof using HP. unfold syncNARSkipCleanup. walk. Qed.
End no_conditions.

(** ** The parts that do not fulfill a request *)

(** The types of all conditions of a request. *)
Definition pr_types : list string :=
  [PRconditionTypes.Validated; PRconditionTypes.NodeAllocationRequestRendered;
   PRconditionTypes.HardwareProvisioned; PRconditionTypes.HardwareNodeConfigApplied;
   PRconditionTypes.HardwareConfigured; PRconditionTypes.ClusterInstanceRendered;
   PRconditionTypes.ClusterResourcesCreated; PRconditionTypes.ClusterInstanceProcessed;
   PRconditionTypes.ClusterProvisioned; PRconditionTypes.ConfigurationApplied;
   PRconditionTypes.UpgradeCompleted; PRconditionTypes.SeedGenerationRegistryValidated;
   PRconditionTypes.SeedGenerationISOUploadValidated; PRconditionTypes.SeedGenerationCompleted].

(** The calls but those that delete, or let the request go. *)
Definition keeping {A} (c : call A) : Prop :=
  match c with
  | DeleteNAR | DeleteClusterInstance _ | DeleteNamespace _ | PatchRequest _ => False
  | _ => True
  end.

(** And but the installation, as opposed to a dry run. *)
Definition routine {A} (c : call A) : Prop :=
  match c with ApplyClusterInstance _ false => False | c => keeping c end.

(** Observing the generation in one condition leaves the others. *)
Lemma Find_observed cs t t' (f : Condition -> Condition) :
  t' <> t -> (forall c, cond_Type (f c) = cond_Type c) ->
  FindStatusCondition (map (fun c => if decide (cond_Type c = t) then f c else c) cs) t' =
  FindStatusCondition cs t'.
Proof.
  intros Hne Hf. induction cs as [|c cs IH]; cbn [map FindStatusCondition]; [done|].
  rewrite IH. destruct (decide (cond_Type c = t)) as [E|E]; [rewrite Hf|done].
  rewrite !decide_False by congruence. done.
Qed.

#[local] Hint Extern 1 (routine _) => exact I : core.
#[local] Hint Extern 1 (keeping _) => exact I : core.
#[local] Hint Extern 1 (_ ∈ pr_types) => apply (bool_decide_unpack _); vm_compute; exact I : core.

Section parts.
Context {T : scope} {P : event -> Prop} (env : Env).
Context (HT : forall t, t ∈ pr_types -> t ∈ scope_types T).
Context (HP : forall o A (c : call A), routine c -> P (Ev o c)).

Lemma set_condition_evolves t reason status message :
  t ∈ pr_types -> preserves (evolves T P) (set_condition env t reason status message).
Proof using HT. intros Ht. by apply evolves_condition, HT. Qed.

Lemma set_observed_condition_evolves t reason status message :
  t ∈ pr_types -> preserves (evolves T P) (set_observed_condition env t reason status message).
Proof using HT.
  intros Ht. unfold set_observed_condition. apply preserves_bind; [apply evolves_now|]. intros time.
  apply evolves_change. intros o. apply change_conditions. intros t' Hn.
  assert (t' <> t) as Hne by (intros ->; auto).
  rewrite Find_observed by done.
  apply (Find_SetStatusCondition_ne _ (mkCondition t status reason message time 0)). by simpl.
Qed.

Lemma remove_condition_evolves t : t ∈ pr_types -> preserves (evolves T P) (remove_condition t).
Proof using HT.
  intros Ht. apply evolves_change. intros o. apply change_conditions. intros t' Hn.
  apply Find_Remove_ne. intros ->. auto.
Qed.
#[local] Hint Resolve set_condition_evolves set_observed_condition_evolves remove_condition_evolves : evolve.
#[local] Hint Extern 1 (_ ∈ pr_types) => apply (bool_decide_unpack _); vm_compute; exact I : evolve.

Lemma update_status_parts : preserves (evolves T P) (update_status env).
Proof using HP. unfold update_status. walk. Qed.
#[local] Hint Resolve update_status_parts : evolve.

(** Before the hardware. *)
Lemma handleValidation_evolves : preserves (evolves T P) (handleValidation env).
Proof using HP HT. unfold handleValidation. walk. Qed.

Lemma handleRenderClusterInstance_evolves : preserves (evolves T P) (handleRenderClusterInstance env).
Proof using HP HT. unfold handleRenderClusterInstance. walk. Qed.

Lemma handleClusterResources_evolves : preserves (evolves T P) (handleClusterResources env).
Proof using HP HT. unfold handleClusterResources. walk. Qed.

(** Hardware. *)
Lemma find_NAR_evolves : preserves (evolves T P) (find_NAR env).
Proof using HP. unfold find_NAR. walk. Qed.
#[local] Hint Resolve find_NAR_evolves : evolve.

Lemma renderNodeAllocationRequest_evolves ci : preserves (evolves T P) (renderNodeAllocationRequest env ci).
Proof using HP HT. unfold renderNodeAllocationRequest. walk. Qed.

Lemma createOrUpdateNodeAllocationRequest_evolves nar :
  preserves (evolves T P) (createOrUpdateNodeAllocationRequest env nar).
Proof using HP. unfold createOrUpdateNodeAllocationRequest. walk. Qed.

Lemma checkNodeAllocationRequestStatus_evolves nar c :
  preserves (evolves T P) (checkNodeAllocationRequestStatus env nar c).
Proof using HP HT. unfold checkNodeAllocationRequestStatus, updateHardwareStatus. destruct c; walk. Qed.
#[local] Hint Resolve checkNodeAllocationRequestStatus_evolves : evolve.

Lemma configure_nodes_evolves input groups hosts hw nodes i free :
  preserves (evolves T P) (configure_nodes env input groups hosts hw i free nodes).
Proof using HP.
  revert i free. induction nodes as [|[] nodes IH]; intros i free; cbn [configure_nodes]; walk.
Qed.
#[local] Hint Resolve configure_nodes_evolves : evolve.

Lemma waitForHardwareData_evolves ci nar : preserves (evolves T P) (waitForHardwareData env ci nar).
Proof using HP HT. unfold waitForHardwareData. walk. Qed.

(** The cluster and its policies. *)
Lemma checkClusterInstallationTimeout_evolves : preserves (evolves T P) (checkClusterInstallationTimeout env).
Proof using HP HT. unfold checkClusterInstallationTimeout. walk. Qed.

Lemma checkClusterProvisionStatus_evolves name : preserves (evolves T P) (checkClusterProvisionStatus env name).
Proof using HP HT. unfold checkClusterProvisionStatus. walk. Qed.
#[local] Hint Resolve checkClusterProvisionStatus_evolves : evolve.

Lemma target_children_evolves ns l : preserves (evolves T P) (target_children ns l).
Proof using. induction l as [|p l IH]; cbn [target_children]; walk. Qed.
#[local] Hint Resolve target_children_evolves : evolve.

Lemma update_policy_status_evolves timedOut late running doing :
  preserves (evolves T P) (update_policy_status env timedOut late running doing).
Proof using HT. unfold update_policy_status, setConfigurationAppliedStatus. walk. Qed.

(** A status that is not done yet is replaced. *)
Lemma set_ztp_evolves status :
  preserves (evolves T P) (d ← get_details;
    if decide (ZtpStatus d = "ZTP Done"%string) then mret tt else modify_details (with_ztp status)).
Proof using.
  intros t. unfold modify_details, get_details, mbind, handler_bind. simpl.
  destruct (Cluster (object t)) as [c|] eqn:E; simpl; [|reflexivity].
  case_decide as Hz; simpl; [reflexivity|]. rewrite E. simpl.
  split; simpl; [|exists []; by rewrite app_nil_r]. apply rtc_once, change_cluster.
  unfold ztp_done, IsClusterZtpDone. rewrite E. by intros Hd%bool_decide_eq_true.
Qed.
#[local] Hint Resolve set_ztp_evolves : evolve.

Lemma handleClusterPolicyConfiguration_evolves : preserves (evolves T P) (handleClusterPolicyConfiguration env).
Proof using HP HT. unfold handleClusterPolicyConfiguration. walk. Qed.

(** The name of the cluster goes into its details. *)
Lemma set_cluster_name_evolves name : preserves (evolves T P) (modify_object (set_cluster_name name)).
Proof using.
  apply evolves_change. intros o. apply change_cluster. unfold ztp_done, IsClusterZtpDone.
  destruct (Cluster o); [|done]. by intros Hz%bool_decide_eq_true.
Qed.
#[local] Hint Resolve set_cluster_name_evolves : evolve.

Lemma scale_in_evolves a b c spec : preserves (evolves T P) (scale_in env a b c spec).
Proof using HP HT. unfold scale_in. walk. Qed.
#[local] Hint Resolve scale_in_evolves : evolve.

Lemma monitor_hardware_evolves : preserves (evolves T P) (monitor_hardware env).
Proof using HP HT. unfold monitor_hardware. walk. Qed.
End parts.

#[export] Hint Resolve configure_nodes_evolves set_cluster_name_evolves scale_in_evolves set_condition_evolves update_status_parts handleValidation_evolves
  handleRenderClusterInstance_evolves handleClusterResources_evolves find_NAR_evolves
  renderNodeAllocationRequest_evolves createOrUpdateNodeAllocationRequest_evolves
  waitForHardwareData_evolves checkClusterInstallationTimeout_evolves checkClusterProvisionStatus_evolves
  handleClusterPolicyConfiguration_evolves monitor_hardware_evolves
  checkProvisioningConditionsForFailures_evolves checkOverallProvisioningTimeout_evolves
  syncNARSkipCleanup_evolves : evolve.
(** ** The parts that may install *)

Section installing.
Context {T : scope} {P : event -> Prop} (env : Env).
Context (HT : forall t, t ∈ pr_types -> t ∈ scope_types T).
Context (HP : forall o A (c : call A), keeping c -> P (Ev o c)).

Lemma routine_keeping o A (c : call A) : routine c -> P (Ev o c).
Proof using HP. intros Hc. apply HP. by destruct c. Qed.
#[local] Hint Resolve routine_keeping : evolve.

#[local] Hint Extern 1 (_ ∈ pr_types) => apply (bool_decide_unpack _); vm_compute; exact I : evolve.

Lemma lookupRemovedNodeBMHs_evolves o hosts : preserves (evolves T P) (lookupRemovedNodeBMHs env o hosts).
Proof using HP. induction hosts as [|h hosts IH]; cbn [lookupRemovedNodeBMHs]; walk. Qed.
Lemma all_drained_evolves ids : preserves (evolves T P) (all_drained env ids).
Proof using HP. induction ids as [|i ids IH]; cbn [all_drained]; walk. Qed.
Lemma checkScaleInPrunedResourcesGone_evolves hosts :
  preserves (evolves T P) (checkScaleInPrunedResourcesGone env hosts).
Proof using HP. induction hosts as [|[] hosts IH]; cbn [checkScaleInPrunedResourcesGone]; walk. Qed.
#[local] Hint Resolve lookupRemovedNodeBMHs_evolves all_drained_evolves
  checkScaleInPrunedResourcesGone_evolves : evolve.

Lemma handleScaleInDrain_evolves ci : preserves (evolves T P) (handleScaleInDrain env ci).
Proof using HP. unfold handleScaleInDrain. walk. Qed.

Lemma handleClusterInstallation_evolves ci : preserves (evolves T P) (handleClusterInstallation env ci).
Proof using HP HT. unfold handleClusterInstallation. walk. Qed.
End installing.

#[export] Hint Resolve handleScaleInDrain_evolves handleClusterInstallation_evolves : evolve.
