(* ===== verification/ProvisioningSafety.v ===== *)
(** * Invariants of the reconciler of ProvisioningRequests (theory of
      ProvisioningRequest)

    Upgrades and seed generation are components of their own; what the reconciler
    relies on of them is the class [SubsystemLaws] (the upgrades meet it,
    UpgradeProperties).  The theorems: when a request may be
    fulfilled, what never goes back, when a cluster is installed, and that a timeout is
    final. *)
From S2P Require Import Prelude Conditions GoText Unstructured Handler ProvisioningStatus MergeMaps ProvisioningTask ProvisioningPolicy NodeConfiguration ProvisioningHardware ProvisioningValidation ProvisioningCluster ProvisioningRequest ProvisioningFacts.
#[local] Open Scope Z_scope.

(** ** Fulfillment *)

(** Nothing is asked for any more, or a seed image was generated. *)
Definition justified (o : ProvisioningRequest) : Prop :=
  Phase o = StateFulfilled ->
  is_complete o = true \/ condition_is o PRconditionTypes.SeedGenerationCompleted is_true = true.

(** What a status update of the log says of the request. *)
Definition sends (I : ProvisioningRequest -> Prop) (e : event) : Prop :=
  match e with Ev _ c => match c with UpdateStatus o => I o | _ => True end end.

(** The request is not fulfilled, and was not sent as such without a reason. *)
Definition clean (t : task) : Prop :=
  Phase (object t) <> StateFulfilled /\ Forall (sends justified) (log t).
Definition settled (t : task) : Prop :=
  justified (object t) /\ Forall (sends justified) (log t).

Lemma clean_settled t : clean t -> settled t.
Proof. by intros [Hp Hl]; split; [intros ?|]. Qed.

(** Any event. *)
Definition anything : event -> Prop := fun _ => True.
(** Neither an installation nor a deletion; no deletion; no installation. *)
Definition no_install (e : event) : Prop :=
  match e with Ev _ c => match c with ApplyClusterInstance _ false => False | _ => True end end.
Definition routine_event (e : event) : Prop := routine (ev_call e).
Definition keeping_event (e : event) : Prop := keeping (ev_call e).

(** The conditions of a request, no condition, and all a reconcile may do. *)
Definition any_condition : scope := mkScope pr_types false.
Definition no_condition : scope := mkScope [] false.
Definition everything : scope := mkScope pr_types true.

Lemma any_condition_types t : t ∈ pr_types -> t ∈ scope_types any_condition.
Proof. done. Qed.
Lemma everything_types t : t ∈ pr_types -> t ∈ scope_types everything.
Proof. done. Qed.
Lemma anything_holds o A (c : call A) : anything (Ev o c).
Proof. exact I. Qed.
Lemma routine_event_holds o A (c : call A) : routine c -> routine_event (Ev o c).
Proof. done. Qed.
Lemma keeping_event_holds o A (c : call A) : keeping c -> keeping_event (Ev o c).
Proof. done. Qed.
Lemma routine_no_install e : routine_event e -> no_install e.
Proof. destruct e as [o A c]. by destruct c. Qed.
Lemma routine_keeping_event e : routine_event e -> keeping_event e.
Proof. destruct e as [o A c]. by destruct c. Qed.
#[export] Hint Resolve any_condition_types everything_types anything_holds routine_event_holds keeping_event_holds : evolve.

(** The status updates of an evolution have the properties that the changes keep. *)
Lemma evolves_sends T P (I : ProvisioningRequest -> Prop) t t' :
  (forall o, rtc (change T) (object t) o -> I o) -> Forall (sends I) (log t) ->
  evolves T P t t' -> Forall (sends I) (log t').
Proof.
  intros HI Hl [_ (es & -> & Hes)]. apply Forall_app_2; [done|]. eapply Forall_impl; [exact Hes|].
  intros [o A c] (_ & Hs & Hc). destruct c; try done. simpl in *. subst. auto.
Qed.

Lemma clean_evolves T P t t' : may_fulfill T = false -> clean t -> evolves T P t t' -> clean t'.
Proof.
  intros HT [Hp Hl] He. pose proof (fun o => changes_not_fulfilled T (object t) o HT) as Hc. split.
  - apply Hc; [apply He|done].
  - eapply evolves_sends; [|done|exact He]. intros o Ho Hf. by destruct (Hc o Ho Hp).
Qed.

(** Tests of conditions depend on the conditions that are found. *)
Lemma no_condition_find o o' t :
  rtc (change no_condition) o o' -> FindStatusCondition (Conditions o') t = FindStatusCondition (Conditions o) t.
Proof. apply changes_condition. simpl. set_solver. Qed.

Lemma no_condition_test o o' t test :
  rtc (change no_condition) o o' -> condition_is o' t test = condition_is o t test.
Proof. intros Hc. unfold condition_is. by rewrite (no_condition_find o o' t Hc). Qed.

Lemma no_condition_complete o o' : rtc (change no_condition) o o' -> is_complete o' = is_complete o.
Proof.
  intros Hc. unfold is_complete, IsClusterProvisionCompleted, IsClusterConfigCompleted,
    IsHardwareConfigCompleted, IsClusterUpgradeInitiated, IsClusterUpgradeCompleted.
  by rewrite !(fun t test => no_condition_test o o' t test Hc), (no_condition_find o o' _ Hc).
Qed.

Lemma no_condition_justified o o' : rtc (change no_condition) o o' -> justified o -> justified o'.
Proof.
  intros Hc Hj Hp. rewrite (no_condition_complete o o' Hc), (no_condition_test o o' _ _ Hc). apply Hj.
  destruct (decide (Phase o = StateFulfilled)) as [|Hn]; [done|].
  by destruct (changes_not_fulfilled no_condition o o' eq_refl Hc Hn).
Qed.

Lemma settled_evolves P t t' : settled t -> evolves no_condition P t t' -> settled t'.
Proof.
  intros [Hj Hl] He. split.
  - eapply no_condition_justified; [apply He|done].
  - eapply evolves_sends; [|done|exact He]. intros o Ho. by eapply no_condition_justified.
Qed.

(** All is there: the request may be fulfilled. *)
Definition complete (t : task) : Prop :=
  is_complete (object t) = true /\ Forall (sends justified) (log t).

Lemma complete_settled t : complete t -> settled t.
Proof. intros [Hc Hl]. split; [|done]. intros _. by left. Qed.

Lemma complete_evolves P t t' : complete t -> evolves no_condition P t t' -> complete t'.
Proof.
  intros [Hc Hl] He. split; [by rewrite (no_condition_complete (object t)) by apply He|].
  eapply evolves_sends; [|done|exact He]. intros o Ho _. left. by rewrite (no_condition_complete (object t)).
Qed.

(** ** What the reconciler relies on of the other components *)

(** They leave the condition of no other type, do not apply a ClusterInstance, and keep
    the status of a cluster that is done.  Only a run of seed generation, which an upgrade
    may turn out to be, fulfills a request, and then its condition is true; the reconcile
    does not go on from there. *)
Class SubsystemLaws `{Subsystems} : Prop := {
  preflight_cleanup_law : preserves (evolves any_condition routine_event) cleanupSeedGenerationPreflightResources;
  resources_cleanup_law : preserves (evolves any_condition routine_event) cleanupSeedGenerationResources;
  upgrade_requested_law name ct : preserves (evolves any_condition routine_event) (IsUpgradeRequested name ct);
  upgrade_law name ct : preserves (evolves everything routine_event) (handleUpgrade name ct);
  upgrade_justified name ct :
    leads clean (handleUpgrade name ct) (fun r => if r.2 : bool then clean else settled) settled;
  stale_upgrade_law name : preserves (evolves any_condition routine_event) (cleanupStaleUpgradeState name);
  seed_law : preserves (evolves everything routine_event) reconcileSeedGeneration;
  seed_start_law ct : preserves (evolves everything routine_event) (startOrResumeSeedGeneration ct);
  seed_justified : leads clean reconcileSeedGeneration (fun _ => settled) settled;
  seed_start_justified ct : leads clean (startOrResumeSeedGeneration ct) (fun _ => settled) settled;
}.

(** ** The end of a reconcile *)

(** Parts that keep a request that is not fulfilled so. *)
Lemma clean_part {A} (m : prog A) :
  preserves (evolves any_condition anything) m -> leads clean m (fun _ => clean) clean.
Proof. intros Hm. apply (leads_frame _ _ _ m Hm). intros s s'. by apply clean_evolves. Qed.

Lemma clean_last {A} (m : prog A) :
  preserves (evolves any_condition anything) m -> leads clean m (fun _ => settled) settled.
Proof.
  intros Hm. apply (leads_frame _ _ _ m Hm). intros s s' Hs He. apply clean_settled.
  by eapply (clean_evolves any_condition).
Qed.

Lemma settled_part {A} (m : prog A) :
  preserves (evolves no_condition anything) m -> leads settled m (fun _ => settled) settled.
Proof. intros Hm. apply (leads_frame _ _ _ m Hm). intros s s'. apply settled_evolves. Qed.

Lemma complete_part {A} (m : prog A) :
  preserves (evolves no_condition anything) m -> leads complete m (fun _ => complete) complete.
Proof. intros Hm. apply (leads_frame _ _ _ m Hm). intros s s'. apply complete_evolves. Qed.

(** A read of the request fixes it. *)
Lemma leads_object {A} (P : task -> Prop) (k : ProvisioningRequest -> prog A) Q X :
  (forall o, leads (fun t => object t = o /\ P t) (k o) Q X) -> leads P (o ← get_object; k o) Q X.
Proof. intros Hk t Ht. apply wp_bind. by apply Hk. Qed.

(** Reads and steps before the request may be fulfilled. *)
Lemma clean_object {A} (k : ProvisioningRequest -> prog A) Q X :
  (forall o, leads clean (k o) Q X) -> leads clean (o ← get_object; k o) Q X.
Proof. intros Hk. apply leads_object. intros o. eapply leads_mono; [apply Hk|by intros t []|done..]. Qed.

Lemma clean_bind {A B} (m : prog A) (k : A -> prog B) Q :
  preserves (evolves any_condition anything) m -> (forall a, leads clean (k a) Q settled) ->
  leads clean (m ≫= k) Q settled.
Proof.
  intros Hm Hk. eapply leads_bind; [|exact Hk].
  eapply leads_mono; [by apply clean_part|done..|exact clean_settled].
Qed.

Lemma clean_return {A} (a : A) : leads clean (mret a : prog A) (fun _ => settled) settled.
Proof. apply leads_ret, clean_settled. Qed.

Ltac clean_step :=
  lazymatch goal with
  | |- leads clean (get_object ≫= _) _ _ => apply clean_object; intros ?
  | |- leads clean (mret _) _ _ => apply clean_return
  | |- leads clean (match ?x with _ => _ end) _ _ => destruct x
  | |- leads clean (_ ≫= _) _ _ => apply clean_bind; [solve [walk]|intros ?]
  end.

Section spine.
Context `{Subsystems} (env : Env).

#[local] Hint Extern 1 (_ ∈ pr_types) => apply (bool_decide_unpack _); vm_compute; exact I : evolve.

Lemma record_node_count_evolves rendered :
  preserves (evolves no_condition anything) (record_node_count env rendered).
Proof using. unfold record_node_count. walk. Qed.

Lemma updateOCloudNodeClusterId_evolves : preserves (evolves no_condition anything) (updateOCloudNodeClusterId env).
Proof using. unfold updateOCloudNodeClusterId. walk. Qed.

#[local] Hint Resolve record_node_count_evolves updateOCloudNodeClusterId_evolves : evolve.

Lemma finalize_leads rendered :
  leads settled (finalizeProvisioningIfComplete env rendered) (fun _ => settled) settled.
Proof using.
  unfold finalizeProvisioningIfComplete. apply leads_object. intros o.
  destruct (is_complete o) eqn:Ec; cbn [when].
  2: { by apply leads_ret; intros t []. }
  eapply (leads_mono complete _ _ (fun _ => complete) _ complete).
  - eapply leads_bind; [apply complete_part; auto with evolve|intros ?].
    eapply leads_bind; [|intros ?; apply complete_part; walk].
    intros t [Hc Hl]. split; [|done]. simpl. unfold SetProvisioningStateFulfilled. by case_decide.
  - intros t [<- [_ Hl]]. by split.
  - intros ? ?. apply complete_settled.
  - apply complete_settled.
Qed.

(** The last steps of the monitoring, and the steps before. *)
Lemma monitor_configuration_leads : leads clean (monitor_configuration env) (fun _ => settled) settled.
Proof using.
  unfold monitor_configuration. do 3 clean_step; [clean_step|].
  eapply leads_bind; [eapply leads_mono; [apply finalize_leads|exact clean_settled|done..]|intros ?].
  apply leads_object. intros o'. case_match; [|by apply leads_ret; intros t []].
  eapply leads_mono; [apply settled_part|by intros t []|done..]. unfold handleFulfilledStateMonitoring. walk.
Qed.

Lemma monitor_cluster_leads : leads clean (monitor_cluster env) (fun _ => settled) settled.
Proof using.
  pose proof monitor_configuration_leads. unfold monitor_cluster. repeat first [exact H0 | clean_step].
Qed.

Lemma checkClusterDeployConfigState_leads :
  leads clean (checkClusterDeployConfigState env) (fun _ => settled) settled.
Proof using.
  pose proof monitor_cluster_leads. unfold checkClusterDeployConfigState. repeat first [exact H0 | clean_step].
Qed.

(** A phase that succeeds with a ClusterInstance has not fulfilled the request. *)
Definition phase_post (r : option ClusterInstance * Result) : task -> Prop :=
  if r.1 is Some _ then clean else settled.

Lemma or_monitor_leads {A} (m : prog A) onInput next :
  preserves (evolves any_condition anything) m ->
  (forall a, leads clean (next a) phase_post settled) ->
  leads clean (or_monitor env m onInput next) phase_post settled.
Proof using.
  intros Hm Hn. unfold or_monitor. apply clean_bind; [by apply preserves_try|]. intros [e|a]; [|done].
  case_match; [|apply leads_raise, clean_settled].
  eapply leads_bind; [apply checkClusterDeployConfigState_leads|]. intros r. by apply leads_ret.
Qed.

Lemma handlePreProvisioning_leads : leads clean (handlePreProvisioning env) phase_post settled.
Proof using.
  unfold handlePreProvisioning. do 2 clean_step.
  apply or_monitor_leads; [auto with evolve|intros ?].
  apply or_monitor_leads; [auto with evolve|intros ?].
  apply or_monitor_leads; [auto with evolve|intros ?]. by apply leads_ret.
Qed.

Lemma executeProvisioningPhases_leads : leads clean (executeProvisioningPhases env) phase_post settled.
Proof using.
  unfold executeProvisioningPhases. eapply leads_bind; [apply handlePreProvisioning_leads|].
  intros [[rendered|] result]; cbv beta iota; [|by apply leads_ret].
  change (phase_post (Some rendered, result)) with clean.
  apply clean_bind; [solve [walk]|]. intros [|]; [apply leads_ret, clean_settled|].
  apply clean_bind; [unfold handleNodeAllocationRequestProvisioning; solve [walk]|].
  intros [res [ci|]]; [|apply leads_ret, clean_settled].
  apply clean_bind; [unfold executeClusterInstallationPhase; solve [walk]|]. intros r.
  case_match; [apply leads_ret, clean_settled|by apply leads_ret].
Qed.

Lemma finish_leads ci requeue : leads settled (finish env ci requeue) (fun _ => settled) settled.
Proof using.
  unfold finish. apply leads_object. intros o. apply (leads_mono settled _ _ (fun _ => settled) _ settled); [|by intros t []|done..].
  case_match; [by apply leads_ret|].
  eapply leads_bind; [apply finalize_leads|intros ?]. by apply leads_ret.
Qed.
End spine.

(** ** A whole reconcile *)

Section reconcile.
Context `{Laws : SubsystemLaws} (env : Env).

Lemma preserves_weaken {A} T T' P P' (m : prog A) :
  scope_le T T' -> (forall e, P e -> P' e) -> preserves (evolves T P) m -> preserves (evolves T' P') m.
Proof using. intros HT HP Hm t. eapply evolves_mono; [exact HT|exact HP|apply Hm]. Qed.

Lemma forget_events {A} T P (m : prog A) : preserves (evolves T P) m -> preserves (evolves T anything) m.
Proof using. by apply preserves_weaken. Qed.

Lemma all_parts {A} P (m : prog A) :
  preserves (evolves any_condition P) m -> preserves (evolves everything P) m.
Proof using. by apply preserves_weaken. Qed.

#[local] Hint Extern 1 (_ ∈ pr_types) => apply (bool_decide_unpack _); vm_compute; exact I : evolve.
#[local] Hint Resolve preflight_cleanup_law resources_cleanup_law upgrade_requested_law
  stale_upgrade_law : evolve.

Lemma upgrade_part {A} (m : prog A) :
  preserves (evolves any_condition routine_event) m -> leads clean m (fun _ => clean) settled.
Proof using.
  intros Hm. eapply leads_mono; [apply clean_part|done..|exact clean_settled].
  by eapply forget_events.
Qed.

(** An upgrade that is done or not needed has not fulfilled the request, and a stale one
    may be removed. *)
Lemma handleClusterUpgrades_leads name ct :
  leads clean (handleClusterUpgrades env name ct) (fun _ => settled) settled.
Proof using Laws.
  unfold handleClusterUpgrades. eapply leads_bind; [apply upgrade_part; solve [walk]|].
  intros [|]; [apply clean_return|].
  eapply leads_bind; [apply upgrade_part, upgrade_requested_law|]. intros [shouldUpgrade result].
  case_match; [apply clean_return|]. apply clean_object. intros o.
  eapply (leads_bind _ _ _ (fun r => if r.2 : bool then clean else settled)).
  - case_match; [apply upgrade_justified|by apply leads_ret].
  - intros [res proceed]. cbn [snd]. destruct proceed; [|by rewrite orb_true_r; apply leads_ret].
    case_match; [apply clean_return|]. apply clean_object. intros o'.
    apply clean_last. apply forget_events with (P := routine_event). walk.
Qed.

Lemma handlePostProvisioning_leads ci : leads clean (handlePostProvisioning env ci) (fun _ => settled) settled.
Proof using Laws.
  assert (forall b, leads clean (finish env ci b) (fun _ => settled) settled) as Hf.
  { intros b. eapply leads_mono; [apply finish_leads|exact clean_settled|done..]. }
  unfold handlePostProvisioning. do 2 clean_step. case_match; [|apply Hf].
  apply clean_bind; [solve [walk]|]. intros [seedRequested [ct|]]; [|apply Hf].
  destruct seedRequested; [apply seed_start_justified|].
  eapply leads_bind; [apply handleClusterUpgrades_leads|]. intros r.
  case_match; [by apply leads_ret|apply finish_leads].
Qed.

Lemma run_leads : leads clean (run env) (fun _ => settled) settled.
Proof using Laws.
  pose proof handlePostProvisioning_leads. pose proof seed_justified.
  pose proof (forget_events _ _ _ preflight_cleanup_law).
  unfold run, reconcileSeedGenerationFailureCleanup. clean_step. case_match; [done|].
  clean_step. case_match; [clean_step|]. clean_step. case_match; [clean_step|].
  eapply leads_bind; [apply leads_try, executeProvisioningPhases_leads|]. intros r.
  enough (leads settled (timeoutResult ← checkOverallProvisioningTimeout env;
      if 0 <? RequeueAfter timeoutResult then mret timeoutResult
      else result ← rethrow r; mret result.2) (fun _ => settled) settled)
    by (destruct r as [e|[[ci|] res]]; done).
  apply settled_part. destruct r; walk.
Qed.

Lemma set_deleting_evolves P : preserves (evolves any_condition P) (set_phase env SetProvisioningStateDeleting).
Proof using.
  unfold set_phase. apply preserves_bind; [apply evolves_now|]. intros time. apply evolves_object. intros o.
  unfold SetProvisioningStateDeleting. case_decide; [done|]. by apply rtc_once, change_phase.
Qed.
#[local] Hint Resolve set_deleting_evolves : evolve.

Lemma handleFinalizer_evolves : preserves (evolves any_condition no_install) (handleFinalizer env).
Proof using Laws.
  pose proof (preserves_weaken _ any_condition _ no_install _ ltac:(done) routine_no_install resources_cleanup_law).
  unfold handleFinalizer, handleProvisioningRequestDeletion. walk.
Qed.

Lemma Reconcile_leads : leads clean (Reconcile env) (fun _ => settled) settled.
Proof using Laws.
  pose proof run_leads. unfold Reconcile. apply clean_bind; [apply (forget_events _ _ _ handleFinalizer_evolves)|].
  intros [r|]; [clean_step|done].
Qed.

(** Whatever it does, a reconcile only makes changes, and applies a ClusterInstance when the
    hardware is provisioned. *)
Lemma set_fulfilled_evolves P : preserves (evolves everything P) (set_phase env SetProvisioningStateFulfilled).
Proof using. by apply evolves_fulfilled. Qed.
#[local] Hint Resolve set_fulfilled_evolves : evolve.

Lemma finalize_evolves rendered :
  preserves (evolves everything routine_event) (finalizeProvisioningIfComplete env rendered).
Proof using. unfold finalizeProvisioningIfComplete, record_node_count, updateOCloudNodeClusterId. walk. Qed.
#[local] Hint Resolve finalize_evolves : evolve.

Lemma checkClusterDeployConfigState_evolves :
  preserves (evolves everything routine_event) (checkClusterDeployConfigState env).
Proof using.
  unfold checkClusterDeployConfigState, monitor_cluster, monitor_configuration, handleFulfilledStateMonitoring.
  walk.
Qed.
#[local] Hint Resolve checkClusterDeployConfigState_evolves : evolve.

Lemma handlePreProvisioning_evolves : preserves (evolves everything routine_event) (handlePreProvisioning env).
Proof using. unfold handlePreProvisioning, or_monitor. walk. Qed.

Lemma handleNodeAllocationRequestProvisioning_evolves ci :
  preserves (evolves everything routine_event) (handleNodeAllocationRequestProvisioning env ci).
Proof using. unfold handleNodeAllocationRequestProvisioning. walk. Qed.

Lemma handleClusterUpgrades_evolves name ct :
  preserves (evolves everything routine_event) (handleClusterUpgrades env name ct).
Proof using Laws.
  pose proof upgrade_law. pose proof (fun n ct => all_parts _ _ (upgrade_requested_law n ct)).
  pose proof (fun n => all_parts _ _ (stale_upgrade_law n)). unfold handleClusterUpgrades. walk.
Qed.

Lemma handlePostProvisioning_evolves ci :
  preserves (evolves everything routine_event) (handlePostProvisioning env ci).
Proof using Laws.
  pose proof handleClusterUpgrades_evolves. pose proof seed_start_law.
  unfold handlePostProvisioning. walk.
Qed.
End reconcile.
