(* ===== verification/ContractLaws.v ===== *)
(** * Upgrades and seed generation keep the contract of the reconciler (theory of Upgrade
      and SeedGeneration)

    Their parts change only the request's own conditions, its phase and their part of the
    status; they install nothing and delete nothing that the deletion of a request does,
    and leave a request that is not fulfilled so, but for the end of a run. *)
From S2P Require Import Prelude Conditions GoText Unstructured Handler ProvisioningStatus MergeMaps UpgradePlan SeedObjects ProvisioningTask ProvisioningValidation ProvisioningRequest Upgrade SeedSnapshot SeedWorkloads SeedRegistry SeedMirrors SeedInputs SeedPreflight SeedDetachment SeedCleanup SeedISO SeedGeneration SeedFrame ProvisioningFacts ProvisioningSafety UpgradeGraph UpgradeConfig UpgradeRollout ProvisioningPolicy NodeConfiguration ProvisioningHardware ProvisioningCluster.
#[local] Open Scope Z_scope.

(** ** Upgrades *)

(** The part of [SubsystemLaws] that is about seed generation. *)
Class SeedLaws `{SeedGeneration} : Prop := {
  seed_preflight_law : preserves (evolves any_condition routine_event) seed_cleanup_preflight;
  seed_cleanup_law : preserves (evolves any_condition routine_event) seed_cleanup;
  seed_reconcile_law : preserves (evolves everything routine_event) seed_reconcile;
  seed_begin_law ct : preserves (evolves everything routine_event) (seed_start ct);
  seed_reconcile_justified : leads clean seed_reconcile (fun _ => settled) settled;
  seed_begin_justified ct : leads clean (seed_start ct) (fun _ => settled) settled;
}.

#[local] Hint Extern 1 (routine _) => exact I : core.
#[local] Hint Extern 1 (_ ∈ pr_types) => apply (bool_decide_unpack _); vm_compute; exact I : evolve.

Section parts.
Context {T : scope} {P : event -> Prop} `{Semver} `{Urls} (env : Env).
Context (HT : forall t, t ∈ pr_types -> t ∈ scope_types T).
Context (HP : forall o A (c : call A), routine c -> P (Ev o c)).

(** The status of the upgrade is no part of what the laws speak of. *)
Lemma modify_upgrade_evolves f : preserves (evolves T P) (modify_upgrade f).
Proof using. unfold modify_upgrade. walk. Qed.
#[local] Hint Resolve modify_upgrade_evolves set_condition_evolves remove_condition_evolves : evolve.

Lemma updateUpgradeStatus_evolves reason message : preserves (evolves T P) (updateUpgradeStatus env reason message).
Proof using HP HT. unfold updateUpgradeStatus. walk. Qed.
#[local] Hint Resolve updateUpgradeStatus_evolves : evolve.

Lemma PauseMCPs_evolves mcps : preserves (evolves T P) (PauseMCPs env mcps).
Proof using HP. induction mcps as [|p mcps IH]; cbn [PauseMCPs]; walk. Qed.
Lemma UnpauseMCPs_evolves mcps : preserves (evolves T P) (UnpauseMCPs env mcps).
Proof using HP. induction mcps as [|p mcps IH]; cbn [UnpauseMCPs]; walk. Qed.
#[local] Hint Resolve PauseMCPs_evolves UnpauseMCPs_evolves : evolve.

Lemma run_wave_evolves strategy phase completed wave :
  preserves (evolves T P) (run_wave env strategy phase completed wave).
Proof using HP HT. unfold run_wave. walk. Qed.
#[local] Hint Resolve run_wave_evolves : evolve.

Lemma run_waves_evolves strategy completed waves : preserves (evolves T P) (run_waves env strategy completed waves).
Proof using HP HT. revert completed. induction waves as [|w waves IH]; intros completed; cbn [run_waves]; walk. Qed.
Lemma run_stages_evolves mcps n i completed : preserves (evolves T P) (run_stages env mcps n i completed).
Proof using HP HT. revert i completed. induction n as [|n IH]; intros i completed; cbn [run_stages]; walk. Qed.
#[local] Hint Resolve run_waves_evolves run_stages_evolves : evolve.

Lemma refreshCustomStageAuthorization_evolves ct :
  preserves (evolves T P) (refreshCustomStageAuthorization env ct).
Proof using HP. unfold refreshCustomStageAuthorization. walk. Qed.
Lemma waitForControlPlaneWorkerPools_evolves mcps :
  preserves (evolves T P) (waitForControlPlaneWorkerPools env mcps).
Proof using HP HT. unfold waitForControlPlaneWorkerPools. walk. Qed.
#[local] Hint Resolve refreshCustomStageAuthorization_evolves waitForControlPlaneWorkerPools_evolves : evolve.

Lemma reconcileWorkerPoolRollout_evolves ct : preserves (evolves T P) (reconcileWorkerPoolRollout env ct).
Proof using HP HT. unfold reconcileWorkerPoolRollout. walk. Qed.
#[local] Hint Resolve reconcileWorkerPoolRollout_evolves : evolve.

Lemma prepareCVSpec_evolves ct cv action : preserves (evolves T P) (prepareCVSpec env ct cv action).
Proof using HP. unfold prepareCVSpec. walk. Qed.
Lemma handleTerminalCVPreStartFailure_evolves action message :
  preserves (evolves T P) (handleTerminalCVPreStartFailure env action message).
Proof using HP HT. unfold handleTerminalCVPreStartFailure. walk. Qed.
Lemma validateMCPsPreconditions_evolves action triggered :
  preserves (evolves T P) (validateMCPsPreconditions env action triggered).
Proof using HP. unfold validateMCPsPreconditions. walk. Qed.
Lemma prepareWorkerMCPsForUpgrade_evolves action :
  preserves (evolves T P) (prepareWorkerMCPsForUpgrade env action).
Proof using HP. unfold prepareWorkerMCPsForUpgrade. walk. Qed.
#[local] Hint Resolve prepareCVSpec_evolves handleTerminalCVPreStartFailure_evolves
  validateMCPsPreconditions_evolves prepareWorkerMCPsForUpgrade_evolves : evolve.

Lemma checkCVGraphPreconditions_evolves cv cvSpec action :
  preserves (evolves T P) (checkCVGraphPreconditions env cv cvSpec action).
Proof using HP HT. unfold checkCVGraphPreconditions. walk. Qed.
#[local] Hint Resolve checkCVGraphPreconditions_evolves : evolve.

Lemma upgrade_step_evolves cv ct name action : preserves (evolves T P) (upgrade_step env cv ct name action).
Proof using HP HT. unfold upgrade_step. walk. Qed.
Lemma initUpgradeStatus_evolves name : preserves (evolves T P) (initUpgradeStatus env name).
Proof using HP.
  intros t. unfold initUpgradeStatus. unfold mbind at 1, handler_bind at 1. cbn [get_object].
  apply from_bind; [|intros []; walk].
  destruct (Cluster (object t)) eqn:E; [reflexivity|].
  split; simpl; [|exists []; by rewrite app_nil_r]. apply rtc_once, change_cluster.
  unfold ztp_done, IsClusterZtpDone. by rewrite E.
Qed.
#[local] Hint Resolve upgrade_step_evolves initUpgradeStatus_evolves : evolve.

Lemma isCVUpgradeTimedOut_evolves name cv : preserves (evolves T P) (isCVUpgradeTimedOut env name cv).
Proof using HP HT. unfold isCVUpgradeTimedOut. walk. Qed.
#[local] Hint Resolve isCVUpgradeTimedOut_evolves : evolve.

Lemma handleClusterVersionUpgrade_evolves ct name cfg :
  preserves (evolves T P) (handleClusterVersionUpgrade env ct name cfg).
Proof using HP HT. unfold handleClusterVersionUpgrade. walk. Qed.
Lemma handleIBGUUpgrade_evolves ct : preserves (evolves T P) (handleIBGUUpgrade env ct).
Proof using HP HT. unfold handleIBGUUpgrade. walk. Qed.
#[local] Hint Resolve handleClusterVersionUpgrade_evolves handleIBGUUpgrade_evolves : evolve.

Lemma IsUpgradeRequested_evolves name ct : preserves (evolves T P) (IsUpgradeRequested env name ct).
Proof using HP. unfold IsUpgradeRequested. walk. Qed.
Lemma cleanupStaleUpgradeState_evolves name : preserves (evolves T P) (UpgradeRollout.cleanupStaleUpgradeState env name).
Proof using HP HT. unfold UpgradeRollout.cleanupStaleUpgradeState. walk. Qed.

Lemma handleUpgrade_evolves start name ct :
  preserves (evolves T P) (start ct) -> preserves (evolves T P) (handleUpgrade env start name ct).
Proof using HP HT. intros Hs. unfold handleUpgrade. walk. Qed.
End parts.

(** Only a seed image that is generated can end with a request that is fulfilled, and
    then the upgrade is not proceeded from. *)
Lemma handleUpgrade_leads `{Semver} `{Urls} env start name ct :
  leads clean (start ct) (fun _ => settled) settled ->
  leads clean (handleUpgrade env start name ct) (fun r => if r.2 : bool then clean else settled) settled.
Proof.
  intros Hs. unfold handleUpgrade.
  assert (forall m : prog (Result * bool), preserves (evolves any_condition routine_event) m ->
    leads clean m (fun r => if r.2 : bool then clean else settled) settled) as Hp.
  { intros m Hm. eapply leads_mono; [by apply upgrade_part|done|..|done].
    intros [? []] t; [done|apply clean_settled]. }
  eapply leads_bind; [apply upgrade_part; unfold parseUpgradeConfig; solve [walk]|]. intros [e|cfg].
  - apply Hp. unfold upgrade_precondition_failed. walk.
  - destruct (ConfigType cfg).
    + apply Hp. apply handleClusterVersionUpgrade_evolves; auto with evolve.
    + apply Hp. apply handleIBGUUpgrade_evolves; auto with evolve.
    + eapply leads_bind; [exact Hs|]. intros r. by apply leads_ret.
Qed.

#[export] Hint Resolve handleUpgrade_evolves IsUpgradeRequested_evolves cleanupStaleUpgradeState_evolves : evolve.

(** The contract, but for seed generation. *)
Lemma with_upgrades_laws `{Semver} `{Urls} `{seeds : SeedGeneration} `{!SeedLaws} env :
  @SubsystemLaws (with_upgrades env).
Proof.
  split; cbn [with_upgrades IsUpgradeRequested ProvisioningRequest.IsUpgradeRequested reconcileSeedGeneration
              cleanupSeedGenerationPreflightResources startOrResumeSeedGeneration cleanupSeedGenerationResources
              ProvisioningRequest.handleUpgrade ProvisioningRequest.cleanupStaleUpgradeState].
  - apply seed_preflight_law.
  - apply seed_cleanup_law.
  - intros name ct. apply IsUpgradeRequested_evolves; auto with evolve.
  - intros name ct. apply handleUpgrade_evolves; [auto with evolve..|apply seed_begin_law].
  - intros name ct. apply handleUpgrade_leads, seed_begin_justified.
  - intros name. apply cleanupStaleUpgradeState_evolves; auto with evolve.
  - apply seed_reconcile_law.
  - apply seed_begin_law.
  - apply seed_reconcile_justified.
  - apply seed_begin_justified.
Qed.

(** * Seed generation keeps the contract of the reconciler (theory of SeedGeneration) *)

(** The parts of a run change only the request's own conditions, its phase and the status
    of the run, and all but the end of a run leave a request that is not fulfilled so. *)

#[local] Hint Extern 1 (routine _) => exact I : core.
#[local] Hint Extern 1 (_ ∈ pr_types) => apply (bool_decide_unpack _); vm_compute; exact I : evolve.

(** A message that is added to one condition leaves the others. *)
Lemma append_to_condition_ne cs t t' message :
  t' <> t -> FindStatusCondition (append_to_condition t message cs) t' = FindStatusCondition cs t'.
Proof.
  intros Hne. induction cs as [|c cs IH]; [done|]. cbn [append_to_condition].
  destruct (decide (cond_Type c = t)) as [E|E]; cbn [FindStatusCondition]; [|by rewrite IH].
  unfold append_message. destruct (Contains _ _); [done|]. cbn [cond_Type].
  by rewrite !decide_False by congruence.
Qed.

Section parts.
Context {T : scope} {P : event -> Prop} `{Semver} `{SeedEncoding} `{SeedLibraries} `{SeedFormats} `{SeedText} (env : Env).
Context (HT : forall t, t ∈ pr_types -> t ∈ scope_types T).
Context (HP : forall o A (c : call A), routine c -> P (Ev o c)).

(** The phase stays what it is. *)
Lemma note_manual_cleanup_evolves : preserves (evolves T P) note_manual_cleanup.
Proof using HT.
  intros t. unfold note_manual_cleanup, modify_object, get_object, modify, mbind, handler_bind. cbn -[append_to_condition].
  assert (change T (object t) (with_conditions (append_to_condition PRconditionTypes.SeedGenerationCompleted
            (manual_cleanup (object t)) (Conditions (object t))) (object t))) as Hc.
  { apply change_conditions. intros t' Hn. apply append_to_condition_ne. intros ->. apply Hn, HT. auto with evolve. }
  case_bool_decide as Hp; cbn [when];
    (split; [cbn -[append_to_condition]|exists []; by rewrite app_nil_r]).
  - eapply rtc_l; [exact Hc|]. apply rtc_once, change_phase. simpl. by rewrite Hp.
  - by apply rtc_once.
Qed.

Lemma modify_seed_evolves f : preserves (evolves T P) (modify_seed f).
Proof using. unfold modify_seed, get_seed. walk. Qed.

(** Any of its calls is routine, and the status of the run is no part of the laws. *)
Lemma ask_evolves {A} (c : seed_call A) : preserves (evolves T P) (ask env c).
Proof using HP. unfold ask. walk. Qed.
#[local] Hint Resolve note_manual_cleanup_evolves modify_seed_evolves ask_evolves set_condition_evolves : evolve.
Lemma evolves_frame : QuietFrame env (evolves T P).
Proof using HP HT. split; [exact _|intros; first [match goal with H : hub_read ?c = true |- _ => destruct c; try done end|idtac]; walk..]. Qed.
#[local] Existing Instance evolves_frame.
#[local] Hint Resolve modify_seed_evolves ask_evolves : frame.

Lemma submit_job_evolves job hash : preserves (evolves T P) (submit_job env job hash).
Proof using HP HT. unfold submit_job. frame_walk. Qed.
#[local] Hint Resolve submit_job_evolves : frame.
Lemma prepare_job_evolves s artifact status : preserves (evolves T P) (prepare_job env s artifact status).
Proof using HP HT. unfold prepare_job. frame_walk. Qed.
Lemma submit_generator_evolves sg : preserves (evolves T P) (submit_generator env sg).
Proof using HP HT. unfold submit_generator, handleSeedGeneratorSubmissionError. frame_walk. Qed.
Lemma start_detachment_evolves : preserves (evolves T P) (start_detachment env).
Proof using HP HT. unfold start_detachment. frame_walk. Qed.
Lemma pin_evolves s : preserves (evolves T P) (pinSeedGenerationIdentity env s).
Proof using HP HT. unfold pinSeedGenerationIdentity. frame_walk. Qed.
#[local] Hint Resolve prepare_job_evolves submit_generator_evolves start_detachment_evolves pin_evolves : frame.
Lemma begin_evolves timeout : preserves (evolves T P) (startSeedGeneration env timeout).
Proof using HP HT.
  assert (forall s, preserves (evolves T P) (modify_details (with_seed s))) by (intros; walk).
  unfold startSeedGeneration. frame_walk.
Qed.
#[local] Hint Resolve begin_evolves : frame.

(** ** With the end of a run *)

Context (HF : may_fulfill T = true).

Lemma complete_run_evolves message what : preserves (evolves T P) (complete_run env message what).
Proof using HP HT HF. pose proof (evolves_fulfilled (P := P) env HF). unfold complete_run. walk. Qed.
#[local] Hint Resolve complete_run_evolves : frame.
Lemma observe_job_evolves artifact : preserves (evolves T P) (observeSeedGenerationISOJob env artifact).
Proof using HP HT HF. unfold observeSeedGenerationISOJob, job_outcome, completeSeedGenerationISO. frame_walk. Qed.
#[local] Hint Resolve observe_job_evolves : frame.
Lemma ISO_evolves s : preserves (evolves T P) (reconcileSeedGenerationISO env s).
Proof using HP HT HF. unfold reconcileSeedGenerationISO. frame_walk. Qed.
Lemma adopt_evolves sg s : preserves (evolves T P) (adopt_generator env sg s).
Proof using HP HT HF. unfold adopt_generator, observeSeedGenerator, record_seed_image. frame_walk. Qed.
#[local] Hint Resolve ISO_evolves adopt_evolves : frame.
Lemma steps_evolves s : preserves (evolves T P) (reconcileSeedGenerationDetached env s).
Proof using HP HT HF. unfold reconcileSeedGenerationDetached, reconcileSeedGenerator. frame_walk. Qed.
#[local] Hint Resolve steps_evolves : frame.
Lemma reconcile_evolves : preserves (evolves T P) (reconcileSeedGeneration env).
Proof using HP HT HF. apply run_frame; auto with frame. Qed.
#[local] Hint Resolve reconcile_evolves : frame.
Lemma start_or_resume_evolves ct : preserves (evolves T P) (startOrResumeSeedGeneration env ct).
Proof using HP HT HF.
  assert (preserves (evolves T P) (trigger env MergeUpgradeData)) by walk.
  unfold startOrResumeSeedGeneration. frame_walk.
Qed.
End parts.

(** ** The end of a run *)

Create HintDb leads.

(** A request that a run fulfills has the condition, and was sent with it. *)
Section ends.
Context `{Semver} `{SeedEncoding} `{SeedLibraries} `{SeedFormats} `{SeedText} (env : Env).
Abbreviation ends m := (leads clean m (fun _ => settled) settled).

Lemma silent_frame : QuietFrame env (evolves any_condition anything).
Proof using. apply evolves_frame; auto with evolve. Qed.
#[local] Existing Instance silent_frame.
Lemma silent_ask {A} (c : seed_call A) : preserves (evolves any_condition anything) (ask env c).
Proof using. apply ask_evolves; auto with evolve. Qed.
Lemma silent_parts :
  (forall s artifact status, preserves (evolves any_condition anything) (prepare_job env s artifact status))
  /\ (forall sg, preserves (evolves any_condition anything) (submit_generator env sg))
  /\ preserves (evolves any_condition anything) (start_detachment env)
  /\ (forall s, preserves (evolves any_condition anything) (pinSeedGenerationIdentity env s))
  /\ (forall timeout, preserves (evolves any_condition anything) (startSeedGeneration env timeout))
  /\ preserves (evolves any_condition anything) (trigger env MergeUpgradeData).
Proof using.
  split_and!; intros; first [apply prepare_job_evolves|apply submit_generator_evolves|apply start_detachment_evolves
    |apply pin_evolves|apply begin_evolves|walk]; auto with evolve.
Qed.

Lemma complete_run_leads message what : ends (complete_run env message what).
Proof using.
  unfold complete_run.
  eapply (leads_bind _ _ _ (fun _ t => clean t /\ condition_is (object t) PRconditionTypes.SeedGenerationCompleted is_true = true)).
  { intros t Ht. split.
    - eapply (clean_part (set_condition env PRconditionTypes.SeedGenerationCompleted CRconditionReasons.Completed
                ConditionTrue message)); [walk|done].
    - unfold set_condition, condition_is, SetStatusCondition. simpl.
      match goal with |- context [meta_SetStatusCondition ?cs ?new] =>
        pose proof (Find_SetStatusCondition_eq cs new) as E end.
      cbn [cond_Type] in E. rewrite E. clear E. by destruct (FindStatusCondition _ _). }
  intros _. eapply (leads_bind _ _ _ (fun _ => settled)).
  - intros t [[Hp Hl] Hc]. split; [|done]. intros _. right. simpl.
    unfold SetProvisioningStateFulfilled. by case_decide.
  - intros _. eapply leads_bind; [apply settled_part; walk|]. intros ?. by apply leads_ret.
Qed.


Ltac ends_step :=
  lazymatch goal with
  | |- leads clean (get_object ≫= _) _ _ => clean_step
  | |- leads clean (try _ ≫= _) _ _ => apply clean_bind; [solve [frame_walk]|intros [?|?]]
  | |- leads clean (_ ≫= _) _ _ => apply clean_bind; [solve [frame_walk]|intros ?]
  | |- leads clean (mret _) _ _ => clean_step
  | |- leads clean (match _ with _ => _ end) _ _ => clean_step
  | |- _ => first [solve [eauto with leads nocore] | solve [apply clean_last; frame_walk]]
  end.
Ltac ends_walk :=
  pose proof silent_parts as (?&?&?&?&?&?); cbv beta iota zeta; repeat (ends_step; cbv beta iota zeta).
#[local] Hint Resolve complete_run_leads : leads.
#[local] Hint Resolve modify_seed_evolves silent_ask : frame.

Lemma record_seed_image_leads s : ends (record_seed_image env s).
Proof using. unfold record_seed_image. ends_walk. Qed.
Lemma completeISO_leads s result : ends (completeSeedGenerationISO env s result).
Proof using. unfold completeSeedGenerationISO. ends_walk. Qed.
#[local] Hint Resolve record_seed_image_leads completeISO_leads : leads.
Lemma job_outcome_leads artifact s job : ends (job_outcome env artifact s job).
Proof using. unfold job_outcome. ends_walk. Qed.
#[local] Hint Resolve job_outcome_leads : leads.
Lemma observe_job_leads artifact : ends (observeSeedGenerationISOJob env artifact).
Proof using. unfold observeSeedGenerationISOJob. ends_walk. Qed.
#[local] Hint Resolve observe_job_leads : leads.
Lemma ISO_leads s : ends (reconcileSeedGenerationISO env s).
Proof using. unfold reconcileSeedGenerationISO. ends_walk. Qed.
Lemma observe_leads sg s : ends (observeSeedGenerator env sg s).
Proof using. unfold observeSeedGenerator. ends_walk. Qed.
#[local] Hint Resolve ISO_leads observe_leads : leads.
Lemma adopt_leads sg s : ends (adopt_generator env sg s).
Proof using. unfold adopt_generator. ends_walk. Qed.
#[local] Hint Resolve adopt_leads : leads.
Lemma generator_leads s : ends (reconcileSeedGenerator env s).
Proof using. unfold reconcileSeedGenerator. ends_walk. Qed.
#[local] Hint Resolve generator_leads : leads.
Lemma seed_detached_leads s : ends (reconcileSeedGenerationDetached env s).
Proof using. unfold reconcileSeedGenerationDetached. ends_walk. Qed.
#[local] Hint Resolve seed_detached_leads : leads.
Lemma snapshot_leads : ends (reconcileSeedGenerationSnapshot env).
Proof using. unfold reconcileSeedGenerationSnapshot. ends_walk. Qed.
#[local] Hint Resolve snapshot_leads : leads.
Lemma advance_leads s deadline : ends (advance_run env s deadline).
Proof using. unfold advance_run. ends_walk. Qed.
#[local] Hint Resolve advance_leads : leads.
Lemma seed_reconcile_leads : ends (reconcileSeedGeneration env).
Proof using. unfold reconcileSeedGeneration. ends_walk. Qed.
#[local] Hint Resolve seed_reconcile_leads : leads.
Lemma seed_start_leads ct : ends (startOrResumeSeedGeneration env ct).
Proof using. unfold startOrResumeSeedGeneration. ends_walk. Qed.

(** The contract. *)
Lemma seed_generation_laws : @SeedLaws (seed_generation env).
Proof using.
  assert (QuietFrame env (evolves any_condition routine_event)) by (apply evolves_frame; auto with evolve).
  split; cbn [seed_generation seed_reconcile seed_cleanup_preflight seed_start seed_cleanup].
  - exact (cleanup_preflight_frame env).
  - apply (cleanup_frame env). apply (detached_frame env). intros A c _. apply ask_evolves; auto with evolve.
  - apply reconcile_evolves; auto with evolve.
  - intros ct. apply start_or_resume_evolves; auto with evolve.
  - apply seed_reconcile_leads.
  - apply seed_start_leads.
Qed.
End ends.
