(* ===== verification/SeedEvidence.v ===== *)
(** * A run completes on evidence (theory of SeedGeneration and SeedInputs)

    The condition of a run becomes true only after the lifecycle agent has answered that
    its own request is completed, or the job of the live ISO, that it has a result.  The
    credentials of a run are frozen only after they were proved. *)
From S2P Require Import Prelude Conditions GoText Unstructured Handler ProvisioningStatus MergeMaps UpgradePlan SeedObjects ProvisioningTask ProvisioningValidation ProvisioningCluster ProvisioningRequest Upgrade SeedSnapshot SeedWorkloads SeedRegistry SeedMirrors SeedInputs SeedPreflight SeedDetachment SeedCleanup SeedISO SeedGeneration SeedFrame ProvisioningFacts ProvisioningSafety.
#[local] Open Scope Z_scope.

(** The answer to a call that was made with the request as it was then. *)
Definition replied (env : Env) (h : list event) {A} (o : ProvisioningRequest) (c : seed_call A) (a : A) : Prop :=
  exists h1 h2, h = h1 ++ Ev o (Seed c) :: h2 /\ api env (Seed c) h1 = inr a.

Lemma reply_app env h l {A} o (c : seed_call A) a : replied env h o c a -> replied env (h ++ l) o c a.
Proof. intros (h1 & h2 & -> & Ha). exists h1, (h2 ++ l). by rewrite <- app_assoc. Qed.

(** The agent has completed the request of this run for the image that is recorded. *)
Definition agent_evidence (env : Env) (t : task) : Prop :=
  exists o sg st, replied env (log t) o GetSeedGenerator sg /\ owned_by o (sg_Meta sg) = true
    /\ LCA_completed sg = true /\ seed_status (object t) = Some st /\ sg_SeedImage sg = Some (SeedImage st).

(** The builder of a pod has ended well. *)
Definition succeeded (pod : Pod) (t : Terminated) : Prop :=
  pod_Phase pod = PodSucceeded /\ ("iso-builder"%string, Some t) ∈ pod_Containers pod /\ ExitCode t = 0.

(** All pods are the job's; some have ended well, and all of these report the result. *)
Definition reports `{SeedEncoding} (env : Env) (o : ProvisioningRequest) (job : Job) (pods : list Pod)
    (result : string * string) : Prop :=
  (forall pod, pod ∈ pods -> pod_of_job env o job pod = None)
  /\ (exists pod t, pod ∈ pods /\ succeeded pod t)
  /\ exists url, forall pod t, pod ∈ pods -> succeeded pod t ->
       parseSeedGenerationISOJobResult (term_Message t) url = Some result.

(** The job of this run has succeeded, and its pods agree on the result that is recorded. *)
Definition ISO_evidence `{SeedEncoding} `{SeedLibraries} (env : Env) (t : task) : Prop :=
  exists o job o' pods result st,
    replied env (log t) o (HubJob (seedGenerationISOJobName o)) job
    /\ validateSeedGenerationISOResourceOwner o (job_Meta job) "job" = None
    /\ validateSeedGenerationISOJob (operator_namespace env) o job = None /\ Succeeded job <> 0
    /\ replied env (log t) o' (ListPods (<[labels.iso_job := meta_Name (job_Meta job)]> (iso_selector o'))) pods
    /\ reports env o' job pods result
    /\ seed_status (object t) = Some st /\ (ISOURL st, ISODigest st) = result.

(** ** What the pods report *)

(** What the result of the containers is, after the result of others. *)
Definition said (cs : list (string * option Terminated)) (url : string) (acc r : option (string * string)) : Prop :=
  (forall a, acc = Some a -> r = Some a)
  /\ (forall t, ("iso-builder"%string, Some t) ∈ cs -> ExitCode t = 0 ->
        parseSeedGenerationISOJobResult (term_Message t) url = r /\ r <> None)
  /\ (acc = None -> r <> None -> exists t, ("iso-builder"%string, Some t) ∈ cs /\ ExitCode t = 0).

Lemma container_results_said cs url acc r : container_results cs url acc = inr r -> said cs url acc r.
Proof.
  revert acc. induction cs as [|[name o] cs IH]; intros acc; cbn [container_results].
  { intros [= <-]. split_and!; [done|by intros t ?%not_elem_of_nil|congruence]. }
  assert (container_results cs url acc = inr r -> (name <> "iso-builder"%string \/ forall t, o = Some t -> ExitCode t <> 0) ->
    said ((name, o) :: cs) url acc r) as Hskip.
  { intros Hr Hn. destruct (IH _ Hr) as (H1 & H2 & H3). split_and!; [exact H1| |].
    - intros t Ht Hx. apply elem_of_cons in Ht as [[= <- <-]|Ht]; [|by apply H2]. destruct Hn as [|Hn]; [done|by destruct (Hn t)].
    - intros Ha Hr'. destruct (H3 Ha Hr') as (t & Ht & Hx). exists t. split; [by right|done]. }
  destruct o as [t|]; [|intros Hr; apply Hskip; [exact Hr|by right]].
  destruct (bool_decide _ && _) eqn:Ec.
  2:{ intros Hr. apply Hskip; [exact Hr|]. apply andb_false_iff in Ec as [?%bool_decide_eq_false|Hx%Z.eqb_neq]; [by left|].
      right. by intros ? [= <-]. }
  apply andb_true_iff in Ec as [->%bool_decide_eq_true Hx%Z.eqb_eq].
  destruct (parseSeedGenerationISOJobResult _ _) as [x|] eqn:Ex; [|done]. destruct (_ && _) eqn:Ed; [done|].
  intros Hr. destruct (IH _ Hr) as (H1 & H2 & _). pose proof (H1 x eq_refl) as ->. split_and!.
  - intros a ->. apply andb_false_iff in Ed as [Ed|Ed]; apply negb_false_iff, bool_decide_eq_true in Ed; by simplify_eq.
  - intros t' Ht Hx'. apply elem_of_cons in Ht as [[= ->]|Ht]; [done|by apply H2].
  - intros _ _. exists t. split; [by left|done].
Qed.

Lemma pods_result_said `{SeedEncoding} env o job pods url acc r :
  pods_result env o job pods url acc = inr r ->
  (forall a, acc = Some a -> r = Some a) /\
  (forall pod, pod ∈ pods -> pod_of_job env o job pod = None) /\
  (forall pod t, pod ∈ pods -> succeeded pod t -> parseSeedGenerationISOJobResult (term_Message t) url = r) /\
  (acc = None -> r <> None -> exists pod t, pod ∈ pods /\ succeeded pod t).
Proof.
  revert acc. induction pods as [|pod pods IH]; intros acc; cbn [pods_result].
  { intros [= <-]. split_and!; [done|by intros ? ?%not_elem_of_nil|by intros ? ? ?%not_elem_of_nil|congruence]. }
  destruct (pod_of_job env o job pod) eqn:Ep; [done|]. case_decide as Hs.
  - destruct (container_results _ _ _) as [e|acc'] eqn:Ec; [done|]. intros Hr.
    destruct (container_results_said _ _ _ _ Ec) as (C1 & C2 & C3), (IH _ Hr) as (H1 & H2 & H3 & H4). split_and!.
    + intros a ->. by apply H1, C1.
    + intros p Hp. apply elem_of_cons in Hp as [->|Hp]; [done|by apply H2].
    + intros p t Hp Ht. apply elem_of_cons in Hp as [->|Hp]; [|by eapply H3]. destruct Ht as (_ & Hin & Hx).
      destruct (C2 t Hin Hx) as [-> Hn]. destruct acc' as [a|]; [symmetry; by apply H1|done].
    + intros -> Hn. destruct acc' as [a|].
      * destruct (C3 eq_refl ltac:(done)) as (t & Hin & Hx). exists pod, t. split; [by left|done].
      * destruct (H4 eq_refl Hn) as (p & t & Hp & Ht). exists p, t. split; [by right|done].
  - intros Hr. destruct (IH _ Hr) as (H1 & H2 & H3 & H4). split_and!; [done| | |].
    + intros p Hp. apply elem_of_cons in Hp as [->|Hp]; [done|by apply H2].
    + intros p t Hp Ht. apply elem_of_cons in Hp as [->|Hp]; [by destruct Ht|by eapply H3].
    + intros Ha Hn. destruct (H4 Ha Hn) as (p & t & Hp & Ht). exists p, t. split; [by right|done].
Qed.

Lemma result_reports `{SeedEncoding} env o job pods url result :
  pods_result env o job pods url None = inr (Some result) -> reports env o job pods result.
Proof. intros (_ & H1 & H2 & H3)%pods_result_said. split_and!; [done|by apply H3|by exists url]. Qed.

Section evidence.
Context `{Semver} `{SeedEncoding} `{SeedLibraries} `{SeedFormats} `{SeedText} (env : Env).

(** ** A frame: the run is not completed, and the log grows *)

Definition uncompleting (t t' : task) : Prop :=
  (completed (object t') = true -> completed (object t) = true) /\ exists l, log t' = log t ++ l.
#[export] Instance uncompleting_preorder : PreOrder uncompleting.
Proof.
  split; [intros t; split; [done|exists []; by rewrite app_nil_r]|].
  intros t1 t2 t3 [H12 (l & E)] [H23 (l' & E')]. split; [auto|]. exists (l ++ l'). by rewrite E', E, app_assoc.
Qed.
Lemma uncompleting_event t e : uncompleting t (with_event e t).
Proof using. split; [done|by exists [e]]. Qed.
Lemma uncompleting_frame : QuietFrame env uncompleting.
Proof using.
  apply quiet_frame; [apply _|..]; intros; try apply uncompleting_event.
  split; [by match goal with Hq : quiet_change _ _ |- _ => apply Hq end|]. exists []. by rewrite app_nil_r.
Qed.
#[local] Existing Instance uncompleting_frame.
Lemma ask_uncompleting {A} (c : seed_call A) : preserves uncompleting (ask env c).
Proof using. apply trigger_frame. intros t. apply uncompleting_event. Qed.
Lemma modify_seed_uncompleting f : preserves uncompleting (modify_seed f).
Proof using.
  apply modify_seed_cases; [apply _|]. intros t d s _ _. split; [done|]. exists []. by rewrite app_nil_r.
Qed.
#[local] Hint Resolve ask_uncompleting modify_seed_uncompleting : frame.

(** ** The end of a run *)

(** What is known of the log and of the status of the run is known after it. *)
Lemma complete_run_status message what t :
  let t' := (complete_run env message what t).1 in
  seed_status (object t') = seed_status (object t) /\ exists l, log t' = log t ++ l.
Proof using.
  unfold complete_run, set_condition, set_phase, UpdateK8sCRStatus, wrapped, try, trigger, get_object, modify_object, modify,
    mbind, handler_bind. simpl.
  match goal with |- context [SetProvisioningStateFulfilled ?a ?b] =>
    assert (seed_status (SetProvisioningStateFulfilled a b) = seed_status (object t)) as E
      by (unfold SetProvisioningStateFulfilled; by case_decide);
    generalize dependent (SetProvisioningStateFulfilled a b) end.
  intros o E. destruct (api env _ (log t)); simpl; (split; [exact E|by eexists]).
Qed.

Lemma modify_seed_sets f (P : task -> Prop) (F : SeedGenerationStatus -> Prop) :
  (forall t t', P t -> uncompleting t t' -> P t') -> (forall s, F (f s)) ->
  leads P (modify_seed f) (fun _ t => P t /\ exists st, seed_status (object t) = Some st /\ F st) P.
Proof using.
  intros HP HF t Ht. pose proof (HP _ _ Ht (modify_seed_uncompleting f t)) as Hm. revert Hm.
  unfold wp, modify_seed, get_seed, get_details, modify_details, mbind, handler_bind. simpl.
  destruct (Cluster (object t)) as [d|] eqn:Ed; simpl; [|done].
  destruct (SeedStatus d) as [s|] eqn:Es; simpl; [|done].
  unfold get_details, mbind, handler_bind. simpl. rewrite Ed. simpl. intros Hm. split; [done|by exists (f s)].
Qed.

(** A call, with its answer. *)
Lemma ask_answered {A} (c : seed_call A) o (P : task -> Prop) :
  (forall t t', P t -> uncompleting t t' -> P t') ->
  leads (fun t => object t = o /\ P t) (ask env c) (fun a t => object t = o /\ P t /\ replied env (log t) o c a)
    (fun t => object t = o /\ P t).
Proof using.
  intros HP t [<- Ht]. unfold wp, ask, trigger. pose proof (HP _ _ Ht (uncompleting_event t (Ev (object t) (Seed c)))).
  destruct (api env (Seed c) (log t)) as [e|a] eqn:E; simpl; [done|]. split_and!; [done..|]. by exists (log t), [].
Qed.
Lemma reply_stays {A} o (c : seed_call A) a (P : task -> Prop) t t' :
  (forall t t', P t -> uncompleting t t' -> P t') ->
  P t /\ replied env (log t) o c a -> uncompleting t t' -> P t' /\ replied env (log t') o c a.
Proof using. intros HP [Ht Ha] Hu. split; [by eapply HP|]. destruct Hu as [_ (l & ->)]. by apply reply_app. Qed.

(** ** The agent *)

Definition fresh (t : task) : Prop := completed (object t) = false.
Definition justifies (t : task) : Prop := completed (object t) = true -> agent_evidence env t \/ ISO_evidence env t.

Lemma fresh_stays t t' : fresh t -> uncompleting t t' -> fresh t'.
Proof using. unfold fresh. intros Ht [Hc _]. destruct (completed (object t')); [|done]. by rewrite Hc in Ht. Qed.
Lemma fresh_justifies t : fresh t -> justifies t.
Proof using. unfold fresh, justifies. congruence. Qed.

(** The agent has answered. *)
Definition agent_said (o : ProvisioningRequest) (sg : SeedGenerator) (t : task) : Prop :=
  fresh t /\ replied env (log t) o GetSeedGenerator sg.
Lemma agent_said_stays o sg t t' : agent_said o sg t -> uncompleting t t' -> agent_said o sg t'.
Proof using. apply reply_stays, fresh_stays. Qed.
Lemma agent_said_justifies o sg t : agent_said o sg t -> justifies t.
Proof using. intros [Ht _]. by apply fresh_justifies. Qed.

Lemma record_justified o sg s :
  owned_by o (sg_Meta sg) = true -> validateSeedGeneratorSpec sg s = None -> LCA_completed sg = true ->
  leads (agent_said o sg) (record_seed_image env s) (fun _ => justifies) justifies.
Proof using.
  intros Ho Hv Hc. pose proof (agent_said_stays o sg) as HR. pose proof (agent_said_justifies o sg) as HPQ.
  unfold record_seed_image. destruct (frozen_seed_image s) as [image|] eqn:Ei; [|ends_walk HR HPQ].
  do 2 (apply (ends_bind _ _ HR HPQ); [frame_walk|intros ?]). destruct (_ && _); [ends_walk HR HPQ|].
  eapply leads_bind; [eapply leads_mono; [by apply (modify_seed_sets _ _ (fun st => SeedImage st = image)); [|by intros []]|done|by intros ? ? Hx; exact Hx|exact HPQ]|].
  intros []. destruct (has_liveISO s).
  { eapply (leads_when (agent_said o sg)); [by intros t []|]. ends_walk HR HPQ. }
  intros t [[_ Ha] (st & Est & Eim)].
  destruct (complete_run_status "Seed image generation and push completed" "seed generation" t) as [Es [l El]].
  assert (justifies (complete_run env "Seed image generation and push completed" "seed generation" t).1) as Hj.
  { intros _. left. exists o, sg, st. rewrite El, Es. split_and!; [by apply reply_app|done..|].
    unfold validateSeedGeneratorSpec in Hv. destruct (bool_decide (sg_SeedImage sg = _)) eqn:E; [|done].
    apply bool_decide_eq_true in E. rewrite E, Eim. unfold frozen_seed_image in Ei.
    destruct (string_field _ _); simpl in *; [|done]. by destruct (blank _); simplify_eq. }
  unfold wp. by destruct (complete_run env _ _ t) as [t' []].
Qed.

(** A program that reads the request, when it is known. *)
Lemma leads_known {A} o (P : task -> Prop) (k : ProvisioningRequest -> prog A) Q X :
  leads (fun t => object t = o /\ P t) (k o) Q X -> leads (fun t => object t = o /\ P t) (o ← get_object; k o) Q X.
Proof using. intros Hk t [<- Ht]. apply wp_bind. by apply Hk. Qed.

Lemma adopt_justified o sg s :
  leads (fun t => object t = o /\ agent_said o sg t) (adopt_generator env sg s) (fun _ => justifies) justifies.
Proof using.
  pose proof (agent_said_stays o sg) as HR. pose proof (agent_said_justifies o sg) as HPQ.
  unfold adopt_generator. apply leads_known. eapply (leads_when (agent_said o sg)); [by intros t []|].
  destruct (validateSeedGenerationLCAOwnership (sg_Meta sg) o) eqn:Eo; [ends_walk HR HPQ|].
  destruct (validateSeedGeneratorSpec sg s) eqn:Ev; [ends_walk HR HPQ|].
  destruct (Deleting _); [ends_walk HR HPQ|].
  do 2 (apply (ends_bind _ _ HR HPQ); [frame_walk|intros ?]).
  unfold observeSeedGenerator. destruct (LCA_failed sg); [ends_walk HR HPQ|].
  destruct (LCA_completed sg) eqn:Ec; [|ends_walk HR HPQ].
  apply record_justified; [unfold owned_by; by rewrite Eo|done..].
Qed.

Lemma generator_justified s : leads fresh (reconcileSeedGenerator env s) (fun _ => justifies) justifies.
Proof using.
  pose proof fresh_stays as HR. pose proof fresh_justifies as HPQ. unfold reconcileSeedGenerator.
  apply (ends_bind _ _ HR HPQ); [frame_walk|]. intros o. destruct (desiredSeedGenerator o s) as [e|desired]; [ends_walk HR HPQ|].
  apply (ends_bind _ _ HR HPQ); [frame_walk|]. intros [e|[]]; [ends_walk HR HPQ|].
  intros t Ht. revert t Ht. eapply (leads_bind _ _ _ (fun r t => match r with
    | inr sg => exists o, object t = o /\ agent_said o sg t | inl _ => fresh t end)).
  - intros t Ht. apply wp_try. eapply wp_mono; [by apply (ask_answered GetSeedGenerator (object t) fresh HR)|].
    intros t' []; simpl; [|by intros []|by intros [_ ?%HPQ]|by intros [_ ?%HPQ]]. intros (E & Hf & Ha). by exists (object t).
  - intros [e|sg]; [ends_walk HR HPQ|]. intros t (o' & Ht). by apply (adopt_justified o' sg s).
Qed.

(** ** The job *)

Definition job_said (o : ProvisioningRequest) (job : Job) (t : task) : Prop :=
  fresh t /\ replied env (log t) o (HubJob (seedGenerationISOJobName o)) job.
Lemma job_said_stays o job t t' : job_said o job t -> uncompleting t t' -> job_said o job t'.
Proof using. apply reply_stays, fresh_stays. Qed.
Lemma job_said_justifies o job t : job_said o job t -> justifies t.
Proof using. intros [Ht _]. by apply fresh_justifies. Qed.

(** The pods have answered too, with a result. *)
Definition result_said (o : ProvisioningRequest) (job : Job) (result : string * string) (t : task) : Prop :=
  exists o' pods, reports env o' job pods result
    /\ job_said o job t /\ replied env (log t) o' (ListPods (<[labels.iso_job := meta_Name (job_Meta job)]> (iso_selector o'))) pods.
Lemma result_said_stays o job result t t' : result_said o job result t -> uncompleting t t' -> result_said o job result t'.
Proof using.
  intros (o' & pods & Hr & Ht) Hu. exists o', pods. split; [done|].
  by eapply reply_stays; [apply job_said_stays|..].
Qed.
Lemma result_said_justifies o job result t : result_said o job result t -> justifies t.
Proof using. intros (o' & pods & _ & Ht & _). by eapply job_said_justifies. Qed.

Lemma complete_justified o job s result :
  validateSeedGenerationISOResourceOwner o (job_Meta job) "job" = None ->
  validateSeedGenerationISOJob (operator_namespace env) o job = None -> Succeeded job <> 0 ->
  leads (result_said o job result) (completeSeedGenerationISO env s result) (fun _ => justifies) justifies.
Proof using.
  intros Ho Hv Hs. pose proof (result_said_stays o job result) as HR.
  pose proof (result_said_justifies o job result) as HPQ.
  unfold completeSeedGenerationISO. destruct result as [url digest].
  apply (ends_bind _ _ HR HPQ); [frame_walk|]. intros st. do 2 (case_match; [ends_walk HR HPQ|]).
  apply (ends_bind _ _ HR HPQ); [frame_walk|]. intros [e|ca]; [ends_walk HR HPQ|].
  eapply leads_bind; [eapply leads_mono; [by apply (modify_seed_sets _ _ (fun st => (ISOURL st, ISODigest st) = (url, digest))); [|by intros []]|done|by intros ? ? Hx; exact Hx|exact HPQ]|].
  intros [] t [(o' & pods & Hr & [_ Ha] & Hp) (st' & Est & Eres)].
  match goal with |- wp (complete_run env ?m ?w) _ _ =>
    destruct (complete_run_status m w t) as [Es [l El]];
    assert (justifies (complete_run env m w t).1) as Hj;
      [|unfold wp; by destruct (complete_run env m w t) as [t' []]] end.
  intros _. right. exists o, job, o', pods, (url, digest), st'. rewrite El, Es.
  split_and!; try done; by apply reply_app.
Qed.

Lemma result_justified o job url :
  leads (job_said o job) (seedGenerationISOJobResult env job url)
    (fun r t => match r with Some result => result_said o job result t | None => job_said o job t end) (job_said o job).
Proof using.
  pose proof (job_said_stays o job) as HR. unfold seedGenerationISOJobResult, list_job_pods.
  intros t Ht. apply wp_bind. eapply wp_mono.
  - apply (leads_known (object t) (job_said o job) _ (fun pods t' => object t' = object t /\ job_said o job t'
      /\ replied env (log t') (object t) (ListPods (<[labels.iso_job := meta_Name (job_Meta job)]> (iso_selector (object t)))) pods)
      (job_said o job)); [|done].
    unfold wrapped. eapply leads_bind; [apply leads_try|].
    + eapply leads_mono; [apply (ask_answered _ (object t) (job_said o job) HR)|done|by intros ? ? Hx; exact Hx|by intros ? []].
    + intros [e|pods]; [by apply leads_raise|by apply leads_ret].
  - intros t' [pods| | |]; cbn [through]; try done. intros (E & Hj & Ha). apply wp_bind. unfold wp at 1. cbn [get_object fst snd through].
    rewrite E. destruct (pods_result env (object t) job pods url None) as [e|[result|]] eqn:Er; [done| |done].
    cbn. exists (object t), pods. split_and!; [by eapply result_reports|done..].
Qed.

Lemma outcome_justified o artifact s job :
  validateSeedGenerationISOResourceOwner o (job_Meta job) "job" = None ->
  validateSeedGenerationISOJob (operator_namespace env) o job = None ->
  leads (job_said o job) (job_outcome env artifact s job) (fun _ => justifies) justifies.
Proof using.
  intros Ho Hv. pose proof (job_said_stays o job) as HR. pose proof (job_said_justifies o job) as HPQ.
  unfold job_outcome. destruct (Z.eqb_spec (Succeeded job) 0) as [|Hs]; cbn [andb].
  { destruct (_ || _); ends_walk HR HPQ. }
  eapply leads_bind; [eapply leads_mono; [apply leads_try, (result_justified o job)|done|by intros ? ? Hx; exact Hx|exact HPQ]|].
  intros [e|[result|]]; [ends_walk HR HPQ|by apply (complete_justified o job s result)|ends_walk HR HPQ].
Qed.

Lemma observe_justified artifact : leads fresh (observeSeedGenerationISOJob env artifact) (fun _ => justifies) justifies.
Proof using.
  pose proof fresh_stays as HF. pose proof fresh_justifies as HFQ. unfold observeSeedGenerationISOJob.
  apply leads_object. intros o.
  eapply (leads_bind _ _ _ (fun _ t => object t = o /\ fresh t)).
  { intros t [E Ht]. unfold wp, get_seed, get_details, mbind, handler_bind. simpl.
    destruct (Cluster (object t)) as [d|]; simpl; [|auto]. destruct (SeedStatus d); simpl; auto. }
  intros st. eapply (leads_bind _ _ _ (fun r t => match r with inr job => job_said o job t | inl _ => fresh t end)).
  - eapply leads_mono; [apply leads_try, (ask_answered (HubJob (seedGenerationISOJobName o)) o fresh HF)|done| |].
    + intros [e|job] t; [by intros []|by intros (_ & Hf & Ha)].
    + intros t [_ Ht]. auto.
  - intros [e|job]; [ends_walk HF HFQ|].
    pose proof (job_said_stays o job) as HR. pose proof (job_said_justifies o job) as HPQ.
    destruct (validateSeedGenerationISOResourceOwner o (job_Meta job) "job") eqn:Ho; [ends_walk HR HPQ|].
    destruct (Deleting _); [ends_walk HR HPQ|]. destruct (_ && _); [ends_walk HR HPQ|].
    destruct (negb _); [ends_walk HR HPQ|].
    destruct (validateSeedGenerationISOJob (operator_namespace env) o job) eqn:Hv; [ends_walk HR HPQ|].
    apply (ends_bind _ _ HR HPQ); [frame_walk|]. intros [e|s]; [ends_walk HR HPQ|].
    destruct (decide _); [ends_walk HR HPQ|]. by apply outcome_justified.
Qed.

(** ** The run *)

Lemma run_justified : leads fresh (reconcileSeedGeneration env) (fun _ => justifies) justifies.
Proof using.
  pose proof fresh_stays as HR. pose proof fresh_justifies as HPQ.
  pose proof generator_justified. pose proof observe_justified.
  apply (run_ends env fresh justifies HR HPQ); [auto with frame|..].
  - intros s. unfold pinSeedGenerationIdentity. frame_walk.
  - apply (ends_quiet _ _ HR HPQ). unfold start_detachment. frame_walk.
  - intros s st _. apply leads_both.
    assert (forall b time hash, preserves uncompleting (modify_seed (with_job b time hash))) by auto with frame.
    unfold reconcileSeedGenerationDetached, reconcileSeedGenerationISO, prepare_job, submit_job. ends_walk HR HPQ.
Qed.
End evidence.

(** ** The credentials of a registry are proved, and stay where they belong *)

Section push.
Context `{SeedEncoding} `{SeedLibraries} `{SeedFormats} (env : Env).
Context (roots registry repository : string) (creds : registryCredentials) (upload : Request).
#[local] Open Scope string_scope.

(** The registry has asked for a scheme of authorization, with parameters. *)
Definition asked (h : list event) (scheme : string) (challenge : gmap string string) : Prop :=
  exists o response, replied env h o (Fetch roots upload) response /\ StatusCode response = 401
    /\ parseRegistryChallenge (WWWAuthenticate response) = Some (scheme, challenge).

(** A request to the realm that the registry has named, over HTTPS.  The identity token is
    only sent in a form, a name and a password only without one. *)
Definition exchange (h : list event) (q : Request) : Prop :=
  exists challenge u query, asked h "bearer" challenge /\ url_Parse (entry "realm" challenge) = Some u
    /\ Scheme u = "https" /\ HasUser u = false
    /\ NewRequest (req_Method q) (url_String (with_url_query query u)) (req_Form q) = Some (with_authorization None q)
    /\ if decide (identityToken creds = "")
       then req_Form q = None
            /\ (req_Authorization q = None \/ req_Authorization q = Some (Basic (username creds) (password creds)))
       else req_Method q = "POST" /\ req_Authorization q = None
            /\ exists form, req_Form q = Some form /\ ("refresh_token", identityToken creds) ∈ form.

(** The request for a token carries the credentials. *)
Definition presents (q : Request) : Prop :=
  (username creds <> "" /\ req_Authorization q = Some (Basic (username creds) (password creds)))
  \/ (identityToken creds <> "" /\ exists form, req_Form q = Some form /\ ("refresh_token", identityToken creds) ∈ form).

(** What makes a request to the registry one of these credentials: their own token, one that
    was issued when they were presented, or the name and password that were asked for. *)
Definition authorized (h : list event) (a : Authorization) : Prop :=
  match a with
  | Bearer k =>
      k <> "" /\ (k = token creds
                  \/ exists q o response, exchange h q /\ presents q
                       /\ replied env h o (Fetch roots q) response /\ granted response = inr k)
  | Basic u p =>
      u = username creds /\ p = password creds /\ u <> "" /\ p <> "" /\ exists challenge, asked h "basic" challenge
  end.
(** A request without authorization has no secret. *)
Definition harmless (h : list event) (a : option Authorization) : Prop := forall b, a = Some b -> authorized h b.

Inductive permitted (h : list event) : Request -> Prop :=
| permitted_upload a : harmless h a -> permitted h (with_authorization a upload)
| permitted_exchange q : exchange h q -> permitted h q
| permitted_cancel a o response u q :
    harmless h a -> replied env h o (Fetch roots (with_authorization a upload)) response -> StatusCode response = 202 ->
    Scheme u = "https" -> Host u = Host (req_URL upload) ->
    NewRequest "DELETE" (url_String u) None = Some q -> permitted h (with_authorization a q).

Definition ok (h : list event) (e : event) : Prop :=
  match e with Ev _ (Seed (Fetch roots' q)) => roots' = roots /\ permitted h q | _ => False end.

(** There is something to present: a token, an identity token, or a name and a password. *)
Definition identified (c : registryCredentials) : Prop :=
  token c <> "" \/ identityToken c <> "" \/ (username c <> "" /\ password c <> "").

(** *** What is known is not forgotten *)

Lemma asked_app h l scheme challenge : asked h scheme challenge -> asked (h ++ l)%list scheme challenge.
Proof using. intros (o & r & Hr & ?). exists o, r. split; [by apply reply_app|done]. Qed.
Lemma exchange_app h l q : exchange h q -> exchange (h ++ l)%list q.
Proof using. intros (c & u & query & Ha & ?). exists c, u, query. split; [by apply asked_app|done]. Qed.
Lemma authorized_app h l a : authorized h a -> authorized (h ++ l)%list a.
Proof using.
  destruct a as [k|u p]; [|intros (? & ? & ? & ? & c & ?); split_and!; [done..|]; exists c; by apply asked_app].
  intros [Hk [E|(q & o & r & Hq & Hp & Hr & Hg)]]; (split; [done|]); [by left|].
  right. exists q, o, r. split_and!; [by apply exchange_app|done|by apply reply_app|done].
Qed.
Lemma harmless_app h l a : harmless h a -> harmless (h ++ l)%list a.
Proof using. intros Ha b E. by apply authorized_app, Ha. Qed.

(** *** A walk along the trace *)

Definition along (t0 : task) (F : list event -> Prop) (t : task) : Prop := traced ok t0 t /\ F (log t).

Lemma fetch_along t0 (F : list event -> Prop) q :
  (forall h l, F h -> F (h ++ l)%list) -> (forall h, F h -> permitted h q) ->
  leads (along t0 F) (ask env (Fetch roots q))
    (fun r => along t0 (fun h => F h /\ exists o, replied env h o (Fetch roots q) r)) (along t0 F).
Proof using.
  intros Happ Hq t [Ht HF]. unfold wp, ask, trigger.
  assert (along t0 F (with_event (Ev (object t) (Seed (Fetch roots q))) t)) as [Ht' HF'].
  { split; [|by apply Happ]. etransitivity; [exact Ht|]. apply traced_event. split; [done|auto]. }
  destruct (api env (Seed (Fetch roots q)) (log t)) as [e|r] eqn:E; simpl; [done|].
  split; [exact Ht'|]. split; [exact HF'|]. exists (object t). by exists (log t), [].
Qed.
Lemma wrapped_leads {A} prefix (P : task -> Prop) (m : prog A) Q X :
  leads P m Q X -> leads P (wrapped prefix m) Q X.
Proof using.
  intros Hm. unfold wrapped. eapply leads_bind; [by apply leads_try|].
  intros [e|a]; [by apply leads_raise|by apply leads_ret].
Qed.
Lemma along_mono t0 (F G : list event -> Prop) t : (forall h, F h -> G h) -> along t0 F t -> along t0 G t.
Proof using. intros HFG [? ?]. split; auto. Qed.

Lemma replies_app {A} (c : seed_call A) r h l : (exists o, replied env h o c r) -> exists o, replied env (h ++ l)%list o c r.
Proof using. intros [o ?]. exists o. by apply reply_app. Qed.

(** *** The token *)

Lemma token_request_exchange h challenge u service scope q :
  asked h "bearer" challenge -> url_Parse (entry "realm" challenge) = Some u -> realm_ok u = true ->
  token_request u service scope creds = Some q -> exchange h q.
Proof using.
  unfold realm_ok, token_request. intros Ha Hu Hok Hq. bools. exists challenge, u.
  destruct (decide (identityToken creds = "")) as [E|E].
  - destruct (NewRequest "GET" _ _) as [r|] eqn:Er; [|done]. simpl in Hq. injection Hq as <-.
    destruct (NewRequest_plain _ _ _ _ Er) as (E1 & E2 & E3).
    eexists. do 4 (split; [done|]). split.
    + destruct (decide (username creds = "")); cbn [req_Method req_Form with_authorization]; rewrite E1, E2, Er;
        f_equal; by rewrite <- E3 at 1.
    + destruct (decide (username creds = "")); cbn [req_Form req_Authorization with_authorization];
        (split; [done|]); [left; by rewrite <- E3|by right].
  - exists (RawQuery u).
    assert (with_url_query (RawQuery u) u = u) as -> by by destruct u.
    destruct (NewRequest_plain _ _ _ _ Hq) as (E1 & E2 & E3). do 4 (split; [done|]).
    split; [by rewrite E1, E2, E3|]. split; [done|]. rewrite <- E3. split; [done|]. rewrite E3, E2. eexists.
    split; [done|]. set_solver.
Qed.

Context (Hcreds : identified creds).

Lemma token_request_presents u service scope q :
  token creds = "" -> token_request u service scope creds = Some q -> presents q.
Proof using Hcreds.
  unfold token_request. intros Et. case_decide as E; intros Hq.
  - destruct Hcreds as [?|[?|[Hu _]]]; [done..|]. left. split; [exact Hu|].
    destruct (NewRequest "GET" _ _); [|done]. simpl in Hq. case_decide; by simplify_eq.
  - right. split; [exact E|]. apply NewRequest_plain in Hq as (_ & -> & _). eexists. split; [done|]. set_solver.
Qed.

Lemma token_along t0 (challenge : gmap string string) scope :
  token creds = "" ->
  leads (along t0 (fun h => asked h "bearer" challenge)) (registryToken env roots challenge scope creds)
    (fun k => along t0 (fun h => authorized h (Bearer k))) (along t0 (fun _ => True)).
Proof using Hcreds.
  intros Et. unfold registryToken. destruct (url_Parse _) as [u|] eqn:Eu; [|apply leads_raise; by intros t []].
  destruct (realm_ok u) eqn:Eok; cbn [negb]; [|apply leads_raise; by intros t []].
  destruct (token_request _ _ _ _) as [q|] eqn:Eq; [|apply leads_raise; by intros t []].
  eapply leads_bind.
  { apply wrapped_leads. eapply leads_mono; [apply (fetch_along t0 (fun h => asked h "bearer" challenge) q)|done|by intros ? ? Hx; exact Hx|].
    - intros. by apply asked_app.
    - intros h Ha. apply permitted_exchange. by eapply token_request_exchange.
    - intros t. by apply along_mono. }
  intros r. destruct (_ || _); [apply leads_raise; by intros t []|].
  unfold or_fail. destruct (granted r) as [e|k] eqn:Eg; [apply leads_raise; by intros t []|].
  apply leads_ret. intros t. apply along_mono. intros h [Ha [o Hr]]. split.
  - revert Eg. unfold granted. destruct (DecodeToken _) as [[a b]|]; [|done]. cbv zeta. repeat case_decide; intros; by simplify_eq.
  - right. exists q, o, r. split_and!; [by eapply token_request_exchange|by eapply token_request_presents|done..].
Qed.

Lemma challenge_along t0 response :
  StatusCode response = 401 ->
  leads (along t0 (fun h => token creds = "" -> exists o, replied env h o (Fetch roots upload) response))
    (answer_challenge env roots registry repository creds response)
    (fun a => along t0 (fun h => authorized h a)) (along t0 (fun _ => True)).
Proof using Hcreds.
  intros E401. unfold answer_challenge. case_decide as Et; [apply leads_raise; by intros t []|].
  destruct (parseRegistryChallenge _) as [[scheme challenge]|] eqn:Ec; [|apply leads_raise; by intros t []].
  assert (forall t, along t0 (fun h => token creds = "" -> exists o, replied env h o (Fetch roots upload) response) t ->
    along t0 (fun h => asked h scheme challenge) t) as Ha.
  { intros t. apply along_mono. intros h Hr. destruct (Hr Et) as [o ?]. by exists o, response. }
  case_decide as Es; [|case_decide as Es'; [|apply leads_raise; by intros t []]].
  - subst scheme. eapply leads_bind.
    + apply wrapped_leads. eapply leads_mono; [by apply (token_along t0 challenge)|exact Ha|by intros ? ? Hx; exact Hx|done].
    + intros k. by apply leads_ret.
  - subst scheme. destruct (_ || _) eqn:Eb; [apply leads_raise; by intros t []|].
    apply orb_false_iff in Eb as [Eu%bool_decide_eq_false Ep%bool_decide_eq_false].
    apply leads_ret. intros t Ht. apply Ha in Ht. revert Ht. apply along_mono. intros h Hh. split_and!; [done..|]. by exists challenge.
Qed.

(** *** The session *)

Definition opened (q : Request) (response : Response) (h : list event) : Prop :=
  (exists a, q = with_authorization a upload /\ harmless h a) /\ exists o, replied env h o (Fetch roots q) response.

Lemma opened_app q r h l : opened q r h -> opened q r (h ++ l)%list.
Proof using. intros [(a & E & Ha) Hr]. split; [|by apply replies_app]. exists a. split; [done|by apply harmless_app]. Qed.

Context (Hupload : NewRequest "POST" (registryURL registry repository) None = Some upload).

Lemma upload_plain : with_authorization None upload = upload.
Proof using Hupload. by apply NewRequest_plain in Hupload as (_ & _ & ?). Qed.

Lemma fetch_upload t0 (F : list event -> Prop) a q :
  q = with_authorization a upload -> (forall h l, F h -> F (h ++ l)%list) -> (forall h, F h -> harmless h a) ->
  leads (along t0 F) (ask env (Fetch roots q)) (fun r => along t0 (opened q r)) (along t0 (fun _ => True)).
Proof using.
  intros -> Happ Ha. eapply leads_mono; [apply (fetch_along t0 F _ Happ)|done|..].
  - intros h Hh. apply permitted_upload. auto.
  - intros r t. apply along_mono. intros h [Hh Hr]. split; [|done]. exists a. auto.
  - intros t. by apply along_mono.
Qed.

Lemma open_along t0 :
  leads (along t0 (fun _ => True)) (open_session env roots registry repository creds upload)
    (fun x => along t0 (opened x.1 x.2)) (along t0 (fun _ => True)).
Proof using Hupload Hcreds.
  unfold open_session. cbv zeta.
  set (first := if decide (token creds = "") then upload else _).
  assert (exists a, first = with_authorization a upload /\ forall h, harmless h a) as (a & Ea & Ha).
  { unfold first. case_decide as Et; [exists None; split; [by rewrite upload_plain|done]|].
    exists (Some (Bearer (token creds))). split; [done|]. intros h b [= <-]. split; [done|by left]. }
  eapply leads_bind; [apply wrapped_leads, (fetch_upload t0 (fun _ => True) a first Ea); auto|].
  intros r. case_decide as E401.
  - eapply leads_bind.
    { eapply leads_mono; [apply (challenge_along t0 r E401)| |by intros ? ? Hx; exact Hx|done].
      intros t. apply along_mono. intros h [_ Hr] Et. unfold first in Hr. by rewrite decide_True in Hr. }
    intros b. eapply leads_bind.
    { apply wrapped_leads, (fetch_upload t0 (fun h => authorized h b) (Some b)); [done| |by intros h ? ? [= <-]].
      intros. by apply authorized_app. }
    intros r'. by apply leads_ret.
  - by apply leads_ret.
Qed.

Lemma cancel_along t0 q r :
  StatusCode r = 202 ->
  leads (along t0 (opened q r)) (cancel_session env roots q r) (fun _ => along t0 (opened q r)) (along t0 (fun _ => True)).
Proof using.
  intros E. unfold cancel_session. destruct (upload_session q r) as [c|] eqn:Ec; [|by apply leads_ret].
  eapply leads_bind.
  - eapply leads_mono; [apply leads_try, (fetch_along t0 (opened q r) c)|done|by intros ? ? Hx; exact Hx|].
    + intros. by apply opened_app.
    + intros h [(a & -> & Ha) [o Hr]]. revert Ec. unfold upload_session. case_decide; [done|].
      destruct (url_Parse _) as [l|]; [|done]. cbn. destruct (_ && _) eqn:Eb; [|done].
      destruct (NewRequest "DELETE" _ _) as [c'|] eqn:En; [|done]. simpl. intros [= <-]. bools.
      by eapply (permitted_cancel h a o r).
    + intros t. by apply along_mono.
  - intros [e|r']; apply leads_ret; [done|]. intros t. apply along_mono. by intros h [].
Qed.
End push.

(** The registry has let a session be opened by a request that these credentials authorize. *)
Definition push_proved `{SeedLibraries} `{SeedFormats} (env : Env) (roots registry repository : string)
    (creds : registryCredentials) (h : list event) : Prop :=
  exists upload b o response, NewRequest "POST" (registryURL registry repository) None = Some upload
    /\ authorized env roots creds upload h b
    /\ replied env h o (Fetch roots (with_authorization (Some b) upload)) response
    /\ (StatusCode response = 201 \/ StatusCode response = 202).

(** No registry opens a session for a request without authorization. *)
Definition pushes_need_authorization `{SeedLibraries} (env : Env) : Prop :=
  forall registry repository upload roots h response,
    NewRequest "POST" (registryURL registry repository) None = Some upload ->
    api env (Seed (Fetch roots upload)) h = inr response -> StatusCode response <> 201 /\ StatusCode response <> 202.

(** What is read from an entry can be presented. *)
Lemma credentials_identified `{SeedLibraries} `{SeedFormats} auth registry repository creds :
  credentialsForRepository auth registry repository = inr creds -> identified creds.
Proof.
  unfold credentialsForRepository. destruct (UnmarshalAuths auth) as [auths|]; [|done].
  destruct (matching_scopes _ _ _) as [|x l]; [done|]. unfold read_auth, identified.
  destruct (UnmarshalAuth _) as [a|]; [|done]. cbv zeta.
  repeat case_match; intros; simplify_eq/=; bools; auto.
Qed.

(** A session that was opened, by a registry that wants authorization. *)
Lemma opened_proves `{SeedLibraries} `{SeedFormats} env roots registry repository creds upload q r h :
  pushes_need_authorization env -> NewRequest "POST" (registryURL registry repository) None = Some upload ->
  opened env roots creds upload q r h -> StatusCode r = 201 \/ StatusCode r = 202 ->
  push_proved env roots registry repository creds h.
Proof.
  intros Hn Eu [([b|] & -> & Ha) [o Hr]] Hs; [exists upload, b, o, r; auto|].
  exfalso. rewrite (upload_plain registry repository upload Eu) in Hr. destruct Hr as (h1 & h2 & _ & Hr).
  destruct (Hn _ _ _ _ _ _ Eu Hr). lia.
Qed.

Lemma push_along `{SeedEncoding} `{SeedLibraries} `{SeedFormats} env image auth roots registry repository creds upload t0 :
  imageRepositoryFromPullSpec image = Some (registry, repository) ->
  credentialsForRepository auth registry repository = inr creds ->
  NewRequest "POST" (registryURL registry repository) None = Some upload ->
  leads (along env roots creds upload t0 (fun _ => True)) (validateRegistryPushAccessWithClient env image auth roots)
    (fun _ => along env roots creds upload t0 (fun h => pushes_need_authorization env ->
       push_proved env roots registry repository creds h))
    (along env roots creds upload t0 (fun _ => True)).
Proof.
  intros Ei Ec Eu. unfold validateRegistryPushAccessWithClient. rewrite Ei, Ec, Eu. unfold or_fail.
  apply (leads_bind _ _ _ (fun c t => c = creds /\ along env roots creds upload t0 (fun _ => True) t)); [by apply leads_ret|].
  intros c. apply leads_pre. intros ->. destruct (contains_any _ _); [by apply leads_raise|].
  eapply leads_bind; [apply open_along; [by eapply credentials_identified|done]|]. intros [q r]. case_decide as Es.
  { apply leads_raise. intros t. by apply along_mono. }
  assert (forall t, along env roots creds upload t0 (opened env roots creds upload q r) t ->
    along env roots creds upload t0 (fun h => pushes_need_authorization env ->
      push_proved env roots registry repository creds h) t) as Hp.
  { intros t. apply along_mono. intros h Hh Hn. eapply opened_proves; [done..|]. lia. }
  case_bool_decide as E; cbn [when]; [|by apply leads_ret].
  eapply leads_mono; [by apply cancel_along|done|by intros ? t; apply Hp|done].
Qed.

(** A registry that asks for a name and a password, and lets whoever sends these open a
    session, is asked twice and passes. *)
Definition asked_then_accepted `{SeedLibraries} (env : Env) (roots : string) (creds : registryCredentials)
    (upload : Request) (t : task) : Prop :=
  let second := with_authorization (Some (Basic (username creds) (password creds))) upload in
  let t' := with_event (Ev (object t) (Seed (Fetch roots upload))) t in
  exists r r' parameters, api env (Seed (Fetch roots upload)) (log t) = inr r /\ StatusCode r = 401
    /\ parseRegistryChallenge (WWWAuthenticate r) = Some ("basic"%string, parameters)
    /\ api env (Seed (Fetch roots second)) (log t') = inr r' /\ StatusCode r' = 201.

Lemma name_and_password_sent `{SeedEncoding} `{SeedLibraries} `{SeedFormats} env image auth roots registry repository creds
    upload t :
  imageRepositoryFromPullSpec image = Some (registry, repository) -> contains_any "/?#@" registry = false ->
  credentialsForRepository auth registry repository = inr creds -> username creds <> ""%string ->
  NewRequest "POST" (registryURL registry repository) None = Some upload -> asked_then_accepted env roots creds upload t ->
  let second := with_authorization (Some (Basic (username creds) (password creds))) upload in
  validateRegistryPushAccessWithClient env image auth roots t
  = (with_event (Ev (object t) (Seed (Fetch roots second))) (with_event (Ev (object t) (Seed (Fetch roots upload))) t), Ret tt).
Proof.
  intros Ei Eh Ec Hu Eu (r & r' & ps & E1 & S1 & Ep & E2 & S2) second.
  assert (token creds = ""%string /\ password creds <> ""%string) as [Et Hp].
  { revert Ec. unfold credentialsForRepository. destruct (UnmarshalAuths auth) as [auths|]; [|done].
    destruct (matching_scopes _ _ _) as [|x l]; [done|]. unfold read_auth.
    destruct (UnmarshalAuth _) as [a|]; [|done]. cbv zeta. repeat case_match; intros; simplify_eq/=; bools; auto. }
  unfold validateRegistryPushAccessWithClient. rewrite Ei, Ec, Eu, Eh.
  unfold or_fail, open_session, answer_challenge, wrapped, try, ask, trigger, mbind, handler_bind, mret, handler_ret.
  rewrite (decide_True (P := token creds = ""%string)) by done. cbn [fst snd]. rewrite E1.
  rewrite (decide_True (P := StatusCode r = 401)) by done.
  rewrite (decide_False (P := token creds <> ""%string)) by (by intros []). rewrite Ep.
  rewrite (decide_False (P := "basic"%string = "bearer"%string)), (decide_True (P := "basic"%string = "basic"%string)) by done.
  rewrite !bool_decide_eq_false_2 by done. cbn [orb]. fold second in E2.
  cbn [fst snd raise object with_event] in *.
  match goal with |- context [api env (Seed (Fetch roots ?q)) ?l] =>
    replace (api env (Seed (Fetch roots q)) l) with (@inr error _ r') by (symmetry; exact E2) end.
  rewrite decide_False by lia. rewrite bool_decide_eq_false_2 by lia. done.
Qed.

(** ** What is frozen was proved *)

Section frozen.
Context `{SeedEncoding} `{SeedLibraries} `{SeedFormats} (env : Env) (Hwants : pushes_need_authorization env).

(** These credentials are for the seed image, and its registry has let a session be opened. *)
Definition registry_proved (config : object_map) (auth : string) (h : list event) : Prop :=
  exists image registry repository creds roots, seedGenerationString config "seedImage" = inr image
    /\ imageRepositoryFromPullSpec image = Some (registry, repository)
    /\ credentialsForRepository auth registry repository = inr creds
    /\ push_proved env roots registry repository creds h.

(** With these credentials the server of the ISO has run the probe over SSH. *)
Definition upload_proved (upload : gmap string string) (h : list event) : Prop :=
  exists secret o command output, upload = upload_data secret
    /\ replied env h o (RunSSHCommand (entry "host" (Data secret)) (Data secret) command) output.

Lemma push_proved_app roots registry repository creds h l :
  push_proved env roots registry repository creds h -> push_proved env roots registry repository creds (h ++ l).
Proof using. intros (u & b & o & r & ? & Ha & Hr & ?). exists u, b, o, r. split_and!; [done|by apply authorized_app|by apply reply_app|done]. Qed.
Lemma registry_proved_stays config auth t t' :
  registry_proved config auth (log t) -> uncompleting t t' -> registry_proved config auth (log t').
Proof using.
  intros (i & r & p & c & roots & Hi & Hr & Hc & Hp) [_ (l & ->)]. exists i, r, p, c, roots.
  split_and!; [done..|by apply push_proved_app].
Qed.
Lemma upload_proved_stays upload t t' : upload_proved upload (log t) -> uncompleting t t' -> upload_proved upload (log t').
Proof using. intros (s & o & c & out & ? & ?) [_ (l & ->)]. exists s, o, c, out. split; [done|by apply reply_app]. Qed.

#[local] Instance growing_frame : QuietFrame env uncompleting := uncompleting_frame env.

(** A part that is quiet keeps what is proved. *)
Lemma keeps {A B} (P : task -> Prop) (m : prog A) (k : A -> prog B) Q :
  (forall t t', P t -> uncompleting t t' -> P t') -> preserves uncompleting m ->
  (forall a, leads P (k a) Q (fun _ => True)) -> leads P (m ≫= k) Q (fun _ => True).
Proof using. intros HP Hm Hk. eapply leads_bind; [by eapply leads_keep|done]. Qed.

Lemma registry_credentials_proved ct config :
  leads (fun _ => True) (resolveSeedGenerationRegistryCredentials env ct config)
    (fun auth t => registry_proved config auth (log t)) (fun _ => True).
Proof using All.
  unfold resolveSeedGenerationRegistryCredentials, or_fail.
  destruct (seedGenerationString config "seedImage") as [e|image] eqn:Ei; [by apply leads_raise|].
  apply (leads_bind _ _ _ (fun i _ => i = image)); [by apply leads_ret|]. intros i. apply (leads_when (fun t => i = image /\ True)); [done|].
  apply leads_pre. intros ->.
  destruct (imageRepositoryFromPullSpec image) as [[registry repository]|] eqn:Er; [|by apply leads_raise].
  apply keeps; [done|frame_walk|]. intros name. apply keeps; [done|frame_walk|]. intros source.
  case_decide; [by apply leads_raise|]. destruct (validateDockerAuthForImage _ _) eqn:Ev; [by apply leads_raise|].
  apply keeps; [done|frame_walk|]. intros cas.
  destruct (credentialsForRepository (entry "seedAuth" (Data source)) registry repository) as [e|creds] eqn:Ec.
  { unfold validateDockerAuthForImage in Ev. by rewrite Er, Ec in Ev. }
  apply (leads_bind _ _ _ (fun _ t => push_proved env (entry registry cas) registry repository creds (log t))).
  - apply wrapped_leads. unfold validateRegistryPushAccessWithCA. apply keeps; [done|frame_walk|]. intros _.
    destruct (NewRequest "POST" (registryURL registry repository) None) as [upload|] eqn:Eu.
    + intros t Ht. eapply wp_mono; [apply (push_along env image (entry "seedAuth" (Data source)) (entry registry cas)
        registry repository creds upload t Er Ec Eu t)|].
      * split; [reflexivity|done].
      * intros t' [a| | |]; [|done..]. intros [_ Hp]. by apply Hp.
    + unfold validateRegistryPushAccessWithClient. rewrite Er, Ec, Eu. unfold or_fail.
      apply keeps; [done|frame_walk|]. intros c. destruct (contains_any _ _); by apply leads_raise.
  - intros _. apply leads_ret. intros t Hp. exists image, registry, repository, creds, (entry registry cas). done.
Qed.

Lemma answered {A} (c : seed_call A) (P : task -> Prop) :
  leads P (ask env c) (fun a t => exists o, replied env (log t) o c a) (fun _ => True).
Proof using All.
  intros t _. unfold wp, ask, trigger. destruct (api env (Seed c) (log t)) as [e|a] eqn:E; simpl; [done|].
  exists (object t), (log t), []. done.
Qed.

Lemma upload_inputs_proved (P : task -> Prop) liveISO upload :
  leads P (validateSeedGenerationISOUploadInputs env liveISO upload)
    (fun _ t => upload_proved (upload_data upload) (log t)) (fun _ => True).
Proof using All.
  apply (leads_when (fun _ => True)); [done|].
  unfold validateSeedGenerationISOUploadInputs, validateSeedGenerationSSHUploadAccess.
  destruct (list_find _ _) as [[i key]|]; [by apply leads_raise|].
  do 5 (apply keeps; [done|frame_walk|intros ?]). destruct (negb _); [by apply leads_raise|].
  apply keeps; [done|frame_walk|]. intros uuid. eapply leads_bind; [apply wrapped_leads, answered|].
  intros out. apply leads_ret. intros t [o Ho]. by eexists upload, o, _, out.
Qed.

(** The document keeps its configuration, but for the live ISO. *)
Definition same_config (d d' : InputDocument) : Prop :=
  exists config liveISO, SeedConfig d = Some config /\ SeedConfig d' = Some (set_key "liveISO" (VMap liveISO) config).

Lemma install_inputs_config (P : task -> Prop) liveISO document :
  (forall t t', P t -> uncompleting t t' -> P t') ->
  leads P (resolveISOInstallInputs env liveISO document) (fun r t => same_config document r.2 /\ P t) (fun _ => True).
Proof using All.
  intros HP. unfold resolveISOInstallInputs.
  destruct (SeedConfig document) as [config|] eqn:Ec; [|by apply leads_raise].
  destruct (document_liveISO document) as [frozen|]; [|by apply leads_raise]. cbv zeta.
  apply keeps; [done| |intros frozen'].
  { unfold getExistingClusterInstance, DoesK8SResourceExist, derive_release_image, derive_installation_disk. frame_walk. }
  apply keeps; [done|frame_walk|]. intros image. apply leads_ret. intros t Ht. split; [|done]. by exists config, frozen'.
Qed.

Lemma ISO_inputs_proved (P : task -> Prop) ct liveISO document auth creds :
  (forall t t', P t -> uncompleting t t' -> P t') ->
  leads P (resolveISOInputs env ct liveISO document auth creds)
    (fun r t => P t /\ same_config document r.1
       /\ (exists upload pull, r.2 = <["pullSecret"%string := pull]> (<["upload"%string := upload]> creds)
                               /\ upload_proved upload (log t))) (fun _ => True).
Proof using All.
  intros HP. unfold resolveISOInputs. eapply leads_bind; [by apply install_inputs_config|].
  intros [image d]. apply leads_pre. cbn [snd]. intros Hd.
  destruct (imageRepositoryFromPullSpec image); [|by apply leads_raise].
  apply keeps; [done|frame_walk|]. intros [[resolved sources] cas].
  apply keeps; [done|frame_walk|]. intros name. apply keeps; [done|frame_walk|]. intros upload.
  apply (leads_bind _ _ _ (fun _ t => P t /\ upload_proved (upload_data upload) (log t))).
  { apply wrapped_leads. intros t Ht. apply wp_mono with (P := fun t' r => uncompleting t t'
      /\ match r with Ret a => upload_proved (upload_data upload) (log t') | _ => True end).
    - apply wp_and; [by apply (wp_preserves (R := uncompleting)), (upload_inputs_frame env)|].
      by apply (upload_inputs_proved (fun _ => True)).
    - intros t' [a| | |] [Hu Hp]; try done. split; [by eapply HP|done]. }
  intros _.
  assert (forall t t', P t /\ upload_proved (upload_data upload) (log t) -> uncompleting t t' ->
    P t' /\ upload_proved (upload_data upload) (log t')) as HP'.
  { intros t t' [Ht Hu] Htt. split; [by eapply HP|by eapply upload_proved_stays]. }
  do 2 (apply keeps; [done|frame_walk|intros ?]).
  apply leads_ret. intros t [Ht Hu]. split_and!; [done| |by eexists _, _].
  destruct Hd as (config & l & E & E'). exists config, l. done.
Qed.

Lemma same_config_image d d' auth h :
  same_config d d' -> registry_proved (default [] (SeedConfig d)) auth h ->
  registry_proved (default [] (SeedConfig d')) auth h.
Proof using All.
  intros (config & liveISO & -> & ->) (i & r & p & c & roots & Hi & Hr). exists i, r, p, c, roots. split; [|done].
  rewrite <- Hi. unfold seedGenerationString, string_field. cbn. by rewrite lookup_set_key_ne.
Qed.

(** The credentials of a set of inputs. *)
Definition inputs_proved (document : InputDocument) (creds : credentials) (h : list event) : Prop :=
  exists auth, creds !! "seedAuth"%string = Some {["seedAuth"%string := auth]}
    /\ registry_proved (default [] (SeedConfig document)) auth h
    /\ forall upload, creds !! "upload"%string = Some upload -> upload_proved upload h.

Lemma resolve_proved ct :
  leads (fun _ => True) (resolveSeedGenerationInputSnapshot env ct) (fun r t => inputs_proved r.1 r.2 (log t)) (fun _ => True).
Proof using All.
  unfold resolveSeedGenerationInputSnapshot. apply keeps; [done|frame_walk|]. intros merged.
  destruct (map_field _ merged) as [config|]; [|by apply leads_raise]. cbv zeta.
  set (document := seedGenerationSnapshotInputDocument ct config).
  apply keeps; [done|frame_walk|]. intros kubeconfig.
  eapply leads_bind; [apply registry_credentials_proved|]. intros auth.
  pose proof (registry_proved_stays config auth) as HP.
  destruct (assoc_lookup "liveISO" config) as [[| |liveISO|]|]; try by apply leads_raise.
  - eapply leads_bind; [by apply (ISO_inputs_proved (fun t => registry_proved config auth (log t)))|].
    intros [d creds]. cbn [fst snd].
    match goal with |- leads ?P _ _ _ => assert (forall t t', P t -> uncompleting t t' -> P t') as HP' end.
    { intros t t' (Hr & Hd & u & p & E & Hu) Htt. split_and!; [by eapply HP|done|]. exists u, p. split; [done|by eapply upload_proved_stays]. }
    apply keeps; [done|frame_walk|]. intros tools. case_decide; [by apply leads_raise|].
    apply keeps; [done|frame_walk|]. intros iso. apply leads_ret. intros t (Hr & Hd & u & p & -> & Hu). exists auth. cbn [fst snd].
    split_and!.
    + by rewrite !lookup_insert_ne.
    + apply (same_config_image document); [|done]. destruct Hd as (c & l & E & E'). by exists c, l.
    + intros upload. rewrite lookup_insert_ne, lookup_insert_ne, lookup_insert by done. by intros [= <-].
  - apply leads_ret. intros t Hr. exists auth. by split_and!.
Qed.
End frozen.

