(* ===== verification/UpgradePause.v ===== *)
(** * Worker pools are held back while the control plane is upgraded (theory of Upgrade) *)
From stdpp Require Import sorting.
From S2P Require Import Prelude Conditions GoText MergeMaps Unstructured Handler ProvisioningStatus UpgradePlan UpgradeGraph ProvisioningTask UpgradeConfig UpgradeRollout UpgradeQuiet UpgradeRolloutFacts ProvisioningPolicy NodeConfiguration ProvisioningHardware ProvisioningValidation ProvisioningCluster ProvisioningRequest Upgrade.
#[local] Open Scope string_scope.
#[local] Open Scope Z_scope.

(** ** What the theorem speaks of *)

(** A call that asks the cluster for another version. *)
Definition triggers (e : event) : Prop :=
  match ev_call e with
  | PatchClusterVersion base cv => DesiredUpdate (cv_Spec cv) <> DesiredUpdate (cv_Spec base)
  | _ => False
  end.

(** After the calls [l], with the request [o]: OpenShift rolls out itself, or the
    controller owns the pause state, and every worker pool that the cluster listed and
    that does not upgrade with the control plane was paused, or was paused since, and was
    not released since. *)
Definition held_back (env : Env) (l : list event) (o : ProvisioningRequest) : Prop :=
  exists w, workers_of o = Some w /\
    (Strategy w = OpenShiftDefault \/
     PauseStateManaged w = true /\
     exists l1 o1 l2 mcps, l = (l1 ++ Ev o1 ListMCPs :: l2)%list /\ listed env l1 = Some mcps /\
       forall p, p ∈ mcps -> mcp_Name p ∉ PoolsWithControlPlane w ->
         (Paused p = true \/ exists o2, Ev o2 (PatchMCP (mcp_Name p) true) ∈ l2) /\
         forall o2, Ev o2 (PatchMCP (mcp_Name p) false) ∉ l2).

(** ** The order of the calls *)

Section order.
Context (env : Env) (l0 : list event).

(** Every trigger after [l0] came with the pools held back. *)
Definition well_timed (l : list event) : Prop :=
  forall l1 e l2, l = (l1 ++ e :: l2)%list -> (length l0 <= length l1)%nat -> triggers e ->
    held_back env l1 (ev_object e).

Lemma well_timed_start : well_timed l0.
Proof using. intros l1 e l2 -> Hlen. rewrite length_app in Hlen. simpl in Hlen. lia. Qed.

Lemma well_timed_snoc l e :
  well_timed l -> (triggers e -> held_back env l (ev_object e)) -> well_timed (l ++ [e])%list.
Proof using.
  intros Hl He l1 x l2 E. destruct (decide (l2 = [])) as [->|Hn].
  - apply app_inj_tail in E as [<- <-]. auto.
  - destruct (exists_last Hn) as (l3 & y & ->). rewrite app_comm_cons, app_assoc in E.
    apply app_inj_tail in E as [E _]. by apply (Hl l1 x l3).
Qed.

Lemma well_timed_app l es : well_timed l -> Forall (fun e => ~ triggers e) es -> well_timed (l ++ es)%list.
Proof using.
  intros Hl Hes. revert l Hl. induction Hes as [|e es He _ IH]; intros l Hl; [by rewrite app_nil_r|].
  rewrite cons_middle, app_assoc. by apply IH, well_timed_snoc.
Qed.
End order.

(** ** Parts that trigger nothing *)

Definition calm (t t' : task) : Prop :=
  exists es, log t' = (log t ++ es)%list /\ Forall (fun e => ~ triggers e) es.

#[export] Instance calm_preorder : PreOrder calm.
Proof.
  split.
  - intros t. exists []. by rewrite app_nil_r.
  - intros t1 t2 t3 (es & He & Hes) (fs & Hf & Hfs). exists (es ++ fs)%list.
    split; [by rewrite Hf, He, app_assoc|by apply Forall_app_2].
Qed.

Lemma calm_modify (f : task -> task) : (forall t, log (f t) = log t) -> preserves calm (modify f : prog unit).
Proof. intros Hf t. exists []. simpl. by rewrite app_nil_r. Qed.
Lemma calm_now env : preserves calm (now env).
Proof. intros t. reflexivity. Qed.
Lemma calm_get_object : preserves calm get_object.
Proof. intros t. reflexivity. Qed.
Lemma calm_trigger env {A} (c : call A) : (forall o, ~ triggers (Ev o c)) -> preserves calm (trigger env c).
Proof.
  intros Hc t. unfold trigger.
  destruct (api env c (log t)); (exists [Ev (object t) c]; split; [done|]); by repeat constructor.
Qed.
Lemma calm_keeps env l0 t t' : calm t t' -> well_timed env l0 (log t) -> well_timed env l0 (log t').
Proof. intros (es & -> & Hes) Ht. by apply well_timed_app. Qed.

Create HintDb calm.
#[export] Hint Resolve calm_now calm_get_object : calm.

Ltac calm_step :=
  cbv beta iota zeta;
  lazymatch goal with
  | |- preserves _ (mret _) => apply preserves_ret
  | |- preserves _ (raise _) => apply preserves_raise
  | |- preserves _ panic => apply preserves_panic
  | |- preserves _ get_state => apply preserves_get
  | |- preserves _ (_ ≫= _) => apply preserves_bind; [|intros ?]
  | |- preserves _ (try _) => apply preserves_try
  | |- preserves _ (when _ _) => apply preserves_when
  | |- preserves _ (trigger _ (PatchClusterVersion _ _)) => fail
  | |- preserves _ (trigger _ _) => apply calm_trigger; intros ? []
  | |- preserves _ (modify _) => apply calm_modify; by intros ?
  | |- preserves _ (match ?x with _ => _ end) => destruct x
  end.
Ltac calm_walk :=
  repeat first [ solve [eauto with calm nocore] | calm_step
               | match goal with |- preserves _ ?m => let h := head m in unfold h end ].

Section calm.
Context `{Semver} `{Urls} (env : Env).

Lemma UpdateK8sCRStatus_calm : preserves calm (UpdateK8sCRStatus env).
Proof using. unfold UpdateK8sCRStatus. calm_walk. Qed.
#[local] Hint Resolve UpdateK8sCRStatus_calm : calm.
Lemma updateUpgradeStatus_calm reason message : preserves calm (updateUpgradeStatus env reason message).
Proof using. unfold updateUpgradeStatus. calm_walk. Qed.
#[local] Hint Resolve updateUpgradeStatus_calm : calm.

Lemma UnpauseMCPs_calm mcps : preserves calm (UnpauseMCPs env mcps).
Proof using. induction mcps as [|p mcps IH]; cbn [UnpauseMCPs]; calm_walk. Qed.
Lemma PauseMCPs_calm mcps : preserves calm (PauseMCPs env mcps).
Proof using. induction mcps as [|p mcps IH]; cbn [PauseMCPs]; calm_walk. Qed.
#[local] Hint Resolve UnpauseMCPs_calm PauseMCPs_calm : calm.
Lemma run_wave_calm strategy phase completed wave : preserves calm (run_wave env strategy phase completed wave).
Proof using. unfold run_wave. calm_walk. Qed.
#[local] Hint Resolve run_wave_calm : calm.
Lemma run_waves_calm strategy completed waves : preserves calm (run_waves env strategy completed waves).
Proof using. revert completed. induction waves as [|w waves IH]; intros completed; cbn [run_waves]; calm_walk. Qed.
Lemma run_stages_calm mcps n i completed : preserves calm (run_stages env mcps n i completed).
Proof using. revert i completed. induction n as [|n IH]; intros i completed; cbn [run_stages]; calm_walk. Qed.
#[local] Hint Resolve run_waves_calm run_stages_calm : calm.
Lemma reconcileWorkerPoolRollout_calm ct : preserves calm (reconcileWorkerPoolRollout env ct).
Proof using. unfold reconcileWorkerPoolRollout. calm_walk. Qed.
#[local] Hint Resolve reconcileWorkerPoolRollout_calm : calm.

Lemma handleTerminalCVPreStartFailure_calm action message :
  preserves calm (handleTerminalCVPreStartFailure env action message).
Proof using. unfold handleTerminalCVPreStartFailure. calm_walk. Qed.
Lemma prepareCVSpec_calm ct cv action : preserves calm (prepareCVSpec env ct cv action).
Proof using. unfold prepareCVSpec. calm_walk. Qed.
#[local] Hint Resolve handleTerminalCVPreStartFailure_calm prepareCVSpec_calm : calm.

(** The patch of the channel leaves the version. *)
Lemma PatchCVChannelUpstream_calm cv cvSpec : preserves calm (PatchCVChannelUpstream env cv cvSpec).
Proof using.
  unfold PatchCVChannelUpstream. cbv zeta. case_match; [apply preserves_ret|].
  apply preserves_bind; [|intros ?; apply preserves_ret]. unfold wrapped.
  apply preserves_bind; [apply preserves_try, calm_trigger; intros o Ht; by apply Ht|].
  intros []; [apply preserves_raise|apply preserves_ret].
Qed.
#[local] Hint Resolve PatchCVChannelUpstream_calm : calm.
Lemma checkCVGraphPreconditions_calm cv cvSpec action :
  preserves calm (checkCVGraphPreconditions env cv cvSpec action).
Proof using. unfold checkCVGraphPreconditions. calm_walk. Qed.
Lemma validateMCPsPreconditions_calm action triggered :
  preserves calm (validateMCPsPreconditions env action triggered).
Proof using. unfold validateMCPsPreconditions. calm_walk. Qed.
Lemma prepareWorkerMCPsForUpgrade_calm action : preserves calm (prepareWorkerMCPsForUpgrade env action).
Proof using. unfold prepareWorkerMCPsForUpgrade. calm_walk. Qed.
Lemma monitorPostTriggerConditions_calm cv action : preserves calm (monitorPostTriggerConditions env cv action).
Proof using. unfold monitorPostTriggerConditions. calm_walk. Qed.
Lemma not_upgradeable_calm cv action d : preserves calm (not_upgradeable cv action d).
Proof using. unfold not_upgradeable. calm_walk. Qed.
Lemma handleCVUpgradeInProgress_calm cv action : preserves calm (handleCVUpgradeInProgress env cv action).
Proof using. unfold handleCVUpgradeInProgress. calm_walk. Qed.
Lemma handleCVUpgradeCompleted_calm cv ct name action : preserves calm (handleCVUpgradeCompleted env cv ct name action).
Proof using. unfold handleCVUpgradeCompleted. calm_walk. Qed.
Lemma initUpgradeStatus_calm name : preserves calm (initUpgradeStatus env name).
Proof using. unfold initUpgradeStatus. calm_walk. Qed.
Lemma isCVUpgradeTimedOut_calm name cv : preserves calm (isCVUpgradeTimedOut env name cv).
Proof using. unfold isCVUpgradeTimedOut. calm_walk. Qed.
End calm.
#[export] Hint Resolve updateUpgradeStatus_calm UnpauseMCPs_calm PauseMCPs_calm UpdateK8sCRStatus_calm
  handleTerminalCVPreStartFailure_calm prepareCVSpec_calm checkCVGraphPreconditions_calm
  validateMCPsPreconditions_calm prepareWorkerMCPsForUpgrade_calm monitorPostTriggerConditions_calm
  not_upgradeable_calm handleCVUpgradeInProgress_calm handleCVUpgradeCompleted_calm initUpgradeStatus_calm
  isCVUpgradeTimedOut_calm : calm.

(** ** The pools are paused *)

Lemma elem_of_ExcludeMCPsByNames mcps names p :
  p ∈ ExcludeMCPsByNames mcps names <-> p ∈ mcps /\ mcp_Name p ∉ names.
Proof.
  unfold ExcludeMCPsByNames. rewrite (merge_sort_Permutation pool_le), list_elem_of_filter. tauto.
Qed.

Section pause.
Context (env : Env).

(** Pausing or releasing pools leaves the request alone. *)
Definition patched_only (l : list MachineConfigPool) (paused : bool) (t t' : task) (es : list event) : Prop :=
  object t' = object t /\ log t' = (log t ++ es)%list /\
  Forall (fun e => exists p, p ∈ l /\ e = Ev (object t) (PatchMCP (mcp_Name p) paused)) es.

Lemma patched_only_nil l b t : patched_only l b t t [].
Proof using. split_and!; [done|by rewrite app_nil_r|constructor]. Qed.
Lemma patched_only_weaken p l b t t' es : patched_only l b t t' es -> patched_only (p :: l) b t t' es.
Proof using.
  intros (Ho & Hl & Hes). split_and!; [done..|]. eapply Forall_impl; [exact Hes|].
  intros e (q & Hq & ->). exists q. split; [by right|done].
Qed.
Lemma patched_only_cons p l b t t' es :
  patched_only l b (with_event (Ev (object t) (PatchMCP (mcp_Name p) b)) t) t' es ->
  patched_only (p :: l) b t t' (Ev (object t) (PatchMCP (mcp_Name p) b) :: es).
Proof using.
  intros (Ho & Hl & Hes). split_and!; [done|by rewrite Hl, cons_middle, app_assoc|].
  constructor; [exists p; split; [left|done]|]. eapply Forall_impl; [exact Hes|].
  intros e (q & Hq & ->). exists q. split; [by right|done].
Qed.

Lemma PauseMCPs_wp l : forall t, wp (PauseMCPs env l) (fun t' r => exists es, patched_only l true t t' es /\
  (r = Ret tt -> forall p, p ∈ l -> Paused p = true \/ Ev (object t) (PatchMCP (mcp_Name p) true) ∈ es)) t.
Proof using.
  induction l as [|p l IH]; intros t; cbn [PauseMCPs].
  { apply wp_ret. exists []. split; [apply patched_only_nil|]. by intros _ p ?%not_elem_of_nil. }
  destruct (Paused p) eqn:Hp.
  { eapply wp_mono; [apply IH|]. intros t' r (es & Hes & Hr). exists es. split; [by apply patched_only_weaken|].
    intros Hret q [->|Hq]%elem_of_cons; [by left|auto]. }
  apply wp_bind. unfold wp at 1. rewrite wrapped_trigger_eq.
  destruct (api env _ (log t)); cbn [fst snd through].
  { exists [Ev (object t) (PatchMCP (mcp_Name p) true)]. split; [|done]. apply patched_only_cons, patched_only_nil. }
  eapply wp_mono; [apply IH|]. intros t' r (es & Hes & Hr). eexists. split; [by apply patched_only_cons|].
  intros Hret q [->|Hq]%elem_of_cons; [right; left|]. destruct (Hr Hret q Hq); [by left|right; by right].
Qed.

Lemma UnpauseMCPs_wp l : forall t, wp (UnpauseMCPs env l) (fun t' r => exists es, patched_only l false t t' es) t.
Proof using.
  induction l as [|p l IH]; intros t; cbn [UnpauseMCPs].
  { apply wp_ret. exists []. apply patched_only_nil. }
  destruct (Paused p) eqn:Hp; cbn [negb].
  2: { eapply wp_mono; [apply IH|]. intros t' r (es & Hes). exists es. by apply patched_only_weaken. }
  apply wp_bind. unfold wp at 1. rewrite wrapped_trigger_eq.
  destruct (api env _ (log t)); cbn [fst snd through].
  { exists [Ev (object t) (PatchMCP (mcp_Name p) false)]. apply patched_only_cons, patched_only_nil. }
  apply wp_bind. eapply wp_mono; [apply IH|]. intros t' r (es & Hes).
  assert (exists es, patched_only (p :: l) false t t' es) as Hd by (eexists; by apply patched_only_cons).
  by destruct r.
Qed.

(** The pools of the list are paused, those of the other released. *)
Lemma held_back_after t0 all w es fs t :
  api env ListMCPs (log t0) = inr all -> workers_of (object t) = Some w -> PauseStateManaged w = true ->
  let nonMaster := filter (fun p => is_worker p = true) all in
  (forall p, p ∈ nonMaster -> mcp_Name p ∉ PoolsWithControlPlane w ->
     Paused p = true \/ Ev (object t) (PatchMCP (mcp_Name p) true) ∈ es) ->
  Forall (fun e => exists n, e = Ev (object t) (PatchMCP n true)) es ->
  Forall (fun e => exists p, mcp_Name p ∈ PoolsWithControlPlane w /\ e = Ev (object t) (PatchMCP (mcp_Name p) false)) fs ->
  log t = (log t0 ++ Ev (object t0) ListMCPs :: es ++ fs)%list ->
  held_back env (log t) (object t).
Proof using.
  intros Hall Hw Hm nonMaster Hp Hes Hfs Hl. exists w. split; [done|right]. split; [done|].
  exists (log t0), (object t0), (es ++ fs)%list, nonMaster. split; [done|]. unfold listed. rewrite Hall. split; [done|].
  intros p Hin Hn. split.
  - destruct (Hp p Hin Hn) as [|Hev]; [by left|right]. eexists. apply elem_of_app. by left.
  - intros o2 [Hev|Hev]%elem_of_app; rewrite Forall_forall in *.
    + destruct (Hes _ Hev) as [n He]. inversion He.
    + destruct (Hfs _ Hev) as (q & Hq & He). inversion He. congruence.
Qed.

Definition kept (t t' : task) : Prop := object t' = object t.
#[local] Instance kept_preorder : PreOrder kept.
Proof using. split; [done|]. intros t1 t2 t3 H1 H2. by etransitivity. Qed.

Lemma wrapped_kept {A} prefix (m : prog A) : preserves kept m -> preserves kept (wrapped prefix m).
Proof using.
  intros Hm. apply preserves_bind; [by apply preserves_try|]. intros []; [apply preserves_raise|apply preserves_ret].
Qed.
Lemma trigger_kept {A} (c : call A) : preserves kept (trigger env c).
Proof using. intros t. unfold trigger. by destruct (api env c (log t)). Qed.
Lemma UnpauseMCPs_kept l : preserves kept (UnpauseMCPs env l).
Proof using. intros t. pose proof (UnpauseMCPs_wp l t) as (es & Ho & _). exact Ho. Qed.

Lemma unpauseNonMasterMCPs_kept : preserves kept (unpauseNonMasterMCPs env).
Proof using.
  unfold unpauseNonMasterMCPs, ListNonMasterMCPs, list_mcps. apply preserves_bind.
  - apply wrapped_kept, preserves_bind; [apply wrapped_kept, trigger_kept|intros ?; apply preserves_ret].
  - intros l. apply preserves_bind; [apply wrapped_kept, UnpauseMCPs_kept|intros ?; apply preserves_ret].
Qed.

Definition has_plan (w : WorkerPoolUpgradeStatus) (t : task) : Prop := workers_of (object t) = Some w.

Lemma claim_pause_state_leads b w :
  leads (has_plan w) (claim_pause_state env b) (fun _ => has_plan (with_managed b w)) (fun _ => True).
Proof using.
  unfold claim_pause_state. eapply (leads_bind _ _ _ (fun _ => has_plan (with_managed b w))).
  - intros t Ht. destruct (modify_workers_eq t w (with_managed b) Ht) as (t' & He & Hw & _).
    unfold wp. by rewrite He.
  - intros ?. apply (leads_keep quiet); [quiet_walk|]. intros s s' Hs Hq. unfold has_plan.
    by rewrite (quiet_workers s s' Hq).
Qed.

(** The plan, owned, lists and pauses. *)
Lemma pause_pools_leads w (isEUS : bool) :
  PauseStateManaged w = true ->
  leads (has_plan w)
    (nonMaster ← wrapped "failed to list MCPs" (ListNonMasterMCPs env);
     let toPause := if isEUS then nonMaster else ExcludeMCPsByNames nonMaster (PoolsWithControlPlane w) in
     let toUnpause := if isEUS then [] else FilterMCPsByNames nonMaster (PoolsWithControlPlane w) in
     _ ← wrapped "failed to pause MCPs" (PauseMCPs env toPause);
     _ ← wrapped "failed to unpause MCPs" (UnpauseMCPs env toUnpause);
     mret tt)
    (fun _ t => held_back env (log t) (object t)) (fun _ => True).
Proof using.
  intros Hm t Ht. apply wp_bind. unfold wp at 1. rewrite ListNonMasterMCPs_eq.
  destruct (api env ListMCPs (log t)) as [e|all] eqn:Hall; cbn [fst snd through]; [done|].
  set (t1 := with_event _ t). set (nonMaster := filter _ all). cbv zeta.
  set (toPause := if isEUS then _ else _). set (toUnpause := if isEUS then _ else _).
  unfold wrapped. apply wp_bind, wp_bind, wp_try. eapply wp_mono; [apply PauseMCPs_wp|].
  intros t2 r (es & (Ho & Hl & Hes) & Hr). destruct r as [[]|e| |]; cbn [through]; try done.
  apply wp_ret. cbn [through]. apply wp_bind, wp_bind, wp_try. eapply wp_mono; [apply UnpauseMCPs_wp|].
  intros t3 r (fs & Ho' & Hl' & Hfs). destruct r as [b|e| |]; cbn [through]; try done.
  apply wp_ret. cbn [through]. apply wp_ret.
  assert (object t3 = object t) as Hobj by (rewrite Ho', Ho; done).
  apply (held_back_after t all w es fs t3 Hall); [by rewrite Hobj|done|..].
  - intros p Hp Hn. rewrite Hobj. change (object t) with (object t1). apply (Hr eq_refl).
    unfold toPause. destruct isEUS; [done|]. by apply elem_of_ExcludeMCPsByNames.
  - eapply Forall_impl; [exact Hes|]. intros e (p & _ & ->). rewrite Hobj. by eexists.
  - eapply Forall_impl; [exact Hfs|]. intros e (p & Hp & ->). exists p. split; [|by rewrite Hobj, Ho].
    unfold toUnpause in Hp. destruct isEUS; [by apply not_elem_of_nil in Hp|].
    by apply elem_of_FilterMCPsByNames in Hp as [_ ?].
  - rewrite Hl', Hl. simpl. by rewrite <- !app_assoc.
Qed.

Lemma prepareWorkerMCPsForUpgrade_leads action :
  leads (fun _ => True) (prepareWorkerMCPsForUpgrade env action)
    (fun _ t => held_back env (log t) (object t)) (fun _ => True).
Proof using.
  intros t _. unfold prepareWorkerMCPsForUpgrade. destruct (workers_of (object t)) as [w|] eqn:Hw.
  2: { assert (get_workers t = (t, Panic)) as He.
       { unfold workers_of, upgrade_of in Hw. unfold get_workers, get_upgrade, get_details, get_object, mbind,
           handler_bind, mret, handler_ret.
         destruct (Cluster (object t)) as [d|]; [|done]. destruct (UpgradeStatus d) as [u|] eqn:Eu; [|done].
         simpl in Hw. rewrite Eu in Hw. simpl in Hw. by rewrite Hw. }
       unfold wp, mbind at 1, handler_bind at 1. by rewrite He. }
  apply wp_bind. unfold wp at 1. rewrite (get_workers_eq t w Hw). cbn [fst snd through].
  destruct (decide (Strategy w = OpenShiftDefault)) as [Hd|Hd].
  - enough (leads (has_plan w) (when (PauseStateManaged w) (_ ← unpauseNonMasterMCPs env; claim_pause_state env false))
      (fun _ t => exists b, has_plan (with_managed b w) t) (fun _ => True)) as Hl.
    { eapply wp_mono; [by apply Hl|]. intros t' [u|e| |]; [|done..]. intros [b Hb].
      exists (with_managed b w). split; [exact Hb|by left]. }
    destruct (PauseStateManaged w) eqn:Em; cbn [when].
    + eapply (leads_bind _ _ _ (fun _ => has_plan w)).
      * apply (leads_keep kept); [apply unpauseNonMasterMCPs_kept|]. intros s s' Hs Ho. unfold has_plan. by rewrite Ho.
      * intros ?. eapply leads_mono; [apply claim_pause_state_leads|done| |done]. intros ? s Hs. by exists false.
    + apply leads_ret. intros s Hs. exists false. unfold has_plan, with_managed in *. rewrite Hs. destruct w; simpl in *. by subst.
  - enough (leads (has_plan w) (when (negb (PauseStateManaged w)) (claim_pause_state env true))
      (fun _ => has_plan (with_managed true w)) (fun _ => True)) as Hl.
    { apply wp_bind. eapply wp_mono; [by apply Hl|]. intros t' r Hr. destruct r as [u|e| |]; cbn [through]; [|done..].
      exact (pause_pools_leads (with_managed true w) (IsEUS action) eq_refl t' Hr). }
    destruct (PauseStateManaged w) eqn:Em; cbn [negb when]; [|apply claim_pause_state_leads].
    apply leads_ret. intros s Hs. unfold has_plan, with_managed in *. rewrite Hs. destruct w; simpl in *. by subst.
Qed.
End pause.

(** ** The theorem *)

Section timed.
Context `{Semver} `{Urls} (env : Env) (l0 : list event).

Definition timed (t : task) : Prop := well_timed env l0 (log t).

Lemma timed_calm {A} (m : prog A) : preserves calm m -> leads timed m (fun _ => timed) timed.
Proof using. intros Hm. apply (leads_frame calm); [exact Hm|]. intros s s' Hs Hc. by eapply calm_keeps. Qed.

(** The trigger, with the pools held back. *)
Lemma TriggerCVUpgrade_leads cv d :
  leads (fun t => timed t /\ held_back env (log t) (object t)) (TriggerCVUpgrade env cv d) (fun _ => timed) timed.
Proof using.
  unfold TriggerCVUpgrade. case_match; [by apply leads_ret; intros t []|]. cbv zeta.
  eapply (leads_bind _ _ _ (fun _ => timed)); [|intros ?; by apply leads_ret].
  intros t [Ht Hb]. unfold wp. rewrite wrapped_trigger_eq. set (c := PatchClusterVersion _ _).
  assert (timed (with_event (Ev (object t) c) t)) as Hc by (apply well_timed_snoc; [exact Ht|intros _; exact Hb]).
  by destruct (api env c (log t)).
Qed.

Lemma handleCVUpgradePreStart_leads cv ct action :
  leads timed (handleCVUpgradePreStart env cv ct action) (fun _ => timed) timed.
Proof using.
  unfold handleCVUpgradePreStart.
  eapply leads_bind; [apply timed_calm; auto with calm|]. intros [action' [e|cvSpec]].
  { apply timed_calm. unfold precondition_failed. calm_walk. }
  cbv zeta. eapply leads_bind; [apply timed_calm; auto with calm|]. intros [message|].
  { apply timed_calm. calm_walk. }
  eapply leads_bind; [apply timed_calm, preserves_try; auto with calm|]. intros [e|?].
  { apply timed_calm. calm_walk. }
  eapply leads_bind; [apply timed_calm; auto with calm|]. intros [result|]; [by apply leads_ret|].
  eapply (leads_bind _ _ _ (fun _ t => timed t /\ held_back env (log t) (object t))).
  { intros t Ht. pose proof (timed_calm _ (prepareWorkerMCPsForUpgrade_calm env action') t Ht) as H1.
    pose proof (prepareWorkerMCPsForUpgrade_leads env action' t I) as H2. unfold wp in *.
    by destruct (prepareWorkerMCPsForUpgrade env action' t) as [t' []]. }
  intros ?. eapply leads_bind; [apply leads_try, TriggerCVUpgrade_leads|].
  intros [e|[]]; apply timed_calm; [calm_walk|unfold step_message; calm_walk|auto with calm].
Qed.

Lemma handleClusterVersionUpgrade_timed ct name cfg :
  leads timed (handleClusterVersionUpgrade env ct name cfg) (fun _ => timed) timed.
Proof using.
  unfold handleClusterVersionUpgrade.
  eapply leads_bind; [apply timed_calm, preserves_try; auto with calm|]. intros [e|[]]; [apply timed_calm; calm_walk|].
  eapply leads_bind; [apply timed_calm; calm_walk|]. intros u. case_match; [apply timed_calm; calm_walk|].
  eapply leads_bind; [apply timed_calm; calm_walk|]. intros ?.
  eapply leads_bind; [apply timed_calm; calm_walk|]. intros [e|[]]; [apply timed_calm; calm_walk| |apply timed_calm; calm_walk].
  eapply leads_bind; [apply timed_calm; calm_walk|]. intros cv. cbv zeta.
  eapply (leads_bind _ _ _ (fun _ => timed)).
  - eapply leads_mono; [apply (leads_try timed _ (fun _ => timed) timed)|done|by intros []|done].
    unfold upgrade_step. case_match; [by apply leads_ret|]. destruct (ActionPhase _).
    + eapply leads_bind; [apply handleCVUpgradePreStart_leads|]. intros r. by apply leads_ret.
    + apply timed_calm. calm_walk.
    + apply timed_calm. calm_walk.
  - intros r. apply timed_calm. unfold rethrow. calm_walk.
Qed.
End timed.

(** C19: The control plane is upgraded only while the worker pools are held back.  Whatever
    the cluster and the API server answer and whichever calls fail: when an upgrade asks
    the ClusterVersion for another version, either OpenShift rolls out the worker pools
    itself, or the request in memory says that the controller owns the pause state, the
    cluster was asked for its pools before and answered, and every worker pool of that list that does not
    upgrade with the control plane was paused already or has been asked to pause since,
    and has not been released since. *)
Theorem upgrade_holds_workers_back `{Semver} `{Urls} env ct name cfg t l1 e l2 :
  log (handleClusterVersionUpgrade env ct name cfg t).1 = (log t ++ l1 ++ e :: l2)%list ->
  triggers e -> held_back env (log t ++ l1) (ev_object e).
Proof.
  intros Hl He. assert (timed env (log t) t) as Ht by apply well_timed_start.
  pose proof (handleClusterVersionUpgrade_timed env (log t) ct name cfg t Ht) as Hw. unfold wp in Hw.
  assert (timed env (log t) (handleClusterVersionUpgrade env ct name cfg t).1) as Hr
    by by destruct (handleClusterVersionUpgrade env ct name cfg t) as [? []].
  apply (Hr _ e l2); [by rewrite Hl, app_assoc|rewrite length_app; lia|done].
Qed.
