(* ===== verification/UpgradeFacts.v ===== *)
(** * When an upgrade is completed, and when it is started (theory of Upgrade)

    The upgrade of a ClusterVersion is completed only when the history of the cluster says
    so and the rollout is over; the control plane is upgraded only with the worker pools
    held back. *)
From S2P Require Import Prelude Conditions GoText MergeMaps Unstructured Handler ProvisioningStatus UpgradePlan UpgradeGraph ProvisioningTask UpgradeConfig UpgradeRollout UpgradeQuiet UpgradeRolloutFacts ProvisioningPolicy NodeConfiguration ProvisioningHardware ProvisioningValidation ProvisioningCluster ProvisioningRequest Upgrade ProvisioningFacts ProvisioningSafety ContractLaws.
#[local] Open Scope string_scope.
#[local] Open Scope Z_scope.

(** ** Parts that do not complete the upgrade *)

(** An upgrade that is under way stays so, and no status says otherwise. *)
Record steady (t t' : task) : Prop := mkSteady {
  steady_under_way : under_way (object t) -> under_way (object t');
  steady_log : exists es, log t' = (log t ++ es)%list /\ (under_way (object t) -> Forall sends_under_way es);
}.

#[export] Instance steady_preorder : PreOrder steady.
Proof.
  split.
  - intros t. split; [done|]. exists []. by rewrite app_nil_r.
  - intros t1 t2 t3 [C1 (es & E1 & S1)] [C2 (fs & E2 & S2)]. split; [auto|].
    exists (es ++ fs)%list. split; [by rewrite E2, E1, app_assoc|]. intros Hu. apply Forall_app_2; auto.
Qed.

Lemma quiet_is_steady t t' : quiet t t' -> steady t t'.
Proof. intros [_ _ Hc (es & He & _ & Hs)]. split; [done|by exists es]. Qed.
Lemma quiet_steady {A} (m : prog A) : preserves quiet m -> preserves steady m.
Proof. intros Hm t. apply quiet_is_steady, Hm. Qed.

Lemma steady_object (f : ProvisioningRequest -> ProvisioningRequest) :
  (forall o, Conditions (f o) = Conditions o) -> preserves steady (modify_object f).
Proof.
  intros Hf t. split; [|exists []; by rewrite app_nil_r]. simpl.
  unfold under_way, IsClusterUpgradeCompleted, condition_is. by rewrite Hf.
Qed.
Lemma steady_details f : preserves steady (modify_details f).
Proof.
  unfold modify_details. apply preserves_bind; [apply quiet_steady, quiet_get_details|]. intros d. by apply steady_object.
Qed.
Lemma steady_trigger env {A} (c : call A) :
  (forall o, sends_under_way (Ev o c)) -> preserves steady (trigger env c).
Proof.
  intros Hc t. unfold trigger.
  destruct (api env c (log t)); (split; [done|]; exists [Ev (object t) c]; split; [done|]; simpl; intros _);
    repeat constructor; apply Hc.
Qed.
Lemma steady_wrapped {A} prefix (m : prog A) : preserves steady m -> preserves steady (wrapped prefix m).
Proof.
  intros Hm. unfold wrapped. apply preserves_bind; [by apply preserves_try|].
  intros []; [apply preserves_raise|apply preserves_ret].
Qed.

Create HintDb steady.
#[export] Hint Extern 5 (preserves steady _) => apply quiet_steady; solve [eauto with quiet nocore] : steady.

Ltac steady_step :=
  cbv beta iota zeta;
  lazymatch goal with
  | |- preserves _ (mret _) => apply preserves_ret
  | |- preserves _ (raise _) => apply preserves_raise
  | |- preserves _ panic => apply preserves_panic
  | |- preserves _ get_state => apply preserves_get
  | |- preserves _ (_ ≫= _) => apply preserves_bind; [|intros ?]
  | |- preserves _ (try _) => apply preserves_try
  | |- preserves _ (when _ _) => apply preserves_when
  | |- preserves _ (wrapped _ _) => apply steady_wrapped
  | |- preserves _ (trigger _ _) => apply steady_trigger; intros ?; exact I
  | |- preserves _ (modify_details _) => apply steady_details
  | |- preserves _ (modify_object _) => apply steady_object; by intros ?
  | |- preserves _ (match ?x with _ => _ end) => destruct x
  end.
Ltac steady_walk :=
  repeat first [ solve [eauto with steady nocore] | steady_step
               | match goal with |- preserves _ ?m => let h := head m in unfold h end ].

Section steady.
Context `{Semver} `{Urls} (env : Env).

Lemma UnpauseMCPs_steady mcps : preserves steady (UnpauseMCPs env mcps).
Proof using. induction mcps as [|p mcps IH]; cbn [UnpauseMCPs]; steady_walk. Qed.
Lemma PauseMCPs_steady mcps : preserves steady (PauseMCPs env mcps).
Proof using. induction mcps as [|p mcps IH]; cbn [PauseMCPs]; steady_walk. Qed.
#[local] Hint Resolve UnpauseMCPs_steady PauseMCPs_steady : steady.

Lemma run_wave_steady strategy phase completed wave : preserves steady (run_wave env strategy phase completed wave).
Proof using. unfold run_wave. steady_walk. Qed.
#[local] Hint Resolve run_wave_steady : steady.
Lemma run_waves_steady strategy completed waves : preserves steady (run_waves env strategy completed waves).
Proof using. revert completed. induction waves as [|w waves IH]; intros completed; cbn [run_waves]; steady_walk. Qed.
Lemma run_stages_steady mcps n i completed : preserves steady (run_stages env mcps n i completed).
Proof using. revert i completed. induction n as [|n IH]; intros i completed; cbn [run_stages]; steady_walk. Qed.
#[local] Hint Resolve run_waves_steady run_stages_steady : steady.
Lemma reconcileWorkerPoolRollout_steady ct : preserves steady (reconcileWorkerPoolRollout env ct).
Proof using. unfold reconcileWorkerPoolRollout. steady_walk. Qed.
#[local] Hint Resolve reconcileWorkerPoolRollout_steady : steady.

Lemma handleTerminalCVPreStartFailure_steady action message :
  preserves steady (handleTerminalCVPreStartFailure env action message).
Proof using. unfold handleTerminalCVPreStartFailure. steady_walk. Qed.
Lemma prepareCVSpec_steady ct cv action : preserves steady (prepareCVSpec env ct cv action).
Proof using. unfold prepareCVSpec. steady_walk. Qed.
#[local] Hint Resolve handleTerminalCVPreStartFailure_steady prepareCVSpec_steady : steady.
Lemma handleCVUpgradePreStart_steady cv ct action : preserves steady (handleCVUpgradePreStart env cv ct action).
Proof using. unfold handleCVUpgradePreStart. steady_walk. Qed.
Lemma handleCVUpgradeInProgress_steady cv action : preserves steady (handleCVUpgradeInProgress env cv action).
Proof using. unfold handleCVUpgradeInProgress. destruct (cv_message cv "Progressing" is_true); steady_walk. Qed.
Lemma initUpgradeStatus_steady name : preserves steady (initUpgradeStatus env name).
Proof using. unfold initUpgradeStatus. steady_walk. Qed.
Lemma isCVUpgradeTimedOut_steady name cv : preserves steady (isCVUpgradeTimedOut env name cv).
Proof using. unfold isCVUpgradeTimedOut. steady_walk. Qed.
End steady.
#[export] Hint Resolve UnpauseMCPs_steady PauseMCPs_steady reconcileWorkerPoolRollout_steady
  handleTerminalCVPreStartFailure_steady prepareCVSpec_steady handleCVUpgradePreStart_steady
  handleCVUpgradeInProgress_steady initUpgradeStatus_steady isCVUpgradeTimedOut_steady : steady.

(** ** Completion *)

(** After [l0] the calls [es] were made: the upgrade is still under way and no status said
    otherwise, or else [F]. *)
Definition open_or (F : list event -> Prop) (l0 : list event) (t : task) : Prop :=
  exists es, log t = (l0 ++ es)%list /\ ((under_way (object t) /\ Forall sends_under_way es) \/ F es).

Lemma open_or_steady F l0 t t' :
  (forall es fs, F es -> F (es ++ fs)%list) -> open_or F l0 t -> steady t t' -> open_or F l0 t'.
Proof.
  intros HF (es & He & Hes) [Hc (fs & Hf & Hfs)]. exists (es ++ fs)%list. split; [by rewrite Hf, He, app_assoc|].
  destruct Hes as [[Hu Hes]|Hes]; [left; split; [auto|]; apply Forall_app_2; auto|right; auto].
Qed.

Lemma open_or_start F l0 t : log t = l0 -> under_way (object t) -> open_or F l0 t.
Proof. intros Hl Hu. exists []. split; [by rewrite Hl, app_nil_r|]. by left. Qed.

(** The pools were listed and the rollout of a plan was found over; then the access to the
    cluster was given up, with success. *)
Definition rolled (env : Env) (name : string) (l0 es : list event) : Prop :=
  exists w o w' earlier later, es = (earlier ++ Ev o (CleanupSpokeAccess name) :: later)%list /\
    api env (CleanupSpokeAccess name) (l0 ++ earlier) = inr tt /\ workers_of o = Some w' /\ same_plan w w' /\
    (Strategy w = OpenShiftDefault \/
     exists es1 o1 es2 mcps, earlier = (es1 ++ Ev o1 ListMCPs :: es2)%list /\ listed env (l0 ++ es1) = Some mcps /\
       rollout_over mcps w o).

Lemma rolled_more env name l0 es fs : rolled env name l0 es -> rolled env name l0 (es ++ fs).
Proof.
  intros (w & o & w' & earlier & later & -> & H). exists w, o, w', earlier, (later ++ fs)%list.
  split; [by rewrite <- app_assoc|exact H].
Qed.

Section completion.
Context `{Semver} `{Urls} (env : Env).

Lemma leads_steady {A} F l0 (m : prog A) :
  (forall es fs, F es -> F (es ++ fs)%list) -> preserves steady m ->
  leads (open_or F l0) m (fun _ => open_or F l0) (open_or F l0).
Proof using. intros HF Hm. apply (leads_frame steady); [exact Hm|]. intros s s'. by apply open_or_steady. Qed.

(** A completion of the upgrade that is recorded after the rollout. *)
Lemma completed_last name message w t0 t :
  (exists es, log t = (log t0 ++ es)%list /\ (under_way (object t0) -> under_way (object t) /\ Forall sends_under_way es) /\
     (Strategy w = OpenShiftDefault \/ exists es1 o1 es2 mcps, es = (es1 ++ Ev o1 ListMCPs :: es2)%list /\
        listed env (log t0 ++ es1) = Some mcps /\ rollout_over mcps w (object t))) ->
  (exists w', workers_of (object t) = Some w' /\ same_plan w w') -> under_way (object t0) ->
  wp (_ ← wrapped "failed to cleanup spoke access" (trigger env (CleanupSpokeAccess name));
      _ ← updateUpgradeStatus env CRconditionReasons.Completed message; mret doNotRequeue)
     (fun t' _ => open_or (rolled env name (log t0)) (log t0) t') t.
Proof using.
  intros (es & He & Hu & Hor) (w' & Hw & Hp) Hu0. destruct (Hu Hu0) as [Hut Hes].
  set (e := Ev (object t) (CleanupSpokeAccess name)).
  assert (api env (CleanupSpokeAccess name) (log t) = inr tt -> rolled env name (log t0) (es ++ [e])%list) as Hrolled.
  { intros Ha. exists w, (object t), w', es, []. rewrite He in Ha. by split_and!. }
  apply wp_bind. unfold wp at 1. rewrite wrapped_trigger_eq.
  assert (log t ++ [e] = log t0 ++ (es ++ [e]))%list as Hl by by rewrite He, app_assoc.
  destruct (api env (CleanupSpokeAccess name) (log t)) as [err|[]]; cbn [fst snd through].
  - exists (es ++ [e])%list. split; [exact Hl|]. left. split; [exact Hut|]. apply Forall_app_2; [done|by constructor].
  - apply wp_bind. set (t1 := with_event _ t).
    assert (forall t2 : task, (exists fs, log t2 = log t1 ++ fs)%list -> open_or (rolled env name (log t0)) (log t0) t2) as Hend.
    { intros t2 (fs & Hfs). exists ((es ++ [e]) ++ fs)%list. change (log t1) with (log t ++ [e])%list in Hfs.
      split; [by rewrite Hfs, Hl, <- app_assoc|]. right. by apply rolled_more, Hrolled. }
    apply (wp_mono _ (fun s _ => exists fs, log s = (log t1 ++ fs)%list)).
    + destruct (updateUpgradeStatus_evolves env everything_types (fun o A c _ => anything_holds o A c)
                  CRconditionReasons.Completed message t1) as [_ (fs & Hfs & _)]. by exists fs.
    + intros s [] Hs; cbn [through]; try apply wp_ret; by apply Hend.
Qed.

Lemma handleCVUpgradeCompleted_wp cv ct name action t :
  under_way (object t) ->
  wp (handleCVUpgradeCompleted env cv ct name action)
     (fun t' _ => open_or (rolled env name (log t)) (log t) t') t.
Proof using.
  intros Hu. set (F := rolled env name (log t)).
  assert (forall es fs, F es -> F (es ++ fs)%list) as HF by (intros; by apply rolled_more).
  assert (forall A (m : prog A), preserves steady m -> leads (open_or F (log t)) m (fun _ => open_or F (log t)) (open_or F (log t))) as Hsteady.
  { intros A m. by apply leads_steady. }
  (* until the rollout, only the request may have changed *)
  set (I := fun s : task => log s = log t /\ under_way (object s)).
  assert (forall s, I s -> open_or F (log t) s) as HI by (intros s [? ?]; by apply open_or_start).
  assert (leads I (handleCVUpgradeCompleted env cv ct name action) (fun _ => open_or F (log t)) (open_or F (log t))) as Hl.
  2: { eapply wp_mono; [by apply Hl|]. by intros s []. }
  unfold handleCVUpgradeCompleted.
  assert (forall A (m : prog A), preserves (fun s s' => I s -> I s') m -> leads I m (fun _ => I) (open_or F (log t))) as Hpure.
  { intros A m Hm. eapply leads_mono; [apply (leads_frame _ I I m Hm); auto|done|done|exact HI]. }
  eapply leads_bind; [apply Hpure|intros u].
  { intros s Hs. unfold get_upgrade, get_details, get_object, mbind, handler_bind, mret, handler_ret.
    destruct (Cluster (object s)) as [d|]; [|done]. by destruct (UpgradeStatus d). }
  eapply (leads_bind _ _ _ (fun _ => I)).
  { apply Hpure. destruct (ClusterVersionCompletedAt u); [by intros s|].
    intros s [Hls Hus]. unfold modify_upgrade, modify_details, get_upgrade, get_details, get_object, modify_object,
      modify, now, mbind, handler_bind, mret, handler_ret.
    destruct (Cluster (object s)) as [d|] eqn:Ed; [|done]. destruct (UpgradeStatus d) eqn:Eu; [|done].
    by rewrite Ed. }
  intros ? s [Hls Hus]. apply wp_bind.
  destruct (workers_of (object s)) as [w|] eqn:Hw.
  - eapply wp_mono; [apply wp_and; [apply (reconcileWorkerPoolRollout_wp env ct s w Hw)|
      exact (wp_preserves (R := steady) _ s (reconcileWorkerPoolRollout_steady env ct))]|].
    intros s' r [(_ & Hplan & Hr) Hst].
    assert (open_or F (log t) s') as Hopen by (eapply open_or_steady; [exact HF|apply HI; by split|exact Hst]).
    destruct r as [[result|]| | |]; cbn [through]; try done.
    eapply wp_mono; [apply (completed_last name _ w t s')|by intros ? []]; [|done|done].
    destruct Hst as [Hc (es & He & Hes)]. exists es. rewrite <- Hls at 1.
    split_and!; [by rewrite He, Hls|intros _; split; auto|].
    destruct (decide (Strategy w = OpenShiftDefault)) as [|Hd]; [by left|right].
    destruct (Hr eq_refl Hd) as (mcps & fs & Hlist & Hover & Hfs). exists [], (object s), fs, mcps. rewrite app_nil_r, <- Hls.
    split; [|done]. rewrite He in Hfs. by apply app_inv_head in Hfs.
  - assert (exists r, reconcileWorkerPoolRollout env ct s = (s, r) /\ (forall x, r <> Ret x)) as (r & Hr & Hx).
    { unfold workers_of, upgrade_of in Hw. unfold reconcileWorkerPoolRollout, get_upgrade, get_details, get_object,
        mbind, handler_bind, mret, handler_ret.
      destruct (Cluster (object s)) as [d|]; [|by eexists]. destruct (UpgradeStatus d) as [u'|] eqn:Eu; [|by eexists].
      simpl in Hw. rewrite Eu in Hw. simpl in Hw. rewrite Hw. by eexists. }
    unfold wp. rewrite Hr. cbn [fst snd].
    assert (open_or F (log t) s) as Hopen by (by apply HI). destruct r as [x| | |]; [by destruct (Hx x)|done..].
Qed.

(** The version is in the history as completed. *)
Definition completed_in (cv : ClusterVersion) (version : string) : Prop :=
  exists entry, FindCVHistoryEntry cv version = Some entry /\ uh_Completed entry = true.

Lemma entry_phase_completed cv v : entry_phase (FindCVHistoryEntry cv v) = PhaseCompleted -> completed_in cv v.
Proof using.
  unfold entry_phase, completed_in. destruct (FindCVHistoryEntry cv v) as [e|]; [|done].
  destruct (uh_Completed e) eqn:E; [|done]. intros _. by exists e.
Qed.

Lemma resolved_completed cv target intermediate isEUS :
  ActionPhase (ResolveCVUpgradeAction cv target intermediate isEUS) = PhaseCompleted ->
  completed_in cv target /\ (isEUS = true -> completed_in cv intermediate).
Proof using.
  unfold ResolveCVUpgradeAction. destruct isEUS.
  - destruct (entry_phase (FindCVHistoryEntry cv intermediate)) eqn:E; try done.
    intros Ht. split; [|intros _]; by apply entry_phase_completed.
  - intros Ht. split; [by apply entry_phase_completed|done].
Qed.

(** The upgrade may be completed: the cluster answered that the target is installed, by
    way of the intermediate version if it is an EUS upgrade, and then the rollout of the
    plan was found over. *)
Definition upgrade_over (ct : ClusterTemplate) (name : string) (l : list event) : Prop :=
  exists l1 o u l2 cv, l = (l1 ++ Ev o GetClusterVersion :: l2)%list /\
    api env GetClusterVersion l1 = inr cv /\ cv_ObservedGeneration cv = cv_Generation cv /\
    upgrade_of o = Some u /\ completed_in cv (Release ct) /\
    (IsEUSUpgrade (StartVersion u) (Release ct) = inr true -> completed_in cv (IntermediateVersion u)) /\
    rolled env name (l1 ++ [Ev o GetClusterVersion]) l2.

Lemma upgrade_over_more ct name l fs : upgrade_over ct name l -> upgrade_over ct name (l ++ fs).
Proof using.
  intros (l1 & o & u & l2 & cv & -> & ? & ? & ? & ? & ? & ?). exists l1, o, u, (l2 ++ fs)%list, cv.
  split_and!; [by rewrite <- app_assoc|done..|by apply rolled_more].
Qed.

(** The step after the ClusterVersion was read: what its completion needs. *)
Definition step_over (cv : ClusterVersion) (name target intermediate : string) (isEUS : bool) (l0 es : list event) : Prop :=
  cv_ObservedGeneration cv = cv_Generation cv /\ completed_in cv target /\
  (isEUS = true -> completed_in cv intermediate) /\ rolled env name l0 es.

Lemma upgrade_step_wp cv ct name target intermediate isEUS t :
  under_way (object t) ->
  wp (upgrade_step env cv ct name (ResolveCVUpgradeAction cv target intermediate isEUS))
     (fun t' _ => open_or (step_over cv name target intermediate isEUS (log t)) (log t) t') t.
Proof using.
  intros Hu. set (F := step_over cv name target intermediate isEUS (log t)). unfold upgrade_step.
  assert (open_or F (log t) t) as Ho by by apply open_or_start.
  assert (forall es fs, F es -> F (es ++ fs)%list) as HF.
  { intros es fs (?&?&?&?). unfold F, step_over. split_and!; [done..|by apply rolled_more]. }
  assert (forall A (m : prog A), preserves steady m -> wp m (fun t' _ => open_or F (log t) t') t) as Hq.
  { intros A m Hm. eapply wp_mono; [by apply (leads_steady F (log t))|]. by intros s []. }
  destruct (cv_ObservedGeneration cv =? cv_Generation cv) eqn:Eg; cbn [negb]; [|by apply wp_ret].
  apply Z.eqb_eq in Eg. destruct (ActionPhase _) eqn:Ep.
  - apply Hq. apply preserves_bind; [auto with steady|intros ?; apply preserves_ret].
  - apply Hq. apply preserves_bind; [auto with steady|intros ?; apply preserves_ret].
  - apply resolved_completed in Ep as [Ht Hi]. apply wp_bind.
    eapply wp_mono; [by apply handleCVUpgradeCompleted_wp|]. intros s r (es & He & Hes).
    assert (open_or F (log t) s) as Hs.
    { exists es. split; [done|]. destruct Hes as [|Hes]; [by left|right]. unfold F, step_over. by split_and!. }
    by destruct r.
Qed.

(** Until the cluster is read, the upgrade is under way whatever happens. *)
Definition opened (l0 : list event) : task -> Prop := open_or (fun _ => False) l0.

Lemma opened_under_way l0 t : opened l0 t -> under_way (object t).
Proof using. by intros (es & _ & [[? _]|[]]). Qed.

(** The step from where the ClusterVersion was read. *)
Lemma after_read ct name l0 t u cv isEUS :
  opened l0 t -> upgrade_of (object t) = Some u -> IsEUSUpgrade (StartVersion u) (Release ct) = inr isEUS ->
  api env GetClusterVersion (log t) = inr cv ->
  wp (upgrade_step env cv ct name (ResolveCVUpgradeAction cv (Release ct) (IntermediateVersion u) isEUS))
     (fun t' _ => open_or (fun es => upgrade_over ct name (l0 ++ es)) l0 t')
     (with_event (Ev (object t) GetClusterVersion) t).
Proof using.
  intros (es & He & [[Hu Hes]|[]]) Hup Heus Hcv. set (t1 := with_event _ t).
  eapply wp_mono; [by apply upgrade_step_wp|]. intros t' _ (fs & Hf & Hor).
  assert (log t1 = l0 ++ (es ++ [Ev (object t) GetClusterVersion]))%list as Hl by by rewrite app_assoc, <- He.
  exists ((es ++ [Ev (object t) GetClusterVersion]) ++ fs)%list. split; [by rewrite Hf, Hl, <- app_assoc|].
  destruct Hor as [[Hu' Hfs]|(Hg & Ht & Hi & Hr)]; [left|right].
  - split; [done|]. repeat apply Forall_app_2; [done|by constructor|done].
  - exists (l0 ++ es)%list, (object t), u, fs, cv. split_and!; [by rewrite <- !app_assoc|by rewrite <- He|done..| |].
    + rewrite Heus. intros [= ->]. auto.
    + by rewrite <- app_assoc, <- Hl.
Qed.

Lemma handleClusterVersionUpgrade_leads ct name cfg l0 :
  leads (opened l0) (handleClusterVersionUpgrade env ct name cfg)
    (fun _ => open_or (fun es => upgrade_over ct name (l0 ++ es)) l0)
    (open_or (fun es => upgrade_over ct name (l0 ++ es)) l0).
Proof using.
  set (G := fun es => upgrade_over ct name (l0 ++ es)).
  assert (forall t, opened l0 t -> open_or G l0 t) as Hopen.
  { intros t (es & He & [?|[]]). exists es. split; [done|by left]. }
  assert (forall A (m : prog A), preserves steady m -> leads (opened l0) m (fun _ => opened l0) (open_or G l0)) as Hs.
  { intros A m Hm. apply (leads_mono (opened l0) (opened l0) m (fun _ => opened l0) (fun _ => opened l0) (opened l0) (open_or G l0));
      [by apply leads_steady|done|done|exact Hopen]. }
  assert (forall A (m : prog A), preserves steady m -> leads (opened l0) m (fun _ => open_or G l0) (open_or G l0)) as Hlast.
  { intros A m Hm. eapply leads_mono; [by apply (Hs A m)|done|intros ? s; apply Hopen|done]. }
  unfold handleClusterVersionUpgrade.
  eapply leads_bind; [apply Hs, preserves_try; auto with steady|]. intros [e|[]].
  { apply Hlast. unfold precondition_failed. steady_walk. }
  apply leads_upgrade; [exact Hopen|]. intros u.
  set (I := fun t : task => upgrade_of (object t) = Some u /\ opened l0 t).
  assert (forall A (m : prog A), preserves steady m -> leads I m (fun _ => open_or G l0) (open_or G l0)) as HlastI.
  { intros A m Hm. apply (leads_when (opened l0)); [by intros t []|by apply Hlast]. }
  assert (forall A (m : prog A), preserves steady m -> (forall t, upgrade_of (object (m t).1) = upgrade_of (object t)) ->
    leads I m (fun _ => I) (open_or G l0)) as HI.
  { intros A m Hm Hobj t [Hu Ht]. specialize (Hs A m Hm t Ht). specialize (Hobj t). unfold wp in *.
    destruct (m t) as [s []]; simpl in *; [|done..]. split; [congruence|done]. }
  destruct (IsEUSUpgrade (StartVersion u) (Release ct)) as [e|isEUS] eqn:Heus.
  { apply HlastI. unfold precondition_failed. steady_walk. }
  eapply leads_bind; [apply HI; [unfold set_upgrade_timeout; steady_walk|done]|intros ?].
  eapply leads_bind; [apply HI; [steady_walk|]|].
  { intros t. unfold try, trigger. by destruct (api env _ _). }
  intros [e|[]]; [apply HlastI; unfold precondition_failed; steady_walk| |apply HlastI; steady_walk].
  intros t [Hu Ht]. apply wp_bind. unfold wp at 1. rewrite wrapped_trigger_eq.
  assert (opened l0 (with_event (Ev (object t) GetClusterVersion) t)) as Ht1.
  { destruct Ht as (es & He & [[? ?]|[]]). exists (es ++ [Ev (object t) GetClusterVersion])%list.
    split; [simpl; by rewrite He, app_assoc|]. left. split; [done|]. by apply Forall_app_2; [|constructor]. }
  destruct (api env GetClusterVersion (log t)) as [e|cv] eqn:Hcv; cbn [fst snd through]; [by apply Hopen|].
  apply wp_bind, wp_try. eapply wp_mono; [by apply (after_read ct name l0 t u cv isEUS)|].
  assert (forall A (m : prog A), preserves steady m -> leads (open_or G l0) m (fun _ => open_or G l0) (open_or G l0)) as HG.
  { intros A m Hm. apply leads_steady; [|done]. intros es fs. unfold G. rewrite app_assoc. apply upgrade_over_more. }
  intros s r Hr. destruct r; cbn [through]; [| |exact Hr|exact Hr];
    (apply HG; [unfold rethrow; steady_walk|exact Hr]).
Qed.

(** C18: The upgrade of a ClusterVersion is completed only when it is over.  Whatever the
    cluster and the API server answer and whichever calls fail: if a reconcile of the
    upgrade begins with a request that does not say that an upgrade is completed (a second
    upgrade begins with the condition of the first, and may send it once more), and sends a
    status that says so, then the cluster answered a ClusterVersion that is not stale and
    whose history has the release of the template as completed, and, for an EUS upgrade,
    the intermediate version too; and after that, unless OpenShift itself rolls out the
    worker pools, the cluster answered with the list of its pools, by which the rollout was
    over; and after that the access to the cluster was given up, with success. *)
Theorem upgrade_completed_when_over ct name cfg t es o o' :
  under_way (object t) ->
  log (handleClusterVersionUpgrade env ct name cfg t).1 = (log t ++ es)%list ->
  Ev o (UpdateStatus o') ∈ es -> IsClusterUpgradeCompleted o' = true ->
  upgrade_over ct name (log (handleClusterVersionUpgrade env ct name cfg t).1).
Proof using.
  intros Hu Hl Hin Hc. assert (opened (log t) t) as Ho by by apply open_or_start.
  pose proof (handleClusterVersionUpgrade_leads ct name cfg (log t) t Ho) as Hw. unfold wp in Hw.
  assert (open_or (fun es => upgrade_over ct name (log t ++ es)) (log t) (handleClusterVersionUpgrade env ct name cfg t).1)
    as (fs & Hf & Hor) by by destruct (handleClusterVersionUpgrade env ct name cfg t) as [? []].
  rewrite Hf in Hl. apply app_inv_head in Hl as ->. rewrite Hf. destruct Hor as [[_ Hfs]|]; [|done].
  rewrite Forall_forall in Hfs. specialize (Hfs _ Hin). simpl in Hfs. unfold under_way in Hfs. congruence.
Qed.
End completion.
