(* ===== verification/ProvisioningInstall.v ===== *)
(** * When a cluster is installed (theory of ProvisioningRequest)

    The calls of a reconcile that apply a ClusterInstance for good are made when the
    hardware of the cluster is provisioned. *)
From S2P Require Import Prelude Conditions GoText Unstructured Handler ProvisioningStatus MergeMaps ProvisioningTask ProvisioningPolicy NodeConfiguration ProvisioningHardware ProvisioningValidation ProvisioningCluster ProvisioningRequest ProvisioningFacts ProvisioningSafety.
#[local] Open Scope Z_scope.

(** The condition on the hardware is true, or the cluster was installed before. *)
Definition ready (o : ProvisioningRequest) : Prop :=
  condition_is o PRconditionTypes.HardwareProvisioned is_true = true \/ IsClusterProvisionCompleted o = true.

(** What a reconcile of a request that is not being deleted may call. *)
Definition guarded (e : event) : Prop :=
  match e with Ev o c => match c with ApplyClusterInstance _ false => ready o | c => keeping c end end.

(** What any reconcile may call. *)
Definition installs_when_ready (e : event) : Prop :=
  match e with Ev o c => match c with ApplyClusterInstance _ false => ready o | _ => True end end.

Lemma guarded_installs e : guarded e -> installs_when_ready e.
Proof. destruct e as [o A c]. by destruct c. Qed.
Lemma routine_guarded e : routine_event e -> guarded e.
Proof. destruct e as [o A c]. destruct c; try done. by destruct isDryRun. Qed.
Lemma guarded_holds o A (c : call A) : routine c -> guarded (Ev o c).
Proof. intros Hc. by apply routine_guarded. Qed.
#[export] Hint Resolve guarded_holds : evolve.

Lemma no_condition_ready o o' : rtc (change no_condition) o o' -> ready o -> ready o'.
Proof. intros Hc. unfold ready, IsClusterProvisionCompleted. by rewrite !(fun t test => no_condition_test o o' t test Hc). Qed.

(** Without a change of the conditions, a request that is ready stays so. *)
Lemma evolves_ready t t' :
  ready (object t) -> evolves no_condition keeping_event t t' -> evolves no_condition guarded t t'.
Proof.
  intros Hr [Hc (es & Hl & Hes)]. split; [done|]. exists es. split; [done|].
  eapply Forall_impl; [exact Hes|]. intros [o A c] (Hk & Hs & Ho). split_and!; [|done..].
  destruct c; try exact Hk. destruct isDryRun; [done|]. by apply (no_condition_ready (object t)).
Qed.

Lemma to_everything T P t t' : scope_le T everything -> evolves T P t t' -> evolves everything P t t'.
Proof. intros HT. by apply evolves_mono. Qed.

Section install.
Context (env : Env).

#[local] Hint Extern 1 (_ ∈ scope_types _) => apply (bool_decide_unpack _); vm_compute; exact I : evolve.
#[local] Hint Resolve evolves_condition : evolve.

(** ** The condition that is returned is the one that is set *)

Definition hardware_ready (t : task) : Prop :=
  condition_is (object t) PRconditionTypes.HardwareProvisioned is_true = true.

(** A frame that sets other conditions only. *)
Lemma hardware_ready_evolves T P t t' :
  PRconditionTypes.HardwareProvisioned ∉ scope_types T ->
  hardware_ready t -> evolves T P t t' -> hardware_ready t'.
Proof using.
  intros HT Hr [Hc _]. unfold hardware_ready, condition_is in *.
  by rewrite (changes_condition T _ _ _ HT Hc).
Qed.

Lemma set_condition_is t time o reason status message test :
  (forall c, cond_Status c = status -> test c = bool_decide (status = ConditionTrue)) ->
  condition_is (with_conditions (SetStatusCondition time (Conditions o) t reason status message) o) t test
  = bool_decide (status = ConditionTrue).
Proof using.
  intros Ht. unfold condition_is, SetStatusCondition. simpl.
  rewrite (Find_SetStatusCondition_eq _ (mkCondition t status reason message time 0)).
  apply Ht. cbn [cond_Type]. by destruct (FindStatusCondition (Conditions o) t).
Qed.

Lemma updateHardwareStatus_ready nar :
  leads (fun _ => True) (updateHardwareStatus env nar Provisioned)
    (fun r t => r.1 = true -> hardware_ready t) (fun _ => True).
Proof using.
  unfold updateHardwareStatus. apply leads_object. intros o. case_decide; [by apply leads_raise|].
  eapply (leads_bind _ _ _ (fun _ _ => True)).
  { apply leads_any. }
  intros [[[status reason] message] failed]. cbv beta iota.
  eapply (leads_bind _ _ _ (fun _ t => status = ConditionTrue -> hardware_ready t)).
  { intros t _ Hs. unfold hardware_ready. simpl. rewrite set_condition_is with (test := is_true).
    - by subst.
    - intros c <-. done. }
  intros []. eapply (leads_bind _ _ _ (fun _ t => status = ConditionTrue -> hardware_ready t)).
  { eapply (leads_keep (evolves no_condition anything)); [walk|].
    intros s s' Hs He Ht. eapply (hardware_ready_evolves no_condition); [set_solver|auto|exact He]. }
  intros ?. apply leads_ret. intros t Ht Hb. simpl in Hb. apply Ht. by apply bool_decide_eq_true in Hb.
Qed.

(** A part that sets other conditions keeps the implication. *)
Lemma hardware_part {A} types (b : Prop) (m : prog A) :
  PRconditionTypes.HardwareProvisioned ∉ types ->
  preserves (evolves (mkScope types false) anything) m ->
  leads (fun t => b -> hardware_ready t) m (fun _ t => b -> hardware_ready t) (fun _ => True).
Proof using.
  intros Ht Hm. apply (leads_keep _ _ _ m Hm). intros s s' Hs He Hb.
  by eapply (hardware_ready_evolves (mkScope types false)); [|auto|].
Qed.

Lemma updateClusterInstance_evolves ci nar :
  preserves (evolves (mkScope [PRconditionTypes.HardwareNodeConfigApplied] false) anything)
    (updateClusterInstance env ci nar).
Proof using. unfold updateClusterInstance. walk. Qed.

Lemma provision_status_ready ci nar :
  leads (fun _ => True) (checkNodeAllocationRequestProvisionStatus env ci nar)
    (fun r t => r.1.1 = true -> hardware_ready t) (fun _ => True).
Proof using.
  unfold checkNodeAllocationRequestProvisionStatus. eapply leads_bind; [apply updateHardwareStatus_ready|].
  intros [[|] failed]; cbv beta iota; [|by apply leads_ret].
  eapply (leads_bind _ _ _ (fun _ t => true = true -> hardware_ready t)); [|by intros ci'; apply leads_ret].
  eapply hardware_part; [|apply evolves_wrapped, updateClusterInstance_evolves]. set_solver.
Qed.

Lemma waitForHardwareData_ready ci nar :
  leads (fun _ => True) (waitForHardwareData env ci nar)
    (fun r t => r.1.1.1 = true -> hardware_ready t) (fun _ => True).
Proof using.
  unfold waitForHardwareData. eapply leads_bind; [apply leads_try, provision_status_ready|].
  intros [e|[[provisioned failed] ci']]; cbv beta iota.
  { eapply leads_bind; [apply leads_any|intros ?]. by apply leads_raise. }
  eapply leads_bind; [apply (hardware_part [] (provisioned = true)); [set_solver|walk]|intros ?].
  destruct provisioned; [|by apply leads_ret].
  eapply (leads_bind _ _ _ (fun _ t => true = true -> hardware_ready t)); [|by intros []; apply leads_ret].
  apply (hardware_part [PRconditionTypes.HardwareConfigured]); [set_solver|].
  unfold checkNodeAllocationRequestConfigStatus, checkNodeAllocationRequestStatus, updateHardwareStatus. walk.
Qed.

Lemma handleNodeAllocationRequestProvisioning_ready ci :
  leads (fun _ => True) (handleNodeAllocationRequestProvisioning env ci)
    (fun r t => r.2 <> None -> hardware_ready t) (fun _ => True).
Proof using.
  unfold handleNodeAllocationRequestProvisioning. eapply leads_bind; [apply leads_any|intros r].
  destruct r as [e|rendered]; [case_match; [by apply leads_ret|by apply leads_raise]|].
  eapply leads_bind; [apply leads_any|intros ?]. eapply leads_bind; [apply leads_any|intros o].
  case_decide; [by apply leads_raise|]. eapply leads_bind; [apply leads_any|intros [nar|]]; [|by apply leads_ret].
  eapply leads_bind; [apply waitForHardwareData_ready|]. intros [[[provisioned configured] failed] ci'].
  cbv beta iota. destruct failed; [by apply leads_ret|]. destruct provisioned; simpl; [|by apply leads_ret].
  case_match; apply leads_ret; [done|]. auto.
Qed.

(** ** The parts that install *)

Lemma handleScaleInDrain_installs ci : preserves (evolves everything guarded) (handleScaleInDrain env ci).
Proof using.
  intros t. destruct (IsClusterProvisionCompleted (object t)) eqn:Ec.
  - apply (to_everything no_condition); [split; [set_solver|done]|]. apply evolves_ready; [by right|].
    by apply handleScaleInDrain_evolves.
  - unfold handleScaleInDrain. change (?m ≫= ?k) with (fun t => k (object t) t). cbv beta. rewrite Ec. reflexivity.
Qed.

Lemma applyClusterInstance_evolves ci dry : preserves (evolves no_condition keeping_event) (applyClusterInstance env ci dry).
Proof using. unfold applyClusterInstance. walk. Qed.

Lemma handleClusterInstallation_installs ci t :
  hardware_ready t -> evolves everything guarded t (handleClusterInstallation env ci t).1.
Proof using.
  intros Ht. unfold handleClusterInstallation. apply from_bind.
  - apply (to_everything no_condition); [split; [set_solver|done]|]. apply evolves_ready; [by left|].
    apply preserves_try, applyClusterInstance_evolves.
  - intros [e|[]]; walk.
Qed.
End install.

(** ** All of a reconcile *)

Section reconcile.
Context `{Laws : SubsystemLaws} (env : Env).

Lemma routine_part {A} T (m : prog A) :
  scope_le T everything -> preserves (evolves T routine_event) m -> preserves (evolves everything guarded) m.
Proof using. intros HT. apply preserves_weaken; [done|apply routine_guarded]. Qed.

Lemma parts_everything : scope_le any_condition everything.
Proof using. by split. Qed.

Lemma executeProvisioningPhases_guarded : preserves (evolves everything guarded) (executeProvisioningPhases env).
Proof using.
  unfold executeProvisioningPhases. apply preserves_bind.
  { by apply (routine_part everything), handlePreProvisioning_evolves. }
  intros [[rendered|] result]; [|apply preserves_ret].
  apply preserves_bind; [apply handleScaleInDrain_installs|]. intros [|]; [apply preserves_ret|].
  intros t. apply (from_bind_post _ _ _ (fun r t => r.2 <> None -> hardware_ready t)).
  - by apply (routine_part everything), handleNodeAllocationRequestProvisioning_evolves.
  - eapply wp_mono; [by apply handleNodeAllocationRequestProvisioning_ready|].
    by intros s' [] Hs.
  - intros [res [ci|]] s' Hs; [|reflexivity]. apply from_bind; [|intros r; walk].
    unfold executeClusterInstallationPhase. apply from_bind; [by apply handleClusterInstallation_installs, Hs|].
    intros r. walk.
Qed.

Lemma run_guarded : preserves (evolves everything guarded) (run env).
Proof using Laws.
  pose proof (routine_part _ _ parts_everything preflight_cleanup_law).
  assert (scope_le everything everything) as Hall by done.
  pose proof (routine_part _ _ Hall seed_law).
  pose proof executeProvisioningPhases_guarded.
  pose proof (fun ci => routine_part _ _ Hall (handlePostProvisioning_evolves env ci)).
  unfold run, reconcileSeedGenerationFailureCleanup. walk.
Qed.

Lemma no_install_ready e : no_install e -> installs_when_ready e.
Proof using. destruct e as [o A c]. destruct c; try done. by destruct isDryRun. Qed.

Lemma Reconcile_evolves : preserves (evolves everything installs_when_ready) (Reconcile env).
Proof using Laws.
  pose proof (preserves_weaken _ everything _ _ _ parts_everything no_install_ready (handleFinalizer_evolves env)).
  assert (scope_le everything everything) as Hall by done.
  pose proof (preserves_weaken _ everything _ _ _ Hall guarded_installs run_guarded).
  unfold Reconcile. walk.
Qed.
End reconcile.
