(* ===== verification/ProvisioningProperties.v ===== *)
(** * Properties of the reconciler of ProvisioningRequests

    The theorems hold for every environment, whatever it answers and whichever calls
    fail.  They are applied to an environment where everything goes well. *)
From S2P Require Import Prelude Conditions GoText Unstructured Handler ProvisioningStatus MergeMaps UpgradePlan UpgradeGraph ProvisioningTask ProvisioningPolicy NodeConfiguration ProvisioningHardware ProvisioningValidation ProvisioningCluster ProvisioningRequest ProvisioningFacts ProvisioningSafety ProvisioningInstall.
#[local] Open Scope string_scope.
#[local] Open Scope Z_scope.

(** ** An environment *)

Module Demo.

(** No upgrade and no seed generation. *)
Definition no_subsystems : Subsystems := {|
  reconcileSeedGeneration := mret doNotRequeue;
  cleanupSeedGenerationPreflightResources := mret false;
  startOrResumeSeedGeneration _ := mret doNotRequeue;
  cleanupSeedGenerationResources := mret true;
  IsUpgradeRequested _ _ := mret (false, doNotRequeue);
  handleUpgrade _ _ := mret (doNotRequeue, true);
  cleanupStaleUpgradeState _ := mret tt;
|}.

Lemma no_subsystems_laws : @SubsystemLaws no_subsystems.
Proof. split; intros; first [apply preserves_ret|apply leads_ret; first [exact clean_settled|done]]. Qed.

Definition cond (t : string) (status : ConditionStatus) : Condition := mkCondition t status "Completed" "" 0 0.

Definition template : ClusterTemplate :=
  mkTemplate "t.v1" "ns" "template-uid" [cond "ClusterTemplateValidated" ConditionTrue] false "cm1" "cm2" "id" "4.20.0" (Some []).

Definition interface : value := VMap [("label", VStr "boot-interface"); ("name", VStr "eth0")].
Definition node : value :=
  VMap [("hostName", VStr "host1"); ("role", VStr "master");
        ("nodeNetwork", VMap [("interfaces", VSlice [interface])])].
Definition spec : value := VMap [("clusterName", VStr "cluster1"); ("nodes", VSlice [node])].
Definition group : value := VMap [("name", VStr "controller"); ("role", VStr "master"); ("hwProfile", VStr "profile")].

(** [hardware] is the status of the hardware, [cluster] that of the cluster. *)
Section api.
Context (hardware cluster : ConditionStatus).

Definition nar : NodeAllocationRequest :=
  mkNAR (mkNARSpec "cluster1" "site" [mkGroup "controller" "master" "profile" "" ∅ 1] 1
           DefaultHardwareProvisioningTimeout false false)
    None false [cond "Provisioned" hardware] 1 ["node1"].
Definition allocated : AllocatedNode :=
  mkAllocated "node1" "controller" (Some ("address", "credentials")) [mkInterface "boot-interface" "mac"] "bmh" "bmh-ns"
    [cond "Provisioned" hardware].
Definition instance : ClusterInstance :=
  mkCI "cluster1" spec (cond "Provisioned" cluster :: map (fun t => cond t ConditionTrue) clusterInstanceConditionTypes).
Definition managed : ManagedCluster :=
  mkManaged (map (fun t => cond t ConditionTrue)
    ["ManagedClusterConditionAvailable"; "HubAcceptedManagedCluster"; "ManagedClusterJoined"]) (Some "id") (Some "4.20.0") false true.

Definition version : ClusterVersion :=
  mkCV 1 (mkCVSpec "stable" "" None) 1 [mkHistory "4.20.0" true 0 (Some 0)] [] [].

Definition answer A (c : call A) (_ : list event) : error + A :=
  match c with
  | ListClusterTemplates => inr [template]
  | GetConfigMap _ _ => inr ∅
  | GetNamespaceOwner _ => inr "pr"
  | ExtractMatchingInput _ => inr (VStr "site")
  | GetNAR => inr nar
  | GetClusterInstance _ => inr instance
  | ClusterInstanceDeleting _ => inr false
  | GetManagedCluster _ => inr managed
  | ListPolicies _ _ => inr []
  | ListAllocatedNodes => inr [allocated]
  | GetAllocatedNode _ => inr allocated
  | ListSpokeNodes => inr ["host1"]
  | SpokeNodeCordoned _ => inr false
  | ListNamespaces => inr []
  | AskSource _ => inr false
  | RenderClusterInstance => inr instance
  | MergeClusterInput => inr (spec, ∅)
  | MergeHwMgmtInput => inr [("nodeGroupData", VSlice [group])]
  | DecodeTemplateParameters => inr []
  | MergeUpgradeData => inr []
  | EnsureSpokeClient _ => inr true
  | GetClusterVersion => inr version
  | DecodeCVSpec _ => inr (cv_Spec version)
  | ListMCPs => inr []
  | GetGraph _ _ _ => inr (mkGraph [] [])
  | GetIBGU | BuildIBGU _ => inr (mkIBGU "4.20.0" [] [])
  | UpdateStatus _ | UpdateRequest _ | PatchRequest _ | GetHardwareProfile _ | CreateNAR _ | PatchNAR _ _
  | DeleteNAR | ApplyClusterInstance _ _ | DeleteClusterInstance _ | UpdateManagedCluster _ _
  | PatchManagedCluster _ _ | SpokeClient | UncordonNode _ | ResourceExists _ _ _ | DeleteNamespace _
  | RunSource _ | CleanupSpokeAccess _ | PatchClusterVersion _ _ | PatchMCP _ _ | CreateIBGU _ _ | DeleteIBGU => inr tt
  | Seed _ => inl (Errorf "not used")
  end.

(** A second passes with each call. *)
Definition env : Env :=
  mkEnv answer (fun l => Second * Z.of_nat (length l)) (fun _ => None) (fun _ => true) "operator".
End api.

Definition request : ProvisioningRequest :=
  mkPR "pr" "uid-1" "t" "v1" 1 0 false true false [] StateNone "" None None None ∅ [] [].
End Demo.

Definition demo : task := (@Reconcile Demo.no_subsystems (Demo.env ConditionTrue ConditionTrue) (new_task Demo.request)).1.

(** ** The request over many reconciles *)

(** The request after reconciles and edits: what a status update sends replaces it, also
    when the reconcile then fails; a user may change all but the status. *)
Section history.
Context {subsystems : Subsystems}.

Definition same_status (o o' : ProvisioningRequest) : Prop :=
  Conditions o' = Conditions o /\ Phase o' = Phase o /\ Details o' = Details o /\ UpdateTime o' = UpdateTime o
  /\ ObservedGeneration o' = ObservedGeneration o /\ OCloudNodeClusterId o' = OCloudNodeClusterId o
  /\ Cluster o' = Cluster o /\ AllocatedNodeHostMap o' = AllocatedNodeHostMap o /\ Policies o' = Policies o
  /\ InfrastructureResourceStatuses o' = InfrastructureResourceStatuses o.

Inductive history (o : ProvisioningRequest) : ProvisioningRequest -> Prop :=
| history_start : history o o
| history_update env o1 o2 o3 :
    history o o1 -> Ev o2 (UpdateStatus o3) ∈ log (Reconcile env (new_task o1)).1 -> history o o3
| history_edit o1 o2 : history o o1 -> same_status o1 o2 -> history o o2.

Context {laws : SubsystemLaws}.

(** What a reconcile sends is the request it read, changed. *)
Lemma updates_change env o o2 o3 :
  Ev o2 (UpdateStatus o3) ∈ log (Reconcile env (new_task o)).1 -> rtc (change everything) o o3.
Proof.
  intros Hin. destruct (Reconcile_evolves env (new_task o)) as [_ (es & Hl & Hes)].
  rewrite Hl in Hin. simpl in Hin. rewrite Forall_forall in Hes. destruct (Hes _ Hin) as (_ & Hs & Hc).
  simpl in Hs, Hc. by subst.
Qed.

(** A property of the status that changes keep is kept for ever. *)
Lemma history_keeps (I : ProvisioningRequest -> Prop) :
  (forall o o', change everything o o' -> I o -> I o') -> (forall o o', same_status o o' -> I o -> I o') ->
  forall o o', history o o' -> I o -> I o'.
Proof.
  intros Hc Hs o o'. induction 1; eauto. intros Ho. eapply changes_keep; [exact Hc| |by apply IHhistory].
  by eapply updates_change.
Qed.
End history.

(** ** Theorems *)

(** C1: A status update that makes a request fulfilled is sent only when all that was
    asked for is there: the cluster is installed, its configuration applied, its
    hardware configured, and an upgrade, if one was started, is completed; or a seed
    image was generated.  This holds for every status update of every reconcile that
    starts with a request that is not fulfilled, also when calls fail. *)
Theorem fulfilled_only_complete {subsystems : Subsystems} {laws : SubsystemLaws} env o o1 o2 :
  Phase o <> StateFulfilled ->
  Ev o1 (UpdateStatus o2) ∈ log (Reconcile env (new_task o)).1 ->
  Phase o2 = StateFulfilled ->
  is_complete o2 = true \/ condition_is o2 PRconditionTypes.SeedGenerationCompleted is_true = true.
Proof.
  intros Hp Hin. assert (clean (new_task o)) as Hc by (split; [done|apply Forall_nil_2]).
  pose proof (Reconcile_leads env (new_task o) Hc) as Hs. unfold wp in Hs.
  assert (Forall (sends justified) (log (Reconcile env (new_task o)).1)) as Hl.
  { destruct (Reconcile env (new_task o)) as [t []]; apply Hs. }
  rewrite Forall_forall in Hl. apply (Hl _ Hin).
Qed.

(** C3: A cluster whose ZTP is done stays so: whatever reconciles follow, with any
    answers and failures, and however the user edits the request, every status that is
    stored says ZTP Done. *)
Theorem ztp_done_for_ever {subsystems : Subsystems} {laws : SubsystemLaws} o o' :
  history o o' -> IsClusterZtpDone o = true -> IsClusterZtpDone o' = true.
Proof.
  apply (history_keeps ztp_done).
  - intros a b Hc. eapply changes_ztp_done. by apply rtc_once.
  - intros a b (_&_&_&_&_&_&Hc&_). unfold ztp_done, IsClusterZtpDone. by rewrite Hc.
Qed.

(** C2: A ClusterInstance is applied for good, not as a dry run, only when the hardware
    of the request is provisioned or its cluster was installed before. *)
Theorem install_on_provisioned_hardware {subsystems : Subsystems} {laws : SubsystemLaws} env o o1 ci :
  Ev o1 (ApplyClusterInstance ci false) ∈ log (Reconcile env (new_task o)).1 ->
  condition_is o1 PRconditionTypes.HardwareProvisioned is_true = true \/ IsClusterProvisionCompleted o1 = true.
Proof.
  intros Hin. destruct (Reconcile_evolves env (new_task o)) as [_ (es & Hl & Hes)].
  rewrite Hl in Hin. simpl in Hin. rewrite Forall_forall in Hes. apply (Hes _ Hin).
Qed.

(** ** Witnesses *)

Module Witness.
(** The status updates of a log, and the last one of the example. *)
Definition updates_of (l : list event) : list ProvisioningRequest :=
  omap (fun e => match ev_call e with UpdateStatus o => Some o | _ => None end) l.
Definition last_update : ProvisioningRequest := default Demo.request (last (updates_of (log demo))).

Lemma last_update_sent : Ev last_update (UpdateStatus last_update) ∈ log demo.
Proof. apply (list_elem_of_lookup_2 _ 42). vm_compute. reflexivity. Qed.

(** The request when its ClusterInstance is applied. *)
Definition installing : ProvisioningRequest := default Demo.request (ev_object <$> log demo !! 30%nat).
Definition applied : ClusterInstance :=
  default (Demo.instance ConditionTrue)
    (head (omap (fun e => match ev_call e with ApplyClusterInstance ci _ => Some ci | _ => None end) (log demo))).

Lemma applied_sent : Ev installing (ApplyClusterInstance applied false) ∈ log demo.
Proof. apply (list_elem_of_lookup_2 _ 30). vm_compute. reflexivity. Qed.

(** A later reconcile, while the cluster is installed again. *)
Definition later : task :=
  (@Reconcile Demo.no_subsystems (Demo.env ConditionTrue ConditionFalse) (new_task last_update)).1.
Definition relapsed : ProvisioningRequest := default Demo.request (last (updates_of (log later))).
Lemma relapsed_sent : Ev relapsed (UpdateStatus relapsed) ∈ log later.
Proof. apply (list_elem_of_lookup_2 _ 36). vm_compute. reflexivity. Qed.
End Witness.

Lemma fulfilled_only_complete_witness :
  exists o1 o2, Ev o1 (UpdateStatus o2) ∈ log demo /\ Phase o2 = StateFulfilled /\
    (is_complete o2 = true \/ condition_is o2 PRconditionTypes.SeedGenerationCompleted is_true = true).
Proof.
  exists Witness.last_update, Witness.last_update. split_and!; [exact Witness.last_update_sent|by vm_compute|].
  apply (@fulfilled_only_complete _ Demo.no_subsystems_laws (Demo.env ConditionTrue ConditionTrue) Demo.request
    Witness.last_update); [done|exact Witness.last_update_sent|by vm_compute].
Defined.

Lemma ztp_done_for_ever_witness :
  IsClusterZtpDone Witness.last_update = true /\ Phase Witness.relapsed = StateProgressing /\
  IsClusterZtpDone Witness.relapsed = true.
Proof.
  split_and!; [by vm_compute|by vm_compute|].
  apply (@ztp_done_for_ever _ Demo.no_subsystems_laws Witness.last_update); [|by vm_compute].
  eapply history_update; [apply history_start|exact Witness.relapsed_sent].
Defined.

Lemma install_on_provisioned_hardware_witness :
  IsClusterProvisionCompleted Witness.installing = false /\
  (condition_is Witness.installing PRconditionTypes.HardwareProvisioned is_true = true
   \/ IsClusterProvisionCompleted Witness.installing = true).
Proof.
  split; [by vm_compute|].
  exact (@install_on_provisioned_hardware _ Demo.no_subsystems_laws (Demo.env ConditionTrue ConditionTrue)
           Demo.request Witness.installing Witness.applied Witness.applied_sent).
Defined.

(** * Timeouts of a ProvisioningRequest (theory of ProvisioningTask and ProvisioningRequest) *)

(** An installation that is overdue is found by the monitoring.  Its request is left
    alone from then on, although the comments of the controller say that it is
    monitored further; so is one that only seems overdue because the timeouts of its
    template could not be read. *)

(** A request that is reconciled at all: not new, not deleted, without seed
    generation. *)
Definition ordinary (o : ProvisioningRequest) : Prop :=
  BeingDeleted o = false /\ HasFinalizer o = true /\ seedGenerationCondition o = None /\
  match seed_status o with Some s => DetachmentStarted s = false /\ seed_StartedAt s = None | None => True end.

Lemma ordinary_route o :
  ordinary o -> seedGenerationNeedsFastPath o = false /\ seedGenerationFailureNeedsCleanup o = false.
Proof.
  intros (_ & _ & Hc & Hs). unfold seedGenerationNeedsFastPath, seedGenerationFailureNeedsCleanup,
    seedGenerationTerminal. rewrite Hc. destruct (seed_status o) as [s|]; [|done].
  destruct Hs as [-> ->]. done.
Qed.

(** The installation of this request is going on, since longer than its timeout. *)
Definition overdue (env : Env) (t : task) : Prop :=
  Phase (object t) <> StateFulfilled /\ IsClusterProvisionCompleted (object t) = false /\
  IsClusterProvisionTimedOutOrFailed (object t) = false /\
  exists d start, Cluster (object t) = Some d /\ ClusterProvisionStartedAt d = Some start /\
    clusterProvisioning (limits t) < clock env (log t) - start.

Definition timeout_message (t : task) : string :=
  "Cluster installation timed out after " ++ Duration_String (clusterProvisioning (limits t)).

(** The request that is sent when it is found overdue. *)
Definition timed_out (time : Z) (t : task) : ProvisioningRequest :=
  let message := timeout_message t in
  let o := object t in
  let o := with_conditions (SetStatusCondition time (Conditions o) PRconditionTypes.ClusterProvisioned
             CRconditionReasons.TimedOut ConditionFalse message) o in
  let o := SetProvisioningStateFailed time message o in
  with_observed (Generation o) o.

Lemma set_state_sets p time message o :
  Phase (set_state p time message o) = p /\ Details (set_state p time message o) = message
  /\ Generation (set_state p time message o) = Generation o.
Proof.
  unfold set_state. destruct (bool_decide _ || bool_decide _) eqn:E; [done|].
  apply orb_false_elim in E as [H1%bool_decide_eq_false H2%bool_decide_eq_false].
  split_and!; [by apply dec_stable|by apply dec_stable|done].
Qed.

Lemma timed_out_sets time t :
  exists c, Phase (timed_out time t) = StateFailed /\ Details (timed_out time t) = timeout_message t /\
    FindStatusCondition (Conditions (timed_out time t)) PRconditionTypes.ClusterProvisioned = Some c /\
    cond_Status c = ConditionFalse /\ cond_Reason c = CRconditionReasons.TimedOut /\
    cond_Message c = timeout_message t /\ ObservedGeneration (timed_out time t) = Generation (object t).
Proof.
  unfold timed_out, SetProvisioningStateFailed. set (o := with_conditions _ _).
  destruct (set_state_sets StateFailed time (timeout_message t) o) as (Hp & Hd & Hg).
  assert (Conditions (set_state StateFailed time (timeout_message t) o) = Conditions o) as Hc
    by (unfold set_state; by destruct (_ || _)).
  cbn [Phase Details Conditions ObservedGeneration with_observed]. rewrite Hc. unfold o at 3. cbn [Conditions with_conditions].
  unfold SetStatusCondition.
  rewrite (Find_SetStatusCondition_eq _ (mkCondition PRconditionTypes.ClusterProvisioned ConditionFalse
    CRconditionReasons.TimedOut (timeout_message t) time 0)).
  eexists. split_and!; [exact Hp|exact Hd|reflexivity|..]; cbn [cond_Type]; try done; by destruct (FindStatusCondition _ _).
Qed.

Lemma timed_out_stops time t : shouldStopReconciliation (timed_out time t) = true.
Proof.
  unfold timed_out, SetProvisioningStateFailed. set (o := with_conditions _ _).
  destruct (set_state_sets StateFailed time (timeout_message t) o) as (Hp & Hd & _).
  unfold shouldStopReconciliation. cbn [Phase Details ObservedGeneration Generation with_observed].
  rewrite Hp, Hd, Z.eqb_refl, bool_decide_eq_true_2 by done. cbn [andb]. rewrite andb_true_r.
  unfold timeout_message. apply (Contains_infix "Cluster installation " "timed out").
Qed.

Lemma overdue_detected env t :
  overdue env t ->
  exists t', checkClusterInstallationTimeout env t = (t', Ret true) /\
    object t' = timed_out (clock env (log t)) t /\
    log t' = (log t ++ [Ev (object t') (UpdateStatus (object t'))])%list.
Proof.
  intros (Hp & Hc & Hf & d & start & Hd & Hs & Ht).
  unfold checkClusterInstallationTimeout, get_state, mbind, handler_bind. cbv beta iota. rewrite Hd, Hs.
  unfold IsProvisioningStateFulfilled. rewrite bool_decide_eq_false_2 by done. rewrite Hc, Hf. cbn [orb].
  unfold now. unfold TimeoutExceeded. rewrite (proj2 (Z.ltb_lt _ _) Ht).
  unfold set_condition, set_failed, set_phase, UpdateK8sCRStatus, wrapped, try, trigger, get_object,
    modify_object, modify, now, mbind, handler_bind, mret, handler_ret.
  cbn [object log with_object fst snd].
  destruct (api env _ (log t)); (eexists; split; [reflexivity|by split]).
Qed.

Section timeouts.
Context `{Subsystems}.

(** A request that is left alone. *)
Lemma stopped_reconcile env o :
  ordinary o -> shouldStopReconciliation o = true -> Reconcile env (new_task o) = (new_task o, Ret doNotRequeue).
Proof.
  intros Ho Hs. destruct (ordinary_route o Ho) as [Hf Hc]. destruct Ho as (Hd & Hfin & _ & _).
  unfold Reconcile, handleFinalizer, run, reconcileSeedGenerationFailureCleanup, mbind, handler_bind, get_object.
  cbn [object new_task]. rewrite Hd, Hfin. cbn [negb object new_task mret handler_ret].
  rewrite Hf. cbn [object new_task]. rewrite Hc. cbn [negb object new_task mret handler_ret]. by rewrite Hs.
Qed.

Lemma timed_out_ordinary time t : ordinary (object t) -> ordinary (timed_out time t).
Proof.
  intros (Hd & Hf & Hc & Hs). unfold timed_out, SetProvisioningStateFailed, set_state.
  set (cs := SetStatusCondition _ _ _ _ _ _).
  assert (FindStatusCondition cs PRconditionTypes.SeedGenerationCompleted = None) as Hn.
  { unfold cs, SetStatusCondition. by rewrite Find_SetStatusCondition_ne. }
  destruct (_ || _); by split_and!.
Qed.

(** The comments of the controller say that a timed out installation is monitored
    further.  Every reconcile of a request in the state that was sent, whatever its
    environment, makes no call, changes nothing and asks for no requeue. *)
Lemma timed_out_never_monitored env env' t :
  ordinary (object t) -> overdue env t ->
  Reconcile env' (new_task (object (monitor_cluster env t).1)) =
    (new_task (object (monitor_cluster env t).1), Ret doNotRequeue).
Proof.
  intros Ho Hover. destruct (overdue_detected env t Hover) as (t' & Hr & Hobj & _).
  unfold monitor_cluster, mbind, handler_bind. rewrite Hr. cbn [fst mret handler_ret].
  apply stopped_reconcile; rewrite Hobj; [by apply timed_out_ordinary|apply timed_out_stops].
Qed.

Lemma not_overdue env t : ~ overdue env t -> checkClusterInstallationTimeout env t = (t, Ret false).
Proof.
  intros Hno. unfold checkClusterInstallationTimeout, get_state, now, mbind, handler_bind, mret, handler_ret. cbv beta iota.
  destruct (Cluster (object t)) as [d|] eqn:Hd; [|done].
  destruct (ClusterProvisionStartedAt d) as [start|] eqn:Hs; [|done].
  unfold IsProvisioningStateFulfilled. case_bool_decide as Hp; [done|].
  destruct (IsClusterProvisionCompleted (object t)) eqn:Hc; [done|].
  destruct (IsClusterProvisionTimedOutOrFailed (object t)) eqn:Hf; [done|]. cbn [orb].
  unfold TimeoutExceeded. destruct (Z.ltb_spec (clusterProvisioning (limits t)) (clock env (log t) - start)) as [Ht|]; [|done].
  destruct Hno. split_and!; [done..|]. by exists d, start.
Qed.

(** C7: An installation that is overdue fails its request: the monitoring of the cluster
    sends one status update, whether or not it succeeds, in which the request is failed
    with a message that gives the timeout, its cluster is not provisioned because it
    timed out, and the generation was observed; and it looks again later.  One that is
    not overdue (completed, failed, not started, or within its timeout), or whose
    request is fulfilled, is not touched by the check. *)
Theorem overdue_installation_fails env t :
  (overdue env t ->
   exists t' c, monitor_cluster env t = (t', Ret requeueWithMediumInterval) /\
     log t' = (log t ++ [Ev (object t') (UpdateStatus (object t'))])%list /\
     Phase (object t') = StateFailed /\ Details (object t') = timeout_message t /\
     FindStatusCondition (Conditions (object t')) PRconditionTypes.ClusterProvisioned = Some c /\
     cond_Status c = ConditionFalse /\ cond_Reason c = CRconditionReasons.TimedOut /\
     cond_Message c = timeout_message t /\
     ObservedGeneration (object t') = Generation (object t)) /\
  (~ overdue env t -> checkClusterInstallationTimeout env t = (t, Ret false)).
Proof.
  split; [|apply not_overdue]. intros Hover.
  destruct (overdue_detected env t Hover) as (t' & Hr & Hobj & Hlog).
  destruct (timed_out_sets (clock env (log t)) t) as (c & Hsets). rewrite <- Hobj in Hsets.
  exists t', c. split; [|by split].
  unfold monitor_cluster, mbind, handler_bind. by rewrite Hr.
Qed.
End timeouts.

(** ** An example, and what a lost template does *)

Module Late.
(** The environment of the example, a day later; the templates may be out of reach. *)
Definition answer (templates : bool) A (c : call A) (l : list event) : error + A :=
  match c with
  | ListClusterTemplates => if templates then inr [Demo.template] else inl (mkError false Transient "timeout")
  | c => Demo.answer ConditionTrue ConditionFalse _ c l
  end.
Definition env (templates : bool) (delay : Z) : Env :=
  mkEnv (answer templates) (fun l => delay + Second * Z.of_nat (length l)) (fun _ => None) (fun _ => true) "operator".

(** The request while its cluster is being installed. *)
Definition installing : task :=
  (@Reconcile Demo.no_subsystems (Demo.env ConditionTrue ConditionFalse) (new_task Demo.request)).1.
(** Its task once the timeouts are loaded. *)
Definition monitored : task :=
  with_limits (mkTimeouts 0 DefaultClusterInstallationTimeout 0 0) (new_task (object installing)).
End Late.

Lemma overdue_installation_fails_witness :
  Phase (object Late.monitored) = StateProgressing /\
  (exists t' c, @monitor_cluster (Late.env true (1440 * Minute)) Late.monitored
               = (t', Ret requeueWithMediumInterval) /\
    log t' = (log Late.monitored ++ [Ev (object t') (UpdateStatus (object t'))])%list /\
    Phase (object t') = StateFailed /\ Details (object t') = "Cluster installation timed out after 1h30m0s" /\
    FindStatusCondition (Conditions (object t')) PRconditionTypes.ClusterProvisioned = Some c /\
    cond_Status c = ConditionFalse /\ cond_Reason c = CRconditionReasons.TimedOut /\
    cond_Message c = "Cluster installation timed out after 1h30m0s" /\
    ObservedGeneration (object t') = Generation (object Late.monitored)) /\
  checkClusterInstallationTimeout (Late.env true Minute) Late.monitored = (Late.monitored, Ret false).
Proof.
  split; [by vm_compute|]. split.
  - replace "Cluster installation timed out after 1h30m0s" with (timeout_message Late.monitored) by (vm_compute; reflexivity).
    apply overdue_installation_fails. split_and!; [by vm_compute|by vm_compute|by vm_compute|]. do 2 eexists.
    split_and!; [vm_compute; reflexivity|reflexivity|vm_compute; reflexivity].
  - apply (overdue_installation_fails (Late.env true Minute) Late.monitored).
    intros (_ & _ & _ & d & start & Hd & Hs & Ht). vm_compute in Hd. injection Hd as <-. vm_compute in Hs. injection Hs as <-.
    vm_compute in Ht. discriminate Ht.
Defined.

(** A minute after the start, the list of the templates fails once: the timeouts of the
    template are not loaded, stay zero, and the installation is given up for good. *)
Lemma lost_template_stops_installation :
  let t := (@Reconcile Demo.no_subsystems (Late.env false Minute) (new_task (object Late.installing))).1 in
  Phase (object Late.installing) = StateProgressing /\ Phase (object t) = StateFailed /\
  Details (object t) = "Cluster installation timed out after 0s" /\ shouldStopReconciliation (object t) = true.
Proof. vm_compute. by split_and!. Qed.
