(* ===== verification/UpgradeProperties.v ===== *)
(** * Properties of the upgrades, and their witnesses

    The contract with the reconciler, and the theorems on upgrades applied to a cluster
    with two worker pools that are rolled out one after the other. *)
From S2P Require Import Prelude Conditions GoText Unstructured Handler ProvisioningStatus MergeMaps UpgradePlan UpgradeGraph ProvisioningTask UpgradeConfig UpgradeRollout UpgradeQuiet UpgradeRolloutFacts ProvisioningPolicy NodeConfiguration ProvisioningHardware ProvisioningValidation ProvisioningCluster ProvisioningRequest Upgrade ProvisioningFacts ProvisioningSafety ContractLaws UpgradePause UpgradeFacts ProvisioningInstall ProvisioningProperties.
#[local] Open Scope string_scope.
#[local] Open Scope Z_scope.

(** ** The contract *)

(** The upgrades keep the contract that the reconciler's theorems rely on: asking
    whether an upgrade is due, running its next step, and removing a stale one neither
    install or delete anything nor touch the ZTP status; they set no condition that is not
    one of the request's; every status they send is the request in memory; and an upgrade
    fulfills the request only as a seed image that is generated, and is not proceeded from
    then.  So the theorems on the reconciler hold with the upgrades of the source in
    place, whatever the cluster and the API server answer. *)
Theorem upgrades_keep_contract `{Semver} `{Urls} `{seeds : SeedGeneration} `{!SeedLaws} env :
  @SubsystemLaws (with_upgrades env).
Proof. apply with_upgrades_laws. Qed.

(** ** A cluster *)

Module Fleet.
(** Numbered versions, any URL, and no seed image. *)
#[export] Instance urls : Urls := {| absolute_http _ := Some true |}.
#[export] Instance seeds : SeedGeneration := {|
  seed_reconcile := mret doNotRequeue;
  seed_cleanup_preflight := mret false;
  seed_start _ := mret doNotRequeue;
  seed_cleanup := mret true;
|}.
Lemma no_seed_laws : SeedLaws.
Proof. split; intros; first [apply preserves_ret|apply leads_ret; exact clean_settled]. Qed.

Definition cond (t : string) (status : ConditionStatus) : Condition := mkCondition t status "" "" 0 0.
Definition pool (name : string) (paused updated : bool) : MachineConfigPool :=
  mkMCP name paused 1 1 [("Updated", updated)].
Definition master : MachineConfigPool := pool "master" false true.

(** The configuration asks for a rollout in the order of the names. *)
Definition upgrade_data : object_map :=
  [("clusterVersion", VMap [("cvSpec", VMap []); ("workerPoolUpgrade", VMap [("strategy", VLeaf "string" "Serial")])])].

Section answers.
Context (pools : list MachineConfigPool) (history : list UpdateHistory).

Definition version : ClusterVersion :=
  mkCV 1 (mkCVSpec "stable-4.20" "" None) 1 history ["4.20.5"] [cond "RetrievedUpdates" ConditionTrue].

Definition answer A (c : call A) (l : list event) : error + A :=
  match c with
  | ListMCPs => inr (master :: pools)
  | GetClusterVersion => inr version
  | MergeUpgradeData => inr upgrade_data
  | DecodeTemplateParameters =>
      inr [("upgradeParameters", VMap [("clusterVersion", VMap [("workerPoolUpgrade", VMap [("upgradeThrough", VLeaf "string" "second")])])])]
  | DecodeCVSpec _ => inr (mkCVSpec "stable-4.20" "" None)
  | c => Demo.answer ConditionTrue ConditionTrue _ c l
  end.
Definition env : Env :=
  mkEnv answer (fun l => Second * Z.of_nat (length l)) (fun _ => None) (fun _ => true) "operator".
End answers.

Definition installed (version : string) : UpdateHistory := mkHistory version true 0 (Some 1).
(** Before the upgrade, and after that of the control plane. *)
Definition before : Env := env [pool "worker-a" false true; pool "worker-b" false true] [installed "4.20.0"].
Definition rolling : Env := env [pool "worker-a" false true; pool "worker-b" true false] [installed "4.20.5"; installed "4.20.0"].
Definition done : Env := env [pool "worker-a" false true; pool "worker-b" false true] [installed "4.20.5"; installed "4.20.0"].

Definition template : ClusterTemplate :=
  mkTemplate "t.v2" "ns" "template-uid" [] false "cm1" "cm2" "id" "4.20.5" (Some []).
Definition config : UpgradeConfig := mkUpgradeConfig ClusterVersionUpgrade 0.

(** A request whose upgrade has this plan. *)
Definition with_plan (w : option WorkerPoolUpgradeStatus) : task :=
  let d := mkClusterDetails "cluster1" "ZTP Done" (Some 0) None
             (Some (mkUpgrade (Some 0) None None None "4.20.0" "" w)) None 0 in
  new_task (with_cluster (Some d) Demo.request).
Definition serial : WorkerPoolUpgradeStatus := mkWorkerPools Serial [] [] "" true.
Definition staged : WorkerPoolUpgradeStatus :=
  mkWorkerPools Custom [] [mkStage "first" ["worker-a"] "Completed" None None;
                           mkStage "second" ["worker-b"] "AwaitingAuthorization" None None] "first" true.

(** The calls of a run, and where it triggers the upgrade. *)
Definition start : task := (@handleClusterVersionUpgrade Triples.semver urls before template "cluster1" config (with_plan None)).1.
End Fleet.

(** ** Witnesses *)

Lemma upgrades_keep_contract_witness :
  @SubsystemLaws (@with_upgrades Triples.semver Fleet.urls Fleet.seeds Fleet.before).
Proof. exact (@upgrades_keep_contract Triples.semver Fleet.urls Fleet.seeds Fleet.no_seed_laws Fleet.before). Defined.

(** The second pool is released once the first is updated. *)
Lemma rollout_in_order_witness :
  exists es, log (reconcileWorkerPoolRollout Fleet.rolling Fleet.template (Fleet.with_plan (Some Fleet.serial))).1 = es /\
    length es = 3%nat /\ Forall (in_turn_listed (listed Fleet.rolling []) Fleet.serial) es.
Proof.
  destruct (rollout_in_order Fleet.rolling Fleet.template (Fleet.with_plan (Some Fleet.serial)) Fleet.serial)
    as (es & He & Hes); [reflexivity|].
  exists es. split_and!; [exact He| |exact Hes].
  transitivity (length (log (reconcileWorkerPoolRollout Fleet.rolling Fleet.template (Fleet.with_plan (Some Fleet.serial))).1));
    [by rewrite He|by vm_compute].
Defined.

(** The second stage is authorized. *)
Lemma authorization_only_grows_witness :
  exists w, workers_of (object (refreshCustomStageAuthorization Fleet.rolling Fleet.template (Fleet.with_plan (Some Fleet.staged))).1)
              = Some w /\ UpgradeThrough w = "second" /\ grown Fleet.staged w.
Proof.
  destruct (authorization_only_grows Fleet.rolling Fleet.template (Fleet.with_plan (Some Fleet.staged)) Fleet.staged)
    as (w & Hw & Hg); [reflexivity|].
  exists w. split_and!; [exact Hw| |exact Hg].
  assert (UpgradeThrough <$> Some w = Some "second") as Hs; [|by injection Hs].
  rewrite <- Hw. by vm_compute.
Defined.

(** The upgrade is triggered after both pools were asked to pause. *)
Lemma upgrade_holds_workers_back_witness :
  exists l1 e, e ∈ log Fleet.start /\ triggers e /\ length l1 = 10%nat /\ held_back Fleet.before l1 (ev_object e).
Proof.
  assert (exists e, log Fleet.start !! 10%nat = Some e /\ triggers e) as (e & He & Ht).
  { eexists. split; [vm_compute; reflexivity|]. by vm_compute. }
  exists (log (Fleet.with_plan None) ++ take 10 (log Fleet.start))%list, e.
  split_and!; [by eapply list_elem_of_lookup_2|exact Ht|by vm_compute|].
  apply (@upgrade_holds_workers_back Triples.semver Fleet.urls Fleet.before Fleet.template "cluster1" Fleet.config
           (Fleet.with_plan None) (take 10 (log Fleet.start)) e (drop 11 (log Fleet.start))); [|exact Ht].
  change (log (Fleet.with_plan None)) with (@nil event). rewrite app_nil_l, take_drop_middle by exact He.
  unfold Fleet.start. reflexivity.
Defined.

(** The upgrade is completed. *)
Lemma upgrade_completed_when_over_witness :
  let t := (@handleClusterVersionUpgrade Triples.semver Fleet.urls Fleet.done Fleet.template "cluster1" Fleet.config
              (Fleet.with_plan (Some Fleet.serial))).1 in
  IsClusterUpgradeCompleted (object t) = true /\ @upgrade_over Triples.semver Fleet.done Fleet.template "cluster1" (log t).
Proof.
  intros t. split; [by vm_compute|].
  assert (Ev (object t) (UpdateStatus (object t)) ∈ log t) as Hin.
  { apply (list_elem_of_lookup_2 _ 4). vm_compute. reflexivity. }
  exact (@upgrade_completed_when_over Triples.semver Fleet.urls Fleet.done Fleet.template "cluster1" Fleet.config
           (Fleet.with_plan (Some Fleet.serial)) (log t) (object t) (object t) eq_refl eq_refl Hin ltac:(by vm_compute)).
Defined.

(** ** What is lost *)

Module Lost.
(** The image based upgrade is done, and the status cannot be stored. *)
Definition image : ImageBasedGroupUpgrade := mkIBGU "4.20.5" [Fleet.cond "Progressing" ConditionFalse] [].
Definition finished A (c : call A) (l : list event) : error + A :=
  match c with
  | GetIBGU => inr image
  | UpdateStatus _ => inl (mkError false Transient "timeout")
  | c => Fleet.answer [] [] _ c l
  end.
(** Later: it is gone. *)
Definition gone A (c : call A) (l : list event) : error + A :=
  match c with
  | GetIBGU => inl (mkError false NotFound "not found")
  | MergeUpgradeData => inr [("imageBasedGroupUpgrade", VMap [])]
  | BuildIBGU _ => inr (mkIBGU "4.20.5" [] [])
  | c => Fleet.answer [] [] _ c l
  end.
Definition env_of (a : forall A, call A -> list event -> error + A) : Env :=
  mkEnv a (fun l => Second * Z.of_nat (length l)) (fun _ => None) (fun _ => true) "operator".

(** The request of an upgrade that is in progress. *)
Definition upgrading : ProvisioningRequest :=
  with_conditions [mkCondition "UpgradeCompleted" ConditionFalse "InProgress" "" 0 0] (object (Fleet.with_plan None)).

Definition is_delete (e : event) : bool := match ev_call e with DeleteIBGU => true | _ => false end.
Definition is_create (e : event) : bool := match ev_call e with CreateIBGU _ false => true | _ => false end.

(** The controller paused the pools, and the upgrade timed out. *)
Definition paused : Env := Fleet.env [Fleet.pool "worker-a" true true; Fleet.pool "worker-b" true true] [Fleet.installed "4.20.0"].
Definition timed_out : task :=
  let t := Fleet.with_plan (Some Fleet.serial) in
  with_object (with_conditions [mkCondition "UpgradeCompleted" ConditionFalse "TimedOut" "" 0 0] (object t)) t.
Definition cleaned : task := (UpgradeRollout.cleanupStaleUpgradeState paused "cluster1" timed_out).1.
End Lost.

(** The ImageBasedGroupUpgrade is deleted before the completion is stored: when that
    fails, the next reconcile of the stored request creates the upgrade again. *)
Lemma completed_IBGU_created_again :
  let first := handleIBGUUpgrade (Lost.env_of Lost.finished) Fleet.template (new_task Lost.upgrading) in
  let second := handleIBGUUpgrade (Lost.env_of Lost.gone) Fleet.template (new_task Lost.upgrading) in
  IsClusterUpgradeCompleted (object first.1) = true /\ existsb Lost.is_delete (log first.1) = true /\
  existsb Lost.is_create (log second.1) = true.
Proof. vm_compute. by split_and!. Qed.

(** A stale upgrade is forgotten with the pause state that the controller owns: the pools
    stay paused, and the next upgrade takes that for the work of the user and fails. *)
Lemma cleaned_upgrade_leaves_paused :
  let next := (@handleClusterVersionUpgrade Triples.semver Fleet.urls Lost.paused Fleet.template "cluster1" Fleet.config
                 (new_task (object Lost.cleaned))).1 in
  workers_of (object Lost.timed_out) = Some Fleet.serial /\ PauseStateManaged Fleet.serial = true /\
  existsb (fun e => match ev_call e with PatchMCP _ _ => true | _ => false end) (log Lost.cleaned) = false /\
  Details (object next) = "MachineConfigPools are paused: [worker-a worker-b]".
Proof. vm_compute. by split_and!. Qed.
