(* ===== verification/SeedProperties.v ===== *)
(** * Properties of seed generation, and their witnesses

    The contract of the whole program with its reconciler, and the theorems on a run,
    applied to a run whose spoke is to be detached, to one whose agent is asked and answers,
    and to a registry that asks for a token. *)
From Stdlib Require Import Ascii.
From S2P Require Import Prelude Conditions GoText Unstructured Handler ProvisioningStatus MergeMaps UpgradePlan UpgradeGraph SeedObjects ProvisioningTask ProvisioningValidation ProvisioningRequest Upgrade SeedSnapshot SeedWorkloads SeedRegistry SeedMirrors SeedInputs SeedPreflight SeedDetachment SeedCleanup SeedISO SeedGeneration SeedWorkloadFacts SeedSnapshotFacts SeedFrame SeedOnce SeedSpoke ProvisioningFacts ProvisioningSafety ContractLaws SeedEvidence ProvisioningProperties UpgradeProperties.
#[local] Open Scope string_scope.
#[local] Open Scope Z_scope.

(** ** Theorems *)

(** C9: The whole program keeps the contract of its reconciler: with the upgrades and seed
    generation of the source in place nothing is assumed of them, so the theorems on the
    reconciler hold of the program.  Neither component installs anything or deletes what the
    deletion of a request is to delete; both touch only the request's own conditions, keep
    the ZTP status, and send the request as it is in memory; and a run fulfills the request
    only when it is complete. *)
Theorem program_keeps_contract `{Semver} `{Urls} `{SeedEncoding} `{SeedLibraries} `{SeedFormats} `{SeedText} env :
  @SubsystemLaws (all_subsystems env).
Proof. exact (@with_upgrades_laws _ _ _ (seed_generation_laws env) env). Qed.

(** C10: The lifecycle agent of the spoke and the job of the live ISO are asked once.  In
    every reconcile of a run, whatever is answered: the call that asks comes directly after
    a status update that succeeded and stored the intent, and only when the intent did not
    stand at the beginning; and an intent that stands at the beginning stands at the end. *)
Theorem submitted_once `{Semver} `{SeedEncoding} `{SeedLibraries} `{SeedFormats} `{SeedText} env t A (c : seed_call A) :
  submits c = true ->
  (intent c (object t) = true -> intent c (object (reconcileSeedGeneration env t).1) = true) /\
  (forall h o l, log (reconcileSeedGeneration env t).1 = (log t ++ h ++ Ev o (Seed c) :: l)%list ->
     intent c (object t) = false /\ intent c o = true /\ stored env (log t ++ h)%list o).
Proof.
  intros Hc. pose proof (intent_stands env t A c Hc) as Hs. split; [apply Hs|]. intros h o l Hl.
  pose proof (traced_in _ _ _ _ _ _ (run_intended env t) Hl Hc) as Hi. split; [|exact Hi].
  destruct (intent c (object t)) eqn:E; [|done]. by destruct (proj2 (Hs eq_refl) h o l Hl).
Qed.

(** C11: The spoke is left alone until it is to be detached.  What changes the spoke, or
    what the hub has of its cluster, the request to its lifecycle agent to make a seed
    image included, is called only in a reconcile that begins with the
    detachment stored, and after the cluster that the frozen kubeconfig opens has said, in
    the log, that it is the one that was pinned for the run. *)
Theorem spoke_left_alone `{Semver} `{SeedEncoding} `{SeedLibraries} `{SeedFormats} `{SeedText} env t A (c : seed_call A) h o l :
  log (reconcileSeedGeneration env t).1 = (log t ++ h ++ Ev o (Seed c) :: l)%list -> changes_spoke c = true ->
  run_flag DetachmentStarted (object t) = true /\ seen env (log t ++ h)%list (pinned o).
Proof.
  intros Hl Hc. destruct (run_flag DetachmentStarted (object t)) eqn:E.
  - split; [done|]. by apply (traced_in _ _ _ _ _ _ (run_started env t E) Hl).
  - pose proof (traced_in _ _ _ _ _ _ (run_not_started env t E) Hl) as Hn. simpl in Hn. congruence.
Qed.

(** C12: A run completes on evidence.  When a reconcile makes the condition of the run true,
    then in that reconcile either the lifecycle agent has answered with a request of its
    own that it reports as completed, for the seed image that the status records; or the
    job of the live ISO was found to be the one that was submitted, with a success, and its
    own pods agree on the URL and the digest that the status records. *)
Theorem completes_on_evidence `{Semver} `{SeedEncoding} `{SeedLibraries} `{SeedFormats} `{SeedText} env t :
  completed (object t) = false -> completed (object (reconcileSeedGeneration env t).1) = true ->
  agent_evidence env (reconcileSeedGeneration env t).1 \/ ISO_evidence env (reconcileSeedGeneration env t).1.
Proof.
  intros Ht. pose proof (run_justified env t Ht) as Hr. unfold wp in Hr.
  by destruct (reconcileSeedGeneration env t) as [t' []].
Qed.

(** C13: The secrets of a registry stay where they belong while push access is proved.  Whatever
    the registry and the servers answer, each request is one of three: for an upload at the
    registry, without a body, authorized with the registry token that is configured, with a
    token that was issued to these credentials, or with the name and password once the
    registry has asked for them; the exchange for a token, over HTTPS, at the realm that the
    registry has named, with the identity token in a form only, or with the name and
    password; or the cancellation of a session that was opened, at the same host, over
    HTTPS. *)
Theorem push_secrets_confined `{SeedEncoding} `{SeedLibraries} `{SeedFormats} env image auth roots registry repository creds
    upload t h o roots' q l :
  imageRepositoryFromPullSpec image = Some (registry, repository) ->
  credentialsForRepository auth registry repository = inr creds ->
  NewRequest "POST" (registryURL registry repository) None = Some upload ->
  log (validateRegistryPushAccessWithClient env image auth roots t).1
    = (log t ++ h ++ Ev o (Seed (Fetch roots' q)) :: l)%list ->
  roots' = roots /\ permitted env roots creds upload (log t ++ h)%list q.
Proof.
  intros Hi Hc Hu Hl.
  pose proof (push_along env image auth roots registry repository creds upload t Hi Hc Hu t (conj (reflexivity t) I)) as Hp.
  assert (traced (ok env roots creds upload) t (validateRegistryPushAccessWithClient env image auth roots t).1) as Ht.
  { unfold wp in Hp. by destruct (validateRegistryPushAccessWithClient env image auth roots t) as [t' []], Hp. }
  exact (traced_in _ _ _ _ _ _ Ht Hl).
Qed.

(** C14: What is frozen was proved, at registries that open no session without authorization
    (one that does proves nothing of the credentials, and is not refused).  When the inputs
    of a run are resolved there, then in that reconcile the registry of the seed image that they
    name has answered a request to open an upload session with success, and that request
    carried the very credentials that are frozen: their registry token, their name and
    password when these were asked for, or a token that was issued in this reconcile to a
    request which presented the name and password or the identity token.  When there are
    credentials for the server of the ISO, that server has run the probe over SSH with
    them.  Conversely, credentials that are good are sent and pass: at a registry that asks
    for a name and password, and opens a session for these, the check of a push makes two
    requests, the second with the name and password, and succeeds. *)
Theorem frozen_credentials_proved `{SeedEncoding} `{SeedLibraries} `{SeedFormats} env ct t document creds :
  (pushes_need_authorization env ->
   (resolveSeedGenerationInputSnapshot env ct t).2 = Ret (document, creds) ->
   inputs_proved env document creds (log (resolveSeedGenerationInputSnapshot env ct t).1)) /\
  (forall image auth roots registry repository c upload,
   imageRepositoryFromPullSpec image = Some (registry, repository) -> contains_any "/?#@" registry = false ->
   credentialsForRepository auth registry repository = inr c -> username c <> "" ->
   NewRequest "POST" (registryURL registry repository) None = Some upload -> asked_then_accepted env roots c upload t ->
   let second := with_authorization (Some (Basic (username c) (password c))) upload in
   validateRegistryPushAccessWithClient env image auth roots t
   = (with_event (Ev (object t) (Seed (Fetch roots second))) (with_event (Ev (object t) (Seed (Fetch roots upload))) t),
      Ret tt)).
Proof.
  split; [|intros image auth roots registry repository c upload Hi Hh Hc Hu Hup Ha; by eapply name_and_password_sent].
  intros Hn E. pose proof (resolve_proved env Hn ct t I) as Hr. unfold wp in Hr. by rewrite E in Hr.
Qed.

(** ** A run *)

Module Run.
#[export] Instance semver : Semver := Triples.semver.

(** One document is known; digests and encodings are fixed texts. *)
Definition document : InputDocument :=
  mkDocument "t.v1" "ns" "" "4.20.0" (Some [("seedImage", VStr "registry/seed:1")]) "registry/tools:1" "" [] ∅ ∅
    {["seedAuth" := "pr-seedgen-seed-auth"; "spokeKubeconfig" := "pr-seedgen-spoke-kubeconfig"]}.
#[export] Instance encoding : SeedEncoding := {|
  MarshalDocument _ := Some "document";
  UnmarshalDocument _ := Some document;
  MarshalIDMSFile _ := Some "mirrors";
  sha256_hex _ := "0123456789abcdef";
  MarshalPodSpec _ := Some "pod";
|}.
#[export] Instance libraries : SeedLibraries := {|
  ParseNormalizedNamed _ := Some ("registry", "tools");
  url_Parse _ := None;
  url_String _ := "";
  IsIP _ := false;
  IsDNS1123Subdomain _ := true;
  EmbeddedISOScript := "script";
|}.
#[export] Instance formats : SeedFormats := {|
  UnmarshalAuths _ := None;
  MarshalAuths _ := None;
  UnmarshalAuth _ := None;
  DecodeToken _ := None;
  DecodeBase64 s := Some s;
  DecodeRawBase64 s := Some s;
  EscapedPath := Path;
  Port _ := "";
  QueryWith q _ := q;
  ResolveReference _ u := u;
  AppendCertsFromPEM _ := true;
  RESTConfigFromKubeConfig _ := None;
  X509KeyPair _ _ := None;
  CommonName _ := None;
  MarshalISOConfig _ := None;
|}.
#[export] Instance text : SeedText := {|
  DecodeReleaseInfo _ := None;
  UnmarshalAny _ := None;
  EncodeBase64 s := s;
  ReplaceAllString _ _ s := s;
  ToValidUTF8 s := s;
  FormatRFC3339 _ := "";
|}.

(** A run that was started and whose inputs and cluster are pinned. *)
Definition uids : gmap string string :=
  {["pr-seedgen-inputs" := "u1"; "pr-seedgen-seed-auth" := "u2"; "pr-seedgen-spoke-kubeconfig" := "u3"]}.
Definition status (detached submitted : bool) : SeedGenerationStatus :=
  with_submitted submitted (with_agents_gone detached (with_detachment true
    (with_identity "id" "managed" "klusterlet" (with_uids uids (new_seed 0 7200))))).
Definition request (detached submitted : bool) : ProvisioningRequest :=
  mkPR "pr" "uid-1" "t" "v1" 1 1 false false true
    [mkCondition PRconditionTypes.SeedGenerationCompleted ConditionFalse CRconditionReasons.InProgress "" 0 0]
    StateProgressing "" None None
    (Some (mkClusterDetails "cluster1" "ZTP Done" None None None (Some (status detached submitted)) 0)) ∅ [] [].
Definition start (detached submitted : bool) : task := new_task (request detached submitted).

Definition object_of (name kind uid : string) (data : gmap string string) : DataObject :=
  let o := snapshot_object "operator" (request true false) name kind data in
  with_object_uid uid o.
Definition inputs : DataObject :=
  object_of "pr-seedgen-inputs" "config" "u1" {[snapshot_config := "document"; mirror_file := "mirrors"]}.
Definition secrets : list DataObject :=
  [object_of "pr-seedgen-seed-auth" "credential" "u2" {["seedAuth" := "secret"]};
   object_of "pr-seedgen-spoke-kubeconfig" "credential" "u3" {["kubeconfig" := "kubeconfig"]}].

Definition not_found : error := mkError false NotFound "not found".
Definition hub_cluster : HubCluster := mkHubCluster (mkMeta "cluster1" "" "managed" ∅ ∅ [] [] false) [("id.k8s.io", "id")] [].

(** The SeedGenerator that the agent has, if any. *)
Definition seed_answer (generator : error + SeedGenerator) {A} (c : seed_call A) : error + A :=
  match c with
  | ListConfigMaps _ => inr [inputs]
  | ListSecrets _ => inr secrets
  | ListPods _ => inr []
  | OpenSpoke _ => inr tt
  | SpokeVersion => inr ("id", "4.20.0")
  | HubManagedCluster _ => inr hub_cluster
  | GetSeedGenerator => generator
  | CreateSeedSecret _ | CreateSeedGenerator _ | PatchHubCluster _ => inr tt
  | _ => inl not_found
  end.
Definition answer (generator : error + SeedGenerator) A (c : call A) (_ : list event) : error + A :=
  match c with
  | UpdateStatus _ => inr tt
  | Seed c => seed_answer generator c
  | _ => inl not_found
  end.
Definition env (generator : error + SeedGenerator) : Env :=
  mkEnv (answer generator) (fun l => Second * Z.of_nat (length l)) (fun _ => None) (fun _ => true) "operator".
Abbreviation run generator detached submitted :=
  (reconcileSeedGeneration (env generator) (start detached submitted)).1.

(** What the agent is asked for, and the same when it has done it. *)
Definition desired : SeedGenerator :=
  mkGenerator (lca_meta (request true false) seed_CR_name "") (Some "registry/seed:1") "" [].
Definition finished : SeedGenerator :=
  mkGenerator (sg_Meta desired) (sg_SeedImage desired) ""
    [mkCondition "SeedGenCompleted" ConditionTrue "Completed" "" 0 0].

(** The agent is asked; the spoke is closed to placement. *)
Abbreviation asking := (run (inl not_found) true false).
Abbreviation detaching := (run (inl not_found) false false).
Definition at_call (n : nat) (t : task) : ProvisioningRequest := default (object t) (ev_object <$> log t !! n).
End Run.

Import Run.

(** The call of a log at a position, and the calls around it. *)
Lemma at_position t0 t n e :
  log t0 = [] -> log t !! n = Some e -> log t = (log t0 ++ take n (log t) ++ e :: skipn (S n) (log t))%list.
Proof. intros -> He. simpl. by rewrite take_drop_middle. Qed.

Lemma submitted_once_witness :
  intent (CreateSeedGenerator desired) (object (start true false)) = false
  /\ intent (CreateSeedGenerator desired) (at_call 9 asking) = true
  /\ stored (env (inl not_found)) (log (start true false) ++ take 9 (log asking))%list (at_call 9 asking).
Proof.
  apply (proj2 (submitted_once (env (inl not_found)) (start true false) unit (CreateSeedGenerator desired) eq_refl)
           (take 9 (log asking)) (at_call 9 asking) (skipn 10 (log asking))).
  apply (at_position (start true false) asking 9); vm_compute; reflexivity.
Defined.

Definition closed : HubCluster :=
  mkHubCluster (with_labels {["observability" := "disabled"]} {[disableAutoImportAnnotation := "true"]} (hc_Meta hub_cluster))
    (ClusterClaims hub_cluster) [no_select].
Lemma spoke_left_alone_witness :
  (run_flag DetachmentStarted (object (start false false)) = true
   /\ seen (env (inl not_found)) (log (start false false) ++ take 6 (log detaching))%list (pinned (at_call 6 detaching)))
  /\ (run_flag DetachmentStarted (object (start true false)) = true
   /\ seen (env (inl not_found)) (log (start true false) ++ take 9 (log asking))%list (pinned (at_call 9 asking))).
Proof.
  split.
  - apply (spoke_left_alone (env (inl not_found)) (start false false) unit (PatchHubCluster closed)
             (take 6 (log detaching)) (at_call 6 detaching) (skipn 7 (log detaching))); [|reflexivity].
    apply (at_position (start false false) detaching 6); vm_compute; reflexivity.
  - apply (spoke_left_alone (env (inl not_found)) (start true false) unit (CreateSeedGenerator desired)
             (take 9 (log asking)) (at_call 9 asking) (skipn 10 (log asking))); [|reflexivity].
    apply (at_position (start true false) asking 9); vm_compute; reflexivity.
Defined.

Lemma completes_on_evidence_witness :
  agent_evidence (env (inr finished)) (run (inr finished) true true)
  \/ ISO_evidence (env (inr finished)) (run (inr finished) true true).
Proof.
  apply (completes_on_evidence (env (inr finished)) (start true true)); vm_compute; reflexivity.
Defined.

(** What was frozen is found again in the hub of [env]. *)
Abbreviation credentials :=
  ({["seedAuth" := {["seedAuth" := "secret"]}; "spokeKubeconfig" := {["kubeconfig" := "kubeconfig"]}]}
   : gmap string (gmap string string)).
Abbreviation made name data := (snapshot_object "operator" (request true false) name "credential" data).
Abbreviation auth := (made "pr-seedgen-seed-auth" {["seedAuth" := "secret"]}).
Abbreviation kubeconfig := (made "pr-seedgen-spoke-kubeconfig" {["kubeconfig" := "kubeconfig"]}).
Abbreviation keyed a k := ({["seedAuth" := a; "spokeKubeconfig" := k]} : gmap string DataObject).
Abbreviation config :=
  (snapshot_object "operator" (request true false) "pr-seedgen-inputs" "config"
     {[snapshot_config := "document"; mirror_file := "mirrors"]}).

Lemma frozen_is_loaded_witness :
  (loadSeedGenerationInputSnapshot (env (inl not_found)) (start true false)).2
  = Ret (mkSnapshot document inputs (keyed (with_object_uid "u2" auth) (with_object_uid "u3" kubeconfig))).
Proof.
  apply (frozen_is_loaded (env (inl not_found)) "operator" (request true false) document credentials document config
           (keyed auth kubeconfig) (keyed (with_object_uid "u2" auth) (with_object_uid "u3" kubeconfig)) "u1" secrets (start true false)).
  - vm_cast_no_check (@eq_refl (string + (InputDocument * DataObject * gmap string DataObject))
                        (inr (document, config, keyed auth kubeconfig))).
  - intros encoded _. reflexivity.
  - done.
  - done.
  - apply map_Forall2_insert_2; [by eexists|]. apply map_Forall2_singleton. by eexists.
  - reflexivity.
  - done.
  - split; reflexivity.
  - right. reflexivity.
Defined.

Lemma resource_names_fit_witness :
  (String.length (seedGenerationResourceName (request true false) "iso-build") <= 63)%nat
  /\ (is_end "iso-build" "inputs" = false -> is_end "inputs" "iso-build" = false ->
      seedGenerationResourceName (request true false) "iso-build" <> seedGenerationResourceName (request true false) "inputs").
Proof. apply (resource_names_fit (request true false) "iso-build" "inputs"). vm_compute. lia. Defined.

(** The job of a live ISO, and what the API server makes of it. *)
Abbreviation ISO_document :=
  (mkDocument "t.v1" "ns" "" "4.20.0" (Some [("liveISO", VMap [])]) "registry/tools:1" "" [] ∅ ∅ ∅).
Abbreviation filled name := (with_object_uid "u4" (snapshot_object "operator" (request true true) name "credential"
  {[".dockerconfigjson" := "auths"; "image-based-installation-config.yaml" := "installer"]})).
Abbreviation ISO_snapshot :=
  (mkSnapshot ISO_document inputs {["pullSecret" := filled "pr-seedgen-pull-secret"; "upload" := filled "pr-seedgen-upload"]}).
Abbreviation release := "registry/release@sha256:0123456789abcdef0123456789abcdef0123456789abcdef0123456789abcdef".
Abbreviation ISO_job :=
  (makeSeedGenerationISOJob "operator" (request true true) ISO_snapshot (mkArtifact "https://host/iso" "/srv" "u@h" "u@h") release 3600).
Abbreviation no_job := (mkJob (mkMeta "" "" "" ∅ ∅ [] [] false) None None None None None ∅ (mkPodSpec [] [] [] "" None "" false None None) 0 0 0 []).
Definition submitted_job : Job := Eval vm_compute in match ISO_job with inr job => job | inl _ => no_job end.
Definition created_meta : ObjectMeta :=
  let m := job_Meta submitted_job in mkMeta (meta_Name m) (meta_Namespace m) "u5" (Labels m) ∅ (OwnerReferences m) [] false.
Definition found_job : Job :=
  mkJob created_meta (Some 0) (Some 1) (Some 1) (Some 3600) None
    (<["batch.kubernetes.io/job-name" := meta_Name created_meta]>
      (<["batch.kubernetes.io/controller-uid" := meta_UID created_meta]> (TemplateLabels submitted_job)))
    (TemplateSpec submitted_job) 1 0 0 [].
Abbreviation ISO_status := (with_job true (Some 0) "v1:sha256:0123456789abcdef" (status true true)).
Abbreviation ISO_request := (with_cluster
  (Some (mkClusterDetails "cluster1" "ZTP Done" None None None (Some ISO_status) 0)) (request true true)).

Lemma own_job_recognised_witness :
  validateSeedGenerationISOResourceOwner ISO_request (job_Meta found_job) "job" = None
  /\ validateSeedGenerationISOJob "operator" ISO_request found_job = None.
Proof.
  refine (proj1 (own_job_recognised "operator" (request true true) ISO_request ISO_snapshot
           (mkArtifact "https://host/iso" "/srv" "u@h" "u@h") release 3600 submitted_job "v1:sha256:0123456789abcdef" ISO_status
           _ _ _ _ _ _) found_job _); [vm_cast_no_check (@eq_refl (string + Job) (inr submitted_job))| |done|reflexivity|reflexivity|cbn; lia|].
  - vm_cast_no_check (@eq_refl (string + string) (inr "v1:sha256:0123456789abcdef")).
  - split_and!; [reflexivity|reflexivity| |intros c Hc; exists c; split; [exact Hc|reflexivity]].
    cbn [TemplateLabels found_job]. etransitivity; [apply insert_subseteq|apply insert_subseteq]; vm_compute; reflexivity.
Defined.

(** ** A registry *)

Module Registry.
(** URLs of HTTPS only, without a port or a query. *)
Definition parse (s : string) : option ParsedURL :=
  rest ← CutPrefix "https://" s;
  let '(host, path, _) := Cut "/"%char rest in
  Some (mkURL "https" host host false "" false "" "" ("/" ++ path)).
#[export] Instance libraries : SeedLibraries := {|
  ParseNormalizedNamed image := Some (Cut "/"%char image).1;
  url_Parse := parse;
  url_String u := "https://" ++ Host u ++ Path u;
  IsIP _ := false;
  IsDNS1123Subdomain _ := true;
  EmbeddedISOScript := "script";
|}.
#[export] Instance formats : SeedFormats := {|
  UnmarshalAuths _ := Some {["quay.io" := "all"; "quay.io/org" := "org"]};
  MarshalAuths _ := None;
  UnmarshalAuth raw := Some (mkDockerAuth "" raw "secret" "" "");
  DecodeToken body := Some (body, "");
  DecodeBase64 s := Some s;
  DecodeRawBase64 s := Some s;
  EscapedPath := Path;
  Port _ := "";
  QueryWith q _ := q;
  ResolveReference _ u := u;
  AppendCertsFromPEM _ := true;
  RESTConfigFromKubeConfig _ := Some ("", "certificate", "key");
  X509KeyPair _ _ := Some "leaf";
  CommonName _ := Some "system:admin";
  MarshalISOConfig _ := None;
|}.

(** The registry asks for a token, which another server issues. *)
Definition challenge : string :=
  let q := String dquote "" in "Bearer realm=" ++ q ++ "https://auth.io/token" ++ q ++ ",service=" ++ q ++ "quay" ++ q.
Definition reply (q : Request) : Response :=
  if decide (Host (req_URL q) = "auth.io") then mkResponse 200 "" "" "issued"
  else match req_Authorization q with
       | None => mkResponse 401 challenge "" ""
       | Some _ => mkResponse 202 "" "https://quay.io/v2/org/app/blobs/uploads/1" ""
       end.
Definition named (name : string) (data : gmap string string) : DataObject :=
  mkData (mkMeta name "" "" ∅ ∅ [] [] false) true data.
Definition seed_answer {A} (c : seed_call A) : error + A :=
  match c with
  | Fetch _ q => inr (reply q)
  | SystemCertPool => inr tt
  | HubClusterDeployment _ => inr (mkDeploymentOf false (Some (mkClusterMetadata "id" "admin")))
  | HubSecret name _ => inr (named name {["kubeconfig" := "kubeconfig"; "seedAuth" := "auths"]})
  | _ => inl not_found
  end.
Definition answer A (c : call A) (_ : list event) : error + A :=
  match c with
  | MergeUpgradeData =>
      inr [("seedGeneration", VMap [("seedImage", VStr "quay.io/org/app"); ("seedAuthSecretRef", VMap [("name", VStr "seed")])])]
  | Seed c => seed_answer c
  | _ => inl not_found
  end.
Definition env : Env := mkEnv answer (fun _ => 0) (fun _ => None) (fun _ => true) "operator".
(** Other registries: one that opens a session for anyone, and one that asks for a name and
    password. *)
Definition answer_with (reply : Request -> Response) A (c : call A) (h : list event) : error + A :=
  match c in call A return error + A with
  | Seed c => match c in seed_call A return error + A with
              | Fetch _ q => inr (reply q)
              | c => seed_answer c
              end
  | c => answer _ c h
  end.
Definition env_with reply : Env := mkEnv (answer_with reply) (fun _ => 0) (fun _ => None) (fun _ => true) "operator".
Definition open_env : Env := env_with (fun _ => mkResponse 201 "" "" "").
Definition basic_env : Env :=
  env_with (fun q => match req_Authorization q with None => mkResponse 401 "Basic" "" "" | Some _ => mkResponse 201 "" "" "" end).
Definition push : task := (validateRegistryPushAccessWithClient env "quay.io/org/app" "auths" "" (start true false)).1.
Definition creds : registryCredentials := mkCreds "org" "secret" "" "".
Definition at_host (host path method : string) (a : option Authorization) : Request :=
  mkRequest method (mkURL "https" host host false "" false "" "" path) a None.
Definition upload : Request := at_host "quay.io" "/v2/org/app/blobs/uploads/" "POST" None.
Definition resolved : task * outcome error (InputDocument * gmap string (gmap string string)) :=
  resolveSeedGenerationInputSnapshot env ProvisioningProperties.Demo.template (start true false).
Definition document : InputDocument :=
  seedGenerationSnapshotInputDocument ProvisioningProperties.Demo.template
    [("seedImage", VStr "quay.io/org/app"); ("seedAuthSecretRef", VMap [("name", VStr "seed")])].
Definition found : gmap string (gmap string string) :=
  {["spokeKubeconfig" := {["kubeconfig" := "kubeconfig"]}; "seedAuth" := {["seedAuth" := "auths"]}]}.
End Registry.

Import Registry.

Lemma push_secrets_confined_witness :
  "" = "" /\ permitted Registry.env "" Registry.creds Registry.upload (log (start true false) ++ take 1 (log Registry.push))%list
    (Registry.at_host "auth.io" "/token" "GET" (Some (Basic "org" "secret"))).
Proof.
  apply (push_secrets_confined Registry.env "quay.io/org/app" "auths" "" "quay.io" "org/app" Registry.creds Registry.upload
           (start true false) (take 1 (log Registry.push)) (request true false) "" _ (skipn 2 (log Registry.push)));
    [vm_compute; reflexivity..|].
  apply (at_position (start true false) Registry.push 1); vm_compute; reflexivity.
Defined.

Lemma registry_wants_authorization : pushes_need_authorization Registry.env.
Proof.
  intros registry repository up roots h response Hup. apply NewRequest_plain in Hup as (_ & _ & <-).
  cbn. intros [= <-]. unfold reply. by case_decide.
Qed.

Lemma basic_asked : asked_then_accepted Registry.basic_env "" Registry.creds Registry.upload (start true false).
Proof. do 2 eexists. exists ∅. by vm_compute. Qed.

Lemma frozen_credentials_proved_witness :
  inputs_proved Registry.env Registry.document Registry.found (log Registry.resolved.1)
  /\ (validateRegistryPushAccessWithClient Registry.basic_env "quay.io/org/app" "auths" "" (start true false)).2 = Ret tt.
Proof.
  split.
  - apply (proj1 (frozen_credentials_proved Registry.env ProvisioningProperties.Demo.template (start true false)
                    Registry.document Registry.found)); [exact registry_wants_authorization|].
    vm_cast_no_check (@eq_refl (outcome error (InputDocument * gmap string (gmap string string)))
                        (Ret (Registry.document, Registry.found))).
  - rewrite (proj2 (frozen_credentials_proved Registry.basic_env ProvisioningProperties.Demo.template (start true false)
                      Registry.document Registry.found) "quay.io/org/app" "auths" "" "quay.io" "org/app" Registry.creds
                      Registry.upload); [reflexivity|reflexivity|reflexivity|vm_compute; reflexivity|done|vm_compute; reflexivity|exact basic_asked].
Defined.

(** ** What modelling showed *)

(** The rest of the repository is taken from the first source that matches, the mirror from
    the first source that has one: with a source without mirrors before it, an image is
    looked for in the wrong repository. *)
Lemma tag_mirror_of_another_source :
  resolveSeedGenerationImageTagMirror "xxx.io/a/b/c"
    [mkITMS "first" false [mkTagMirrors "*.io/a/b/c" []; mkTagMirrors "xxx.io/a/b" ["mirror.io/m"]]]
  = inr ("mirror.io/m:latest", true)
  /\ resolveSeedGenerationImageTagMirror "xxx.io/a/b/c"
       [mkITMS "first" false [mkTagMirrors "xxx.io/a/b" ["mirror.io/m"]]] = inr ("mirror.io/m/c:latest", true).
Proof. split; vm_compute; reflexivity. Qed.

(** Two keys of a ConfigMap may stand for one registry: which certificate is taken is
    decided by the order in which the map is visited. *)
Lemma trust_depends_on_order :
  trusted (mkTrust false [("docker.io", "a"); ("index.docker.io", "b")] [])
  <> trusted (mkTrust false [("index.docker.io", "b"); ("docker.io", "a")] []).
Proof. intros E. apply (f_equal (fun m => m !! "docker.io")) in E. revert E. vm_compute. discriminate. Qed.

(** The comment on the check says that the credentials are proved; a registry that opens a
    session for anyone is taken for a proof, and no request carries them. *)
Lemma anonymous_push_accepted :
  let '(t, r) := validateRegistryPushAccessWithClient Registry.open_env "quay.io/org/app" "auths" "" (start true false) in
  r = Ret tt /\ log t = [Ev (request true false) (Seed (Fetch "" Registry.upload))]
  /\ req_Authorization Registry.upload = None.
Proof. vm_compute. done. Qed.
