(* ===== verification/ProvisioningDeletion.v ===== *)
(** * Deletion of a ProvisioningRequest (theory of ProvisioningRequest)

    The dependents of a request are deleted one after the other, each when the one
    before it is known to be gone, and only for a request that is being deleted. *)
From S2P Require Import Prelude Conditions GoText Unstructured Handler ProvisioningStatus MergeMaps ProvisioningTask ProvisioningPolicy NodeConfiguration ProvisioningHardware ProvisioningValidation ProvisioningCluster ProvisioningRequest ProvisioningFacts ProvisioningSafety ProvisioningInstall ProvisioningProperties.
#[local] Open Scope Z_scope.

Create HintDb deletion.

(** ** What is known from the answers to the calls of a log *)

Section knowledge.
Context (env : Env).

(** The environment gave a good answer to the call. *)
Definition answered {A} (c : call A) (good : error + A -> Prop) (l : list event) : Prop :=
  exists l1 o l2, l = l1 ++ Ev o c :: l2 /\ good (api env c l1).

Definition not_found {A} (r : error + A) : Prop := match r with inl e => IsNotFound e = true | inr _ => False end.

Definition nar_gone : list event -> Prop := answered GetNAR not_found.
Definition instance_gone (o : ProvisioningRequest) (l : list event) : Prop :=
  match Cluster o with Some d => answered (ClusterInstanceDeleting (cd_Name d)) not_found l | None => True end.
Definition namespaces_gone : list event -> Prop := answered ListNamespaces (fun r => r = inr []).

(** What has to be known before a call. *)
Definition in_turn (l : list event) (e : event) : Prop :=
  match e with Ev o c =>
    match c with
    | DeleteClusterInstance _ => nar_gone l
    | DeleteNamespace _ => nar_gone l /\ instance_gone o l
    | PatchRequest _ => nar_gone l /\ instance_gone o l /\ namespaces_gone l
    | _ => True
    end
  end.

(** Every call of the log came in its turn. *)
Definition ordered (l : list event) : Prop := forall l1 e l2, l = l1 ++ e :: l2 -> in_turn l1 e.

(** The calls that need not wait for another. *)
Definition free (e : event) : Prop :=
  match ev_call e with DeleteClusterInstance _ | DeleteNamespace _ | PatchRequest _ => False | _ => True end.

Lemma answered_app {A} (c : call A) good l es : answered c good l -> answered c good (l ++ es).
Proof. intros (l1 & o & l2 & -> & Hg). exists l1, o, (l2 ++ es). by rewrite <- app_assoc. Qed.

Lemma answered_snoc {A} (c : call A) (good : error + A -> Prop) l o : good (api env c l) -> answered c good (l ++ [Ev o c]).
Proof. intros Hg. by exists l, o, []. Qed.

Lemma instance_gone_app o l es : instance_gone o l -> instance_gone o (l ++ es).
Proof. unfold instance_gone. destruct (Cluster o); [apply answered_app|done]. Qed.

Lemma ordered_snoc l e : ordered l -> in_turn l e -> ordered (l ++ [e]).
Proof.
  intros Ho He l1 x l2 E. destruct (decide (l2 = [])) as [->|Hn].
  - apply app_inj_tail in E as [-> ->]. done.
  - destruct (exists_last Hn) as (l3 & y & ->). rewrite app_comm_cons, app_assoc in E.
    apply app_inj_tail in E as [E _]. by apply (Ho l1 x l3).
Qed.

Lemma ordered_app l es : ordered l -> Forall free es -> ordered (l ++ es).
Proof.
  intros Ho Hf. revert l Ho. induction Hf as [|e es He _ IH]; intros l Ho; [by rewrite app_nil_r|].
  rewrite cons_middle, app_assoc. apply IH, ordered_snoc; [done|].
  destruct e as [o A c]. unfold free in He. by destruct c.
Qed.

(** ** Programs that call and leave the request *)

Record calls (F : event -> Prop) (t t' : task) : Prop := mkCalls {
  calls_object : object t' = object t;
  calls_log : exists es, log t' = log t ++ es /\ Forall F es;
}.

#[export] Instance calls_preorder F : PreOrder (calls F).
Proof.
  split.
  - intros t. split; [done|]. exists []. by rewrite app_nil_r.
  - intros t1 t2 t3 [Ho (es & He & Hf)] [Ho' (fs & He' & Hf')]. split; [congruence|].
    exists (es ++ fs). split; [by rewrite He', He, app_assoc|]. by apply Forall_app_2.
Qed.

Lemma calls_trigger (F : event -> Prop) {A} (c : call A) :
  (forall o, F (Ev o c)) -> preserves (calls F) (trigger env c).
Proof.
  intros HF t. unfold trigger.
  destruct (api env c (log t)); (split; [done|]); exists [Ev (object t) c]; (split; [done|]); by repeat constructor.
Qed.

(** The calls of a program, one by one. *)
Ltac call_step :=
  lazymatch goal with
  | |- preserves _ (mret _) => apply preserves_ret
  | |- preserves _ (raise _) => apply preserves_raise
  | |- preserves _ get_object => intros ?; reflexivity
  | |- preserves _ (_ ≫= _) => apply preserves_bind; [|intros ?]
  | |- preserves _ (try _) => apply preserves_try
  | |- preserves _ (when _ _) => apply preserves_when
  | |- preserves _ (match ?x with _ => _ end) => destruct x
  | |- preserves _ (trigger _ _) => apply calls_trigger; intros ?; exact I
  | |- preserves _ (wrapped _ _) => unfold wrapped
  end.

(** ** The steps of a deletion *)

(** The request is [o], and of the calls so far [G] is known. *)
Definition stage (o : ProvisioningRequest) (G : list event -> Prop) (t : task) : Prop :=
  object t = o /\ ordered (log t) /\ G (log t).

Definition lasting (G : list event -> Prop) : Prop := forall l es, G l -> G (l ++ es).

Lemma stage_calls o G t t' : lasting G -> stage o G t -> calls free t t' -> stage o G t'.
Proof.
  intros HG (Ho & Hl & Hg) [Ho' (es & He & Hf)]. split_and!; [congruence| |].
  - rewrite He. by apply ordered_app.
  - rewrite He. by apply HG.
Qed.

Lemma stage_part {A} o G (m : prog A) :
  lasting G -> preserves (calls free) m -> leads (stage o G) m (fun _ => stage o G) (fun t => ordered (log t)).
Proof.
  intros HG Hm. eapply leads_mono; [apply (leads_frame _ _ (stage o G) m Hm)|done..|by intros t (_&?&_)].
  intros t t'. by apply stage_calls.
Qed.

(** A call that is in its turn: the answer is known. *)
Lemma stage_ask {A} o G (c : call A) X :
  lasting G -> (forall l, G l -> in_turn l (Ev o c)) ->
  leads (stage o G) (try (trigger env c))
    (fun r t => stage o G t /\ answered c (fun r' => r' = r) (log t)) X.
Proof.
  intros HG Ht t (Ho & Hl & Hg). unfold wp, try, trigger. subst o.
  assert (stage (object t) G (with_event (Ev (object t) c) t)) as Hs.
  { split_and!; [done|apply ordered_snoc; auto|by apply HG]. }
  destruct (api env c (log t)) eqn:E; cbn [fst snd]; (split; [done|]); by apply answered_snoc.
Qed.

Definition in_order (t : task) : Prop := ordered (log t).

(** A call that is in its turn, when the answer does not matter. *)
Lemma stage_trigger {A} o G (c : call A) :
  lasting G -> (forall l, G l -> in_turn l (Ev o c)) ->
  leads (stage o G) (trigger env c) (fun _ => stage o G) in_order.
Proof.
  intros HG Ht t (Ho & Hl & Hg). unfold wp, trigger. subst o.
  assert (stage (object t) G (with_event (Ev (object t) c) t)) as Hs.
  { split_and!; [done|apply ordered_snoc; auto|by apply HG]. }
  destruct (api env c (log t)) eqn:E; cbn [fst snd]; [apply Hs|done].
Qed.

Lemma stage_in_order o G t : stage o G t -> in_order t.
Proof. by intros (_ & Hl & _). Qed.

Lemma answered_weaken {A} (c : call A) (P Q : error + A -> Prop) l :
  (forall r, P r -> Q r) -> answered c P l -> answered c Q l.
Proof. intros HPQ (l1 & o & l2 & -> & Hp). exists l1, o, l2. auto. Qed.

(** What is known lasts. *)
Lemma lasting_and G G' : lasting G -> lasting G' -> lasting (fun l => G l /\ G' l).
Proof. intros HG HG' l es []. by split; [apply HG|apply HG']. Qed.
Lemma lasting_answered {A} (c : call A) good : lasting (answered c good).
Proof. intros l es. apply answered_app. Qed.
Lemma lasting_instance o : lasting (instance_gone o).
Proof. intros l es. apply instance_gone_app. Qed.
Lemma lasting_nar : lasting nar_gone.
Proof. apply lasting_answered. Qed.
Lemma lasting_true : lasting (fun _ => True).
Proof. done. Qed.
Lemma in_turn_free (G : list event -> Prop) {A} o (c : call A) :
  free (Ev o c) -> forall l, G l -> in_turn l (Ev o c).
Proof. intros Hf l _. by destruct c. Qed.

Hint Resolve lasting_and lasting_answered lasting_instance lasting_nar lasting_true : deletion.

Lemma leads_wrapped {A} P prefix (m : prog A) Q X : leads P m Q X -> leads P (wrapped prefix m) Q X.
Proof.
  intros Hm. unfold wrapped. eapply leads_bind; [by apply leads_try|].
  intros [e|a]; [by apply leads_raise|by apply leads_ret].
Qed.

Lemma find_NAR_stage o G :
  lasting G ->
  leads (stage o G) (find_NAR env)
    (fun r t => match r with None => stage o (fun l => G l /\ nar_gone l) t | Some _ => stage o G t end) in_order.
Proof.
  intros HG t (<- & Hl & Hg).
  assert (ordered (log t ++ [Ev (object t) GetNAR])) as Hl' by (by apply ordered_snoc).
  assert (stage (object t) G (with_event (Ev (object t) GetNAR) t)) as Hs by (split_and!; [done|done|by apply HG]).
  unfold wp, find_NAR, getNAR, wrapped, try, trigger, get_object, mbind, handler_bind. simpl.
  destruct (api env GetNAR (log t)) as [e|nar] eqn:E; [|exact Hs]. simpl.
  change (IsNotFound (wrap _ e)) with (IsNotFound e). destruct (IsNotFound e) eqn:En; [|exact Hl'].
  destruct Hs as (Ho & Hl'' & HG'). split_and!; [done..|]. apply answered_snoc. by rewrite E.
Qed.

(** Parts of the deletion, and what is known when they say that a dependent is gone. *)
Definition when_gone (o : ProvisioningRequest) (G G' : list event -> Prop) (gone : bool) (t : task) : Prop :=
  if gone then stage o G' t else in_order t.

Lemma detach_stage o : leads (stage o (fun _ => True)) (detach_cluster env o) (fun _ => stage o (fun _ => True)) in_order.
Proof. apply stage_part; [done|]. unfold detach_cluster. repeat call_step. Qed.

Lemma delete_NAR_stage o :
  leads (stage o (fun _ => True)) (delete_NAR env) (when_gone o (fun _ => True) nar_gone) in_order.
Proof.
  unfold delete_NAR. eapply leads_bind; [apply leads_wrapped, find_NAR_stage; done|].
  intros [nar|]; cbv beta iota.
  - eapply leads_bind; [apply (stage_part o (fun _ => True)); [done|repeat call_step]|].
    intros []. apply leads_ret. intros t. apply stage_in_order.
  - apply leads_ret. intros t (Ho & Hl & _ & Hg). by split_and!.
Qed.

Lemma delete_ClusterInstance_stage o :
  leads (stage o nar_gone) (delete_ClusterInstance env o)
    (when_gone o nar_gone (fun l => nar_gone l /\ instance_gone o l)) in_order.
Proof.
  unfold delete_ClusterInstance, instance_gone, when_gone. destruct (Cluster o) as [d|].
  2: { apply leads_ret. intros t (Ho & Hl & Hg). by split_and!. }
  eapply leads_bind; [by apply (stage_ask o nar_gone); [apply lasting_nar|apply in_turn_free]|].
  intros [e|deleting]; cbv beta iota.
  - destruct (IsNotFound e) eqn:En.
    + apply leads_ret. intros t [(Ho & Hl & Hg) Ha]. split_and!; try done.
      eapply answered_weaken; [|exact Ha]. by intros r ->.
    + apply leads_raise. intros t [Hs _]. by eapply stage_in_order.
  - apply (leads_bind _ _ _ (fun _ => stage o nar_gone)).
    2: { intros []. apply leads_ret. intros t. apply stage_in_order. }
    apply (leads_mono (stage o nar_gone) _ _ (fun _ => stage o nar_gone) _ in_order); [|by intros t []|done..].
    destruct deleting; [by apply leads_ret|].
    apply leads_wrapped, stage_trigger; [apply lasting_nar|done].
Qed.

Lemma delete_namespace_stage o ns :
  let G l := nar_gone l /\ instance_gone o l in
  leads (stage o G) (delete_namespace env ns) (fun _ => stage o G) in_order.
Proof.
  intros G. assert (lasting G) as HG by (apply lasting_and; auto with deletion). unfold delete_namespace.
  eapply leads_bind; [apply stage_part; [done|repeat call_step]|]. intros r. cbv beta. clear r.
  destruct (negb ns.2); [|by apply leads_ret].
  eapply leads_bind; [apply (stage_ask o G); done|]. intros [e|[]]; [destruct (IsNotFound e)|];
    [apply leads_ret|apply leads_raise|apply leads_ret]; intros t [Hs _]; [done|by eapply stage_in_order|done].
Qed.

(** ** All of a deletion *)

Lemma leads_for_each {A} (P : task -> Prop) (l : list A) (f : A -> prog unit) X :
  (forall x, leads P (f x) (fun _ => P) X) -> leads P (for_each l f) (fun _ => P) X.
Proof.
  intros Hf. induction l as [|x l IH]; cbn [for_each]; [by apply leads_ret|].
  eapply leads_bind; [apply Hf|]. by intros [].
Qed.

Lemma keeping_free e : keeping_event e -> free e.
Proof. destruct e as [o A c]. by destruct c. Qed.

(** Whatever keeps the dependents keeps the order. *)
Lemma in_order_part {A} T (m : prog A) :
  preserves (evolves T keeping_event) m -> leads in_order m (fun _ => in_order) in_order.
Proof.
  intros Hm. apply (leads_frame _ _ _ m Hm). intros t t' Hl [_ (es & He & Hes)]. unfold in_order. rewrite He.
  apply ordered_app; [done|]. eapply Forall_impl; [exact Hes|]. intros e (Hk & _). by apply keeping_free.
Qed.

(** When all is gone. *)
Definition all_gone (o : ProvisioningRequest) (l : list event) : Prop :=
  nar_gone l /\ instance_gone o l /\ namespaces_gone l.

Lemma lasting_all_gone o : lasting (all_gone o).
Proof.
  apply lasting_and; [apply lasting_nar|]. apply lasting_and; [apply lasting_instance|apply lasting_answered].
Qed.

Lemma namespaces_stage o :
  let G l := nar_gone l /\ instance_gone o l in
  leads (stage o G)
    (namespaces ← wrapped "failed to list namespaces" (trigger env ListNamespaces);
     _ ← for_each namespaces (delete_namespace env); mret (bool_decide (namespaces = [])))
    (when_gone o G (all_gone o)) in_order.
Proof.
  intros G. assert (lasting G) as HG by (apply lasting_and; auto with deletion).
  apply (leads_bind _ _ _ (fun r t => stage o G t /\ answered ListNamespaces (fun r' => r' = inr r) (log t))).
  - unfold wrapped. eapply leads_bind; [by apply (stage_ask o G)|].
    intros [e|r]; [|by apply leads_ret]. apply leads_raise. intros t [Hs _]. by eapply stage_in_order.
  - intros r. destruct r as [|ns r].
    + apply leads_ret. intros t [(Ho & Hl & Hg1 & Hg2) Ha]. by split_and!.
    + eapply leads_bind.
      * eapply (leads_mono (stage o G)); [by apply leads_for_each, delete_namespace_stage|by intros t []|done..].
      * intros u. apply leads_ret. intros t. apply stage_in_order.
Qed.
End knowledge.

Section deletion.
Context `{Laws : SubsystemLaws} (env : Env).

(** The dependents of the request in memory are gone. *)
Definition cleaned_up (complete : bool) (t : task) : Prop :=
  in_order env t /\ (complete = true -> all_gone env (object t) (log t)).

Lemma cleaned_up_not o G G' t : when_gone env o G G' false t -> cleaned_up false t.
Proof using. by split. Qed.

(** The next step, when a dependent is gone; it is not done else. *)
Lemma next_step o G G' (k : prog bool) gone :
  leads (stage env o G') k cleaned_up (in_order env) ->
  leads (when_gone env o G G' gone) (if negb gone then mret false else k) cleaned_up (in_order env).
Proof using. intros Hk. destruct gone; [exact Hk|]. apply leads_ret. intros t. apply cleaned_up_not. Qed.

Lemma delete_dependents_leads o :
  leads (stage env o (fun _ => True))
    (detached ← detach_cluster env o;
     if negb detached then mret false
     else
       gone ← delete_NAR env;
       if negb gone then mret false
       else
         gone ← delete_ClusterInstance env o;
         if negb gone then mret false
         else
           namespaces ← wrapped "failed to list namespaces" (trigger env ListNamespaces);
           _ ← for_each namespaces (delete_namespace env);
           mret (bool_decide (namespaces = []))) cleaned_up (in_order env).
Proof using.
  eapply leads_bind; [apply detach_stage|]. intros [|]; cbv beta iota.
  2: { apply leads_ret. intros t Hs%stage_in_order. by split. }
  eapply leads_bind; [apply delete_NAR_stage|intros gone; apply next_step].
  eapply leads_bind; [apply delete_ClusterInstance_stage|intros gone'; apply next_step].
  eapply leads_mono; [apply namespaces_stage|done| |done].
  intros [|] t Hs; [|by split]. destruct Hs as (<- & Hl & Hg). by split.
Qed.

Lemma handleProvisioningRequestDeletion_leads :
  leads (in_order env) (handleProvisioningRequestDeletion env) cleaned_up (in_order env).
Proof using Laws.
  pose proof (set_deleting_evolves env).
  unfold handleProvisioningRequestDeletion. eapply leads_bind; [apply (in_order_part env any_condition); walk|].
  intros o0. cbv beta. eapply leads_bind; [apply (in_order_part env any_condition); walk|]. intros u. cbv beta. clear u.
  eapply leads_bind; [apply (in_order_part env any_condition)|].
  { apply (preserves_weaken _ any_condition _ _ _ ltac:(done) routine_keeping_event resources_cleanup_law). }
  intros [|]; cbv beta iota; [|by apply leads_ret].
  apply leads_object. intros o. eapply leads_mono; [apply delete_dependents_leads|by intros t [Ho Hl]|done..].
Qed.

Lemma handleFinalizer_leads :
  leads (in_order env) (handleFinalizer env) (fun _ => in_order env) (in_order env).
Proof using Laws.
  unfold handleFinalizer. apply leads_object. intros o. destruct (negb (BeingDeleted o)).
  { eapply leads_mono; [apply (in_order_part env any_condition); destruct (HasFinalizer o); walk|by intros t []|done..]. }
  destruct (HasFinalizer o); [|by apply leads_ret; intros t []].
  eapply leads_bind.
  { eapply leads_mono; [apply handleProvisioningRequestDeletion_leads|by intros t []|intros c t Ht; exact Ht|done]. }
  intros [|]; cbv beta iota; [|by apply leads_ret; intros t []].
  apply (leads_bind _ _ _ (fun _ => cleaned_up true)); [by intros t Ht|]. intros u. cbv beta. clear u.
  apply leads_object. intros o'. apply (leads_bind _ _ _ (fun _ => in_order env)); [|by intros ?; apply leads_ret].
  apply leads_wrapped. eapply leads_mono; [apply (stage_trigger env o' (all_gone env o'))|..].
  - apply lasting_all_gone.
  - done.
  - intros t (<- & Hl & Hg). by split_and!; [..|apply Hg].
  - intros ? t. apply stage_in_order.
  - done.
Qed.

Lemma run_keeping : preserves (evolves everything keeping_event) (run env).
Proof using Laws.
  apply (preserves_weaken everything _ guarded); [done| |apply run_guarded]. intros [o A c]. by destruct c.
Qed.

Lemma Reconcile_in_order : leads (in_order env) (Reconcile env) (fun _ => in_order env) (in_order env).
Proof using Laws.
  unfold Reconcile. eapply leads_bind; [apply handleFinalizer_leads|]. intros [r|]; [by apply leads_ret|].
  apply (in_order_part env everything), run_keeping.
Qed.

Lemma from_object {A} R t (k : ProvisioningRequest -> prog A) :
  R t (k (object t) t).1 -> R t ((o ← get_object; k o) t).1.
Proof using. done. Qed.

(** A reconcile of a request that is not being deleted, or whose finalizer is gone. *)
Lemma keeps_dependents o :
  BeingDeleted o && HasFinalizer o = false ->
  evolves everything keeping_event (new_task o) (Reconcile env (new_task o)).1.
Proof using Laws.
  intros Hb. pose proof run_keeping. unfold Reconcile. apply from_bind; [|intros a; walk].
  unfold handleFinalizer. apply from_object. change (object (new_task o)) with o.
  destruct (BeingDeleted o) eqn:Eb, (HasFinalizer o) eqn:Ef; try discriminate; cbn [negb].
  all: match goal with |- ?R ?t (?m ?t).1 => enough (preserves R m) as Hm by apply Hm end.
  all: walk.
Qed.
End deletion.

(** ** Theorems *)

(** C4: The dependents of a request are deleted in order.  In every reconcile, whatever is
    answered and whichever calls fail: the ClusterInstance is deleted only after the
    NodeAllocationRequest was looked up and not found; a namespace is deleted only after
    the ClusterInstance was not found either; and the finalizer is removed, which lets the
    request go, only after that and a list of its namespaces that was empty. *)
Theorem deletion_in_order {subsystems : Subsystems} {laws : SubsystemLaws} env o l1 e l2 :
  log (Reconcile env (new_task o)).1 = l1 ++ e :: l2 -> in_turn env l1 e.
Proof.
  intros Hl. assert (in_order env (new_task o)) as Ho by (intros [] ? ?; discriminate).
  pose proof (Reconcile_in_order env (new_task o) Ho) as Hr. unfold wp in Hr.
  destruct (Reconcile env (new_task o)) as [t []]; by eapply Hr.
Qed.

(** C5: Dependents are deleted and the finalizer is removed only for a request that is
    being deleted and has the finalizer; any other reconcile keeps them all. *)
Theorem deletes_only_deleted {subsystems : Subsystems} {laws : SubsystemLaws} env o A o1 (c : call A) :
  Ev o1 c ∈ log (Reconcile env (new_task o)).1 -> ~ keeping c -> BeingDeleted o = true /\ HasFinalizer o = true.
Proof.
  intros Hin Hk. apply andb_true_iff. destruct (_ && _) eqn:Hb; [done|]. destruct Hk.
  destruct (keeps_dependents env o Hb) as [_ (es & Hl & Hes)].
  rewrite Hl in Hin. rewrite Forall_forall in Hes. apply (Hes _ Hin).
Qed.

(** ** Witnesses *)

Module Gone.
(** Everything is gone: the finalizer is removed. *)
Definition answer A (c : call A) (l : list event) : error + A :=
  match c with
  | GetNAR => inl (mkError false NotFound "not found")
  | ClusterInstanceDeleting _ => inl (mkError false NotFound "not found")
  | c => Demo.answer ConditionTrue ConditionTrue _ c l
  end.
Definition env : Env :=
  mkEnv answer (fun l => Second * Z.of_nat (length l)) (fun _ => None) (fun _ => true) "operator".
Definition request : ProvisioningRequest := Eval vm_compute in
  let o := Witness.last_update in
  mkPR (Name o) (UID o) (TemplateName o) (TemplateVersion o) (Generation o) (ObservedGeneration o) (SkipCleanup o) true true
    (Conditions o) (Phase o) (Details o) (UpdateTime o) (OCloudNodeClusterId o)
    (Cluster o) (AllocatedNodeHostMap o) (Policies o) (InfrastructureResourceStatuses o).
Definition deleted : task := (@Reconcile Demo.no_subsystems env (new_task request)).1.
(** The request when its finalizer is removed, and the calls before. *)
Definition final : ProvisioningRequest := default request (ev_object <$> last (log deleted)).
Definition before : list event := take 6 (log deleted).
End Gone.

Lemma deletion_in_order_witness :
  Cluster Gone.final <> None /\
  in_turn Gone.env Gone.before (Ev Gone.final (PatchRequest Gone.final)).
Proof.
  split; [by vm_compute|].
  apply (@deletion_in_order _ Demo.no_subsystems_laws Gone.env Gone.request Gone.before
           (Ev Gone.final (PatchRequest Gone.final)) []).
  vm_compute. reflexivity.
Defined.

Lemma deletes_only_deleted_witness :
  BeingDeleted Gone.request = true /\ HasFinalizer Gone.request = true.
Proof.
  apply (@deletes_only_deleted _ Demo.no_subsystems_laws Gone.env Gone.request unit Gone.final
           (PatchRequest Gone.final)).
  - apply (list_elem_of_lookup_2 _ 6). vm_compute. reflexivity.
  - intros H. exact H.
Defined.
